(* ===== verification/_CoqProject ===== *)
-Q . S2P
Prelude.v
CppLib.v
Double.v
Cron.v
SharedState.v
Thermal.v
Config.v
AlertEngine.v
Connection.v
Database.v
ProcessRunner.v
Scheduler.v
Runs.v
Sections.v
Locked.v
SchedulerSteps.v
SchedulerSpec.v
Occurrences.v
Restart.v
Consistency.v
Durability.v
Shutdown.v
Json.v
Api.v
Protocol.v
SocketServer.v
Cli.v
Metrics.v
Support.v
SleepMonitor.v
Daemon.v
SamplerLoop.v
StatusReads.v
Main.v
EndToEnd.v
TestCases.v
