(* ===== verification/Prelude.v ===== *)
(** * AgentPulse: verification development (root file)

    AgentPulse is a macOS background daemon ([agentpulsed], daemon/src/) that
    samples the machine, evaluates alert rules, runs scheduled shell commands
    and answers requests on a Unix socket, and its client ([apctl],
    cli/src/main.cpp).  This library models the daemon and the client as
    executable functions and step relations, and proves what makes them
    correct.  Paths below are relative to src/daemon/src/ unless they start
    with cli/.

    ** How the program fits together, and where each part is

    - main.cpp: [main] reads its arguments, starts everything up, installs
      the signal handlers and shuts down (Main); its sampler loop (SamplerLoop:
      the loop, its signals and hot reload; Daemon: one turn, start-up, the
      wiring of the API) reads the samplers (Metrics, Thermal), publishes into
      the shared snapshot (SharedState, shared_state.hpp), stores metrics
      (Database, db.cpp, over the connections of Connection), runs the alert
      engine (AlertEngine, alerts/alert_engine.cpp), delivers its events
      (store, publish, notify: Support, alerts/notifier.cpp) and reloads the
      configuration on SIGHUP (Config, config/config.cpp).
    - jobs/scheduler.cpp decides with cron schedules (Cron,
      schedule/cron.cpp) which jobs are due or were missed, and runs their
      commands through jobs/process_runner.cpp (ProcessRunner), recording runs
      and alerts in the database.  Scheduler has each operation on its state;
      Sections divides them into the sections they run under one lock at a
      time; Locked has those that read the workers' completion flags, read by
      read, with workers that store theirs in between; SchedulerSteps interleaves the loop, the workers, the thread that
      starts the scheduler and then serves the clients, the sleep monitor and
      the sampler, a step per section; Shutdown is [stop] with its joins; Runs,
      Occurrences, Restart, Consistency, Durability (the process killed at
      any moment) and SchedulerSpec hold what these are shown to do.
    - ipc/socket_server.cpp (SocketServer) reads one request line per
      connection, ipc/api.cpp (Api, over the values of Json; Protocol has the
      types of its responses) answers it from the snapshot, the database and
      the scheduler's handlers, and the client (Cli, cli/src/main.cpp) is the
      other end of the socket.  EndToEnd composes client, server, API,
      scheduler and database; StatusReads is a status request among the
      threads that write the snapshot.
    - power/sleep_monitor.cpp (SleepMonitor) wakes the scheduler after sleep;
      paths.cpp and log.cpp are in Support.
    - Prelude (this file), CppLib and Double hold what the components share:
      the outcome monad, machine integers, strings and number parsing as the
      C++ library does them, and binary64.

    ** How state and operations correspond to the code

    A C++ evaluation is an [outcome]: a value ([Ret]), an exception with its
    class and text ([Throw]), a call to [std::terminate] ([Terminate]), or
    undefined behaviour ([Undef], e.g. signed overflow or an out-of-range
    conversion).  Sequencing is stdpp's monadic bind at [outcome]; a
    [try]/[catch] is a match on the outcome.  An [int], [int64_t] or
    [uint64_t] is a [Z] with its bounds checked or its wrap-around written
    out; a [double] is a [spec_float] of precision 53; a [std::string] is a
    [string] of bytes; a [std::set<int>] or a map is a [gset] or [gmap]; a
    vector is a [list].  A class is a [Record] with its data members as
    fields ([Scheduler.Scheduler], [AlertEngine.AlertEngine],
    [SharedState.SharedState], [Tables] for the database file), and a method
    is a [Definition] with the method's name that takes the state and returns
    the next one.  Logging calls are left out: they change no state.

    What the code reads from outside is an argument: the readings of clocks
    and counters, the results of system calls (a script: one entry per call),
    the results of commands, and the way SQLite fails in a call ([fault]).
    Code that is not in the repository is a parameter: [localtime_r]
    ([localtime], a function from seconds to broken-down time, about which
    nothing is assumed unless a theorem says so), SQLite
    ([Database.Sqlite] with [SqliteLaws]: ordering of rows, fresh row ids),
    yaml-cpp ([Config.YamlApi]) and nlohmann::json's parser and printer
    ([Json.JsonApi] with [JsonLaws]).  Each class with laws has a concrete
    instance, and the witnesses use it.

    ** What the theorems show

    - Cron: [parse] accepts exactly defined fields and yields well-formed sets
      ([parse_field_defined]); a parsed schedule matches an instant exactly
      when cron's rule for its five fields holds ([parse_matches_rule]); a
      printer is inverted by [parse] ([parse_print_roundtrip]);
      [next_after] and [prev_before] return the least and the greatest
      matching minute of the horizon, and nothing exactly when there is none.
    - Scheduler: a missed run is found once, whatever the number of scans
      ([scan_missed_once]); the jobs added over the API agree with the
      database after every operation, and the constructor finds them again
      ([restart_spec]); what one turn
      launches ([due_jobs_fire_once]) and one worker does ([worker_retries],
      [worker_stops]) are the lemmas the next files build on.
    - Sections: the sections of an operation, run in a row, are the operation
      ([add_job_sections], [scan_missed_sections] and the like).
    - Locked: a reaping and a copy of the statuses, although they read one
      flag after the other while workers store theirs, do what they would do
      in one state ([reaps_spec], [copies_spec]); a choice does not, and what
      it defers and takes lies between its first and its last state
      ([picks_spec]).
    - SchedulerSteps: in every reachable state of the interleaving each job
      has at most one running worker ([at_most_one_run]).  The two ways in
      which the process can instead end by destroying a joinable thread are
      theorems too ([double_request_terminates], [request_race_terminates]).
    - SchedulerSpec: the interleaved threads refine an abstract scheduler of
      jobs, pending runs and runs in progress ([threads_refine_scheduler]).
    - Occurrences: over any execution every turn chooses to launch a
      configured job that does not run when its schedule had an occurrence
      since the turn before, and only then, and what is chosen is started,
      unless that ends the process ([turns_cover_occurrences]); a queued
      request stays until a turn chooses it ([requests_are_served]).
    - Restart: what is queued as missed after a restart is decided by the
      runs stored in the database ([restart_recovers_missed], for the scan on
      its own), and is chosen whatever the other threads do during the scan
      ([restart_recovers_concurrently]).  A wake-up recovers what the sleep
      missed in the very next turn that chooses ([wake_recovers_missed]).
    - Consistency: jobs in memory and definitions on disk agree between the
      calls of clients, and inside them up to what the call has still to do
      ([memory_disk_always_agree]), for names and texts without NUL
      ([nul_name_diverges]); the published job list is that of one
      state ([published_statuses_consistent]), which can be an older one than
      was published before ([stale_statuses_hide_job]).
    - Durability: over any number of lives on one database, each killed at
      any moment, no definition is lost or torn ([crash_restart_atomic]).
    - StatusReads: the five reads of a status request see at most
      neighbouring turns of the sampler ([status_spans_turns]).
    - Runs: the rows, the last run and the notification a worker leaves
      behind ([worker_leaves_history]).
    - Shutdown: [stop] returns, under every interleaving ([stop_returns]).
    - ProcessRunner: the result of a command on every branch (spawn failures,
      exit, signal, timeout), the captured text as a prefix of the output with
      the truncation flag exact, that the function returns, the window of
      the poll timeout, and the one way in which a timeout is lost.
    - AlertEngine: the encoded per-rule state machine implements a
      specification on the history of readings ([engine_refines_spec]);
      rules are independent; events only on transitions; quiet hours and the
      minimum interval only hold back notifications.
    - Config: what [load_config] returns is well formed, and which entries it
      keeps is exact.
    - Connection: a handle is closed exactly once however connections are
      moved ([handles_closed_once]).  Database: job definitions refine a
      finite map; runs round-trip; the recent-rows queries return the newest
      rows in order; metric queries.
    - SocketServer and Cli: a request and its response cross the socket
      unchanged however the transfers are split; what the client's exit
      status tells ([cli_exit_status]).
    - Api and Protocol: every response follows the protocol and has the type
      of its command ([responses_well_typed]); the JSON form and the bare
      form of a request mean the same; adding a job ends in the scheduler's
      state as described.
    - Daemon and SamplerLoop: a turn stores, publishes and evaluates the same
      values, and delivers every event to database, snapshot and notifier; a
      hot reload replaces the engine and nothing else; the loop ends on a
      stop signal and only then; sampling times.  Main: what the exit status
      of the daemon tells, whichever of the database connections start-up
      opens fails, and how a stop signal ends it, whenever it comes.
    - EndToEnd: a run asked for on the command line is answered, queued and
      chosen by a turn ([client_run_starts_job]); a job added there is on disk when
      the answer is sent and outlives any number of kills
      ([client_added_job_stays]).
    - Metrics, Support, SleepMonitor: the CPU percentage within bounds; the
      process list a sorted prefix; the notification script cannot be escaped
      from; every interleaving of the sleep monitor's start, stop and thread
      comes to rest ([monitor_terminates], [monitor_rests]), joined, or in one
      of two failures that end the daemon or hang it
      ([failed_registration_terminates], [early_stop_hangs]).

    ** Bounds and fuel

    - [Cron.search] runs over [kMaxMinutes] = 4 * 366 * 24 * 60 candidates, the
      bound of the code: "none" means none in that horizon.
    - [Cron.parse_field]'s range insertion recurses on the length of the
      (bounded) range; [parse_field_defined] shows it always gives a result.
    - [ProcessRunner.drain_loop] recurses on the script of poll results;
      [run_command_returns] shows that a script of the stated length always
      ends it, since every iteration consumes output, ends a stream or
      reaches the deadline.  [append_capped] keeps 64 KiB of each stream.
    - [Shutdown.stop_step] has no fuel: a lexicographic measure of the turn
      under way, its launches and the workers' events bounds every execution.
    - [SamplerLoop.sampler_loop] and [Cli.watch_loop] recurse on the list of
      iterations they are given; that the list ends is not a result (the
      former returns whether the loop has ended, the latter [Waiting]).
    - [Scheduler.attempt_loop] counts the retries + 1 attempts of the code's loop
      ([worker_retries] says what all of them do), and the budget of
      [worker_stops] is the number of readings of [active_] before it turns
      false.
    - [SocketServer.accept_loop], [read_line] and [write_all] recurse on their
      scripts; reaching the end of a script is a separate value (still
      waiting), not a result.

    ** What is not modelled

    - The menu-bar app (Swift), packaging; which lines are logged.  The unit
      tests of tests/test_main.cpp that do not read the machine are evaluated
      on the model in TestCases.
    - Reading the counters, IOKit, CFRunLoop, osascript, and sleeping: system
      I/O around the modelled functions, whose results are arguments.
    - Memory effects below the mutexes: a section under a mutex, and an access
      to an atomic, is one step.  The sections of the scheduler that read
      completion flags are divided further, as workers store these without
      the mutex; all that another thread can do else while a section runs
      touches nothing of what the section touches, and is taken to be done
      before or after it.  Joining a thread whose flag is set is part of
      the section before it.  Failure to create a thread is not considered.
      In Main the other threads appear through what [main] joins (the sleep
      monitor with its own interleaving); that they can end the process
      themselves is shown where they are modelled.
    - The limits of [time_t]: the times of cron searches are integers without
      bound.
    - Loss of power: a kill ends the process between two sections, and a
      statement SQLite has executed is on disk; what the file system loses of
      it afterwards is SQLite's.
    - The SIGPIPE that ends a client whose daemon closes the connection early.
    - The text format of JSON and YAML (parameters), and the order in which
      [std::partial_sort] leaves equivalent processes.
    - The [int] overflow of the back-off counter (attempt * 10), which takes
      more than 2 * 10^8 failed attempts of one run. *)

From stdpp Require Import base option list strings gmap.
From Stdlib Require Import ZArith Lia.

#[export] Set Warnings "-clear-no-such-hyp,-register-all".

Declare Scope cpp_scope.
Delimit Scope cpp_scope with cpp.

(** ** Exceptions and outcomes *)

(** The exception classes the daemon throws or catches, each with its
    [what()] text. *)
Inductive exn :=
| RuntimeError (what : string)      (* std::runtime_error *)
| DbError (what : string)           (* agentpulse::DbError *)
| YamlException (what : string)     (* YAML::Exception *)
| JsonException (what : string)     (* nlohmann::json::exception *)
| InvalidArgument (what : string)   (* std::invalid_argument *)
| OutOfRange (what : string).       (* std::out_of_range *)

Definition what (e : exn) : string :=
  match e with
  | RuntimeError w | DbError w | YamlException w | JsonException w
  | InvalidArgument w | OutOfRange w => w
  end.

(** What evaluating a C++ expression comes to: a value, an exception, a call
    to [std::terminate], or undefined behaviour. *)
Inductive outcome (A : Type) :=
| Ret (a : A)
| Throw (e : exn)
| Terminate
| Undef.
Arguments Ret {A} a.
Arguments Throw {A} e.
Arguments Terminate {A}.
Arguments Undef {A}.

#[export] Instance outcome_mret : MRet outcome := @Ret.
#[export] Instance outcome_mbind : MBind outcome := fun A B f m =>
  match m with
  | Ret a => f a
  | Throw e => Throw e
  | Terminate => Terminate
  | Undef => Undef
  end.
#[export] Instance outcome_fmap : FMap outcome := fun A B f m =>
  match m with
  | Ret a => Ret (f a)
  | Throw e => Throw e
  | Terminate => Terminate
  | Undef => Undef
  end.

(** The evaluation ends in a value. *)
Definition is_Ret {A} (m : outcome A) : Prop := exists a, m = Ret a.

(** [try m catch (...) h]. *)
Definition try_catch {A} (m : outcome A) (h : exn -> outcome A) : outcome A :=
  match m with
  | Throw e => h e
  | _ => m
  end.

(** [try m catch (const DbError& e) h]: other exceptions propagate. *)
Definition try_catch_db {A} (m : outcome A) (h : string -> outcome A)
    : outcome A :=
  match m with
  | Throw (DbError w) => h w
  | _ => m
  end.

(** Left fold of an effectful body over a container, as a range-for. *)
Fixpoint for_each {A S} (body : A -> S -> outcome S) (l : list A) (s : S)
    : outcome S :=
  match l with
  | [] => Ret s
  | x :: l' => s' ← body x s; for_each body l' s'
  end.

(** ** Machine integers *)

Definition int_min : Z := -2147483648.
Definition int_max : Z := 2147483647.
Definition int64_min : Z := -9223372036854775808.
Definition int64_max : Z := 9223372036854775807.
Definition in_int (z : Z) : bool := (int_min <=? z)%Z && (z <=? int_max)%Z.
Definition in_int64 (z : Z) : bool := (int64_min <=? z)%Z && (z <=? int64_max)%Z.

(** [static_cast<int>] of a wider integer (modular since C++20). *)
Definition wrap_int (z : Z) : Z := ((z + 2 ^ 31) mod 2 ^ 32 - 2 ^ 31)%Z.
Definition wrap_u64 (z : Z) : Z := (z mod 2 ^ 64)%Z.

(** Signed [int] addition: overflow is undefined behaviour. *)
Definition int_add (a b : Z) : outcome Z :=
  if in_int (a + b) then Ret (a + b)%Z else Undef.

(** Signed 64-bit subtraction. *)
Definition int64_sub (a b : Z) : outcome Z :=
  if in_int64 (a - b) then Ret (a - b)%Z else Undef.

(** ** Automation *)

Create HintDb cpp discriminated.
Create Rewrite HintDb cpp.

(** Turn boolean tests of the context into propositions and let [lia] finish. *)
Ltac bool_lia :=
  repeat match goal with
  | H : andb _ _ = true |- _ => apply andb_true_iff in H as [? ?]
  | H : andb _ _ = false |- _ => apply andb_false_iff in H as [?|?]
  | H : orb _ _ = true |- _ => apply orb_true_iff in H as [?|?]
  | H : orb _ _ = false |- _ => apply orb_false_iff in H as [? ?]
  | H : negb _ = true |- _ => apply negb_true_iff in H
  | H : negb _ = false |- _ => apply negb_false_iff in H
  end; lia.

(** Split an equation [m ≫= f = Ret b] into the two calls it sequences. *)
Lemma bind_Ret_inv {A B} (m : outcome A) (f : A -> outcome B) b :
  m ≫= f = Ret b -> exists a, m = Ret a /\ f a = Ret b.
Proof. destruct m; simpl; intros H; try discriminate. eauto. Qed.

Ltac inv_bind H :=
  let a := fresh "r" in let E := fresh "E" in
  apply bind_Ret_inv in H as (a & E & H).

(** Destruct the scrutinee of the match or conditional in the goal. *)
Ltac case_goal :=
  match goal with
  | |- context [match ?x with _ => _ end] => destruct x eqn:?
  end.

Lemma in_int_spec z : in_int z = true <-> (int_min <= z <= int_max)%Z.
Proof. unfold in_int. rewrite andb_true_iff. lia. Qed.

Lemma in_int64_spec z : in_int64 z = true <-> (int64_min <= z <= int64_max)%Z.
Proof. unfold in_int64. rewrite andb_true_iff. lia. Qed.

Lemma wrap_int_id z : in_int z = true -> wrap_int z = z.
Proof.
  rewrite in_int_spec. unfold int_min, int_max, wrap_int. intros H.
  rewrite Z.mod_small by lia. lia.
Qed.

Lemma wrap_int_range z : in_int (wrap_int z) = true.
Proof.
  apply in_int_spec. unfold int_min, int_max, wrap_int.
  pose proof (Z.mod_pos_bound (z + 2 ^ 31) (2 ^ 32) eq_refl). lia.
Qed.

Lemma wrap_u64_id z : (0 <= z < 2 ^ 64)%Z -> wrap_u64 z = z.
Proof. intros H. unfold wrap_u64. by rewrite Z.mod_small. Qed.

Lemma wrap_u64_range z : (0 <= wrap_u64 z < 2 ^ 64)%Z.
Proof. unfold wrap_u64. apply Z.mod_pos_bound. reflexivity. Qed.

Lemma int_add_Ret a b : in_int (a + b) = true -> int_add a b = Ret (a + b)%Z.
Proof. intros H. unfold int_add. by rewrite H. Qed.

Lemma int64_sub_Ret a b :
  in_int64 (a - b) = true -> int64_sub a b = Ret (a - b)%Z.
Proof. intros H. unfold int64_sub. by rewrite H. Qed.

Lemma for_each_app {A S} (body : A -> S -> outcome S) l1 l2 s :
  for_each body (l1 ++ l2) s = (for_each body l1 s ≫= for_each body l2).
Proof.
  revert s. induction l1 as [|x l1 IH]; intros s; [done|].
  simpl. destruct (body x s); simpl; auto.
Qed.

(** Rule of invariants for [for_each]. *)
Lemma for_each_invariant {A S} (I : S -> Prop) (body : A -> S -> outcome S) l s s' :
  (forall x s s', x ∈ l -> I s -> body x s = Ret s' -> I s') ->
  I s -> for_each body l s = Ret s' -> I s'.
Proof.
  revert s. induction l as [|x l IH]; simpl; intros s Hb Hs H.
  - by inversion H; subst.
  - inv_bind H. eapply IH; [| |exact H].
    + intros. eapply Hb; eauto. by apply list_elem_of_further.
    + eapply Hb; eauto. apply list_elem_of_here.
Qed.

Lemma filter_none {A} (p : A -> bool) l :
  (forall x, x ∈ l -> p x = false) -> List.filter p l = [].
Proof.
  induction l as [|x l IH]; intros H; [done|]. simpl.
  rewrite H by left. apply IH. intros y Hy. apply H. by right.
Qed.

#[export] Hint Resolve wrap_int_range wrap_u64_range : cpp.
#[export] Hint Rewrite @for_each_app : cpp.

Lemma filter_sublist {A} (p : A -> bool) l k :
  l `sublist_of` k -> List.filter p l `sublist_of` List.filter p k.
Proof.
  induction 1 as [|x l k _ IH|x l k _ IH]; cbn; [done|..]; destruct (p x); try done; by constructor.
Qed.
