(* ===== verification/CppLib.v ===== *)
(** * What the sources use of [std::string], string streams and number parsing

    [std::string] is Rocq's [string] (bytes), [std::set<int>] is [gset Z].
    The definitions here follow the C++ standard library in the "C" locale:
    they have no lines of src/ of their own, the components call them. *)

From stdpp Require Import base option list strings gmap.
From Stdlib Require Import Ascii ZArith Lia DecimalString DecimalPos DecimalZ.
From S2P Require Import Prelude.

Open Scope string_scope.
Open Scope list_scope.

#[global] Arguments String.append : simpl nomatch.

(** ** Characters and substrings *)

Definition nl : ascii := "010"%char.
Definition NL : string := String nl "".
Definition quote : ascii := "034"%char.

(** [std::isspace] in the "C" locale. *)
Definition is_space (c : ascii) : bool :=
  match c with
  | " "%char | "009"%char | "010"%char | "011"%char | "012"%char | "013"%char => true
  | _ => false
  end.

Definition digit_of (c : ascii) : option Z :=
  match c with
  | "0"%char => Some 0%Z | "1"%char => Some 1%Z | "2"%char => Some 2%Z
  | "3"%char => Some 3%Z | "4"%char => Some 4%Z | "5"%char => Some 5%Z
  | "6"%char => Some 6%Z | "7"%char => Some 7%Z | "8"%char => Some 8%Z
  | "9"%char => Some 9%Z
  | _ => None
  end.

Definition is_digit (c : ascii) : bool :=
  match digit_of c with Some _ => true | None => false end.

(** [s.find(c)]. *)
Fixpoint find_char (c : ascii) (s : string) : option nat :=
  match s with
  | "" => None
  | String x s' => if Ascii.eqb x c then Some 0 else S <$> find_char c s'
  end.

(** [s.substr(0, n)] and [s.substr(n)] for [n <= s.size()]. *)
Fixpoint str_take (n : nat) (s : string) : string :=
  match n, s with
  | S n', String x s' => String x (str_take n' s')
  | _, _ => ""
  end.

Fixpoint str_drop (n : nat) (s : string) : string :=
  match n, s with
  | S n', String _ s' => str_drop n' s'
  | _, _ => s
  end.

(** [s.substr(pos, len)]. *)
Definition substr (pos len : nat) (s : string) : string :=
  str_take len (str_drop pos s).

Definition str_empty (s : string) : bool :=
  match s with "" => true | _ => false end.

(** [s.c_str()] read back as a NUL-terminated string. *)
Fixpoint c_str (s : string) : string :=
  match s with
  | "" => ""
  | String x s' => if Ascii.eqb x "000"%char then "" else String x (c_str s')
  end.

Fixpoint all_chars (p : ascii -> bool) (s : string) : bool :=
  match s with
  | "" => true
  | String x s' => p x && all_chars p s'
  end.

(** Last index (below [len]) whose character satisfies [p], scanning the
    string once from the left; [i] is the index of the head. *)
Fixpoint find_last (p : ascii -> bool) (i : nat) (s : string) : option nat :=
  match s with
  | "" => None
  | String x s' =>
      match find_last p (S i) s' with
      | Some j => Some j
      | None => if p x then Some i else None
      end
  end.

(** ** Tokenising *)

(** Tokens of [s] separated by the characters satisfying [sep]; [cur] is the
    token being read.  With [keep_empty] an empty token before a separator is
    reported, as [std::getline] with a delimiter does; without it separators
    are skipped, as [operator>>] does.  In both, nothing is reported after the
    last separator unless at least one character follows it. *)
Fixpoint tokens (sep : ascii -> bool) (keep_empty : bool) (cur s : string)
    : list string :=
  match s with
  | "" => if str_empty cur then [] else [cur]
  | String c s' =>
      if sep c then
        if keep_empty || negb (str_empty cur)
        then cur :: tokens sep keep_empty "" s'
        else tokens sep keep_empty "" s'
      else tokens sep keep_empty (cur +:+ String c "") s'
  end.

(** [while (std::getline(ss, token, delim))]. *)
Definition getline_tokens (delim : ascii) (s : string) : list string :=
  tokens (fun c => Ascii.eqb c delim) true "" s.

(** [while (ss >> p)]. *)
Definition stream_words (s : string) : list string :=
  tokens is_space false "" s.

(** ** Numbers *)

Fixpoint skip_spaces (s : string) : string :=
  match s with
  | String c s' => if is_space c then skip_spaces s' else s
  | "" => ""
  end.

Fixpoint digits_value (acc : Z) (s : string) : Z :=
  match s with
  | String c s' =>
      match digit_of c with
      | Some d => digits_value (10 * acc + d) s'
      | None => acc
      end
  | "" => acc
  end.

Definition starts_with_digit (s : string) : bool :=
  match s with String c _ => is_digit c | "" => false end.

(** The number [strtol(s, _, 10)] reads, before any range check: optional
    white space, an optional sign and at least one digit; what follows the
    digits is ignored. *)
Definition read_decimal (s : string) : option Z :=
  let s := skip_spaces s in
  let '(neg, s) :=
    match s with
    | String "-" s' => (true, s')
    | String "+" s' => (false, s')
    | _ => (false, s)
    end in
  if starts_with_digit s
  then Some (if neg then - digits_value 0 s else digits_value 0 s)%Z
  else None.

(** [std::stoi]. *)
Definition stoi (s : string) : outcome Z :=
  match read_decimal s with
  | None => Throw (InvalidArgument "stoi: no conversion")
  | Some z => if in_int z then Ret z else Throw (OutOfRange "stoi: out of range")
  end.

(** [std::strtol(s.c_str(), nullptr, 10)] with a 64-bit [long]. *)
Definition strtol (s : string) : Z :=
  match read_decimal (c_str s) with
  | None => 0%Z
  | Some z => Z.max int64_min (Z.min int64_max z)
  end.

(** [std::atoi]: undefined when the value does not fit an [int]. *)
Definition atoi (s : string) : outcome Z :=
  match read_decimal (c_str s) with
  | None => Ret 0%Z
  | Some z => if in_int z then Ret z else Undef
  end.

(** [std::to_string] of an integer. *)
Definition to_string_Z (z : Z) : string := NilZero.string_of_int (Z.to_int z).

(** ** Lemmas *)

Lemma str_app_nil_r s : s +:+ "" = s.
Proof. induction s as [|c s IH]; [done|]. cbn. by rewrite IH. Qed.

Lemma str_app_assoc s1 s2 s3 : s1 +:+ (s2 +:+ s3) = (s1 +:+ s2) +:+ s3.
Proof. induction s1 as [|c s IH]; [done|]. cbn. by rewrite IH. Qed.

Lemma str_app_length s1 s2 :
  String.length (s1 +:+ s2) = String.length s1 + String.length s2.
Proof. induction s1 as [|c s IH]; [done|]. cbn. by rewrite IH. Qed.

Lemma str_take_length n s :
  String.length (str_take n s) = Nat.min n (String.length s).
Proof. revert s. induction n; intros [|c s]; cbn; auto. Qed.

Lemma str_take_drop n s : str_take n s +:+ str_drop n s = s.
Proof. revert s. induction n; intros [|c s]; cbn; auto. by rewrite IHn. Qed.

Lemma str_take_ge n s : String.length s <= n -> str_take n s = s.
Proof.
  revert s. induction n; intros [|c s]; cbn; intros; auto; try lia.
  by rewrite IHn by lia.
Qed.

Lemma str_take_app_le n s1 s2 :
  n <= String.length s1 -> str_take n (s1 +:+ s2) = str_take n s1.
Proof.
  revert s1. induction n; intros [|c s1]; cbn; intros; auto; try lia.
  by rewrite IHn by lia.
Qed.

Lemma str_take_app_ge n s1 s2 :
  String.length s1 <= n ->
  str_take n (s1 +:+ s2) = s1 +:+ str_take (n - String.length s1) s2.
Proof.
  revert s1. induction n; intros [|c s1]; cbn; intros; auto; try lia.
  by rewrite IHn by lia.
Qed.

Lemma all_chars_app p s1 s2 :
  all_chars p (s1 +:+ s2) = all_chars p s1 && all_chars p s2.
Proof. induction s1 as [|c s IH]; [done|]. cbn. by rewrite IH, andb_assoc. Qed.

Lemma all_chars_impl (p q : ascii -> bool) s :
  (forall c, p c = true -> q c = true) ->
  all_chars p s = true -> all_chars q s = true.
Proof.
  intros Hpq. induction s as [|c s IH]; cbn; [done|].
  rewrite !andb_true_iff. naive_solver.
Qed.

Lemma find_last_app p i s1 s2 :
  find_last p i (s1 +:+ s2) =
    match find_last p (i + String.length s1) s2 with
    | Some j => Some j
    | None => find_last p i s1
    end.
Proof.
  revert i. induction s1 as [|c s1 IH]; intros i; cbn.
  - rewrite Nat.add_0_r. by destruct (find_last p i s2).
  - fold (s1 +:+ s2). rewrite IH, Nat.add_succ_r. cbn.
    by destruct (find_last p (S (i + String.length s1)) s2).
Qed.

Lemma find_last_None p i s : all_chars (fun c => negb (p c)) s = true -> find_last p i s = None.
Proof.
  revert i. induction s as [|c s IH]; intros i; cbn; [done|].
  intros [Hc Hs]%andb_true_iff. rewrite IH by done. apply negb_true_iff in Hc. by rewrite Hc.
Qed.

Lemma find_char_None c s :
  find_char c s = None <-> all_chars (fun x => negb (Ascii.eqb x c)) s = true.
Proof.
  induction s as [|x s IH]; cbn; [done|].
  destruct (Ascii.eqb x c); cbn; [done|].
  rewrite <- IH. destruct (find_char c s); cbn; split; congruence.
Qed.

Lemma find_char_app_sep c s1 s2 :
  all_chars (fun x => negb (Ascii.eqb x c)) s1 = true ->
  find_char c (s1 +:+ String c s2) = Some (String.length s1).
Proof.
  induction s1 as [|x s IH]; cbn.
  - by rewrite Ascii.eqb_refl.
  - intros [H1 H2]%andb_true_iff. apply negb_true_iff in H1. rewrite H1.
    by rewrite IH.
Qed.

Lemma str_take_app_length s1 s2 : str_take (String.length s1) (s1 +:+ s2) = s1.
Proof. rewrite str_take_app_le, str_take_ge; auto. Qed.

Lemma str_drop_app_length s1 s2 : str_drop (String.length s1) (s1 +:+ s2) = s2.
Proof. by induction s1. Qed.

Lemma str_drop_app_length_S s1 c s2 :
  str_drop (S (String.length s1)) (s1 +:+ String c s2) = s2.
Proof. by induction s1. Qed.

(** *** Tokens of joined words *)

Definition no_sep (sep : ascii -> bool) (s : string) : bool :=
  all_chars (fun c => negb (sep c)) s.

Lemma tokens_word sep k cur w s :
  no_sep sep w = true ->
  tokens sep k cur (w +:+ s) = tokens sep k (cur +:+ w) s.
Proof.
  revert cur. induction w as [|c w IH]; intros cur; cbn.
  - by rewrite str_app_nil_r.
  - intros [H1 H2]%andb_true_iff. apply negb_true_iff in H1. rewrite H1.
    rewrite IH by done. by rewrite <- str_app_assoc.
Qed.

(** Words separated by one separator character. *)
Fixpoint join (c : ascii) (ws : list string) : string :=
  match ws with
  | [] => ""
  | [w] => w
  | w :: ws' => w +:+ String c (join c ws')
  end.

Lemma tokens_join sep k c ws :
  sep c = true ->
  Forall (fun w => no_sep sep w = true /\ w <> "") ws ->
  tokens sep k "" (join c ws) = ws.
Proof.
  intros Hc. induction 1 as [|w ws [Hw Hne] Hws IH]; [done|].
  destruct ws as [|w' ws].
  - cbn [join]. rewrite <- (str_app_nil_r w) at 1.
    rewrite tokens_word by done. cbn. by destruct w.
  - change (join c (w :: w' :: ws)) with (w +:+ String c (join c (w' :: ws))).
    rewrite tokens_word by done. cbn [String.append tokens]. rewrite Hc.
    replace (k || negb (str_empty w)) with true by (destruct k, w; done).
    by rewrite IH.
Qed.

(** *** Decimal round trip *)

Fixpoint uint_value (acc : Z) (d : Decimal.uint) : Z :=
  match d with
  | Decimal.Nil => acc
  | Decimal.D0 d => uint_value (10 * acc + 0) d
  | Decimal.D1 d => uint_value (10 * acc + 1) d
  | Decimal.D2 d => uint_value (10 * acc + 2) d
  | Decimal.D3 d => uint_value (10 * acc + 3) d
  | Decimal.D4 d => uint_value (10 * acc + 4) d
  | Decimal.D5 d => uint_value (10 * acc + 5) d
  | Decimal.D6 d => uint_value (10 * acc + 6) d
  | Decimal.D7 d => uint_value (10 * acc + 7) d
  | Decimal.D8 d => uint_value (10 * acc + 8) d
  | Decimal.D9 d => uint_value (10 * acc + 9) d
  end.

Lemma digits_value_uint d acc s :
  starts_with_digit s = false ->
  digits_value acc (NilEmpty.string_of_uint d +:+ s) = uint_value acc d.
Proof.
  intros Hs. revert acc. induction d; intros acc; cbn; auto.
  destruct s as [|c s]; cbn in *; [done|].
  unfold is_digit in Hs. by destruct (digit_of c).
Qed.

Lemma uint_value_acc d p :
  uint_value (Zpos p) d = Zpos (Pos.of_uint_acc d p).
Proof.
  revert p.
  induction d; intros p; cbn [uint_value Pos.of_uint_acc]; [done|..];
    rewrite <- IHd; f_equal; lia.
Qed.

Lemma uint_value_0 d : uint_value 0 d = Z.of_N (Pos.of_uint d).
Proof.
  induction d; cbn [uint_value Pos.of_uint]; [done|exact IHd|..];
    apply uint_value_acc.
Qed.

Lemma string_of_uint_digits d :
  all_chars is_digit (NilEmpty.string_of_uint d) = true.
Proof. induction d; cbn; auto. Qed.

Lemma to_string_nonneg z :
  (0 <= z)%Z ->
  exists d, to_string_Z z = NilEmpty.string_of_uint d /\
    uint_value 0 d = z /\ d <> Decimal.Nil.
Proof.
  intros Hz. unfold to_string_Z. destruct z as [|p|p]; [|clear Hz|lia].
  - by exists (Decimal.D0 Decimal.Nil).
  - exists (Pos.to_uint p). cbn [Z.to_int NilZero.string_of_int].
    pose proof (Unsigned.to_uint_nonzero p) as Hne.
    assert (Pos.to_uint p <> Decimal.Nil) as Hnil.
    { intros E. pose proof (DecimalPos.Unsigned.of_to p) as H.
      rewrite E in H. discriminate. }
    split; [by destruct (Pos.to_uint p)|]. split; [|done].
    rewrite uint_value_0, DecimalPos.Unsigned.of_to. done.
Qed.

Lemma to_string_digits z :
  (0 <= z)%Z ->
  all_chars is_digit (to_string_Z z) = true /\ to_string_Z z <> "".
Proof.
  intros (d & -> & _ & Hd)%to_string_nonneg. split.
  - apply string_of_uint_digits.
  - by destruct d.
Qed.

Lemma is_digit_not_space c : is_digit c = true -> is_space c = false.
Proof. by destruct c as [[] [] [] [] [] [] [] []]. Qed.

Lemma is_digit_not_sign c :
  is_digit c = true -> c <> "-"%char /\ c <> "+"%char.
Proof. intros H. split; intros ->; discriminate. Qed.

(** Reading back a printed non-negative number, whatever non-digit follows. *)
Lemma read_decimal_to_string z s :
  (0 <= z)%Z -> starts_with_digit s = false ->
  read_decimal (to_string_Z z +:+ s) = Some z.
Proof.
  intros Hz Hs. destruct (to_string_digits z Hz) as [Hall Hne].
  destruct (to_string_nonneg z Hz) as (d & E & V & _).
  unfold read_decimal. pose proof (digits_value_uint d 0 s Hs) as Hv.
  rewrite <- E in Hv.
  destruct (to_string_Z z) as [|c r] eqn:Er; [done|].
  cbn in Hall. apply andb_true_iff in Hall as [Hc _].
  cbn [String.append] in Hv. cbn [String.append skip_spaces].
  rewrite (is_digit_not_space c Hc).
  destruct (is_digit_not_sign c Hc) as [H1 H2].
  assert (starts_with_digit (String c (r +:+ s)) = true) as Hd by done.
  destruct c as [[] [] [] [] [] [] [] []]; try discriminate Hc;
    cbv beta iota; rewrite Hd, Hv, V; done.
Qed.

Lemma stoi_to_string z s :
  (0 <= z)%Z -> in_int z = true -> starts_with_digit s = false ->
  stoi (to_string_Z z +:+ s) = Ret z.
Proof.
  intros Hz Hi Hs. unfold stoi. by rewrite read_decimal_to_string, Hi.
Qed.

Lemma stoi_range s z : stoi s = Ret z -> in_int z = true.
Proof.
  unfold stoi. destruct (read_decimal s); [|done].
  destruct (in_int z0) eqn:E; naive_solver.
Qed.

Lemma strtol_range s : in_int64 (strtol s) = true.
Proof.
  apply in_int64_spec. unfold strtol, int64_min, int64_max.
  destruct (read_decimal (c_str s)); lia.
Qed.

#[export] Hint Resolve stoi_range strtol_range is_digit_not_space : cpp.

Lemma c_str_id s : all_chars (fun c => negb (Ascii.eqb c "000")) s = true -> c_str s = s.
Proof.
  induction s as [|c s IH]; [done|]. cbn. intros [Hc Hs]%andb_true_iff.
  apply negb_true_iff in Hc. rewrite Hc. by rewrite IH.
Qed.

Lemma c_str_digits s : all_chars is_digit s = true -> c_str s = s.
Proof.
  intros H. apply c_str_id. revert H. apply all_chars_impl. intros c Hc.
  destruct c as [[] [] [] [] [] [] [] []]; try discriminate Hc; reflexivity.
Qed.

Lemma strtol_to_string z : (0 <= z <= int64_max)%Z -> strtol (to_string_Z z) = z.
Proof.
  intros Hz. destruct (to_string_digits z ltac:(lia)) as [Hd _].
  unfold strtol. rewrite c_str_digits by done.
  rewrite <- (str_app_nil_r (to_string_Z z)).
  rewrite read_decimal_to_string by (done || lia). unfold int64_min, int64_max in *. lia.
Qed.

(** A word that [operator>>] reads whole. *)
Definition word (w : string) : Prop := no_sep is_space w = true /\ w <> "".

Lemma stream_words_join ws : Forall word ws -> stream_words (join " " ws) = ws.
Proof. intros H. by apply tokens_join. Qed.

Lemma digits_word z : (0 <= z)%Z -> word (to_string_Z z).
Proof.
  intros Hz. destruct (to_string_digits z Hz) as [Hd Hne]. split; [|done].
  revert Hd. apply all_chars_impl. intros c Hc. by rewrite is_digit_not_space.
Qed.

(** No newline character. *)
Definition one_line (s : string) : bool := all_chars (fun c => negb (Ascii.eqb nl c)) s.

Lemma one_line_find s : one_line s = true <-> find_char nl s = None.
Proof.
  rewrite find_char_None. unfold one_line.
  assert (forall p q, (forall x, p x = q x) -> all_chars p s = all_chars q s) as Hext.
  { intros p q H. induction s as [|c s IH]; [done|]. cbn. by rewrite H, IH. }
  by rewrite (Hext _ (fun x => negb (Ascii.eqb x nl)))
    by (intros x; by rewrite Ascii.eqb_sym).
Qed.

Lemma one_line_app s t : one_line (s +:+ t) = one_line s && one_line t.
Proof. apply all_chars_app. Qed.

Lemma find_char_app_l c s1 s2 i :
  find_char c s1 = Some i -> find_char c (s1 +:+ s2) = Some i /\ i < String.length s1.
Proof.
  revert i. induction s1 as [|x s1 IH]; intros i; cbn; [done|].
  destruct (Ascii.eqb x c); [intros [= <-]; split; [done|lia]|].
  destruct (find_char c s1) as [j|]; [|done]. intros [= <-].
  destruct (IH j eq_refl) as [E Hj]. fold (s1 +:+ s2). rewrite E. split; [done|lia].
Qed.

(** The text before the first newline. *)
Lemma find_line line rest :
  one_line line = true -> find_char nl (line +:+ NL +:+ rest) = Some (String.length line).
Proof.
  intros H%one_line_find%find_char_None. cbn [NL String.append].
  by apply find_char_app_sep.
Qed.
