(* ===== verification/Double.v ===== *)
(** * [double]: IEEE-754 binary64

    [double] is the kernel library's [spec_float] at precision 53 and maximal
    exponent 1024: comparisons, conversion from an integer, multiplication,
    division, and the two decimal formats the sources print with
    ([operator<<] at its default precision, and ["%.0f"]).  Like CppLib, these
    are the language's, with no lines of src/ of their own. *)

From stdpp Require Import base option list strings.
From Stdlib Require Import Ascii ZArith Lia SpecFloat.
From S2P Require Import Prelude CppLib.

Open Scope string_scope.
Open Scope list_scope.

Abbreviation double := spec_float.

#[export] Instance double_eq_dec : EqDecision double.
Proof. solve_decision. Defined.

Definition prec64 : Z := 53.
Definition emax64 : Z := 1024.

(** ** Arithmetic and comparisons *)

Definition dbl_zero : double := S754_zero false.

(** [static_cast<double>] of an integer, rounding to nearest even. *)
Definition dbl_of_Z (z : Z) : double := binary_normalize prec64 emax64 z 0 false.
Definition dbl_mul (x y : double) : double := SFmul prec64 emax64 x y.
Definition dbl_div (x y : double) : double := SFdiv prec64 emax64 x y.

Definition dbl_lt (x y : double) : bool := SFltb x y.
Definition dbl_le (x y : double) : bool := SFleb x y.
Definition dbl_gt (x y : double) : bool := SFltb y x.
Definition dbl_ge (x y : double) : bool := SFleb y x.
Definition dbl_eq (x y : double) : bool := SFeqb x y.

(** ** Decimal output *)

(** The absolute value of a finite number as a fraction. *)
Definition magnitude (m : positive) (e : Z) : Z * Z :=
  if (0 <=? e)%Z then (Zpos m * 2 ^ e, 1)%Z else (Zpos m, 2 ^ (- e))%Z.

Definition round_half_even (num den : Z) : Z :=
  let q := (num / den)%Z in
  let r := (num mod den)%Z in
  match (2 * r ?= den)%Z with
  | Lt => q
  | Gt => q + 1
  | Eq => if Z.even q then q else q + 1
  end%Z.

(** [v >= 10 ^ x] for [v = num / den]. *)
Definition ge_pow10 (num den x : Z) : bool :=
  if (0 <=? x)%Z then (10 ^ x * den <=? num)%Z else (den <=? num * 10 ^ (- x))%Z.

Fixpoint raise_exp (fuel : nat) (num den x : Z) : Z :=
  match fuel with
  | O => x
  | S fuel' =>
      if ge_pow10 num den (x + 1) then raise_exp fuel' num den (x + 1) else x
  end.

(** The decimal exponent [x] with [10^x <= v < 10^(x+1)], from a lower
    estimate that is at most four short. *)
Definition decimal_exponent (num den : Z) : Z :=
  let l := (Z.log2 num - Z.log2 den - 1)%Z in
  raise_exp 5 num den ((l * 1233) / 4096 - 1).

Definition scale10 (num den k : Z) : Z :=
  if (0 <=? k)%Z then round_half_even (num * 10 ^ k) den
  else round_half_even num (den * 10 ^ (- k)).

Fixpoint zeros (n : nat) : string :=
  match n with O => "" | S n' => String "0" (zeros n') end.

Definition pad_left (n : nat) (s : string) : string :=
  zeros (n - String.length s) +:+ s.

Fixpoint strip_zeros (s : string) : string :=
  match s with
  | "" => ""
  | String c s' =>
      match strip_zeros s' with
      | "" => if Ascii.eqb c "0" then "" else String c ""
      | r => String c r
      end
  end.

(** [int] and the digits of [frac] (of width [width]), trailing zeros and a
    bare point removed. *)
Definition with_fraction (int frac : Z) (width : nat) : string :=
  match strip_zeros (pad_left width (to_string_Z frac)) with
  | "" => to_string_Z int
  | f => to_string_Z int +:+ "." +:+ f
  end.

Definition exponent_text (x : Z) : string :=
  (if (x <? 0)%Z then "e-" else "e+") +:+ pad_left 2 (to_string_Z (Z.abs x)).

(** ["%g"] with six significant digits, of a positive fraction. *)
Definition format_positive (num den : Z) : string :=
  let x := decimal_exponent num den in
  let d := scale10 num den (5 - x) in
  let '(d, x) := if (d =? 1000000)%Z then (100000%Z, (x + 1)%Z) else (d, x) in
  if (-4 <=? x)%Z && (x <? 6)%Z then
    let p := (10 ^ (5 - x))%Z in
    with_fraction (d / p) (d mod p) (Z.to_nat (5 - x))
  else
    with_fraction (d / 100000) (d mod 100000) 5 +:+ exponent_text x.

Definition sign_text (s : bool) : string := if s then "-" else "".

(** [os << value]. *)
Definition format_double (x : double) : string :=
  match x with
  | S754_zero s => sign_text s +:+ "0"
  | S754_infinity s => sign_text s +:+ "inf"
  | S754_nan => "nan"
  | S754_finite s m e =>
      let '(num, den) := magnitude m e in
      sign_text s +:+ format_positive num den
  end.

(** [printf("%.0f", value)]. *)
Definition format_f0 (x : double) : string :=
  match x with
  | S754_zero s => sign_text s +:+ "0"
  | S754_infinity s => sign_text s +:+ "inf"
  | S754_nan => "nan"
  | S754_finite s m e =>
      let '(num, den) := magnitude m e in
      sign_text s +:+ to_string_Z (round_half_even num den)
  end.

(** A decimal constant [n / 10^k] of the sources. *)
Definition dbl_dec (n : Z) (k : Z) : double := dbl_div (dbl_of_Z n) (dbl_of_Z (10 ^ k)).

Example format_examples :
  (fun x => format_double x) <$>
    [dbl_of_Z 90; dbl_dec 964 1; dbl_of_Z 1234567; dbl_dec 1 5; dbl_dec 84 1;
     dbl_of_Z 0; dbl_div (dbl_of_Z 200) (dbl_of_Z 3); dbl_of_Z 9999995;
     dbl_dec 12345678 12] =
  ["90"; "96.4"; "1.23457e+06"; "1e-05"; "8.4"; "0"; "66.6667"; "1e+07";
   "1.23457e-05"].
Proof. vm_compute. reflexivity. Qed.

Example format_f0_examples :
  format_f0 <$> [dbl_dec 1842 1; dbl_dec 5 1; dbl_dec 15 1; dbl_of_Z 100] =
  ["184"; "0"; "2"; "100"].
Proof. vm_compute. reflexivity. Qed.

(** ** Comparison lemmas *)

Lemma dbl_le_of_lt x y : dbl_lt x y = true -> dbl_le x y = true.
Proof.
  unfold dbl_lt, dbl_le, SFltb, SFleb. by destruct (SFcompare x y) as [[]|].
Qed.

Lemma pos_compare_cont_Eq p q : Pos.compare_cont Eq p q = Pos.compare p q.
Proof. done. Qed.

Lemma dbl_compare_swap x y :
  SFcompare y x = CompOpp <$> SFcompare x y.
Proof.
  destruct x as [[]|[]| |[] m e], y as [[]|[]| |[] m' e']; cbn; try done.
  all: rewrite (Z.compare_antisym e e'), !pos_compare_cont_Eq;
    destruct (e ?= e')%Z; cbn; try done;
    rewrite (Pos.compare_antisym m m'); by rewrite ?CompOpp_involutive.
Qed.

(** Unless one of them is NaN, two doubles are comparable. *)
Lemma dbl_total x y :
  x <> S754_nan -> y <> S754_nan ->
  dbl_lt x y = negb (dbl_le y x).
Proof.
  intros Hx Hy. unfold dbl_lt, dbl_le, SFltb, SFleb.
  rewrite (dbl_compare_swap x y).
  assert (exists c, SFcompare x y = Some c) as [c ->].
  { destruct x as [[]|[]| |[] m e], y as [[]|[]| |[] m' e']; cbn; eauto; done. }
  by destruct c.
Qed.

Lemma dbl_lt_irrefl x : dbl_lt x x = false.
Proof.
  unfold dbl_lt, SFltb. destruct x as [[]|[]| |[] m e]; cbn; try done;
    rewrite Z.compare_refl, pos_compare_cont_Eq, Pos.compare_refl; done.
Qed.

#[export] Hint Resolve dbl_le_of_lt dbl_lt_irrefl : cpp.
