(* ===== verification/Cron.v ===== *)
(** * Cron schedules (daemon/src/schedule/cron.{hpp,cpp})

    [parse_field], [CronSchedule::parse], [matches], [next_after] and
    [prev_before], with the schedule's well-formedness invariant, the meaning
    of a field, a printer that [parse] inverts, and the characterisation of
    the two searches as least and greatest matching minutes. *)

From stdpp Require Import base option list strings gmap.
From Stdlib Require Import Ascii ZArith Lia.
From S2P Require Import Prelude CppLib.

Open Scope string_scope.
Open Scope list_scope.

(** ** Data *)

Record FieldRange := { lo : Z; hi : Z }.

(** The broken-down local time fields the code reads ([std::tm]). *)
Record tm := {
  tm_min : Z;
  tm_hour : Z;
  tm_mday : Z;   (* 1-31 *)
  tm_mon : Z;    (* 0-11 *)
  tm_wday : Z    (* 0-6, Sunday is 0 *)
}.

Record CronSchedule := {
  fields_ : list (gset Z);   (* minute, hour, day-of-month, month, day-of-week *)
  dom_wildcard_ : bool;
  dow_wildcard_ : bool
}.

#[export] Instance FieldRange_eq_dec : EqDecision FieldRange.
Proof. solve_decision. Defined.
#[export] Instance CronSchedule_eq_dec : EqDecision CronSchedule.
Proof. solve_decision. Defined.

(** ** Parsing one field *)

(** [try { stoi } catch (...) { return false; }]. *)
Definition try_stoi (s : string) : option Z :=
  match stoi s with Ret z => Some z | _ => None end.

(** The step suffix of a token: its base and its step. *)
Definition parse_step (token : string) : option (string * Z) :=
  match find_char "/" token with
  | None => Some (token, 1%Z)
  | Some slash =>
      step ← try_stoi (str_drop (S slash) token);
      if (step <=? 0)%Z then None else Some (str_take slash token, step)
  end.

(** The bounds a token's base denotes. *)
Definition parse_bounds (range : FieldRange) (base : string) : option (Z * Z) :=
  if String.eqb base "*" then Some (lo range, hi range)
  else match find_char "-" base with
       | Some dash =>
           l ← try_stoi (str_take dash base);
           h ← try_stoi (str_drop (S dash) base);
           Some (l, h)
       | None => v ← try_stoi base; Some (v, v)
       end.

(** [for (int v = lo; v <= hi; v += step) out.insert(v);].  The increment is a
    signed [int] addition.  The step is positive, so [hi - lo + 1] iterations
    are enough fuel ([insert_range_elem]). *)
Fixpoint insert_range (fuel : nat) (v hi step : Z) (out : gset Z)
    : outcome (gset Z) :=
  match fuel with
  | O => Ret out
  | S fuel' =>
      if (v <=? hi)%Z then
        v' ← int_add v step;
        insert_range fuel' v' hi step ({[ v ]} ∪ out)
      else Ret out
  end.

Definition range_fuel (l h : Z) : nat := Z.to_nat (h - l + 1).

(** One iteration of the token loop; [None] is [return false]. *)
Definition parse_token (range : FieldRange) (token : string) (out : gset Z)
    : outcome (option (gset Z)) :=
  if str_empty token then Ret None
  else match parse_step token with
       | None => Ret None
       | Some (base, step) =>
           match parse_bounds range base with
           | None => Ret None
           | Some (l, h) =>
               if (l <? lo range)%Z || (hi range <? h)%Z || (h <? l)%Z
               then Ret None
               else out' ← insert_range (range_fuel l h) l h step out;
                    Ret (Some out')
           end
       end.

Fixpoint parse_tokens (range : FieldRange) (ts : list string) (out : gset Z)
    : outcome (option (gset Z)) :=
  match ts with
  | [] => Ret (Some out)
  | token :: ts' =>
      r ← parse_token range token out;
      match r with
      | None => Ret None
      | Some out' => parse_tokens range ts' out'
      end
  end.

(** [parse_field]: the set of values and whether the field is ['*']; [None]
    is [return false]. *)
Definition parse_field (field : string) (range : FieldRange)
    : outcome (option (gset Z * bool)) :=
  let is_wildcard := String.eqb field "*" in
  r ← parse_tokens range (getline_tokens "," field) ∅;
  match r with
  | None => Ret None
  | Some out => Ret (if decide (out = ∅) then None else Some (out, is_wildcard))
  end.

(** ** Parsing an expression *)

Definition kRanges : list FieldRange :=
  [ {| lo := 0; hi := 59 |};
    {| lo := 0; hi := 23 |};
    {| lo := 1; hi := 31 |};
    {| lo := 1; hi := 12 |};
    {| lo := 0; hi := 7 |} ].

Definition empty_schedule : CronSchedule :=
  {| fields_ := replicate 5 ∅; dom_wildcard_ := true; dow_wildcard_ := true |}.

Definition field (s : CronSchedule) (i : nat) : gset Z := default ∅ (fields_ s !! i).

(** [for (int i = 0; i < 5; ++i)] over the parts and their ranges. *)
Fixpoint parse_fields (i : nat) (parts : list string) (ranges : list FieldRange)
    (sched : CronSchedule) : outcome (option CronSchedule) :=
  match parts, ranges with
  | part :: parts', range :: ranges' =>
      r ← parse_field part range;
      match r with
      | None => Ret None
      | Some (out, wildcard) =>
          parse_fields (S i) parts' ranges'
            {| fields_ := <[ i := out ]> (fields_ sched);
               dom_wildcard_ := if Nat.eqb i 2 then wildcard else dom_wildcard_ sched;
               dow_wildcard_ := if Nat.eqb i 4 then wildcard else dow_wildcard_ sched |}
      end
  | _, _ => Ret (Some sched)
  end.

(** Treat 7 as 0 so that [tm_wday] matches. *)
Definition normalize_sunday (s : CronSchedule) : CronSchedule :=
  if decide (7%Z ∈ field s 4) then
    {| fields_ := <[ 4 := {[ 0%Z ]} ∪ field s 4 ]> (fields_ s);
       dom_wildcard_ := dom_wildcard_ s;
       dow_wildcard_ := dow_wildcard_ s |}
  else s.

Definition parse (expr : string) : outcome (option CronSchedule) :=
  let parts := stream_words expr in
  if negb (Nat.eqb (length parts) 5) then Ret None
  else
    r ← parse_fields 0 parts kRanges empty_schedule;
    Ret (fmap (M:=option) normalize_sunday r).

(** ** Matching *)

Definition count (s : gset Z) (v : Z) : bool := bool_decide (v ∈ s).

Definition matches (s : CronSchedule) (t : tm) : bool :=
  if negb (count (field s 0) (tm_min t)) then false
  else if negb (count (field s 1) (tm_hour t)) then false
  else if negb (count (field s 3) (tm_mon t + 1)) then false
  else
    let dom_ok := count (field s 2) (tm_mday t) in
    let dow_ok := count (field s 4) (tm_wday t) in
    if dom_wildcard_ s && dow_wildcard_ s then true
    else if dom_wildcard_ s then dow_ok
    else if dow_wildcard_ s then dom_ok
    else dom_ok || dow_ok.

(** ** Searching *)

Definition kMaxMinutes : Z := 4 * 366 * 24 * 60.

(** The search loop: [n] candidates [t], [t + dt], ... *)
Fixpoint search (f : Z -> bool) (dt : Z) (n : nat) (t : Z) : option Z :=
  match n with
  | O => None
  | S n' => if f t then Some t else search f dt n' (t + dt)%Z
  end.

Section Localtime.
(** [localtime_r]: the host's time zone database. *)
Context (localtime : Z -> tm).

Definition matches_at (s : CronSchedule) (t : Z) : bool := matches s (localtime t).

Definition next_after (s : CronSchedule) (after : Z) : option Z :=
  let t := (after - Z.rem after 60 + 60)%Z in
  search (matches_at s) 60 (Z.to_nat kMaxMinutes) t.

Definition prev_before (s : CronSchedule) (at_ : Z) : option Z :=
  let t := (at_ - Z.rem at_ 60)%Z in
  search (matches_at s) (-60) (Z.to_nat kMaxMinutes) t.
End Localtime.

Example parse_daily :
  (parse "0 8 * * *" ≫= fun r => Ret (bool_decide (is_Some r))) = Ret true.
Proof. vm_compute. reflexivity. Qed.

Example parse_nonsense : parse "nonsense" = Ret None.
Proof. vm_compute. reflexivity. Qed.

Example parse_four : parse "0 8 * *" = Ret None.
Proof. vm_compute. reflexivity. Qed.

(** ** The range loop *)

Lemma insert_range_elem fuel l h step out r :
  (0 < step)%Z -> (h - l < Z.of_nat fuel)%Z ->
  insert_range fuel l h step out = Ret r ->
  forall v, v ∈ r <-> v ∈ out \/ (l <= v <= h /\ (step | v - l))%Z.
Proof.
  intros Hs. revert l out. induction fuel as [|fuel IH]; intros l out Hf H v.
  - cbn in H. inversion H; subst. split; [by left|]. intros [?|[? _]]; [done|lia].
  - cbn in H. destruct (l <=? h)%Z eqn:E.
    + inv_bind H. unfold int_add in E0. case_match; [|done].
      inversion E0; subst r0. rewrite (IH (l + step)%Z ({[ l ]} ∪ out)) by (done || lia).
      rewrite elem_of_union, elem_of_singleton. split.
      * intros [[->|?]|[? [k Hk]]]; [right|by left|right].
        -- split; [lia|]. exists 0%Z. lia.
        -- split; [lia|]. exists (k + 1)%Z. lia.
      * intros [?|[? [k Hk]]]; [by left; right|].
        destruct (decide (v = l)) as [->|]; [by left; left|right].
        assert (0 < k)%Z by nia.
        split; [nia|]. exists (k - 1)%Z. lia.
    + inversion H; subst. split; [by left|]. intros [?|[? _]]; [done|lia].
Qed.

Lemma insert_range_total fuel l h step out :
  (int_min <= l + step)%Z -> (0 < step)%Z -> (h + step <= int_max)%Z ->
  exists r, insert_range fuel l h step out = Ret r.
Proof.
  intros Hl Hs Hb. revert l out Hl.
  induction fuel as [|fuel IH]; intros l out Hl; cbn; [eauto|].
  destruct (l <=? h)%Z eqn:E; [|eauto].
  rewrite int_add_Ret by (apply in_int_spec; lia). cbn.
  apply IH. lia.
Qed.

Lemma insert_range_not_throw fuel l h step out e :
  insert_range fuel l h step out <> Throw e.
Proof.
  revert l out. induction fuel as [|fuel IH]; intros l out; cbn; [done|].
  destruct (l <=? h)%Z; [|done]. unfold int_add.
  destruct (in_int (l + step)); cbn; [apply IH|done].
Qed.

(** ** The meaning of a token *)

Definition token_denotes (range : FieldRange) (token : string) (v : Z) : Prop :=
  exists base step l h,
    parse_step token = Some (base, step) /\
    parse_bounds range base = Some (l, h) /\
    (l <= v <= h)%Z /\ (step | v - l)%Z.

Lemma parse_step_pos token base step :
  parse_step token = Some (base, step) -> (0 < step)%Z.
Proof.
  unfold parse_step. destruct (find_char _ _).
  - destruct (try_stoi _); cbn; [|done]. case_match; [done|].
    intros [=]; subst; lia.
  - intros [=]; subst; lia.
Qed.

(** A token that is accepted: its step and bounds parse, the bounds are in
    range, and the loop collected exactly what the token denotes. *)
Lemma parse_token_Some range token out r :
  parse_token range token out = Ret (Some r) ->
  (exists base step l h,
     parse_step token = Some (base, step) /\
     parse_bounds range base = Some (l, h) /\
     lo range <= l <= h /\ h <= hi range)%Z /\
  (forall v, v ∈ r <-> v ∈ out \/ token_denotes range token v).
Proof.
  unfold parse_token. destruct (str_empty token); [done|].
  destruct (parse_step token) as [[base step]|] eqn:Es; [|done].
  destruct (parse_bounds range base) as [[l h]|] eqn:Eb; [|done].
  case_match eqn:Ec; [done|]. intros H. inv_bind H. inversion H; subst r0.
  apply orb_false_iff in Ec as [[? ?]%orb_false_iff ?].
  assert (0 < step)%Z by eauto using parse_step_pos.
  split; [exists base, step, l, h; repeat split; auto; lia|].
  assert (h - l < Z.of_nat (range_fuel l h))%Z as Hfuel by (unfold range_fuel; lia).
  intros v. rewrite (insert_range_elem _ _ _ _ _ _ ltac:(done) Hfuel E).
  unfold token_denotes. split.
  - intros [?|[? ?]]; [by left|right]. exists base, step, l, h. auto.
  - intros [?|(b & s & l' & h' & E1 & E2 & ? & ?)]; [by left|right].
    simplify_eq. auto.
Qed.

Lemma parse_tokens_Some range ts out r :
  parse_tokens range ts out = Ret (Some r) ->
  (forall v, v ∈ r <->
     v ∈ out \/ exists token, token ∈ ts /\ token_denotes range token v) /\
  (forall token v, token ∈ ts -> token_denotes range token v ->
     lo range <= v <= hi range)%Z.
Proof.
  revert out. induction ts as [|token ts IH]; intros out; cbn; intros H.
  - inversion H; subst. split.
    + intros v. split; [by left|]. intros [?|(t & Ht & _)]; [done|].
      by apply not_elem_of_nil in Ht.
    + by intros ? ? ?%not_elem_of_nil.
  - inv_bind H. destruct r0 as [out'|]; [|done].
    apply parse_token_Some in E as [(b & s & l & h & Hs & Hb & ? & ?) E].
    apply IH in H as [H Hr]. split.
    + intros v. rewrite H, E. setoid_rewrite elem_of_cons. naive_solver.
    + intros t v [->|Ht]%elem_of_cons Hd; [|eauto].
      destruct Hd as (b' & s' & l' & h' & E1 & E2 & ? & ?).
      simplify_eq. lia.
Qed.

Lemma parse_field_Some f range out w :
  parse_field f range = Ret (Some (out, w)) ->
  out <> ∅ /\ w = String.eqb f "*" /\
  (forall v, v ∈ out <->
     exists token, token ∈ getline_tokens "," f /\ token_denotes range token v) /\
  (forall v, v ∈ out -> lo range <= v <= hi range)%Z.
Proof.
  unfold parse_field. intros H. inv_bind H. destruct r as [o|]; [|done].
  case_decide; [done|]. inversion H; subst.
  apply parse_tokens_Some in E as [E Hr].
  assert (forall v, v ∈ out <-> exists token,
    token ∈ getline_tokens "," f /\ token_denotes range token v) as Hd.
  { intros v. rewrite E. set_solver. }
  split_and!; auto. intros v (t & Ht & Hv)%Hd. by eapply Hr.
Qed.

(** A field that is exactly ['*'] denotes its whole range. *)
Lemma parse_field_star range out w :
  parse_field "*" range = Ret (Some (out, w)) ->
  forall v, v ∈ out <-> (lo range <= v <= hi range)%Z.
Proof.
  intros H v. apply parse_field_Some in H as (_ & _ & E & Hr).
  split; [apply Hr|]. intros Hv. apply E. exists "*". split; [by left|].
  exists "*", 1%Z, (lo range), (hi range). split_and!; auto; try lia.
  apply Z.divide_1_l.
Qed.

(** ** Well-formed schedules *)

(** A non-empty set within the range, all of it when the field is ['*']. *)
Record field_wf (range : FieldRange) (wildcard : bool) (f : gset Z) : Prop := {
  field_nonempty : f <> ∅;
  field_range : forall v, v ∈ f -> (lo range <= v <= hi range)%Z;
  field_full : wildcard = true -> forall v, (lo range <= v <= hi range)%Z -> v ∈ f
}.

Definition range_of (i : nat) : FieldRange :=
  default {| lo := 0; hi := 0 |} (kRanges !! i).

Record cron_wf (s : CronSchedule) : Prop := {
  wf_length : length (fields_ s) = 5;
  wf_minute : field_wf (range_of 0) false (field s 0);
  wf_hour : field_wf (range_of 1) false (field s 1);
  wf_dom : field_wf (range_of 2) (dom_wildcard_ s) (field s 2);
  wf_month : field_wf (range_of 3) false (field s 3);
  wf_dow : field_wf (range_of 4) (dow_wildcard_ s) (field s 4);
  wf_sunday : 7%Z ∈ field s 4 -> 0%Z ∈ field s 4
}.

Lemma parse_field_wf f range out w :
  parse_field f range = Ret (Some (out, w)) -> field_wf range w out.
Proof.
  intros H. pose proof (parse_field_Some _ _ _ _ H) as (Hne & -> & _ & Hr).
  split; auto. intros ->%String.eqb_eq v Hv.
  by apply (parse_field_star _ _ _ H).
Qed.

Lemma field_wf_false range w f : field_wf range w f -> field_wf range false f.
Proof. by intros [? ? ?]; split. Qed.

(** What an accepted expression went through. *)
Lemma parse_Some_inv e s :
  parse e = Ret (Some s) ->
  exists p0 p1 p2 p3 p4 f0 f1 f2 f3 f4 w0 w1 w2 w3 w4,
    stream_words e = [p0; p1; p2; p3; p4] /\
    parse_field p0 (range_of 0) = Ret (Some (f0, w0)) /\
    parse_field p1 (range_of 1) = Ret (Some (f1, w1)) /\
    parse_field p2 (range_of 2) = Ret (Some (f2, w2)) /\
    parse_field p3 (range_of 3) = Ret (Some (f3, w3)) /\
    parse_field p4 (range_of 4) = Ret (Some (f4, w4)) /\
    s = normalize_sunday {| fields_ := [f0; f1; f2; f3; f4];
                            dom_wildcard_ := w2; dow_wildcard_ := w4 |}.
Proof.
  unfold parse. destruct (negb _) eqn:En; [done|].
  apply negb_false_iff, Nat.eqb_eq in En.
  destruct (stream_words e) as [|p0 [|p1 [|p2 [|p3 [|p4 [|? ?]]]]]]; try done.
  intros H. inv_bind H. destruct r as [s'|]; [|done]. injection H as <-.
  cbn [parse_fields kRanges] in E.
  inv_bind E. destruct r as [[f0 w0]|]; [|done].
  inv_bind E. destruct r as [[f1 w1]|]; [|done].
  inv_bind E. destruct r as [[f2 w2]|]; [|done].
  inv_bind E. destruct r as [[f3 w3]|]; [|done].
  inv_bind E. destruct r as [[f4 w4]|]; [|done].
  injection E as <-.
  exists p0, p1, p2, p3, p4, f0, f1, f2, f3, f4, w0, w1, w2, w3, w4.
  split_and!; done.
Qed.

Lemma normalize_sunday_wf f0 f1 f2 f3 f4 w2 w4 :
  field_wf (range_of 0) false f0 -> field_wf (range_of 1) false f1 ->
  field_wf (range_of 2) w2 f2 -> field_wf (range_of 3) false f3 ->
  field_wf (range_of 4) w4 f4 ->
  cron_wf (normalize_sunday {| fields_ := [f0; f1; f2; f3; f4];
                               dom_wildcard_ := w2; dow_wildcard_ := w4 |}).
Proof.
  intros H0 H1 H2 H3 H4. unfold normalize_sunday. case_decide as Hd.
  - split; cbn; auto; [|set_solver].
    destruct H4 as [? Hr Hf]. split; [set_solver| |set_solver].
    intros v [->%elem_of_singleton|Hv]%elem_of_union; [cbn; lia|by apply Hr].
  - split; cbn; auto. done.
Qed.

Lemma parse_cron_wf e s : parse e = Ret (Some s) -> cron_wf s.
Proof.
  intros (p0 & p1 & p2 & p3 & p4 & f0 & f1 & f2 & f3 & f4 & w0 & w1 & w2 & w3 &
    w4 & _ & H0 & H1 & H2 & H3 & H4 & ->)%parse_Some_inv.
  apply normalize_sunday_wf; eauto using parse_field_wf, field_wf_false.
Qed.

(** ** The standard cron rule *)

Record valid_tm (t : tm) : Prop := {
  valid_min : (0 <= tm_min t <= 59)%Z;
  valid_hour : (0 <= tm_hour t <= 23)%Z;
  valid_mday : (1 <= tm_mday t <= 31)%Z;
  valid_mon : (0 <= tm_mon t <= 11)%Z;
  valid_wday : (0 <= tm_wday t <= 6)%Z
}.

Definition day_rule (s : CronSchedule) (t : tm) : Prop :=
  if dom_wildcard_ s || dow_wildcard_ s
  then tm_mday t ∈ field s 2 /\ tm_wday t ∈ field s 4
  else tm_mday t ∈ field s 2 \/ tm_wday t ∈ field s 4.

Lemma matches_rule s t :
  cron_wf s -> valid_tm t ->
  matches s t = true <->
  (tm_min t ∈ field s 0 /\ tm_hour t ∈ field s 1 /\
   (tm_mon t + 1)%Z ∈ field s 3 /\ day_rule s t).
Proof.
  intros [_ _ _ [_ _ Hdom] _ [_ _ Hdow] _] [_ _ Hmd _ Hwd].
  unfold matches, day_rule, count.
  destruct (dom_wildcard_ s), (dow_wildcard_ s);
    try (specialize (Hdom eq_refl (tm_mday t) ltac:(cbn; lia)));
    try (specialize (Hdow eq_refl (tm_wday t) ltac:(cbn; lia)));
    repeat (case_bool_decide; cbn); intuition congruence.
Qed.

(** ** Printing a schedule *)

(** The canonical text of a field: ['*'], or its values as a comma list. *)
Definition print_field (wildcard : bool) (f : gset Z) : string :=
  if wildcard then "*" else join "," (to_string_Z <$> elements f).

Definition print_schedule (s : CronSchedule) : string :=
  join " " [ print_field false (field s 0); print_field false (field s 1);
             print_field (dom_wildcard_ s) (field s 2);
             print_field false (field s 3);
             print_field (dow_wildcard_ s) (field s 4) ].

Definition small_range (r : FieldRange) : Prop := (0 <= lo r /\ hi r <= 1000)%Z.

Lemma small_in_int v : (0 <= v <= 1000)%Z -> in_int v = true.
Proof. intros. apply in_int_spec. unfold int_min, int_max. lia. Qed.

Lemma digits_no_char c s :
  is_digit c = false -> all_chars is_digit s = true ->
  all_chars (fun x => negb (Ascii.eqb x c)) s = true.
Proof.
  intros Hc. apply all_chars_impl. intros x Hx.
  destruct (Ascii.eqb_spec x c); [congruence|done].
Qed.

Lemma try_stoi_number v : (0 <= v <= 1000)%Z -> try_stoi (to_string_Z v) = Some v.
Proof.
  intros Hv. unfold try_stoi. rewrite <- (str_app_nil_r (to_string_Z v)).
  by rewrite stoi_to_string by (auto using small_in_int; lia).
Qed.

Lemma parse_token_number r v out :
  small_range r -> (lo r <= v <= hi r)%Z ->
  parse_token r (to_string_Z v) out = Ret (Some ({[ v ]} ∪ out)).
Proof.
  intros [? ?] ?. destruct (to_string_digits v) as [Hd Hne]; [lia|].
  assert (find_char "/" (to_string_Z v) = None) as Hslash
    by (by apply find_char_None, digits_no_char).
  assert (find_char "-" (to_string_Z v) = None) as Hdash
    by (by apply find_char_None, digits_no_char).
  assert (String.eqb (to_string_Z v) "*" = false) as Hstar.
  { apply String.eqb_neq. intros E. by rewrite E in Hd. }
  unfold parse_token, parse_step, parse_bounds. rewrite Hslash, Hstar, Hdash.
  rewrite try_stoi_number by lia. cbn -[insert_range].
  replace (str_empty (to_string_Z v)) with false by (by destruct (to_string_Z v)).
  replace ((v <? lo r) || (hi r <? v) || (v <? v))%Z with false by lia.
  unfold range_fuel. replace (v - v + 1)%Z with 1%Z by lia.
  change (Z.to_nat 1) with 1. cbn [insert_range].
  rewrite Z.leb_refl, int_add_Ret
    by (apply in_int_spec; unfold int_min, int_max; lia). done.
Qed.

Lemma parse_tokens_numbers r l out :
  small_range r -> Forall (fun v => lo r <= v <= hi r)%Z l ->
  parse_tokens r (to_string_Z <$> l) out = Ret (Some (list_to_set l ∪ out)).
Proof.
  intros Hr H. revert out. induction H as [|v l Hv _ IH]; intros out.
  - cbn. do 2 f_equal. set_solver.
  - cbn [fmap list_fmap parse_tokens]. rewrite parse_token_number by done.
    cbn [mbind outcome_mbind]. rewrite IH. do 2 f_equal. set_solver.
Qed.

Lemma elements_join_tokens r (f : gset Z) :
  small_range r -> (forall v, v ∈ f -> lo r <= v <= hi r)%Z ->
  getline_tokens "," (join "," (to_string_Z <$> elements f)) =
  to_string_Z <$> elements f.
Proof.
  intros [? ?] Hf. apply tokens_join; [done|]. apply Forall_fmap, Forall_forall.
  intros v Hv%elem_of_elements%Hf. cbn.
  destruct (to_string_digits v) as [Hd Hne]; [lia|].
  split; [|done]. by apply digits_no_char.
Qed.

Lemma join_digits l :
  Forall (fun v => 0 <= v)%Z l ->
  all_chars (fun c => is_digit c || Ascii.eqb c ",") (join "," (to_string_Z <$> l))
  = true.
Proof.
  assert (forall v, (0 <= v)%Z ->
    all_chars (fun c => is_digit c || Ascii.eqb c ",") (to_string_Z v) = true) as Hd.
  { intros v [Hd _]%to_string_digits. revert Hd. apply all_chars_impl.
    intros c Hc. by rewrite Hc. }
  induction 1 as [|v l Hv Hl IH]; [done|].
  destruct l as [|v' l]; [by apply Hd|].
  change (to_string_Z <$> v :: v' :: l)
    with (to_string_Z v :: (to_string_Z <$> v' :: l)).
  change (join "," (to_string_Z v :: (to_string_Z <$> v' :: l)))
    with (to_string_Z v +:+ String "," (join "," (to_string_Z <$> v' :: l))).
  rewrite all_chars_app, Hd by done. cbn. exact IH.
Qed.

Lemma parse_field_print_list r f :
  small_range r -> field_wf r false f ->
  parse_field (print_field false f) r = Ret (Some (f, false)).
Proof.
  intros Hr [Hne Hrange _]. unfold parse_field, print_field.
  rewrite (elements_join_tokens r) by done.
  assert (Forall (fun v => lo r <= v <= hi r)%Z (elements f)) as Hall.
  { apply Forall_forall. intros v Hv%elem_of_elements. auto. }
  rewrite parse_tokens_numbers by done. cbn.
  assert (String.eqb (join "," (to_string_Z <$> elements f)) "*" = false) as ->.
  { apply String.eqb_neq. intros E. destruct Hr.
    assert (Forall (fun v => 0 <= v)%Z (elements f)) as Hpos
      by (eapply Forall_impl; [exact Hall|]; cbn; intros; lia).
    apply join_digits in Hpos. by rewrite E in Hpos. }
  replace (list_to_set (elements f) ∪ ∅ : gset Z) with f by set_solver.
  by rewrite decide_False.
Qed.

Lemma parse_field_print_star r f :
  small_range r -> field_wf r true f ->
  parse_field (print_field true f) r = Ret (Some (f, true)).
Proof.
  intros [? ?] [Hne Hrange Hfull]. specialize (Hfull eq_refl).
  destruct (set_choose_L f Hne) as [v0 Hv0%Hrange].
  destruct (insert_range_total (range_fuel (lo r) (hi r)) (lo r) (hi r) 1 ∅) as [o Ho];
    [unfold int_min, int_max; lia..|].
  assert (o = f) as ->.
  { apply set_eq. intros v.
    rewrite (insert_range_elem (range_fuel (lo r) (hi r)) (lo r) (hi r) 1 ∅ o ltac:(lia)
      ltac:(unfold range_fuel; lia) Ho).
    split; [intros [?|[? _]]; [set_solver|auto]|].
    intros Hv. right. split; [auto|apply Z.divide_1_l]. }
  unfold parse_field, print_field. cbn [getline_tokens tokens].
  replace (getline_tokens "," "*") with ["*"] by done.
  cbn [parse_tokens]. unfold parse_token. cbn.
  replace ((lo r <? lo r) || (hi r <? hi r) || (hi r <? lo r))%Z with false by lia.
  rewrite Ho. cbn. by rewrite decide_False.
Qed.

Lemma parse_field_print r w f :
  small_range r -> field_wf r w f ->
  parse_field (print_field w f) r = Ret (Some (f, w)).
Proof.
  destruct w; [apply parse_field_print_star|apply parse_field_print_list].
Qed.

Lemma print_field_word r w f :
  small_range r -> field_wf r w f ->
  no_sep is_space (print_field w f) = true /\ print_field w f <> "".
Proof.
  intros [? ?] [Hne Hr _]. destruct w; cbn; [done|].
  assert (Forall (fun v => 0 <= v)%Z (elements f)) as Hpos.
  { apply Forall_forall. intros v Hv%elem_of_elements%Hr. lia. }
  pose proof (join_digits _ Hpos) as Hj. split.
  - revert Hj. apply all_chars_impl. intros c.
    destruct (is_digit c) eqn:E; [by rewrite (is_digit_not_space c E)|].
    cbn. by intros ->%Ascii.eqb_eq.
  - destruct (elements f) as [|v l] eqn:El.
    { by apply elements_empty_inv, leibniz_equiv in El. }
    apply Forall_cons in Hpos as [Hv0 _]. destruct (to_string_digits v Hv0) as [_ Hv].
    destruct l; cbn; destruct (to_string_Z v); done.
Qed.

Lemma normalize_sunday_id s :
  length (fields_ s) = 5 -> (7%Z ∈ field s 4 -> 0%Z ∈ field s 4) ->
  normalize_sunday s = s.
Proof.
  destruct s as [fs dw ww]. intros Hl H7. cbn in Hl.
  destruct fs as [|f0 [|f1 [|f2 [|f3 [|f4 [|? ?]]]]]]; try discriminate Hl.
  unfold normalize_sunday, field in *. simpl in *. case_decide; [|done].
  replace ({[0%Z]} ∪ f4) with f4 by set_solver. done.
Qed.

Lemma small_ranges i : small_range (range_of i).
Proof.
  unfold small_range, range_of, kRanges.
  do 5 (destruct i as [|i]; [simpl; lia|]). simpl. lia.
Qed.

Lemma parse_print s : cron_wf s -> parse (print_schedule s) = Ret (Some s).
Proof.
  intros [Hl H0 H1 H2 H3 H4 H7]. unfold parse, print_schedule.
  assert (forall w f i, field_wf (range_of i) w f ->
    no_sep is_space (print_field w f) = true /\ print_field w f <> "") as Hw
    by eauto using print_field_word, small_ranges.
  unfold stream_words. rewrite tokens_join; [|done|repeat constructor; eauto;
    by eapply Hw].
  cbn [length Nat.eqb negb].
  cbn [parse_fields kRanges]. 
  rewrite (parse_field_print (range_of 0)) by auto using small_ranges.
  cbn [mbind outcome_mbind Nat.eqb].
  rewrite (parse_field_print (range_of 1)) by auto using small_ranges.
  cbn [mbind outcome_mbind Nat.eqb].
  rewrite (parse_field_print (range_of 2)) by auto using small_ranges.
  cbn [mbind outcome_mbind Nat.eqb].
  rewrite (parse_field_print (range_of 3)) by auto using small_ranges.
  cbn [mbind outcome_mbind Nat.eqb].
  rewrite (parse_field_print (range_of 4)) by auto using small_ranges.
  cbn [mbind outcome_mbind Nat.eqb].
  destruct s as [fs dw ww]. cbn in Hl.
  destruct fs as [|f0 [|f1 [|f2 [|f3 [|f4 [|? ?]]]]]]; try discriminate Hl.
  change (Ret (Some (normalize_sunday {| fields_ := [f0; f1; f2; f3; f4];
    dom_wildcard_ := dw; dow_wildcard_ := ww |})) = Ret (Some
    {| fields_ := [f0; f1; f2; f3; f4]; dom_wildcard_ := dw; dow_wildcard_ := ww |})).
  by rewrite normalize_sunday_id.
Qed.

(** ** The searches *)

Lemma search_Some f dt n t r :
  search f dt n t = Some r <->
  exists i, i < n /\ r = (t + Z.of_nat i * dt)%Z /\ f r = true /\
    forall j, j < i -> f (t + Z.of_nat j * dt)%Z = false.
Proof.
  revert t. induction n as [|n IH]; intros t; cbn.
  { split; [done|]. intros (i & ? & _). lia. }
  destruct (f t) eqn:Ft.
  - split.
    + intros [= <-]. exists 0. split_and!; [lia|lia|done|]. intros j Hj. lia.
    + intros (i & Hi & -> & Hr & Hmin). destruct i as [|i]; [f_equal; lia|].
      specialize (Hmin 0 ltac:(lia)). rewrite Z.add_0_r in Hmin. congruence.
  - rewrite IH. split.
    + intros (i & Hi & -> & Hr & Hmin). exists (S i).
      split_and!; [lia|lia|by rewrite <- Hr; f_equal; lia|].
      intros [|j] Hj; [by rewrite Z.add_0_r|].
      rewrite <- (Hmin j ltac:(lia)). f_equal. lia.
    + intros ([|i] & Hi & -> & Hr & Hmin).
      { rewrite Z.add_0_r in Hr. congruence. }
      exists i. split_and!; [lia|lia|done|].
      intros j Hj. rewrite <- (Hmin (S j) ltac:(lia)). f_equal. lia.
Qed.

(** [t] is on a whole minute. *)
Definition aligned (t : Z) : Prop := (60 | t)%Z.

Definition horizon : Z := 60 * kMaxMinutes.

Lemma kMaxMinutes_nat : Z.of_nat (Z.to_nat kMaxMinutes) = kMaxMinutes.
Proof. apply Z2Nat.id. unfold kMaxMinutes. lia. Qed.

Section Search.
Context (localtime : Z -> tm) (s : CronSchedule).

(** The least matching whole minute after [after], within the horizon. *)
Definition is_next (after t : Z) : Prop :=
  (after < t)%Z /\ aligned t /\ (t < after - after mod 60 + 60 + horizon)%Z /\
  matches_at localtime s t = true /\
  forall t', (after < t' < t)%Z -> aligned t' ->
    matches_at localtime s t' = false.

(** The greatest matching whole minute at or before [at_], within the horizon. *)
Definition is_prev (at_ t : Z) : Prop :=
  (t <= at_)%Z /\ aligned t /\ (at_ - at_ mod 60 - horizon < t)%Z /\
  matches_at localtime s t = true /\
  forall t', (t < t' <= at_)%Z -> aligned t' ->
    matches_at localtime s t' = false.

Lemma next_after_iff after t :
  (0 <= after)%Z -> next_after localtime s after = Some t <-> is_next after t.
Proof.
  intros Ha. unfold next_after, is_next. rewrite search_Some.
  rewrite Z.rem_mod_nonneg by lia.
  pose proof (Z.div_mod after 60 ltac:(lia)) as Hdm.
  pose proof (Z.mod_pos_bound after 60 ltac:(lia)) as Hm.
  pose proof kMaxMinutes_nat as Hk. unfold horizon. split.
  - intros (i & Hi & -> & Hf & Hmin).
    split_and!; [lia|exists (after / 60 + 1 + Z.of_nat i)%Z; lia|lia|done|].
    intros t' Ht' [q ->].
    assert (exists j, q = (after / 60 + 1 + Z.of_nat j)%Z /\ j < i)
      as (j & -> & Hj).
    { exists (Z.to_nat (q - (after / 60 + 1))). lia. }
    rewrite <- (Hmin j ltac:(lia)). f_equal. lia.
  - intros (Hlt & [q ->] & Hh & Hf & Hmin).
    exists (Z.to_nat (q - (after / 60 + 1))).
    split_and!; [lia|lia|done|].
    intros j Hj. apply Hmin; [lia|]. exists (after / 60 + 1 + Z.of_nat j)%Z. lia.
Qed.

Lemma prev_before_iff at_ t :
  (0 <= at_)%Z -> prev_before localtime s at_ = Some t <-> is_prev at_ t.
Proof.
  intros Ha. unfold prev_before, is_prev. rewrite search_Some.
  rewrite Z.rem_mod_nonneg by lia.
  pose proof (Z.div_mod at_ 60 ltac:(lia)) as Hdm.
  pose proof (Z.mod_pos_bound at_ 60 ltac:(lia)) as Hm.
  pose proof kMaxMinutes_nat as Hk. unfold horizon. split.
  - intros (i & Hi & -> & Hf & Hmin).
    split_and!; [lia|exists (at_ / 60 - Z.of_nat i)%Z; lia|lia|done|].
    intros t' Ht' [q ->].
    assert (exists j, q = (at_ / 60 - Z.of_nat j)%Z /\ j < i) as (j & -> & Hj).
    { exists (Z.to_nat (at_ / 60 - q)). lia. }
    rewrite <- (Hmin j ltac:(lia)). f_equal. lia.
  - intros (Hlt & [q ->] & Hh & Hf & Hmin).
    exists (Z.to_nat (at_ / 60 - q)).
    split_and!; [lia|lia|done|].
    intros j Hj. apply Hmin; [lia|]. exists (at_ / 60 - Z.of_nat j)%Z. lia.
Qed.

(** Between a time and its next occurrence, the previous occurrence is not
    after that time; from the next occurrence on, it is that occurrence. *)
Lemma prev_after_next after t at_ :
  (0 <= after)%Z -> next_after localtime s after = Some t ->
  (t <= at_ < t + 60)%Z -> prev_before localtime s at_ = Some t.
Proof.
  intros Ha Hn%next_after_iff Hat; [|done].
  destruct Hn as (Hlt & [q Hq] & _ & Hm & _).
  apply prev_before_iff; [lia|]. split_and!; [lia|by exists q| |done|].
  - unfold horizon, kMaxMinutes. pose proof (Z.mod_pos_bound at_ 60 ltac:(lia)). lia.
  - intros t' Ht' [q' ->]. lia.
Qed.

Lemma prev_before_next after t at_ p :
  (0 <= after)%Z -> next_after localtime s after = Some t ->
  (after <= at_ < t)%Z -> prev_before localtime s at_ = Some p -> (p <= after)%Z.
Proof.
  intros Ha Hn%next_after_iff Hat Hp%prev_before_iff; [|lia|done].
  destruct Hn as (_ & _ & _ & _ & Hmin). destruct Hp as (Hle & Hal & _ & Hm & _).
  destruct (Z.le_gt_cases p after); [done|].
  rewrite (Hmin p ltac:(lia) Hal) in Hm. done.
Qed.
End Search.

#[export] Hint Resolve parse_cron_wf small_ranges : cpp.

(** ** Definedness *)

Lemma parse_token_total range token out :
  (int_min <= lo range)%Z ->
  (forall base step, parse_step token = Some (base, step) ->
     hi range + step <= int_max)%Z ->
  exists r, parse_token range token out = Ret r.
Proof.
  intros Hlo Hstep. unfold parse_token. destruct (str_empty token); [eauto|].
  destruct (parse_step token) as [[base step]|] eqn:Es; [|eauto].
  destruct (parse_bounds range base) as [[l h]|]; [|eauto].
  case_match eqn:Ec; [eauto|].
  apply orb_false_iff in Ec as [[? ?]%orb_false_iff ?].
  apply parse_step_pos in Es as Hpos. specialize (Hstep _ _ eq_refl).
  destruct (insert_range_total (range_fuel l h) l h step out) as [o ->];
    [lia|lia|lia|]. cbn. eauto.
Qed.

Lemma parse_tokens_total range ts out :
  (int_min <= lo range)%Z ->
  (forall token base step, token ∈ ts -> parse_step token = Some (base, step) ->
     hi range + step <= int_max)%Z ->
  exists r, parse_tokens range ts out = Ret r.
Proof.
  intros Hlo. revert out. induction ts as [|t ts IH]; intros out H; [cbn; eauto|].
  destruct (parse_token_total range t out Hlo) as [r Hr].
  { intros. eapply H; eauto. apply list_elem_of_here. }
  cbn. rewrite Hr. cbn. destruct r as [o|]; [|eauto].
  apply IH. intros. eapply H; eauto. by apply list_elem_of_further.
Qed.

Lemma search_None f dt n t :
  search f dt n t = None <->
  forall i, i < n -> f (t + Z.of_nat i * dt)%Z = false.
Proof.
  split.
  - intros H i. induction i as [i IH] using (well_founded_induction lt_wf).
    intros Hi. destruct (f _) eqn:E; [|done].
    assert (search f dt n t = Some (t + Z.of_nat i * dt)%Z) as Hs.
    { apply search_Some. exists i. split_and!; auto. intros. apply IH; lia. }
    congruence.
  - intros H. destruct (search f dt n t) as [r|] eqn:E; [|done].
    apply search_Some in E as (i & Hi & -> & Hr & _). by rewrite H in Hr.
Qed.

(** ** A concrete time zone, for evaluating the model: UTC *)

Definition utc (t : Z) : tm :=
  let days := (t / 86400)%Z in
  let secs := (t mod 86400)%Z in
  let z := (days + 719468)%Z in
  let era := (z / 146097)%Z in
  let doe := (z mod 146097)%Z in
  let yoe := ((doe - doe / 1460 + doe / 36524 - doe / 146096) / 365)%Z in
  let doy := (doe - (365 * yoe + yoe / 4 - yoe / 100))%Z in
  let mp := ((5 * doy + 2) / 153)%Z in
  {| tm_min := (secs / 60) mod 60;
     tm_hour := secs / 3600;
     tm_mday := doy - (153 * mp + 2) / 5 + 1;
     tm_mon := if (mp <? 10)%Z then mp + 2 else mp - 10;
     tm_wday := (days + 4) mod 7 |}.

(** The schedule an expression denotes, [empty_schedule] if it is rejected. *)
Definition sched_of (e : string) : CronSchedule :=
  match parse e with Ret (Some s) => s | _ => empty_schedule end.

(** 14 November 2023, 22:13:20 UTC: the next 08:00 is nine hours away. *)
Example next_daily :
  next_after utc (sched_of "0 8 * * *") 1700000000 = Some 1700035200%Z.
Proof. vm_compute. reflexivity. Qed.

(** ** Properties *)

Definition no_match_between (localtime : Z -> tm) (s : CronSchedule) (a b : Z) : Prop :=
  forall t', (a <= t' < b)%Z -> aligned t' -> matches_at localtime s t' = false.

(** C3: [next_after] returns the smallest whole minute strictly after its
    argument that matches the schedule, and [nullopt] exactly when no whole
    minute within the four-year horizon matches. *)
Theorem next_after_least localtime s after :
  (0 <= after)%Z ->
  (forall t, next_after localtime s after = Some t <-> is_next localtime s after t) /\
  (next_after localtime s after = None <->
   no_match_between localtime s (after + 1) (after - after mod 60 + 60 + horizon)).
Proof.
  intros Ha. split; [intros t; by apply next_after_iff|]. split.
  - intros H t' Ht' [q ->]. unfold next_after in H.
    rewrite search_None, Z.rem_mod_nonneg in H by lia.
    pose proof (Z.div_mod after 60 ltac:(lia)).
    pose proof (Z.mod_pos_bound after 60 ltac:(lia)).
    pose proof kMaxMinutes_nat. unfold horizon in Ht'.
    rewrite <- (H (Z.to_nat (q - (after / 60 + 1)))) by lia. f_equal. lia.
  - intros H. destruct (next_after localtime s after) as [t|] eqn:E; [|done].
    apply next_after_iff in E as (? & Hal & ? & Hm & _); [|done].
    rewrite H in Hm; [done|lia|done].
Qed.

Lemma next_after_least_witness :
  is_next utc (sched_of "0 8 * * *") 1700000000 1700035200.
Proof.
  apply (next_after_least utc (sched_of "0 8 * * *") 1700000000); [lia|].
  vm_compute. reflexivity.
Defined.

(** C22: [prev_before] returns the greatest matching whole minute at or before
    its argument, and undoes [next_after]: within the minute of the next
    occurrence it returns that occurrence, and before it nothing later than
    the starting time. *)
Theorem prev_before_greatest localtime s at_ :
  (0 <= at_)%Z ->
  (forall t, prev_before localtime s at_ = Some t <-> is_prev localtime s at_ t) /\
  (forall t, next_after localtime s at_ = Some t ->
     (forall u, (t <= u < t + 60)%Z -> prev_before localtime s u = Some t) /\
     (forall u p, (at_ <= u < t)%Z -> prev_before localtime s u = Some p ->
        (p <= at_)%Z)).
Proof.
  intros Ha. split; [intros t; by apply prev_before_iff|].
  intros t Ht. split; intros.
  - exact (prev_after_next _ _ _ _ _ Ha Ht H).
  - exact (prev_before_next _ _ _ _ _ _ Ha Ht H H0).
Qed.

Lemma prev_before_greatest_witness :
  prev_before utc (sched_of "0 8 * * *") 1700035230 = Some 1700035200%Z.
Proof.
  apply (prev_before_greatest utc (sched_of "0 8 * * *") 1700000000); [lia| |lia].
  vm_compute. reflexivity.
Defined.

(** C23: a schedule [parse] accepts is well formed: five non-empty fields
    inside their ranges, a ['*'] day field is the whole range, and Sunday
    given as 7 is also recorded as 0; so [matches] is the standard cron rule
    (either day field when both are restricted, otherwise both). *)
Theorem parse_matches_rule e s t :
  parse e = Ret (Some s) -> valid_tm t ->
  cron_wf s /\
  (matches s t = true <->
   tm_min t ∈ field s 0 /\ tm_hour t ∈ field s 1 /\
   (tm_mon t + 1)%Z ∈ field s 3 /\ day_rule s t).
Proof. intros Hp Hv. eauto using parse_cron_wf, matches_rule. Qed.

Lemma utc_epoch_valid : valid_tm (utc 1700035200).
Proof. split; vm_compute; split; discriminate. Qed.

Lemma parse_matches_rule_witness :
  cron_wf (sched_of "0 8 1,15 * 1-5") /\
  (matches (sched_of "0 8 1,15 * 1-5") (utc 1700035200) = true).
Proof.
  destruct (parse_matches_rule "0 8 1,15 * 1-5" (sched_of "0 8 1,15 * 1-5")
    (utc 1700035200)) as [Hwf Hm]; [vm_compute; reflexivity|apply utc_epoch_valid|].
  split; [exact Hwf|]. vm_compute. reflexivity.
Defined.

(** C24: [parse] inverts printing: every well-formed schedule, written out
    canonically (['*'] or a comma list per field), parses back to itself. *)
Theorem parse_print_roundtrip s :
  cron_wf s -> parse (print_schedule s) = Ret (Some s).
Proof. apply parse_print. Qed.

Lemma sched_wf_example : cron_wf (sched_of "*/15 9-17 * 1,7 0-6").
Proof. apply (parse_cron_wf "*/15 9-17 * 1,7 0-6"). vm_compute. reflexivity. Qed.

Lemma parse_print_roundtrip_witness :
  parse (print_schedule (sched_of "*/15 9-17 * 1,7 0-6")) =
  Ret (Some (sched_of "*/15 9-17 * 1,7 0-6")).
Proof. apply parse_print_roundtrip, sched_wf_example. Defined.

(** A field [parse_field] accepts is the set of the values its tokens
    denote: [v] is in it exactly when some comma-separated token has a step
    and bounds [l..h] with [l <= v <= h] and the step dividing [v - l]; all
    values are inside the field's range, and the set is not empty. *)
Theorem parse_field_denotes f range out w :
  parse_field f range = Ret (Some (out, w)) ->
  (forall v, v ∈ out <->
     exists token, token ∈ getline_tokens "," f /\ token_denotes range token v) /\
  (forall v, v ∈ out -> lo range <= v <= hi range)%Z /\
  out <> ∅ /\ (w = true <-> f = "*").
Proof.
  intros (Hne & -> & Hd & Hr)%parse_field_Some.
  split_and!; auto. apply String.eqb_eq.
Qed.

Definition minutes_example : gset Z :=
  match parse_field "10-30/10,5" {| lo := 0; hi := 59 |} with
  | Ret (Some (out, _)) => out
  | _ => ∅
  end.

Lemma parse_field_denotes_witness :
  exists token : string, token ∈ getline_tokens "," "10-30/10,5" /\
    token_denotes {| lo := 0; hi := 59 |} token 20.
Proof.
  apply (parse_field_denotes "10-30/10,5" {| lo := 0; hi := 59 |}
    minutes_example false).
  - vm_compute. reflexivity.
  - apply (bool_decide_unpack (20%Z ∈ minutes_example)). vm_compute. exact I.
Defined.

(** Parsing is defined, whatever the text, as long as no step exceeds
    [INT_MAX] minus the range's upper end; beyond that the loop increment
    [v += step] overflows a signed int, as ["1/2147483647"] does. *)
Theorem parse_field_defined f range :
  (int_min <= lo range)%Z ->
  (forall token base step, token ∈ getline_tokens "," f ->
     parse_step token = Some (base, step) -> hi range + step <= int_max)%Z ->
  (exists r, parse_field f range = Ret r) /\
  parse_field "1/2147483647" {| lo := 0; hi := 59 |} = Undef.
Proof.
  intros Hlo H. split; [|vm_compute; reflexivity].
  destruct (parse_tokens_total range (getline_tokens "," f) ∅ Hlo H) as [r Hr].
  unfold parse_field. rewrite Hr. cbn. destruct r; eauto.
Qed.

Lemma parse_field_defined_witness :
  exists r, parse_field "*/15" {| lo := 0; hi := 59 |} = Ret r.
Proof.
  apply (parse_field_defined "*/15" {| lo := 0; hi := 59 |}).
  - vm_compute. discriminate.
  - intros t b s Ht Hs. replace (getline_tokens "," "*/15") with ["*/15"] in Ht by done.
    apply list_elem_of_singleton in Ht as ->. vm_compute in Hs.
    injection Hs as <- <-. vm_compute. discriminate.
Defined.
