(* ===== verification/SharedState.v ===== *)
(** * The shared snapshot (daemon/src/shared_state.hpp)

    The values the sampler and the scheduler publish and the socket thread
    reads.  Every method of [SharedState] takes the mutex for its whole body,
    so each is one atomic state transformer here. *)

From stdpp Require Import base option list strings.
From Stdlib Require Import ZArith Lia.
From S2P Require Import Prelude Double.

Open Scope string_scope.
Open Scope list_scope.

Record ProcInfo := {
  pid : Z;
  proc_name : string;
  cpu_percent : double;
  rss_bytes : Z
}.

Record AlertInfo := {
  ai_ts : Z;
  ai_rule_name : string;
  ai_severity : string;
  ai_metric : string;
  ai_kind : string;          (* firing/recovered *)
  ai_value : double;
  ai_threshold : double;
  ai_message : string;
  ai_attribution : string;
  ai_notify : bool
}.

Record SystemSnapshot := {
  sys_valid : bool;
  sys_sampled_at : Z;
  mem_total_bytes : Z;
  mem_used_bytes : Z;
  mem_used_percent : double;
  disk_total_bytes : Z;
  disk_available_bytes : Z;
  disk_used_percent : double;
  thermal_state : string;
  top_processes : list ProcInfo
}.

Definition empty_snapshot : SystemSnapshot :=
  {| sys_valid := false; sys_sampled_at := 0;
     mem_total_bytes := 0; mem_used_bytes := 0; mem_used_percent := dbl_zero;
     disk_total_bytes := 0; disk_available_bytes := 0;
     disk_used_percent := dbl_zero;
     thermal_state := ""; top_processes := [] |}.

Record JobStatus := {
  js_name : string;
  js_schedule_expr : string;
  js_source : string;
  js_next_run : Z;
  js_running : bool;
  js_has_last_run : bool;
  js_last_status : string;
  js_last_started_at : Z;
  js_last_exit_code : Z;
  js_last_duration_ms : Z;
  js_last_trigger : string
}.

Record Cpu := { cpu_valid : bool; cpu_pct : double; cpu_sampled_at : Z }.
Record Self := { self_valid : bool; self_rss_bytes : Z; self_cpu_percent : double }.

Record SharedState := {
  cpu_ : Cpu;
  self_ : Self;
  jobs_ : list JobStatus;
  system_ : SystemSnapshot;
  alerts_ : list AlertInfo
}.

Definition initial_state : SharedState :=
  {| cpu_ := {| cpu_valid := false; cpu_pct := dbl_zero; cpu_sampled_at := 0 |};
     self_ := {| self_valid := false; self_rss_bytes := 0; self_cpu_percent := dbl_zero |};
     jobs_ := []; system_ := empty_snapshot; alerts_ := [] |}.

Definition set_cpu (percent : double) (sampled_at : Z) (s : SharedState) : SharedState :=
  {| cpu_ := {| cpu_valid := true; cpu_pct := percent; cpu_sampled_at := sampled_at |};
     self_ := self_ s; jobs_ := jobs_ s; system_ := system_ s; alerts_ := alerts_ s |}.

Definition set_self (rss : Z) (cpu : double) (s : SharedState) : SharedState :=
  {| cpu_ := cpu_ s;
     self_ := {| self_valid := true; self_rss_bytes := rss; self_cpu_percent := cpu |};
     jobs_ := jobs_ s; system_ := system_ s; alerts_ := alerts_ s |}.

Definition set_jobs (jobs : list JobStatus) (s : SharedState) : SharedState :=
  {| cpu_ := cpu_ s; self_ := self_ s; jobs_ := jobs;
     system_ := system_ s; alerts_ := alerts_ s |}.

Definition set_system (sys : SystemSnapshot) (s : SharedState) : SharedState :=
  {| cpu_ := cpu_ s; self_ := self_ s; jobs_ := jobs_ s;
     system_ := sys; alerts_ := alerts_ s |}.

Definition set_alerts (alerts : list AlertInfo) (s : SharedState) : SharedState :=
  {| cpu_ := cpu_ s; self_ := self_ s; jobs_ := jobs_ s;
     system_ := system_ s; alerts_ := alerts |}.

(** The default [cap] of [add_alert]. *)
Definition default_cap : nat := 25.

(** Prepends one alert and trims the vector to [cap]. *)
Definition add_alert (alert : AlertInfo) (cap : nat) (s : SharedState) : SharedState :=
  let alerts := alert :: alerts_ s in
  let alerts := if Nat.ltb cap (length alerts) then take cap alerts else alerts in
  set_alerts alerts s.

(** ** The alert ring *)

Lemma add_alert_take alert cap s :
  alerts_ (add_alert alert cap s) = take cap (alert :: alerts_ s).
Proof.
  unfold add_alert, set_alerts. cbn [alerts_].
  destruct (Nat.ltb_spec cap (length (alert :: alerts_ s))); [done|].
  by rewrite take_ge.
Qed.

Lemma add_alerts_take alerts cap s :
  length (alerts_ s) <= cap ->
  alerts_ (foldl (fun s a => add_alert a cap s) s alerts) =
  take cap (reverse alerts ++ alerts_ s).
Proof.
  revert s. induction alerts as [|a alerts IH]; intros s Hl; cbn [foldl].
  - by rewrite reverse_nil, app_nil_l, take_ge.
  - rewrite IH, add_alert_take by (rewrite add_alert_take, length_take; lia).
    rewrite reverse_cons, <- app_assoc. cbn [app].
    destruct (Nat.le_gt_cases cap (length (reverse alerts))).
    + by rewrite !take_app_le by done.
    + rewrite !take_app_ge by lia. f_equal. rewrite take_take. f_equal. lia.
Qed.

Lemma add_alert_frame alert cap s :
  cpu_ (add_alert alert cap s) = cpu_ s /\ self_ (add_alert alert cap s) = self_ s /\
  jobs_ (add_alert alert cap s) = jobs_ s /\ system_ (add_alert alert cap s) = system_ s.
Proof. done. Qed.

#[export] Hint Rewrite add_alert_take : cpp.

(** ** Properties *)

(** Publishing any sequence of alerts leaves the ring holding exactly the
    [cap] most recent ones, newest first, whatever the publishers. *)
Theorem alert_ring_keeps_newest alerts cap s :
  length (alerts_ s) <= cap ->
  let s' := foldl (fun s a => add_alert a cap s) s alerts in
  alerts_ s' = take cap (reverse alerts ++ alerts_ s) /\
  length (alerts_ s') = Nat.min cap (length alerts + length (alerts_ s)).
Proof.
  intros Hl. cbn. rewrite add_alerts_take by done. split; [done|].
  rewrite length_take, length_app, length_reverse. done.
Qed.

Definition alert_example (ts : Z) : AlertInfo :=
  {| ai_ts := ts; ai_rule_name := "r"; ai_severity := "warning"; ai_metric := "m";
     ai_kind := "firing"; ai_value := dbl_zero; ai_threshold := dbl_zero;
     ai_message := ""; ai_attribution := ""; ai_notify := true |}.

Lemma alert_ring_keeps_newest_witness :
  ai_ts <$> alerts_ (foldl (fun s a => add_alert a 2 s) initial_state
    (alert_example <$> [1; 2; 3]%Z)) = [3; 2]%Z.
Proof.
  destruct (alert_ring_keeps_newest (alert_example <$> [1; 2; 3]%Z) 2 initial_state)
    as [E _]; [cbn; lia|]. rewrite E. reflexivity.
Defined.
