(* ===== verification/Thermal.v ===== *)
(** * Thermal states (daemon/src/metrics/thermal_sampler.{hpp,mm}) *)

From stdpp Require Import base option list strings.
From Stdlib Require Import ZArith.
From S2P Require Import Prelude Double.

Open Scope string_scope.

Inductive ThermalState := Nominal | Fair | Serious | Critical.

#[export] Instance ThermalState_eq_dec : EqDecision ThermalState.
Proof. solve_decision. Defined.

(** [static_cast<int>] of the enumerator. *)
Definition thermal_ordinal (t : ThermalState) : Z :=
  match t with Nominal => 0 | Fair => 1 | Serious => 2 | Critical => 3 end.

(** [static_cast<double>(state)]. *)
Definition thermal_level (t : ThermalState) : double := dbl_of_Z (thermal_ordinal t).

Definition thermal_to_string (t : ThermalState) : string :=
  match t with
  | Nominal => "nominal" | Fair => "fair"
  | Serious => "serious" | Critical => "critical"
  end.

Definition thermal_state_from_string (name : string) : ThermalState :=
  if String.eqb name "fair" then Fair
  else if String.eqb name "serious" then Serious
  else if String.eqb name "critical" then Critical
  else Nominal.

(** The values of [NSProcessInfoThermalState], and any other the system
    might report. *)
Inductive ns_thermal := NSNominal | NSFair | NSSerious | NSCritical | NSOther (n : Z).

Definition sample_thermal_state (t : ns_thermal) : ThermalState :=
  match t with
  | NSNominal => Nominal | NSFair => Fair
  | NSSerious => Serious | NSCritical => Critical
  | NSOther _ => Nominal
  end.

Lemma thermal_roundtrip t : thermal_state_from_string (thermal_to_string t) = t.
Proof. by destruct t. Qed.

(** The order of the levels is the order of the ordinals. *)
Lemma thermal_level_le a b :
  dbl_le (thermal_level a) (thermal_level b) = (thermal_ordinal a <=? thermal_ordinal b)%Z.
Proof. by destruct a, b. Qed.

#[export] Hint Rewrite thermal_roundtrip thermal_level_le : cpp.
