(* ===== verification/Config.v ===== *)
(** * Configuration (daemon/src/config/config.{hpp,cpp})

    The job, rule and quiet-hours data, their text forms, and [load_config]
    with every validation and exception.  yaml-cpp is the interface [YamlApi]:
    the development never looks inside a node. *)

From stdpp Require Import base option list strings gmap.
From Stdlib Require Import Ascii ZArith Lia.
From S2P Require Import Prelude CppLib Double Cron Thermal.

Open Scope string_scope.
Open Scope list_scope.

(** ** Data *)

Inductive MissedRunPolicy := NoPolicy | RunOnWake | RunNow.

Record Job := {
  job_name : string;
  job_command : string;
  job_schedule : option CronSchedule;
  job_schedule_expr : string;
  job_missed_run_policy : MissedRunPolicy;
  job_timeout_seconds : Z;
  job_retries : Z;
  job_source : string            (* "config" or "ui" *)
}.

Inductive Condition := GreaterThan | LessThan | AtLeast.

Record Rule := {
  rule_name : string;
  rule_metric : string;
  rule_condition : Condition;
  rule_threshold : double;
  rule_duration_seconds : Z;
  rule_cooldown_seconds : Z;
  rule_severity : string
}.

Record QuietHours := { qh_enabled : bool; start_hour : Z; end_hour : Z }.

Record Config := {
  cfg_jobs : list Job;
  cfg_rules : list Rule;
  cfg_quiet_hours : QuietHours
}.

#[export] Instance MissedRunPolicy_eq_dec : EqDecision MissedRunPolicy.
Proof. solve_decision. Defined.
#[export] Instance Condition_eq_dec : EqDecision Condition.
Proof. solve_decision. Defined.
#[export] Instance Job_eq_dec : EqDecision Job.
Proof. solve_decision. Defined.
#[export] Instance Rule_eq_dec : EqDecision Rule.
Proof. solve_decision. Defined.

Definition no_quiet_hours : QuietHours :=
  {| qh_enabled := false; start_hour := 0; end_hour := 0 |}.

Definition empty_config : Config :=
  {| cfg_jobs := []; cfg_rules := []; cfg_quiet_hours := no_quiet_hours |}.

(** ** Text forms *)

Definition policy_to_string (p : MissedRunPolicy) : string :=
  match p with
  | NoPolicy => "none" | RunOnWake => "run_on_wake" | RunNow => "run_now"
  end.

Definition condition_to_string (c : Condition) : string :=
  match c with
  | GreaterThan => "greater_than" | LessThan => "less_than" | AtLeast => "at_least"
  end.

(** Lenient: an unknown name is [None]. *)
Definition missed_run_policy_from_string (s : string) : MissedRunPolicy :=
  if String.eqb s "run_on_wake" then RunOnWake
  else if String.eqb s "run_now" then RunNow
  else NoPolicy.

Definition throw_runtime {A} (msg : string) : outcome A := Throw (RuntimeError msg).

Definition parse_policy (s : string) : outcome MissedRunPolicy :=
  if String.eqb s "run_on_wake" then Ret RunOnWake
  else if String.eqb s "run_now" then Ret RunNow
  else if String.eqb s "none" || str_empty s then Ret NoPolicy
  else throw_runtime ("invalid missed_run_policy: '" +:+ s +:+ "'").

Definition parse_condition (s : string) : outcome Condition :=
  if String.eqb s "greater_than" || String.eqb s ">" then Ret GreaterThan
  else if String.eqb s "less_than" || String.eqb s "<" then Ret LessThan
  else if String.eqb s "at_least" || String.eqb s ">=" then Ret AtLeast
  else throw_runtime ("invalid condition: '" +:+ s +:+ "'").

(** ** yaml-cpp *)

(** The yaml-cpp calls the loader makes.  A subscript yields the child node
    when it is defined; it and the conversions may throw. *)
Class YamlApi := {
  node : Type;
  IsMap : node -> bool;
  IsSequence : node -> bool;
  subscript : node -> string -> outcome (option node);
  as_string : node -> outcome string;
  as_int : node -> outcome Z;
  as_double : node -> outcome double;
  node_items : node -> list node
}.

Section Loader.
Context {Y : YamlApi}.

(** [if (node[key]) f(node[key]) else d]. *)
Definition optional {A} (n : node) (key : string) (f : node -> outcome A) (d : A)
    : outcome A :=
  r ← subscript n key;
  match r with None => Ret d | Some c => f c end.

(** A key whose value must be a non-empty string. *)
Definition required_string (n : node) (key msg : string) : outcome string :=
  r ← subscript n key;
  match r with
  | None => throw_runtime msg
  | Some c => s ← as_string c;
              if str_empty s then throw_runtime msg else Ret s
  end.

Definition parse_schedule (name : string) (c : node)
    : outcome (string * option CronSchedule) :=
  expr ← as_string c;
  cron ← Cron.parse expr;
  match cron with
  | None => throw_runtime ("job '" +:+ name +:+ "' has invalid cron schedule: '" +:+
                           expr +:+ "'")
  | Some s => Ret (expr, Some s)
  end.

Definition non_negative (msg : string) (c : node) : outcome Z :=
  z ← as_int c;
  if (z <? 0)%Z then throw_runtime msg else Ret z.

Definition parse_job (n : node) (index : Z) : outcome Job :=
  if negb (IsMap n) then
    throw_runtime ("job #" +:+ to_string_Z index +:+ " is not a mapping")
  else
    name ← required_string n "name"
             ("job #" +:+ to_string_Z index +:+ " is missing 'name'");
    command ← required_string n "command"
                ("job '" +:+ name +:+ "' is missing 'command'");
    sched ← optional n "schedule" (parse_schedule name) ("", None);
    policy ← optional n "missed_run_policy"
               (fun c => s ← as_string c; parse_policy s) NoPolicy;
    timeout ← optional n "timeout_seconds"
                (non_negative ("job '" +:+ name +:+ "' has negative timeout_seconds")) 0%Z;
    retries ← optional n "retries"
                (non_negative ("job '" +:+ name +:+ "' has negative retries")) 0%Z;
    Ret {| job_name := name; job_command := command; job_schedule := snd sched;
           job_schedule_expr := fst sched; job_missed_run_policy := policy;
           job_timeout_seconds := timeout; job_retries := retries;
           job_source := "config" |}.

Definition parse_threshold (metric : string) (c : node) : outcome double :=
  if String.eqb metric "system.thermal_state" then
    s ← as_string c; Ret (thermal_level (thermal_state_from_string s))
  else as_double c.

Definition required {A} (n : node) (key msg : string) (f : node -> outcome A)
    : outcome A :=
  r ← subscript n key;
  match r with None => throw_runtime msg | Some c => f c end.

Definition parse_rule (n : node) (index : Z) : outcome Rule :=
  if negb (IsMap n) then
    throw_runtime ("rule #" +:+ to_string_Z index +:+ " is not a mapping")
  else
    name ← required_string n "name"
             ("rule #" +:+ to_string_Z index +:+ " is missing 'name'");
    metric ← required n "metric" ("rule '" +:+ name +:+ "' is missing 'metric'")
               as_string;
    condition ← required n "condition"
                  ("rule '" +:+ name +:+ "' is missing 'condition'")
                  (fun c => s ← as_string c; parse_condition s);
    threshold ← required n "threshold"
                  ("rule '" +:+ name +:+ "' is missing 'threshold'")
                  (parse_threshold metric);
    duration ← optional n "duration_seconds" as_int 0%Z;
    cooldown ← optional n "cooldown_seconds" as_int 0%Z;
    severity ← optional n "severity" as_string "warning";
    if (duration <? 0)%Z || (cooldown <? 0)%Z then
      throw_runtime ("rule '" +:+ name +:+ "' has negative duration/cooldown")
    else
      Ret {| rule_name := name; rule_metric := metric; rule_condition := condition;
             rule_threshold := threshold; rule_duration_seconds := duration;
             rule_cooldown_seconds := cooldown; rule_severity := severity |}.

(** The loop over a section's entries: each is parsed with its index, and its
    name inserted into the set of names seen. *)
Fixpoint load_entries {A} (parse_entry : node -> Z -> outcome A) (name_of : A -> string)
    (what : string) (i : Z) (names : gset string) (ns : list node)
    : outcome (list A) :=
  match ns with
  | [] => Ret []
  | n :: ns' =>
      x ← parse_entry n i;
      if decide (name_of x ∈ names) then
        throw_runtime ("duplicate " +:+ what +:+ " name: '" +:+ name_of x +:+ "'")
      else
        xs ← load_entries parse_entry name_of what (i + 1) ({[ name_of x ]} ∪ names) ns';
        Ret (x :: xs)
  end.

Definition load_section {A} (parse_entry : node -> Z -> outcome A)
    (name_of : A -> string) (what : string) (section : node) : outcome (list A) :=
  if negb (IsSequence section) then
    throw_runtime ("'" +:+ what +:+ "s' must be a sequence")
  else load_entries parse_entry name_of what 0 ∅ (node_items section).

Definition parse_quiet_hours (qh : node) : outcome QuietHours :=
  start ← optional qh "start_hour" as_int 0%Z;
  end_ ← optional qh "end_hour" as_int 0%Z;
  Ret {| qh_enabled := true; start_hour := start; end_hour := end_ |}.

(** [load_config(path)]: [exists] is [std::filesystem::exists(path)] and
    [loaded] the result of [YAML::LoadFile(path)]. *)
Definition load_config (exists_ : bool) (loaded : outcome node) : outcome Config :=
  if negb exists_ then Ret empty_config
  else
    root ← match loaded with
           | Throw (YamlException w) => throw_runtime ("cannot parse config: " +:+ w)
           | m => m
           end;
    jobs ← optional root "jobs" (load_section parse_job job_name "job") [];
    rules ← optional root "rules" (load_section parse_rule rule_name "rule") [];
    qh ← optional root "quiet_hours" parse_quiet_hours no_quiet_hours;
    Ret {| cfg_jobs := jobs; cfg_rules := rules; cfg_quiet_hours := qh |}.

End Loader.

(** ** Well-formed configurations *)

(** The schedule a job carries is what its text parses to. *)
Definition schedule_agrees (j : Job) : Prop :=
  match job_schedule j with
  | None => job_schedule_expr j = ""
  | Some s => Cron.parse (job_schedule_expr j) = Ret (Some s)
  end.

Record job_wf (j : Job) : Prop := {
  job_wf_name : job_name j <> "";
  job_wf_command : job_command j <> "";
  job_wf_schedule : schedule_agrees j;
  job_wf_timeout : (0 <= job_timeout_seconds j)%Z;
  job_wf_retries : (0 <= job_retries j)%Z;
  job_wf_source : job_source j = "config"
}.

Record rule_wf (r : Rule) : Prop := {
  rule_wf_name : rule_name r <> "";
  rule_wf_duration : (0 <= rule_duration_seconds r)%Z;
  rule_wf_cooldown : (0 <= rule_cooldown_seconds r)%Z
}.

Record config_wf (c : Config) : Prop := {
  cfg_wf_jobs : Forall job_wf (cfg_jobs c);
  cfg_wf_job_names : NoDup (job_name <$> cfg_jobs c);
  cfg_wf_rules : Forall rule_wf (cfg_rules c);
  cfg_wf_rule_names : NoDup (rule_name <$> cfg_rules c)
}.

Section LoaderLemmas.
Context {Y : YamlApi}.

Lemma optional_Ret {A} n key (f : node -> outcome A) d x :
  optional n key f d = Ret x ->
  x = d \/ exists c, f c = Ret x.
Proof.
  unfold optional. intros H. inv_bind H. destruct r; [eauto|].
  injection H as <-. by left.
Qed.

Lemma required_string_Ret n key msg s :
  required_string n key msg = Ret s -> s <> "".
Proof.
  unfold required_string. intros H. inv_bind H. destruct r; [|done].
  inv_bind H. destruct r; [done|]. by injection H as <-.
Qed.

Lemma non_negative_Ret msg c z : non_negative msg c = Ret z -> (0 <= z)%Z.
Proof.
  unfold non_negative. intros H. inv_bind H.
  destruct (r <? 0)%Z eqn:?; [done|]. injection H as <-. lia.
Qed.

Lemma parse_schedule_Ret name c expr s :
  parse_schedule name c = Ret (expr, s) ->
  exists s', s = Some s' /\ Cron.parse expr = Ret (Some s').
Proof.
  unfold parse_schedule. intros H. inv_bind H. inv_bind H.
  destruct r0; [|done]. injection H as <- <-. eauto.
Qed.

Lemma parse_job_wf n i j : parse_job n i = Ret j -> job_wf j.
Proof.
  unfold parse_job. destruct (negb (IsMap n)); [done|]. intros H.
  inv_bind H. inv_bind H. inv_bind H. inv_bind H. inv_bind H. inv_bind H.
  injection H as <-.
  apply required_string_Ret in E, E0.
  apply optional_Ret in E1, E3, E4.
  split; cbn; auto.
  - destruct E1 as [->|[c Hc]]; [done|]. destruct r1 as [e s]. cbn.
    apply parse_schedule_Ret in Hc as (s' & -> & Hs). done.
  - destruct E3 as [->|[c Hc%non_negative_Ret]]; lia.
  - destruct E4 as [->|[c Hc%non_negative_Ret]]; lia.
Qed.

Lemma parse_rule_wf n i r : parse_rule n i = Ret r -> rule_wf r.
Proof.
  unfold parse_rule. destruct (negb (IsMap n)); [done|]. intros H.
  do 7 (inv_bind H). destruct (_ || _) eqn:Hneg; [done|]. injection H as <-.
  apply required_string_Ret in E. apply orb_false_iff in Hneg as [? ?].
  split; cbn; [done|lia|lia].
Qed.

(** Accepted entries: each parses with its position, and the names are
    distinct and new. *)
Lemma load_entries_iff {A} (p : node -> Z -> outcome A) name_of what_ i names ns xs :
  load_entries p name_of what_ i names ns = Ret xs <->
  (length xs = length ns /\
   (forall k n x, ns !! k = Some n -> xs !! k = Some x ->
      p n (i + Z.of_nat k)%Z = Ret x)) /\
  NoDup (name_of <$> xs) /\ (forall x, x ∈ xs -> name_of x ∉ names).
Proof.
  revert i names xs. induction ns as [|n ns IH]; intros i names xs; cbn.
  { split.
    - intros [= <-]. split_and!; [done|done|constructor|].
      by intros ? ?%not_elem_of_nil.
    - intros [[Hl _] _]. by destruct xs. }
  split.
  - intros H. inv_bind H. case_decide as Hd; [done|]. inv_bind H.
    injection H as <-. apply IH in E0 as ([Hl Hp] & Hnd & Hnew).
    split_and!.
    + cbn. lia.
    + intros [|k] n' x'; cbn.
      * intros [= <-] [= <-]. by rewrite Z.add_0_r.
      * intros Hn Hx. rewrite <- (Hp _ _ _ Hn Hx). f_equal. lia.
    + cbn. constructor; [|done]. intros (x & Hx & Hin)%list_elem_of_fmap.
      apply (Hnew x Hin). rewrite <- Hx. set_solver.
    + intros x [->|Hx]%elem_of_cons; [done|]. specialize (Hnew x Hx). set_solver.
  - intros ([Hl Hp] & Hnd & Hnew). destruct xs as [|x xs]; [done|].
    pose proof (Hp 0 n x eq_refl eq_refl) as H0. rewrite Z.add_0_r in H0.
    rewrite H0. cbn. rewrite decide_False
      by (apply Hnew; apply list_elem_of_here).
    cbn in Hnd. apply NoDup_cons in Hnd as [Hni Hnd].
    enough (load_entries p name_of what_ (i + 1) ({[name_of x]} ∪ names) ns = Ret xs)
      as -> by done.
    apply IH. split_and!; [cbn in Hl; lia| |done|].
    + intros k n' x' Hn Hx. rewrite <- (Hp (S k) n' x' Hn Hx). f_equal. lia.
    + intros x' Hx'. rewrite not_elem_of_union, not_elem_of_singleton. split.
      * intros E. apply Hni. rewrite <- E. by apply list_elem_of_fmap_2.
      * apply Hnew. by apply list_elem_of_further.
Qed.

Lemma load_section_Ret {A} (p : node -> Z -> outcome A) name_of what_ sec xs :
  load_section p name_of what_ sec = Ret xs <->
  IsSequence sec = true /\
  load_entries p name_of what_ 0 ∅ (node_items sec) = Ret xs.
Proof. unfold load_section. destruct (IsSequence sec); naive_solver. Qed.

Lemma load_entries_Forall {A} (P : A -> Prop) (p : node -> Z -> outcome A)
    name_of what_ i names ns xs :
  (forall n i x, p n i = Ret x -> P x) ->
  load_entries p name_of what_ i names ns = Ret xs -> Forall P xs.
Proof.
  intros HP. revert i names xs. induction ns as [|n ns IH]; intros i names xs; cbn.
  - by intros [= <-].
  - intros H. inv_bind H. case_decide; [done|]. inv_bind H. injection H as <-.
    constructor; eauto.
Qed.

Lemma section_wf {A} (P : A -> Prop) (p : node -> Z -> outcome A) name_of what_ root key xs :
  (forall n i x, p n i = Ret x -> P x) ->
  optional root key (load_section p name_of what_) [] = Ret xs ->
  Forall P xs /\ NoDup (name_of <$> xs).
Proof.
  intros HP [->|[c [_ Hc]%load_section_Ret]]%optional_Ret.
  - split; constructor.
  - split; [by eapply load_entries_Forall|]. by apply load_entries_iff in Hc as (_ & ? & _).
Qed.

Lemma load_config_Ret exists_ loaded c :
  load_config exists_ loaded = Ret c -> config_wf c.
Proof.
  unfold load_config. destruct (negb exists_).
  { intros [= <-]. split; constructor. }
  intros H. do 4 (inv_bind H). injection H as <-.
  apply (section_wf job_wf) in E0 as [? ?]; [|apply parse_job_wf].
  apply (section_wf rule_wf) in E1 as [? ?]; [|apply parse_rule_wf].
  by split.
Qed.
End LoaderLemmas.

(** ** A concrete document type, for evaluating the loader *)

(** A YAML tree with the scalar readings already made. *)
Inductive ydoc :=
| YStr (s : string)
| YInt (z : Z)
| YSeq (l : list ydoc)
| YMap (l : list (string * ydoc)).

Fixpoint y_find (key : string) (l : list (string * ydoc)) : option ydoc :=
  match l with
  | [] => None
  | (k, v) :: l' => if String.eqb k key then Some v else y_find key l'
  end.

Definition bad_conversion {A} : outcome A := Throw (YamlException "bad conversion").

#[export] Instance ydoc_api : YamlApi := {|
  node := ydoc;
  IsMap := fun n => match n with YMap _ => true | _ => false end;
  IsSequence := fun n => match n with YSeq _ => true | _ => false end;
  subscript := fun n k =>
    match n with
    | YMap l => Ret (y_find k l)
    | YSeq _ => Ret None
    | _ => Throw (YamlException "operator[] call on a scalar")
    end;
  as_string := fun n =>
    match n with
    | YStr s => Ret s
    | YInt z => Ret (to_string_Z z)
    | _ => bad_conversion
    end;
  as_int := fun n => match n with YInt z => Ret z | _ => bad_conversion end;
  as_double := fun n => match n with YInt z => Ret (dbl_of_Z z) | _ => bad_conversion end;
  node_items := fun n => match n with YSeq l => l | _ => [] end
|}.

Definition example_job (name : string) : ydoc :=
  YMap [("name", YStr name); ("command", YStr "true"); ("schedule", YStr "0 8 * * *");
        ("missed_run_policy", YStr "run_on_wake"); ("timeout_seconds", YInt 300);
        ("retries", YInt 2)].

Definition example_rule : ydoc :=
  YMap [("name", YStr "high-cpu"); ("metric", YStr "system.cpu.percent");
        ("condition", YStr "greater_than"); ("threshold", YInt 90);
        ("cooldown_seconds", YInt 1800); ("severity", YStr "serious")].

Definition example_doc : ydoc :=
  YMap [("jobs", YSeq [example_job "a"; example_job "b"]);
        ("rules", YSeq [example_rule]);
        ("quiet_hours", YMap [("start_hour", YInt 23); ("end_hour", YInt 7)])].

Definition config_of (d : ydoc) : Config :=
  match load_config true (Ret d) with Ret c => c | _ => empty_config end.

Example load_duplicate :
  load_config true (Ret (YMap [("jobs", YSeq [example_job "a"; example_job "a"])])) =
  throw_runtime "duplicate job name: 'a'".
Proof. vm_compute. reflexivity. Qed.

(** ** Properties *)

(** C38: every configuration [load_config] returns is well formed: jobs and
    rules have non-empty, pairwise distinct names, jobs have commands,
    non-negative timeouts and retries, a schedule exactly when the text
    parses to it and the source ["config"], and rules have non-negative
    durations and cooldowns. *)
Theorem load_config_well_formed `{Y : YamlApi} exists_ loaded c :
  load_config exists_ loaded = Ret c -> config_wf c.
Proof. apply load_config_Ret. Qed.

Lemma load_config_well_formed_witness : config_wf (config_of example_doc).
Proof.
  apply (load_config_well_formed (Y := ydoc_api) true (Ret example_doc)). vm_compute. reflexivity.
Defined.

(** A section of the file loads as the list [xs] exactly when it is a
    sequence, every entry parses (with its zero-based position in messages)
    to the entry of [xs] at the same place, and the names are pairwise
    distinct: a duplicate name, a malformed entry or a non-sequence makes the
    load throw. *)
Theorem load_section_exact `{Y : YamlApi} {A} (p : node -> Z -> outcome A)
    name_of what_ sec xs :
  load_section p name_of what_ sec = Ret xs <->
  IsSequence sec = true /\ length xs = length (node_items sec) /\
  (forall k n x, node_items sec !! k = Some n -> xs !! k = Some x ->
     p n (Z.of_nat k) = Ret x) /\
  NoDup (name_of <$> xs).
Proof.
  rewrite load_section_Ret, load_entries_iff. setoid_rewrite Z.add_0_l.
  set_solver.
Qed.

(** The text forms round trip: each policy and condition is read back
    from the name it prints as, by the lenient and by the strict reader; and
    the strict reader accepts a text exactly when it is empty, ["none"] or a
    name the lenient reader distinguishes, agreeing with it there. *)
Theorem text_forms_roundtrip :
  (forall p, missed_run_policy_from_string (policy_to_string p) = p) /\
  (forall p, parse_policy (policy_to_string p) = Ret p) /\
  (forall c, parse_condition (condition_to_string c) = Ret c) /\
  (forall s p, parse_policy s = Ret p <->
     p = missed_run_policy_from_string s /\ (p = NoPolicy -> s = "" \/ s = "none")).
Proof.
  split_and!; [by intros []..|].
  intros s p. unfold parse_policy, missed_run_policy_from_string.
  destruct (String.eqb_spec s "run_on_wake") as [->|]; [naive_solver|].
  destruct (String.eqb_spec s "run_now") as [->|]; [naive_solver|].
  destruct (String.eqb_spec s "none") as [->|]; [naive_solver|].
  destruct s; naive_solver.
Qed.
