(* ===== verification/AlertEngine.v ===== *)
(** * The alert-rule engine (daemon/src/alerts/alert_engine.{hpp,cpp})

    [condition_met], [in_quiet_hours], the message texts and [evaluate], with
    a specification of the engine in terms of the history of a rule's metric
    ([spec_log]) that does not mention its encoded state, and the proof that
    the engine implements it. *)

From stdpp Require Import base option list strings gmap.
From Stdlib Require Import Ascii ZArith Lia SpecFloat.
From S2P Require Import Prelude CppLib Double Cron Config.

Open Scope string_scope.
Open Scope list_scope.

(** ** Data *)

Record AlertEvent := {
  ev_rule_name : string;
  ev_severity : string;
  ev_metric : string;
  ev_kind : string;           (* "firing" or "recovered" *)
  ev_value : double;
  ev_threshold : double;
  ev_ts : Z;
  ev_message : string;
  ev_attribution : string;
  ev_notify : bool
}.

Record RuleState := {
  since : Z;                  (* when the condition first held (0 = not) *)
  firing : bool;
  notified : bool;
  last_fired : Z
}.

Definition initial_rule_state : RuleState :=
  {| since := 0; firing := false; notified := false; last_fired := 0 |}.

Record AlertEngine := {
  rules_ : list Rule;
  quiet_hours_ : QuietHours;
  state_ : gmap string RuleState
}.

Definition new_engine (rules : list Rule) (qh : QuietHours) : AlertEngine :=
  {| rules_ := rules; quiet_hours_ := qh; state_ := ∅ |}.

Abbreviation MetricMap := (gmap string double).

(** ** Conditions, quiet hours and messages *)

Definition condition_met (c : Condition) (value threshold : double) : bool :=
  match c with
  | GreaterThan => dbl_gt value threshold
  | LessThan => dbl_lt value threshold
  | AtLeast => dbl_ge value threshold
  end.

Definition in_quiet_hours (localtime : Z -> tm) (qh : QuietHours) (now : Z) : bool :=
  if negb (qh_enabled qh) then false
  else
    let h := tm_hour (localtime now) in
    let start := start_hour qh in
    let end_ := end_hour qh in
    if (start =? end_)%Z then false
    else if (start <? end_)%Z then (start <=? h)%Z && (h <? end_)%Z
    else (start <=? h)%Z || (h <? end_)%Z.

Definition format_message (rule : Rule) (value : double) (firing : bool) : string :=
  if firing then
    rule_name rule +:+ ": " +:+ rule_metric rule +:+ " = " +:+ format_double value +:+
    " (" +:+ condition_to_string (rule_condition rule) +:+ " " +:+
    format_double (rule_threshold rule) +:+ ")"
  else
    rule_name rule +:+ ": recovered (" +:+ rule_metric rule +:+ " = " +:+
    format_double value +:+ ")".

(** ** Evaluating one rule *)

(** [e.notify]: critical alerts always notify, others not in quiet hours. *)
Definition notifies (rule : Rule) (quiet : bool) : bool :=
  String.eqb (rule_severity rule) "critical" || negb quiet.

Definition firing_event (rule : Rule) (value : double) (now : Z) (quiet : bool)
    (cpu_attribution : string) : AlertEvent :=
  {| ev_rule_name := rule_name rule; ev_severity := rule_severity rule;
     ev_metric := rule_metric rule; ev_kind := "firing"; ev_value := value;
     ev_threshold := rule_threshold rule; ev_ts := now;
     ev_message := format_message rule value true;
     ev_attribution := if String.eqb (rule_metric rule) "system.cpu.percent"
                       then cpu_attribution else "";
     ev_notify := notifies rule quiet |}.

Definition recovered_event (rule : Rule) (value : double) (now : Z) (quiet : bool)
    : AlertEvent :=
  {| ev_rule_name := rule_name rule; ev_severity := rule_severity rule;
     ev_metric := rule_metric rule; ev_kind := "recovered"; ev_value := value;
     ev_threshold := rule_threshold rule; ev_ts := now;
     ev_message := format_message rule value false;
     ev_attribution := ""; ev_notify := notifies rule quiet |}.

(** The metric's value, [0.0] when it is absent, and whether the rule's
    condition holds; an absent metric does not meet it. *)
Definition rule_value (rule : Rule) (metrics : MetricMap) : double :=
  default dbl_zero (metrics !! rule_metric rule).

Definition rule_met (rule : Rule) (metrics : MetricMap) : bool :=
  match metrics !! rule_metric rule with
  | Some value => condition_met (rule_condition rule) value (rule_threshold rule)
  | None => false
  end.

(** The body of the loop over the rules: the rule's new state and the event
    it emits, if any. *)
Definition rule_step (rule : Rule) (met : bool) (value : double) (now : Z)
    (quiet : bool) (cpu_attribution : string) (st : RuleState)
    : RuleState * list AlertEvent :=
  if met then
    let since' := if (since st =? 0)%Z then now else since st in
    let duration_ok := (rule_duration_seconds rule <=? now - since')%Z in
    if duration_ok then
      if notified st then
        ({| since := since'; firing := true; notified := true;
            last_fired := last_fired st |}, [])
      else
        let cooldown_ok :=
          (last_fired st =? 0)%Z ||
          (rule_cooldown_seconds rule <=? now - last_fired st)%Z in
        if cooldown_ok then
          ({| since := since'; firing := true; notified := true; last_fired := now |},
           [firing_event rule value now quiet cpu_attribution])
        else
          ({| since := since'; firing := true; notified := false;
              last_fired := last_fired st |}, [])
    else
      ({| since := since'; firing := firing st; notified := notified st;
          last_fired := last_fired st |}, [])
  else
    ({| since := 0; firing := false; notified := false; last_fired := last_fired st |},
     if notified st then [recovered_event rule value now quiet] else []).

(** [state_[rule.name]] default-constructs a missing entry. *)
Definition state_of (states : gmap string RuleState) (name : string) : RuleState :=
  default initial_rule_state (states !! name).

Fixpoint evaluate_rules (metrics : MetricMap) (now : Z) (quiet : bool)
    (cpu_attribution : string) (rules : list Rule) (states : gmap string RuleState)
    : gmap string RuleState * list AlertEvent :=
  match rules with
  | [] => (states, [])
  | rule :: rules' =>
      let '(st, evs) :=
        rule_step rule (rule_met rule metrics) (rule_value rule metrics) now quiet
          cpu_attribution (state_of states (rule_name rule)) in
      let '(states', evs') :=
        evaluate_rules metrics now quiet cpu_attribution rules'
          (<[ rule_name rule := st ]> states) in
      (states', evs ++ evs')
  end.

Definition evaluate (localtime : Z -> tm) (metrics : MetricMap) (now : Z)
    (cpu_attribution : string) (eng : AlertEngine) : AlertEngine * list AlertEvent :=
  let quiet := in_quiet_hours localtime (quiet_hours_ eng) now in
  let '(states, events) :=
    evaluate_rules metrics now quiet cpu_attribution (rules_ eng) (state_ eng) in
  ({| rules_ := rules_ eng; quiet_hours_ := quiet_hours_ eng; state_ := states |},
   events).

(** ** Specification *)

(** The history of a rule, newest first: each tick's time and whether the
    condition held.  [run_start] is the time of the first tick of the run of
    holding ticks that reaches the newest one. *)
Abbreviation history := (list (Z * bool)).

Fixpoint run_start (h : history) : option Z :=
  match h with
  | (t, true) :: h' => Some (default t (run_start h'))
  | _ => None
  end.

Inductive transition := Fired | Recovered.

(** The most recent firing of a log (newest first). *)
Fixpoint last_firing (log : list (Z * transition)) : option Z :=
  match log with
  | [] => None
  | (t, Fired) :: _ => Some t
  | _ :: log' => last_firing log'
  end.

Definition open_alert (log : list (Z * transition)) : bool :=
  match log with (_, Fired) :: _ => true | _ => false end.

(** What a rule must report over a history: it fires when the condition has
    held for its duration, no alert is open and the cooldown since the last
    firing has passed; it recovers when an alert is open and the condition
    does not hold. *)
Fixpoint spec_log (rule : Rule) (h : history) : list (Z * transition) :=
  match h with
  | [] => []
  | (t, true) :: h' =>
      let log := spec_log rule h' in
      let start := default t (run_start h') in
      if (rule_duration_seconds rule <=? t - start)%Z && negb (open_alert log) &&
         match last_firing log with
         | None => true
         | Some t' => (rule_cooldown_seconds rule <=? t - t')%Z
         end
      then (t, Fired) :: log else log
  | (t, false) :: h' =>
      let log := spec_log rule h' in
      if open_alert log then (t, Recovered) :: log else log
  end.

(** One tick of the engine: the arguments of [evaluate]. *)
Record Tick := { tick_metrics : MetricMap; tick_now : Z; tick_attribution : string }.

(** Running the engine over ticks, oldest first; the events newest first. *)
Fixpoint run (localtime : Z -> tm) (ticks : list Tick) (eng : AlertEngine)
    (log : list AlertEvent) : AlertEngine * list AlertEvent :=
  match ticks with
  | [] => (eng, log)
  | k :: ticks' =>
      let '(eng', events) :=
        evaluate localtime (tick_metrics k) (tick_now k) (tick_attribution k) eng in
      run localtime ticks' eng' (reverse events ++ log)
  end.

(** The metrics breach a rule: its metric is there, and compares with the
    threshold as the condition says.  A NaN compares with nothing. *)
Definition breaches (rule : Rule) (metrics : MetricMap) : bool :=
  match metrics !! rule_metric rule with
  | None => false
  | Some value =>
      match rule_condition rule, SFcompare value (rule_threshold rule) with
      | GreaterThan, Some Gt | LessThan, Some Lt
      | AtLeast, Some Gt | AtLeast, Some Eq => true
      | _, _ => false
      end
  end.

Definition history_of (rule : Rule) (ticks : list Tick) : history :=
  reverse ((fun k => (tick_now k, breaches rule (tick_metrics k))) <$> ticks).

(** A rule's own transitions in a log of events. *)
Definition transition_of (e : AlertEvent) : Z * transition :=
  (ev_ts e, if String.eqb (ev_kind e) "firing" then Fired else Recovered).

Definition log_of (rule : Rule) (log : list AlertEvent) : list (Z * transition) :=
  transition_of <$> List.filter (fun e => String.eqb (ev_rule_name e) (rule_name rule)) log.

(** ** One rule against its specification *)

Definition times_set (h : history) : Prop := Forall (fun p => fst p <> 0%Z) h.

Record rule_inv (rule : Rule) (h : history) (st : RuleState) : Prop := {
  inv_since : since st = default 0%Z (run_start h);
  inv_notified : notified st = open_alert (spec_log rule h);
  inv_last_fired : last_fired st = default 0%Z (last_firing (spec_log rule h))
}.

Lemma run_start_nonzero h t : times_set h -> run_start h = Some t -> t <> 0%Z.
Proof.
  induction 1 as [|[t0 [|]] h Ht Hh IH]; cbn; try done.
  intros [= <-]. destruct (run_start h); cbn in *; auto.
Qed.

Lemma last_firing_nonzero rule h t :
  times_set h -> last_firing (spec_log rule h) = Some t -> t <> 0%Z.
Proof.
  induction 1 as [|[t0 met] h Ht Hh IH]; cbn; [done|]. cbn in Ht.
  destruct met; case_match; cbn; auto. by intros [= <-].
Qed.

Lemma initial_rule_inv rule : rule_inv rule [] initial_rule_state.
Proof. done. Qed.

Lemma rule_step_refines rule h t met value quiet attr st st' evs :
  t <> 0%Z -> times_set h -> rule_inv rule h st ->
  rule_step rule met value t quiet attr st = (st', evs) ->
  rule_inv rule ((t, met) :: h) st' /\
  spec_log rule ((t, met) :: h) = (transition_of <$> evs) ++ spec_log rule h.
Proof.
  intros Ht Hh [Hs Hn Hl] Hstep. unfold rule_step in Hstep.
  assert (since st = 0%Z <-> run_start h = None) as Hs0.
  { rewrite Hs. destruct (run_start h) eqn:E; cbn; [|done].
    by apply run_start_nonzero in E. }
  assert (last_fired st = 0%Z <-> last_firing (spec_log rule h) = None) as Hl0.
  { rewrite Hl. destruct (last_firing (spec_log rule h)) eqn:E; cbn; [|done].
    by apply last_firing_nonzero in E. }
  destruct met.
  - assert ((if (since st =? 0)%Z then t else since st) = default t (run_start h)) as Est.
    { destruct (Z.eqb_spec (since st) 0) as [E|E].
      - by rewrite (proj1 Hs0 E).
      - rewrite Hs in *. by destruct (run_start h). }
    cbn zeta in Hstep. rewrite Est in Hstep.
    assert (((last_fired st =? 0)%Z ||
       (rule_cooldown_seconds rule <=? t - last_fired st)%Z) =
       match last_firing (spec_log rule h) with
       | None => true
       | Some t' => (rule_cooldown_seconds rule <=? t - t')%Z
       end) as Ecd.
    { destruct (last_firing (spec_log rule h)) as [t'|] eqn:E.
      - rewrite Hl. cbn. apply last_firing_nonzero in E; [|done].
        by destruct (Z.eqb_spec t' 0).
      - by rewrite (proj2 Hl0 eq_refl). }
    rewrite Ecd, Hn in Hstep. cbn [spec_log].
    destruct (rule_duration_seconds rule <=? t - default t (run_start h))%Z eqn:Ed;
      [destruct (open_alert (spec_log rule h)) eqn:Eo;
       [|destruct (match last_firing (spec_log rule h) with
                   | Some _ => _ | None => _ end) eqn:Ec]|];
      injection Hstep as <- <-;
      (split; [|cbn [spec_log]; rewrite ?Ed, ?Eo, ?Ec; done]);
      split; cbn [since notified last_fired run_start spec_log default];
      rewrite ?Ed, ?Eo, ?Ec; cbn; congruence.
  - injection Hstep as <- <-. rewrite Hn.
    cbn [spec_log]. destruct (open_alert (spec_log rule h)) eqn:Eo;
      (split; [|cbn [spec_log]; rewrite ?Eo; done]);
      split; cbn [since notified last_fired run_start spec_log]; rewrite ?Eo; cbn; auto.
Qed.

(** ** All the rules of a tick *)

Definition events_of (name : string) (evs : list AlertEvent) : list AlertEvent :=
  List.filter (fun e => String.eqb (ev_rule_name e) name) evs.

Lemma events_of_app name l1 l2 :
  events_of name (l1 ++ l2) = events_of name l1 ++ events_of name l2.
Proof. apply List.filter_app. Qed.

Lemma rule_step_events rule met value now quiet attr st :
  let evs := snd (rule_step rule met value now quiet attr st) in
  evs = [] \/
  (met = true /\ evs = [firing_event rule value now quiet attr]) \/
  (met = false /\ evs = [recovered_event rule value now quiet]).
Proof. unfold rule_step. repeat case_match; cbn; auto. Qed.

Lemma rule_step_events_of rule met value now quiet attr st name :
  let evs := snd (rule_step rule met value now quiet attr st) in
  events_of name evs = if String.eqb (rule_name rule) name then evs else [].
Proof.
  cbn. destruct (rule_step_events rule met value now quiet attr st)
    as [->|[[_ ->]|[_ ->]]]; cbn; by case_match.
Qed.

Lemma state_of_insert states name name' st :
  state_of (<[ name := st ]> states) name' =
  if String.eqb name name' then st else state_of states name'.
Proof.
  unfold state_of. destruct (String.eqb_spec name name') as [->|].
  - by rewrite lookup_insert_eq.
  - by rewrite lookup_insert_ne.
Qed.

(** Each rule evolves by [rule_step] on its own state, in isolation from the
    others; names that are no rule's are untouched. *)
Lemma evaluate_rules_spec metrics now quiet attr rules states states' evs :
  NoDup (rule_name <$> rules) ->
  evaluate_rules metrics now quiet attr rules states = (states', evs) ->
  (forall rule, rule ∈ rules ->
     rule_step rule (rule_met rule metrics) (rule_value rule metrics) now quiet attr
       (state_of states (rule_name rule)) =
     (state_of states' (rule_name rule), events_of (rule_name rule) evs)) /\
  (forall name, name ∉ (rule_name <$> rules) ->
     state_of states' name = state_of states name /\ events_of name evs = []).
Proof.
  revert states states' evs.
  induction rules as [|r rules IH]; intros states states' evs Hnd; cbn [evaluate_rules].
  { intros [= <- <-]. split; [by intros ? ?%not_elem_of_nil|done]. }
  cbn [fmap list_fmap] in Hnd. apply NoDup_cons in Hnd as [Hr Hnd].
  destruct (rule_step r _ _ _ _ _ _) as [st e1] eqn:Es.
  destruct (evaluate_rules _ _ _ _ rules _) as [s2 e2] eqn:Er.
  intros [= <- <-]. apply IH in Er as [IHin IHout]; [|done].
  pose proof (rule_step_events_of r (rule_met r metrics) (rule_value r metrics) now
    quiet attr (state_of states (rule_name r))) as He1.
  rewrite Es in He1. cbn [snd] in He1. split.
  - intros rule [->|Hin]%elem_of_cons.
    + rewrite Es. destruct (IHout _ Hr) as [-> E2].
      rewrite state_of_insert, events_of_app, E2, He1, String.eqb_refl, app_nil_r. done.
    + assert (rule_name r <> rule_name rule) as Hne.
      { intros E. apply Hr. rewrite E. by apply list_elem_of_fmap_2. }
      apply String.eqb_neq in Hne.
      rewrite events_of_app, He1, Hne. cbn [app]. rewrite <- IHin by done.
      by rewrite state_of_insert, Hne.
  - intros name Hname. cbn in Hname. apply not_elem_of_cons in Hname as [Hne Hout].
    assert (String.eqb (rule_name r) name = false) as Hb
      by (apply String.eqb_neq; congruence).
    destruct (IHout _ Hout) as [-> E2].
    rewrite state_of_insert, events_of_app, He1, E2, Hb. done.
Qed.

Lemma evaluate_rules_events metrics now quiet attr rules states e :
  e ∈ snd (evaluate_rules metrics now quiet attr rules states) ->
  exists rule, rule ∈ rules /\
    ((rule_met rule metrics = true /\
      e = firing_event rule (rule_value rule metrics) now quiet attr) \/
     (rule_met rule metrics = false /\
      e = recovered_event rule (rule_value rule metrics) now quiet)).
Proof.
  revert states. induction rules as [|r rules IH]; intros states; cbn.
  { by intros ?%not_elem_of_nil. }
  pose proof (rule_step_events r (rule_met r metrics) (rule_value r metrics) now quiet
    attr (state_of states (rule_name r))) as Hs.
  destruct (rule_step r _ _ _ _ _ _) as [st e1]. cbn [snd] in Hs.
  specialize (IH (<[rule_name r := st]> states)).
  destruct (evaluate_rules _ _ _ _ rules _) as [s2 e2]. cbn [snd] in *.
  intros [He|He]%elem_of_app.
  - exists r. split; [apply list_elem_of_here|].
    destruct Hs as [->|[[? ->]|[? ->]]];
      [by apply not_elem_of_nil in He|apply list_elem_of_singleton in He; auto..].
  - destruct (IH He) as (rule & Hin & Hr). exists rule.
    split; [by apply list_elem_of_further|done].
Qed.

(** ** Runs *)

Lemma evaluate_rules_names localtime metrics now attr eng :
  rules_ (fst (evaluate localtime metrics now attr eng)) = rules_ eng /\
  quiet_hours_ (fst (evaluate localtime metrics now attr eng)) = quiet_hours_ eng.
Proof. unfold evaluate. by destruct (evaluate_rules _ _ _ _ _ _). Qed.

Lemma run_snoc localtime ticks k eng log :
  run localtime (ticks ++ [k]) eng log =
  let '(eng1, log1) := run localtime ticks eng log in
  let '(eng2, evs) :=
    evaluate localtime (tick_metrics k) (tick_now k) (tick_attribution k) eng1 in
  (eng2, reverse evs ++ log1).
Proof.
  revert eng log. induction ticks as [|k' ticks IH]; intros eng log; cbn.
  - by destruct (evaluate _ _ _ _ _).
  - destruct (evaluate _ _ _ _ eng). by rewrite IH.
Qed.

Lemma history_of_snoc rule ticks k :
  history_of rule (ticks ++ [k]) =
  (tick_now k, breaches rule (tick_metrics k)) :: history_of rule ticks.
Proof. unfold history_of. by rewrite fmap_app, reverse_app. Qed.

Lemma history_of_times rule ticks :
  Forall (fun k => tick_now k <> 0%Z) ticks -> times_set (history_of rule ticks).
Proof. intros H. unfold times_set, history_of. by apply Forall_reverse, Forall_fmap. Qed.

Lemma log_of_app rule l1 l2 : log_of rule (l1 ++ l2) = log_of rule l1 ++ log_of rule l2.
Proof. unfold log_of. by rewrite List.filter_app, fmap_app. Qed.

Lemma events_of_reverse name l : events_of name (reverse l) = reverse (events_of name l).
Proof.
  induction l as [|e l IH]; [done|]. change (e :: l) with ([e] ++ l).
  rewrite reverse_app, !events_of_app, reverse_app, IH. f_equal.
  unfold events_of. cbn. by case_match.
Qed.

Lemma rule_met_breaches rule metrics : rule_met rule metrics = breaches rule metrics.
Proof.
  unfold rule_met, breaches, condition_met, dbl_gt, dbl_lt, dbl_ge, SFltb, SFleb.
  destruct (metrics !! _) as [v|]; [|done].
  rewrite (dbl_compare_swap v (rule_threshold rule)).
  by destruct (rule_condition rule), (SFcompare v _) as [[]|].
Qed.

(** One rule of a run: its encoded state is what its history says, and its
    events are those of the specification. *)
Lemma run_refines localtime rules qh ticks rule :
  NoDup (rule_name <$> rules) -> rule ∈ rules ->
  Forall (fun k => tick_now k <> 0%Z) ticks ->
  let '(eng, log) := run localtime ticks (new_engine rules qh) [] in
  rules_ eng = rules /\ quiet_hours_ eng = qh /\
  rule_inv rule (history_of rule ticks) (state_of (state_ eng) (rule_name rule)) /\
  log_of rule log = spec_log rule (history_of rule ticks).
Proof.
  intros Hnd Hin. induction ticks as [|k ticks IH] using rev_ind; intros Hall.
  { cbn. split_and!; done. }
  apply Forall_app in Hall as [Hall Hk]. rewrite Forall_singleton in Hk.
  specialize (IH Hall). rewrite run_snoc.
  destruct (run localtime ticks (new_engine rules qh) []) as [eng1 log1].
  destruct IH as (Hr & Hq & Hinv & Hlog).
  unfold evaluate. rewrite Hr, Hq.
  destruct (evaluate_rules _ _ _ _ rules _) as [s2 evs] eqn:Ee. cbn [state_ rules_].
  apply evaluate_rules_spec in Ee as [Ee _]; [|done]. specialize (Ee rule Hin).
  pose proof (rule_step_events rule (rule_met rule (tick_metrics k))
    (rule_value rule (tick_metrics k)) (tick_now k)
    (in_quiet_hours localtime qh (tick_now k)) (tick_attribution k)
    (state_of (state_ eng1) (rule_name rule))) as Hone.
  cbn zeta in Hone. rewrite Ee in Hone. cbn [snd] in Hone.
  destruct (rule_step_refines rule (history_of rule ticks) _ _ _ _ _ _ _ _
    Hk (history_of_times rule ticks Hall) Hinv Ee) as [Hinv' Hspec].
  rewrite history_of_snoc, <- rule_met_breaches. split_and!; auto.
  rewrite log_of_app, Hlog, Hspec. f_equal.
  unfold log_of. fold (events_of (rule_name rule) (reverse evs)).
  rewrite events_of_reverse. by destruct Hone as [->|[[_ ->]|[_ ->]]].
Qed.

(** ** What the specification guarantees *)

(** Newest first: firings and recoveries alternate, the oldest being a firing. *)
Fixpoint alternating (log : list (Z * transition)) : Prop :=
  match log with
  | [] => True
  | (_, Fired) :: log' => open_alert log' = false /\ alternating log'
  | (_, Recovered) :: log' => open_alert log' = true /\ alternating log'
  end.

(** Consecutive firings are at least the cooldown apart. *)
Definition spaced (cooldown : Z) (log : list (Z * transition)) : Prop :=
  forall l1 l2 t t', log = l1 ++ (t, Fired) :: l2 -> last_firing l2 = Some t' ->
    (cooldown <= t - t')%Z.

(** The condition held at every tick from [start] to [t], both included. *)
Definition held_from (h : history) (start t : Z) : Prop :=
  exists newer held older,
    h = newer ++ held ++ older /\ Forall (fun p => snd p = true) held /\
    (fst <$> head held) = Some t /\ (fst <$> last held) = Some start.

Lemma spec_alternating rule h : alternating (spec_log rule h).
Proof.
  induction h as [|[t [|]] h IH]; cbn; [done|..]; case_match eqn:E; cbn; auto.
  apply andb_true_iff in E as [[_ E]%andb_true_iff _]. by apply negb_true_iff in E.
Qed.

Lemma spec_spaced rule h : spaced (rule_cooldown_seconds rule) (spec_log rule h).
Proof.
  assert (forall log x, spaced (rule_cooldown_seconds rule) log ->
    (forall t t', x = (t, Fired) -> last_firing log = Some t' ->
      (rule_cooldown_seconds rule <= t - t')%Z) ->
    spaced (rule_cooldown_seconds rule) (x :: log)) as Hcons.
  { intros log x Hl Hx [|y l1] l2 t t'; cbn.
    - intros [= -> ->]. by apply Hx.
    - intros [= -> E]. by eapply Hl. }
  induction h as [|[t [|]] h IH]; cbn.
  - intros [|? ?]; done.
  - case_match eqn:E; [|done]. apply Hcons; [done|]. intros t0 t' [= <-] Hf.
    apply andb_true_iff in E as [_ E]. rewrite Hf in E. lia.
  - case_match; [|done]. apply Hcons; [done|]. by intros.
Qed.

Lemma run_start_held h s :
  run_start h = Some s ->
  exists held older, h = held ++ older /\ held <> [] /\
    Forall (fun p => snd p = true) held /\ (fst <$> last held) = Some s.
Proof.
  revert s. induction h as [|[t [|]] h IH]; intros s; cbn; [done| |done].
  intros [= <-]. destruct (run_start h) as [s|] eqn:E; cbn.
  - destruct (IH s eq_refl) as (held & older & -> & Hne & Hall & Hl).
    exists ((t, true) :: held), older. split_and!; auto.
    destruct held; [done|]. by rewrite <- Hl.
  - exists [(t, true)], h. split_and!; auto.
Qed.

Lemma spec_firing_held rule h t :
  (t, Fired) ∈ spec_log rule h ->
  exists start, held_from h start t /\ (rule_duration_seconds rule <= t - start)%Z.
Proof.
  induction h as [|[t0 met] h IH]; cbn; [by intros ?%not_elem_of_nil|].
  assert ((t, Fired) ∈ spec_log rule h -> exists start,
    held_from ((t0, met) :: h) start t /\ (rule_duration_seconds rule <= t - start)%Z)
    as Hold.
  { intros (start & (n & hl & o & -> & ?) & ?)%IH. exists start. split; [|done].
    exists ((t0, met) :: n), hl, o. split; [done|]. naive_solver. }
  destruct met; case_match eqn:E; auto.
  - intros [[= ->]|Hin]%elem_of_cons; [|auto].
    apply andb_true_iff in E as [[E _]%andb_true_iff _].
    exists (default t0 (run_start h)). split; [|lia].
    destruct (run_start h) as [s|] eqn:Er; cbn.
    + apply run_start_held in Er as (held & older & -> & Hne & Hall & Hl).
      exists [], ((t0, true) :: held), older. split_and!; auto.
      destruct held; [done|]. by rewrite <- Hl.
    + exists [], [(t0, true)], h. split_and!; auto.
  - intros [[=]|Hin]%elem_of_cons; auto.
Qed.

Lemma spec_recovered_not_held rule h t :
  (t, Recovered) ∈ spec_log rule h -> (t, false) ∈ h.
Proof.
  induction h as [|[t0 met] h IH]; cbn; [by intros ?%not_elem_of_nil|].
  rewrite elem_of_cons.
  destruct met; case_match; auto; intros [[=]|?]%elem_of_cons; subst; auto.
Qed.

(** The quiet window as a circular interval of the 24-hour clock. *)
Lemma quiet_hours_circular localtime qh now :
  (0 <= start_hour qh < 24)%Z -> (0 <= end_hour qh < 24)%Z ->
  (0 <= tm_hour (localtime now) < 24)%Z ->
  in_quiet_hours localtime qh now = true <->
  qh_enabled qh = true /\
  ((tm_hour (localtime now) - start_hour qh) mod 24 <
   (end_hour qh - start_hour qh) mod 24)%Z.
Proof.
  intros Hs He Hh. unfold in_quiet_hours.
  set (h := tm_hour (localtime now)) in *.
  assert (forall a, (-24 < a < 24)%Z -> a mod 24 = if (a <? 0)%Z then a + 24 else a)%Z as Hmod.
  { intros a Ha. destruct (Z.ltb_spec a 0).
    - rewrite <- (Z.mod_add a 1 24) by lia. apply Z.mod_small. lia.
    - apply Z.mod_small. lia. }
  rewrite !Hmod by lia. destruct (qh_enabled qh); cbn; [|naive_solver].
  destruct (Z.eqb_spec (start_hour qh) (end_hour qh));
    [|destruct (Z.ltb_spec (start_hour qh) (end_hour qh))];
    destruct (Z.ltb_spec (h - start_hour qh) 0);
    destruct (Z.ltb_spec (end_hour qh - start_hour qh) 0);
    rewrite ?andb_true_iff, ?orb_true_iff, ?Z.leb_le, ?Z.ltb_lt;
    intuition (discriminate || lia).
Qed.

(** ** Properties *)

(** A CPU rule and four ticks, as in the unit test of the duration gate. *)
Definition cpu_rule : Rule :=
  {| rule_name := "cpu"; rule_metric := "system.cpu.percent";
     rule_condition := GreaterThan; rule_threshold := dbl_of_Z 90;
     rule_duration_seconds := 60; rule_cooldown_seconds := 300;
     rule_severity := "warning" |}.

Definition cpu_tick (now value : Z) : Tick :=
  {| tick_metrics := {[ "system.cpu.percent" := dbl_of_Z value ]};
     tick_now := now; tick_attribution := "Chrome" |}.

Definition cpu_ticks : list Tick :=
  [cpu_tick 1000 95; cpu_tick 1030 95; cpu_tick 1060 95; cpu_tick 1090 10].

Example cpu_run :
  log_of cpu_rule (snd (run utc cpu_ticks (new_engine [cpu_rule] no_quiet_hours) [])) =
  [(1090%Z, Recovered); (1060%Z, Fired)].
Proof. vm_compute. reflexivity. Qed.

(** C4: over any sequence of evaluations at non-zero times, the transitions
    the engine emits for each rule are exactly those the history of the
    rule's condition calls for: a firing when it has held for the duration
    with no alert open and the cooldown passed, a recovery when it stops
    holding with an alert open; and the encoded state is the run's start, the
    open alert and the last firing. *)
Theorem engine_refines_spec localtime rules qh ticks rule :
  NoDup (rule_name <$> rules) -> rule ∈ rules ->
  Forall (fun k => tick_now k <> 0%Z) ticks ->
  let '(eng, log) := run localtime ticks (new_engine rules qh) [] in
  log_of rule log = spec_log rule (history_of rule ticks) /\
  rule_inv rule (history_of rule ticks) (state_of (state_ eng) (rule_name rule)).
Proof.
  intros Hnd Hin Ht. pose proof (run_refines localtime rules qh ticks rule Hnd Hin Ht).
  destruct (run _ _ _ _). tauto.
Qed.

Lemma cpu_ticks_nonzero : Forall (fun k => tick_now k <> 0%Z) cpu_ticks.
Proof. repeat constructor; discriminate. Qed.

Lemma engine_refines_spec_witness :
  log_of cpu_rule (snd (run utc cpu_ticks (new_engine [cpu_rule] no_quiet_hours) [])) =
  spec_log cpu_rule (history_of cpu_rule cpu_ticks).
Proof.
  pose proof (engine_refines_spec utc [cpu_rule] no_quiet_hours cpu_ticks cpu_rule
    ltac:(apply NoDup_singleton) ltac:(apply list_elem_of_here) cpu_ticks_nonzero) as H.
  destruct (run _ _ _ _). apply H.
Defined.

(** In every run, each rule's transitions alternate starting with a
    firing, firings are at least the cooldown apart, each firing at [t]
    follows a span of ticks up to [t] at all of which the condition held and
    which is at least the duration long, and each recovery is at a tick where
    it did not hold. *)
Theorem engine_gates localtime rules qh ticks rule :
  NoDup (rule_name <$> rules) -> rule ∈ rules ->
  Forall (fun k => tick_now k <> 0%Z) ticks ->
  let log := log_of rule (snd (run localtime ticks (new_engine rules qh) [])) in
  let h := history_of rule ticks in
  alternating log /\ spaced (rule_cooldown_seconds rule) log /\
  (forall t, (t, Fired) ∈ log -> exists start,
     held_from h start t /\ (rule_duration_seconds rule <= t - start)%Z) /\
  (forall t, (t, Recovered) ∈ log -> (t, false) ∈ h).
Proof.
  intros Hnd Hin Ht. pose proof (run_refines localtime rules qh ticks rule Hnd Hin Ht) as H.
  destruct (run _ _ _ _) as [eng log]. destruct H as (_ & _ & _ & E). cbn [snd]. rewrite E.
  split_and!; eauto using spec_alternating, spec_spaced, spec_firing_held,
    spec_recovered_not_held.
Qed.

Lemma engine_gates_witness :
  exists start, held_from (history_of cpu_rule cpu_ticks) start 1060 /\
    (60 <= 1060 - start)%Z.
Proof.
  apply (engine_gates utc [cpu_rule] no_quiet_hours cpu_ticks cpu_rule
    ltac:(apply NoDup_singleton) ltac:(apply list_elem_of_here) cpu_ticks_nonzero).
  rewrite cpu_run. apply list_elem_of_further, list_elem_of_here.
Defined.

(** One evaluation takes every rule through [rule_step] on its own
    state, in isolation: the rule's new state and its events do not depend on
    the other rules, names that are no rule's keep their state, and every
    event carries a rule's texts, the metric's value and the evaluation's
    time, and is a firing exactly if the metric is there and breaches the
    rule's threshold; the attribution goes with a CPU firing only. *)
Theorem evaluate_isolates_rules localtime metrics now attr eng eng' evs :
  NoDup (rule_name <$> rules_ eng) ->
  evaluate localtime metrics now attr eng = (eng', evs) ->
  let quiet := in_quiet_hours localtime (quiet_hours_ eng) now in
  rules_ eng' = rules_ eng /\
  (forall rule, rule ∈ rules_ eng ->
     rule_step rule (breaches rule metrics) (rule_value rule metrics) now quiet attr
       (state_of (state_ eng) (rule_name rule)) =
     (state_of (state_ eng') (rule_name rule), events_of (rule_name rule) evs)) /\
  (forall name, name ∉ (rule_name <$> rules_ eng) ->
     state_of (state_ eng') name = state_of (state_ eng) name) /\
  (forall e, e ∈ evs -> ev_ts e = now /\
     exists rule, rule ∈ rules_ eng /\ ev_rule_name e = rule_name rule /\
       ev_metric e = rule_metric rule /\ ev_severity e = rule_severity rule /\
       ev_threshold e = rule_threshold rule /\
       ev_value e = default dbl_zero (metrics !! rule_metric rule) /\
       ev_kind e = (if breaches rule metrics then "firing" else "recovered") /\
       ev_attribution e = (if breaches rule metrics &&
           bool_decide (rule_metric rule = "system.cpu.percent") then attr else "")).
Proof.
  intros Hnd He quiet. unfold evaluate in He.
  destruct (evaluate_rules _ _ _ _ _ _) as [s evs'] eqn:Er.
  injection He as <- <-. cbn [rules_ state_].
  pose proof (evaluate_rules_spec _ _ _ _ _ _ _ _ Hnd Er) as [H1 H2].
  split_and!; auto.
  - intros rule Hin. rewrite <- rule_met_breaches. by apply H1.
  - intros name Hn. by apply H2.
  - intros e Hin. pose proof (evaluate_rules_events metrics now quiet attr
      (rules_ eng) (state_ eng) e) as Hev.
    subst quiet. rewrite Er in Hev. destruct (Hev Hin) as (rule & Hr & H).
    rewrite rule_met_breaches in H. split; [by destruct H as [[_ ->]|[_ ->]]|].
    exists rule. destruct H as [[-> ->]|[-> ->]]; split_and!; try done.
    cbn. by destruct (String.eqb_spec (rule_metric rule) "system.cpu.percent"); case_bool_decide.
Qed.

Lemma evaluate_isolates_rules_witness :
  rules_ (fst (evaluate utc {[ "system.cpu.percent" := dbl_of_Z 95 ]} 1000 "Chrome"
    (new_engine [cpu_rule] no_quiet_hours))) = [cpu_rule].
Proof.
  destruct (evaluate utc {[ "system.cpu.percent" := dbl_of_Z 95 ]} 1000 "Chrome"
    (new_engine [cpu_rule] no_quiet_hours)) as [eng' evs] eqn:E.
  exact (proj1 (evaluate_isolates_rules _ _ _ _ (new_engine [cpu_rule] no_quiet_hours)
    _ _ (NoDup_singleton "cpu") E)).
Defined.

(** C37: with hours in range, the engine is quiet exactly when quiet hours
    are enabled and the local hour lies in the circular interval from the
    start hour (included) to the end hour (excluded), empty when they are
    equal; and an event of an evaluation is held back exactly when its rule
    is not critical and the engine is quiet. *)
Theorem quiet_hours_hold_back localtime metrics now attr eng :
  let qh := quiet_hours_ eng in
  let hour := tm_hour (localtime now) in
  (0 <= start_hour qh < 24)%Z -> (0 <= end_hour qh < 24)%Z -> (0 <= hour < 24)%Z ->
  forall e, e ∈ snd (evaluate localtime metrics now attr eng) ->
  ev_notify e = false <->
  ev_severity e <> "critical" /\ qh_enabled qh = true /\
  ((hour - start_hour qh) mod 24 < (end_hour qh - start_hour qh) mod 24)%Z.
Proof.
  intros qh hour Hs He Hh e Hin.
  pose proof (quiet_hours_circular localtime qh now Hs He Hh) as Hc.
  fold hour in Hc. rewrite <- Hc. clear Hc.
  pose proof (evaluate_rules_events metrics now (in_quiet_hours localtime qh now) attr
    (rules_ eng) (state_ eng) e) as Hev.
  unfold evaluate in Hin. subst qh.
  destruct (evaluate_rules _ _ _ _ _ _) as [s evs']. cbn [snd] in *.
  destruct (Hev Hin) as (rule & _ & H).
  set (qh := quiet_hours_ eng) in *.
  assert (ev_notify e = notifies rule (in_quiet_hours localtime qh now) /\
    ev_severity e = rule_severity rule) as [-> ->] by (by destruct H as [[_ ->]|[_ ->]]).
  unfold notifies.
  destruct (String.eqb_spec (rule_severity rule) "critical"),
    (in_quiet_hours localtime qh now); cbn; naive_solver.
Qed.

Definition night : QuietHours := {| qh_enabled := true; start_hour := 23; end_hour := 7 |}.

(** 23:13 UTC on 14 November 2023: a warning is held back. *)
Lemma quiet_hours_hold_back_witness :
  let eng := new_engine [{| rule_name := "cpu"; rule_metric := "system.cpu.percent";
     rule_condition := GreaterThan; rule_threshold := dbl_of_Z 90;
     rule_duration_seconds := 0; rule_cooldown_seconds := 0;
     rule_severity := "warning" |}] night in
  let evs := snd (evaluate utc {[ "system.cpu.percent" := dbl_of_Z 95 ]} 1700003600 "" eng) in
  exists e, e ∈ evs /\ ev_notify e = false.
Proof.
  intros eng evs.
  assert (exists e, evs = [e] /\ ev_severity e = "warning") as (e & Ee & Hsev)
    by (eexists; split; vm_compute; reflexivity).
  exists e. split; [rewrite Ee; apply list_elem_of_here|].
  apply (quiet_hours_hold_back utc {[ "system.cpu.percent" := dbl_of_Z 95 ]} 1700003600 ""
    eng); [cbn; lia|cbn; lia|vm_compute; split; congruence| |].
  - fold evs. rewrite Ee. apply list_elem_of_here.
  - rewrite Hsev. split; [discriminate|]. vm_compute. split; reflexivity.
Defined.
