(* ===== verification/Connection.v ===== *)
(** * Database connections (daemon/src/db.cpp, the life of a [Database])

    Opening, moving and destroying [Database] objects, with the SQLite
    handles they hold: a handle is closed at most once, and never while an
    object still uses it. *)

From stdpp Require Import base option list strings gmap.
From Stdlib Require Import ZArith Lia.
From S2P Require Import Prelude.

Open Scope string_scope.
Open Scope list_scope.

(** The result of [sqlite3_open], which allocates a handle unless memory is
    exhausted, and of [sqlite3_exec]: an error, with its message if it has
    one. *)
Inductive open_result := OpenOk | OpenFailed (errmsg : string) | OutOfMemory.
Definition exec_result : Type := option (option string).

(** The open handles and the next one SQLite hands out. *)
Record Handles := { opened : gset nat; next_handle : nat }.

(** [sqlite3_close]: nothing for a null pointer; using a closed handle is
    undefined. *)
Definition sqlite_close (db : option nat) (hs : Handles) : outcome Handles :=
  match db with
  | None => Ret hs
  | Some h => if decide (h ∈ opened hs)
              then Ret {| opened := opened hs ∖ {[h]}; next_handle := next_handle hs |}
              else Undef
  end.

Definition exec_or_throw (r : exec_result) : outcome unit :=
  match r with
  | None => Ret tt
  | Some msg => Throw (DbError (default "unknown error" msg))
  end.

(** The statements the constructor runs on the new connection. *)
Definition pragmas : list string :=
  ["PRAGMA journal_mode=WAL;"; "PRAGMA synchronous=NORMAL;"; "PRAGMA foreign_keys=ON;"].

(** The constructor: the handle it leaves in [db_].  When it throws, the
    object does not exist and its destructor does not run. *)
Definition database_open (r : open_result) (exec : string -> exec_result) (hs : Handles)
    : outcome nat * Handles :=
  let h := next_handle hs in
  match r with
  | OpenOk =>
      ((_ ← for_each (fun sql _ => exec_or_throw (exec sql)) pragmas tt; Ret h),
       {| opened := {[h]} ∪ opened hs; next_handle := S h |})
  | OpenFailed msg =>
      (* allocated and closed again *)
      (Throw (DbError ("cannot open database: " +:+ msg)),
       {| opened := opened hs; next_handle := S h |})
  | OutOfMemory => (Throw (DbError "cannot open database: out of memory"), hs)
  end.

(** *** Opening the store *)

(** What SQLite does when a connection to the daemon's file is opened: the
    open itself, the constructor's statements, the schema of [migrate]. *)
Record Opening := {
  op_open : open_result;
  op_exec : string -> exec_result;
  op_schema : exec_result
}.

Definition no_handles : Handles := {| opened := ∅; next_handle := 0 |}.

(** [std::make_unique<Database>(path)]. *)
Definition open_database (o : Opening) : outcome unit :=
  _ ← fst (database_open (op_open o) (op_exec o) no_handles); Ret tt.

(** The same followed by [migrate]. *)
Definition open_store (o : Opening) : outcome unit :=
  _ ← open_database o; exec_or_throw (op_schema o).

(** The objects alive, by name, with their [db_]. *)
Record Heap := { objects : gmap string (option nat); handles : Handles }.

Inductive op :=
| Construct (x : string) (r : open_result) (exec : string -> exec_result)
| MoveConstruct (x other : string)
| MoveAssign (x other : string)
| Destroy (x : string).

(** An operation; [None] if it is not one on live objects.  A constructor
    that throws leaves no object. *)
Definition run_op (o : op) (m : Heap) : option (outcome Heap) :=
  match o with
  | Construct x r exec =>
      match objects m !! x with
      | Some _ => None
      | None =>
          let '(res, hs) := database_open r exec (handles m) in
          Some (Ret {| objects := match res with
                                  | Ret h => <[x := Some h]> (objects m)
                                  | _ => objects m
                                  end; handles := hs |})
      end
  | MoveConstruct x other =>
      match objects m !! x, objects m !! other with
      | None, Some db =>
          Some (Ret {| objects := <[other := None]> (<[x := db]> (objects m));
                       handles := handles m |})
      | _, _ => None
      end
  | MoveAssign x other =>
      match objects m !! x, objects m !! other with
      | Some mine, Some theirs =>
          Some (if String.eqb x other then Ret m
                else hs ← sqlite_close mine (handles m);
                     Ret {| objects := <[other := None]> (<[x := theirs]> (objects m));
                            handles := hs |})
      | _, _ => None
      end
  | Destroy x =>
      match objects m !! x with
      | Some db => Some (hs ← sqlite_close db (handles m);
                         Ret {| objects := delete x (objects m); handles := hs |})
      | None => None
      end
  end.

Fixpoint run_ops (ops : list op) (m : Heap) : option (outcome Heap) :=
  match ops with
  | [] => Some (Ret m)
  | o :: ops' =>
      match run_op o m with
      | None => None
      | Some (Ret m') => run_ops ops' m'
      | Some e => Some e
      end
  end.

Definition empty_heap : Heap :=
  {| objects := ∅; handles := no_handles |}.

(** ** Ownership *)

Definition owns (m : Heap) (x : string) (h : nat) : Prop := objects m !! x = Some (Some h).

(** Every object's handle is open and its own; handles are handed out once. *)
Record owned (m : Heap) : Prop := {
  own_open x h : owns m x h -> h ∈ opened (handles m);
  own_once x y h : owns m x h -> owns m y h -> x = y;
  own_fresh h : h ∈ opened (handles m) -> h < next_handle (handles m)
}.

(** The operations that leak a handle: the constructor's statements fail
    after the file was opened. *)
Definition leaks (o : op) : bool :=
  match o with
  | Construct _ OpenOk exec => existsb (fun sql => bool_decide (exec sql <> None)) pragmas
  | _ => false
  end.

Lemma pragmas_run (exec : string -> exec_result) sqls :
  (for_each (fun sql _ => exec_or_throw (exec sql)) sqls tt = Ret tt /\
   existsb (fun sql => bool_decide (exec sql <> None)) sqls = false) \/
  (exists e, for_each (fun sql _ => exec_or_throw (exec sql)) sqls tt = Throw e) /\
  existsb (fun sql => bool_decide (exec sql <> None)) sqls = true.
Proof.
  induction sqls as [|sql sqls IH]; [by left|].
  cbn. destruct (exec sql) as [msg|]; cbn; [right; eauto|exact IH].
Qed.

(** All a connection can fail with is a [DbError]: its handlers catch it. *)
Lemma pragmas_db_error (exec : string -> exec_result) sqls :
  for_each (fun sql _ => exec_or_throw (exec sql)) sqls tt = Ret tt \/
  exists m, for_each (fun sql _ => exec_or_throw (exec sql)) sqls tt = Throw (DbError m).
Proof.
  induction sqls as [|sql sqls IH]; [by left|].
  cbn. destruct (exec sql) as [msg|]; cbn; [right; eauto|exact IH].
Qed.

Lemma open_database_db_error o :
  open_database o = Ret tt \/ exists m, open_database o = Throw (DbError m).
Proof.
  unfold open_database, database_open. destruct (op_open o); cbn [fst]; [|right; by eexists..].
  destruct (pragmas_db_error (op_exec o) pragmas) as [->|[m ->]]; cbn; eauto.
Qed.

Lemma open_store_db_error o :
  open_store o = Ret tt \/ exists m, open_store o = Throw (DbError m).
Proof.
  unfold open_store. destruct (open_database_db_error o) as [->|[m ->]]; cbn; [|eauto].
  destruct (op_schema o) as [msg|]; cbn; eauto.
Qed.

(** What an operation must keep. *)
Definition all_used (m : Heap) : Prop := forall h, h ∈ opened (handles m) -> exists x, owns m x h.

Definition kept (o : op) (m m' : Heap) : Prop :=
  owned m' /\ (leaks o = false -> all_used m -> all_used m').

Lemma close_owned m x db :
  owned m -> objects m !! x = Some db ->
  exists hs, sqlite_close db (handles m) = Ret hs /\ next_handle hs = next_handle (handles m) /\
    forall h, h ∈ opened hs <-> h ∈ opened (handles m) /\ db <> Some h.
Proof.
  intros [O _ _] X. destruct db as [h|]; cbn.
  - rewrite decide_True by (apply (O x); exact X).
    eexists. split; [reflexivity|]. split; [reflexivity|].
    intros k. cbn. rewrite elem_of_difference, elem_of_singleton. naive_solver.
  - eexists. split; [reflexivity|]. naive_solver.
Qed.

Lemma construct_kept x r exec m m' :
  owned m -> run_op (Construct x r exec) m = Some (Ret m') -> kept (Construct x r exec) m m'.
Proof.
  intros [O U F] R. cbn in R.
  destruct (objects m !! x) as [db|] eqn:X; [discriminate|].
  unfold database_open in R. destruct r as [|msg|].
  - destruct (pragmas_run exec pragmas) as [[E L]|[(e & E) L]]; rewrite E in R; cbn in R;
      injection R as <-; (split; [constructor|]); cbn;
      unfold leaks; rewrite ?L; unfold all_used, owns in *; cbn; intros *;
      rewrite ?lookup_insert_Some, ?elem_of_union, ?elem_of_singleton; try discriminate.
    + intros [[<- [= <-]]|[N1 A]]; [by left|right; exact (O _ _ A)].
    + intros [[<- [= <-]]|[N1 A]] [[<- B]|[N2 B]]; try reflexivity; try (exact (U _ _ _ A B)).
      * exfalso. pose proof (F _ (O _ _ B)). lia.
      * injection B as <-. exfalso. pose proof (F _ (O _ _ A)). lia.
    + intros [->|H]; [lia|]. pose proof (F _ H). lia.
    + intros _ A h. rewrite elem_of_union, elem_of_singleton. intros [->|H].
      * exists x. rewrite lookup_insert_Some. by left.
      * destruct (A h H) as (y & Y). exists y. rewrite lookup_insert_Some. right. split; [congruence|exact Y].
    + intros A. right. exact (O _ _ A).
    + apply U.
    + intros [->|H]; [lia|]. pose proof (F _ H). lia.
    + intros LK. exfalso. cbn in L. congruence.
  - injection R as <-. split; [constructor|]; unfold all_used, owns in *; cbn; [exact O|exact U| |tauto].
    intros h H. pose proof (F _ H). lia.
  - injection R as <-. split; [constructor|]; unfold all_used, owns in *; cbn; [exact O|exact U|exact F|tauto].
Qed.

(** Handing an object's handle to another, whose own handle is closed. *)
Lemma hand_over_kept o x other mine theirs hs m :
  owned m -> x <> other -> objects m !! other = Some theirs ->
  (forall h, mine = Some h -> owns m x h) -> (forall h, owns m x h -> mine = Some h) ->
  next_handle hs = next_handle (handles m) ->
  (forall h, h ∈ opened hs <-> h ∈ opened (handles m) /\ mine <> Some h) ->
  kept o m {| objects := <[other := None]> (<[x := theirs]> (objects m)); handles := hs |}.
Proof.
  intros [O U F] XO T M1 M2 N C.
  assert (K : forall y h, owns {| objects := <[other := None]> (<[x := theirs]> (objects m));
                                  handles := hs |} y h <->
                          (y = x /\ theirs = Some h) \/ (y <> x /\ y <> other /\ owns m y h)).
  { intros y h. unfold owns. cbn. rewrite !lookup_insert_Some. naive_solver. }
  split; [constructor|]; cbn.
  - intros y h. rewrite K, C. intros [[-> ->]|(NX & NO & Y)].
    + split; [exact (O _ _ T)|]. intros E. exact (XO (U _ _ _ (M1 _ E) T)).
    + split; [exact (O _ _ Y)|]. intros E. exact (NX (U _ _ _ Y (M1 _ E))).
  - intros y z h. rewrite !K. intros [[-> A]|(NX & NO & A)] [[-> B]|(NX' & NO' & B)].
    + reflexivity.
    + subst theirs. exfalso. exact (NO' (U _ _ _ B T)).
    + subst theirs. exfalso. exact (NO (U _ _ _ A T)).
    + exact (U _ _ _ A B).
  - intros h. rewrite C, N. intros [H _]. exact (F h H).
  - intros _ A h H. cbn in H. apply C in H as [H NM]. destruct (A h H) as (y & Y).
    destruct (decide (y = other)) as [->|NO].
    + exists x. apply K. left. split; [reflexivity|]. unfold owns in Y. congruence.
    + exists y. apply K. right. split; [|by split]. intros ->. exact (NM (M2 _ Y)).
Qed.

Lemma destroy_kept o x db hs m :
  owned m -> objects m !! x = Some db -> next_handle hs = next_handle (handles m) ->
  (forall h, h ∈ opened hs <-> h ∈ opened (handles m) /\ db <> Some h) ->
  kept o m {| objects := delete x (objects m); handles := hs |}.
Proof.
  intros [O U F] X N C. split; [constructor|]; unfold all_used, owns in *; cbn.
  - intros y h. rewrite lookup_delete_Some, C. intros [NX Y]. split; [exact (O _ _ Y)|].
    intros ->. exact (NX (U _ _ _ X Y)).
  - intros y z h. rewrite !lookup_delete_Some. intros [_ A] [_ B]. exact (U _ _ _ A B).
  - intros h. rewrite C, N. intros [H _]. exact (F h H).
  - intros _ A h H. apply C in H as [H ND]. destruct (A h H) as (y & Y). exists y.
    rewrite lookup_delete_Some. split; [|exact Y]. intros <-. congruence.
Qed.

Lemma run_op_owned o m r :
  owned m -> run_op o m = Some r -> exists m', r = Ret m' /\ kept o m m'.
Proof.
  intros W R. destruct o as [x q exec|x other|x other|x].
  - pose proof R as R'. unfold run_op in R'. destruct (objects m !! x); [discriminate|].
    destruct (database_open q exec (handles m)) as [res hs]. injection R' as <-.
    eexists. split; [reflexivity|]. by apply construct_kept.
  - cbn in R. destruct (objects m !! x) as [?|] eqn:X; [discriminate|].
    destruct (objects m !! other) as [db|] eqn:T; [|discriminate]. injection R as <-.
    eexists. split; [reflexivity|]. eapply (hand_over_kept _ x other None); try done.
    + congruence.
    + unfold owns. congruence.
    + naive_solver.
  - cbn in R. destruct (objects m !! x) as [mine|] eqn:X; [|discriminate].
    destruct (objects m !! other) as [theirs|] eqn:T; [|discriminate]. injection R as <-.
    destruct (String.eqb_spec x other) as [->|XO].
    + exists m. by split; [|split].
    + destruct (close_owned m x mine W X) as (hs & -> & N & C). cbn.
      eexists. split; [reflexivity|]. eapply (hand_over_kept _ x other mine); try done; unfold owns; congruence.
  - cbn in R. destruct (objects m !! x) as [db|] eqn:X; [|discriminate]. injection R as <-.
    destruct (close_owned m x db W X) as (hs & -> & N & C). cbn.
    eexists. split; [reflexivity|]. by eapply destroy_kept.
Qed.

(** C34: handles are closed exactly once.  However [Database] objects are
    constructed, moved, assigned and destroyed, no operation closes or uses a
    closed handle, no two objects hold the same handle and every handle in
    use is open; and unless a constructor failed after the file was opened,
    every open handle belongs to an object, so that none is left open when
    all objects are destroyed. *)
Theorem handles_closed_once ops r :
  run_ops ops empty_heap = Some r ->
  exists m, r = Ret m /\ owned m /\
    (existsb leaks ops = false -> all_used m /\ (objects m = ∅ -> opened (handles m) = ∅)).
Proof.
  assert (G : forall m r, owned m -> run_ops ops m = Some r ->
              exists m', r = Ret m' /\ owned m' /\
                (existsb leaks ops = false -> all_used m -> all_used m')).
  { induction ops as [|o ops IH]; cbn; intros m q W R.
    - injection R as <-. by exists m.
    - destruct (run_op o m) as [q'|] eqn:E; [|discriminate].
      destruct (run_op_owned o m q' W E) as (m' & -> & W' & L).
      destruct (IH m' q W' R) as (m'' & -> & W'' & L'').
      exists m''. split_and!; try done. intros [A B]%orb_false_iff AU. auto. }
  intros R. destruct (G empty_heap r) as (m & -> & W & A); [|exact R|].
  { split; unfold owns; cbn; intros *; rewrite ?lookup_empty, ?elem_of_empty; done. }
  exists m. split_and!; try done. intros L. assert (AU : all_used m).
  { apply (A L). intros h H. cbn in H. by apply not_elem_of_empty in H. }
  split; [exact AU|]. intros E. apply set_eq. intros h.
  rewrite elem_of_empty. split; [|tauto]. intros H. destruct (AU h H) as (x & X).
  unfold owns in X. rewrite E, lookup_empty in X. discriminate.
Qed.

(** The daemon's handle and a moved connection, then a constructor that fails
    at its first statement. *)
Lemma handles_closed_once_witness :
  let ok (sql : string) : exec_result := None in
  let ops := [Construct "a" OpenOk ok; MoveConstruct "b" "a"; Construct "a2" OpenOk ok;
              MoveAssign "b" "a2"; Destroy "a2"; Destroy "a"; Destroy "b"] in
  exists m, run_ops ops empty_heap = Some (Ret m) /\ opened (handles m) = ∅.
Proof.
  intros ok ops.
  destruct (run_ops ops empty_heap) as [r|] eqn:R; [|vm_compute in R; discriminate].
  destruct (handles_closed_once ops r R) as (m & E & W & U).
  exists m. split; [by rewrite E|]. apply U; [vm_compute; reflexivity|].
  subst r. vm_compute in R. injection R as <-. reflexivity.
Defined.

(** A statement that fails leaves the handle open, with no object to close
    it. *)
Example failed_pragma_leaks :
  run_ops [Construct "a" OpenOk (fun _ => Some (Some "disk I/O error"))] empty_heap
  = Some (Ret {| objects := ∅; handles := {| opened := {[0]}; next_handle := 1 |} |}).
Proof. vm_compute. reflexivity. Qed.
