(* ===== verification/Database.v ===== *)
(** * The SQLite store (daemon/src/db.{hpp,cpp})

    The four tables and the statement of each [Database] method.  SQLite is
    the interface [Sqlite]: it sorts rows for [ORDER BY], assigns row ids and
    reports errors; the statements themselves (what is inserted, selected,
    ordered and limited) are transcribed from the SQL text of db.cpp.  Every
    call takes the way SQLite fails in it, if it does ([fault]). *)

From stdpp Require Import base option list strings gmap sorting.
From Stdlib Require Import Ascii ZArith Lia SpecFloat.
From S2P Require Import Prelude CppLib Double.

Open Scope string_scope.
Open Scope list_scope.

(** ** Rows *)

Record RunRecord := {
  run_id : Z;
  run_job_name : string;
  run_started_at : Z;
  run_ended_at : Z;
  run_status : string;
  run_exit_code : Z;
  run_duration_ms : Z;
  run_stdout : string;
  run_stderr : string;
  run_trigger : string
}.

Record AlertRecord := {
  al_id : Z;
  al_ts : Z;
  al_rule_name : string;
  al_severity : string;
  al_metric : string;
  al_kind : string;
  al_value : double;
  al_threshold : double;
  al_message : string;
  al_attribution : string
}.

Record JobDef := {
  def_name : string;
  def_command : string;
  def_schedule_expr : string;
  def_missed_run_policy : string;
  def_timeout_seconds : Z;
  def_retries : Z
}.

Record MetricRow := { m_id : Z; m_ts : Z; m_metric : string; m_value : double }.

(** The tables, rows in insertion order. *)
Record Tables := {
  metrics_tbl : list MetricRow;
  runs_tbl : list RunRecord;
  alerts_tbl : list AlertRecord;
  job_defs_tbl : list JobDef
}.

Definition empty_tables : Tables :=
  {| metrics_tbl := []; runs_tbl := []; alerts_tbl := []; job_defs_tbl := [] |}.

(** [CREATE TABLE IF NOT EXISTS]: a fresh file gets empty tables, an existing
    one keeps its rows. *)
Definition migrate (file : option Tables) : Tables := default empty_tables file.

(** ** SQLite *)

(** How a call fails: the statement does not prepare, or stepping it fails
    after some rows. *)
Inductive fault :=
| NoFault
| PrepareFails (errmsg : string)
| StepFails (rows : nat) (errmsg : string).

Class Sqlite := {
  order_by : forall {A}, (A -> A -> bool) -> list A -> list A;
  new_rowid : list Z -> Z;
  not_null_errmsg : string
}.

(** Documented behaviour: [ORDER BY] permutes the rows into an order the
    terms allow, and a new [INTEGER PRIMARY KEY] exceeds all present ones. *)
Class SqliteLaws (sq : Sqlite) := {
  order_by_perm {A} (le : A -> A -> bool) l : order_by le l ≡ₚ l;
  order_by_sorted {A} (le : A -> A -> bool) l :
    (forall x y, le x y = true \/ le y x = true) ->
    (forall x y z, le x y = true -> le y z = true -> le x z = true) ->
    StronglySorted (fun x y => le x y = true) (order_by le l);
  new_rowid_gt ids id :
    Forall (fun i => (i < int64_max)%Z) ids -> id ∈ ids -> (id < new_rowid ids)%Z
}.

Section Methods.
Context {sq : Sqlite}.

(** A statement that yields no rows: [res] takes effect unless it fails. *)
Definition run_update {A} (op : string) (f : fault) (res : A) : outcome A :=
  match f with
  | NoFault => Ret res
  | PrepareFails m => Throw (DbError ("prepare " +:+ op +:+ ": " +:+ m))
  | StepFails _ m => Throw (DbError ("step " +:+ op +:+ ": " +:+ m))
  end.

(** A query: rows are collected while [sqlite3_step] returns [SQLITE_ROW]; an
    error there ends the loop like the end of the rows. *)
Definition run_query {A} (op : string) (f : fault) (rows : list A) : outcome (list A) :=
  match f with
  | NoFault => Ret rows
  | PrepareFails m => Throw (DbError ("prepare " +:+ op +:+ ": " +:+ m))
  | StepFails n _ => Ret (take n rows)
  end.

(** Binding NaN stores NULL, which a [NOT NULL] column rejects. *)
Definition reject_nan (value : double) (f : fault) : fault :=
  match f with
  | NoFault => if decide (value = S754_nan) then StepFails 0 not_null_errmsg else NoFault
  | _ => f
  end.

(** [LIMIT ?]: a negative limit is no limit. *)
Definition limit_rows {A} (limit : Z) (rows : list A) : list A :=
  if (limit <? 0)%Z then rows else take (Z.to_nat limit) rows.

(** [ORDER BY ts DESC, id DESC]. *)
Definition newest_first {A} (ts id : A -> Z) (a b : A) : bool :=
  (ts b <? ts a)%Z || ((ts a =? ts b)%Z && (id b <=? id a)%Z).

(** *** Metrics *)

Definition insert_metric (f : fault) (ts : Z) (metric : string) (value : double)
    (db : Tables) : outcome Tables :=
  run_update "insert_metric" (reject_nan value f)
    {| metrics_tbl := metrics_tbl db ++
         [{| m_id := new_rowid (map m_id (metrics_tbl db)); m_ts := ts;
             m_metric := c_str metric; m_value := value |}];
       runs_tbl := runs_tbl db; alerts_tbl := alerts_tbl db;
       job_defs_tbl := job_defs_tbl db |}.

Definition latest_metric (f : fault) (metric : string) (db : Tables)
    : outcome (option (Z * double)) :=
  let rows := List.filter (fun r => String.eqb (m_metric r) (c_str metric)) (metrics_tbl db) in
  rows ← run_query "latest_metric" f
           (limit_rows 1 (order_by (newest_first m_ts m_id) rows));
  Ret (option_map (fun r => (m_ts r, m_value r)) (head rows)).

Definition metric_history (f : fault) (metric : string) (since_ts : Z) (db : Tables)
    : outcome (list (Z * double)) :=
  let rows := List.filter (fun r => String.eqb (m_metric r) (c_str metric) &&
                                    (since_ts <=? m_ts r)%Z) (metrics_tbl db) in
  rows ← run_query "metric_history" f
           (order_by (fun a b => (m_ts a <=? m_ts b)%Z) rows);
  Ret (map (fun r => (m_ts r, m_value r)) rows).

(** *** Runs *)

(** The row a record is stored as. *)
Definition stored_run (id : Z) (r : RunRecord) : RunRecord :=
  {| run_id := id; run_job_name := c_str (run_job_name r);
     run_started_at := run_started_at r; run_ended_at := run_ended_at r;
     run_status := c_str (run_status r); run_exit_code := run_exit_code r;
     run_duration_ms := run_duration_ms r; run_stdout := c_str (run_stdout r);
     run_stderr := c_str (run_stderr r); run_trigger := c_str (run_trigger r) |}.

Definition insert_run (f : fault) (r : RunRecord) (db : Tables) : outcome (Tables * Z) :=
  let id := new_rowid (map run_id (runs_tbl db)) in
  run_update "insert_run" f
    ({| metrics_tbl := metrics_tbl db; runs_tbl := runs_tbl db ++ [stored_run id r];
        alerts_tbl := alerts_tbl db; job_defs_tbl := job_defs_tbl db |}, id).

Definition runs_of (job_name : string) (db : Tables) : list RunRecord :=
  List.filter (fun r => String.eqb (run_job_name r) (c_str job_name)) (runs_tbl db).

Definition last_run (f : fault) (job_name : string) (db : Tables)
    : outcome (option RunRecord) :=
  rows ← run_query "last_run" f
           (limit_rows 1 (order_by (newest_first run_started_at run_id) (runs_of job_name db)));
  Ret (head rows).

(** A step that fails yields no count row: the result is 0. *)
Definition count_runs (f : fault) (job_name : string) (db : Tables) : outcome Z :=
  rows ← run_query "count_runs" f [wrap_int (Z.of_nat (length (runs_of job_name db)))];
  Ret (default 0%Z (head rows)).

Definition recent_runs (f : fault) (job_name : string) (limit : Z) (db : Tables)
    : outcome (list RunRecord) :=
  run_query "recent_runs" f
    (limit_rows limit (order_by (newest_first run_started_at run_id) (runs_of job_name db))).

(** *** Alerts *)

Definition stored_alert (id : Z) (a : AlertRecord) : AlertRecord :=
  {| al_id := id; al_ts := al_ts a; al_rule_name := c_str (al_rule_name a);
     al_severity := c_str (al_severity a); al_metric := c_str (al_metric a);
     al_kind := c_str (al_kind a); al_value := al_value a;
     al_threshold := al_threshold a; al_message := c_str (al_message a);
     al_attribution := c_str (al_attribution a) |}.

Definition insert_alert (f : fault) (a : AlertRecord) (db : Tables) : outcome (Tables * Z) :=
  let id := new_rowid (map al_id (alerts_tbl db)) in
  run_update "insert_alert" (reject_nan (al_threshold a) (reject_nan (al_value a) f))
    ({| metrics_tbl := metrics_tbl db; runs_tbl := runs_tbl db;
        alerts_tbl := alerts_tbl db ++ [stored_alert id a];
        job_defs_tbl := job_defs_tbl db |}, id).

Definition recent_alerts (f : fault) (limit : Z) (db : Tables) : outcome (list AlertRecord) :=
  run_query "recent_alerts" f
    (limit_rows limit (order_by (newest_first al_ts al_id) (alerts_tbl db))).

(** *** Job definitions *)

Definition stored_def (d : JobDef) : JobDef :=
  {| def_name := c_str (def_name d); def_command := c_str (def_command d);
     def_schedule_expr := c_str (def_schedule_expr d);
     def_missed_run_policy := c_str (def_missed_run_policy d);
     def_timeout_seconds := def_timeout_seconds d; def_retries := def_retries d |}.

(** [INSERT ... ON CONFLICT(name) DO UPDATE]: the row of that name is updated
    in place, or the definition is appended. *)
Fixpoint upsert_rows (d : JobDef) (rows : list JobDef) : list JobDef :=
  match rows with
  | [] => [d]
  | r :: rows' =>
      if String.eqb (def_name r) (def_name d) then d :: rows' else r :: upsert_rows d rows'
  end.

Definition upsert_job_def (f : fault) (d : JobDef) (db : Tables) : outcome Tables :=
  run_update "upsert_job_def" f
    {| metrics_tbl := metrics_tbl db; runs_tbl := runs_tbl db;
       alerts_tbl := alerts_tbl db;
       job_defs_tbl := upsert_rows (stored_def d) (job_defs_tbl db) |}.

Definition delete_job_def (f : fault) (name : string) (db : Tables) : outcome Tables :=
  run_update "delete_job_def" f
    {| metrics_tbl := metrics_tbl db; runs_tbl := runs_tbl db;
       alerts_tbl := alerts_tbl db;
       job_defs_tbl :=
         List.filter (fun r => negb (String.eqb (def_name r) (c_str name))) (job_defs_tbl db) |}.

(** [ORDER BY name], with the BINARY collation of SQLite. *)
Definition by_name (a b : JobDef) : bool := String.leb (def_name a) (def_name b).

Definition load_job_defs (f : fault) (db : Tables) : outcome (list JobDef) :=
  run_query "load_job_defs" f
    (order_by by_name (job_defs_tbl db)).

End Methods.

(** ** Ordered, limited selections *)

Section Ordered.
Context {A : Type} (ts id : A -> Z).

Definition newer (a b : A) : Prop := newest_first ts id a b = true.

Lemma newest_first_total a b :
  newest_first ts id a b = true \/ newest_first ts id b a = true.
Proof. unfold newest_first. rewrite !orb_true_iff, !andb_true_iff. lia. Qed.

Lemma newest_first_trans a b c :
  newest_first ts id a b = true -> newest_first ts id b c = true ->
  newest_first ts id a c = true.
Proof. unfold newest_first. rewrite !orb_true_iff, !andb_true_iff. lia. Qed.

(** [out] is the first [n] of [rows] in the order "newest first". *)
Record newest (n : nat) (rows out : list A) : Prop := {
  newest_rest : exists rest, out ++ rest ≡ₚ rows /\ StronglySorted newer (out ++ rest);
  newest_length : length out = Nat.min n (length rows)
}.

Lemma newest_take {sq : Sqlite} {L : SqliteLaws sq} n rows :
  newest n rows (take n (order_by (newest_first ts id) rows)).
Proof.
  set (l := order_by _ rows). split.
  - exists (drop n l). rewrite take_drop. split; [apply order_by_perm|].
    apply order_by_sorted; [apply newest_first_total|apply newest_first_trans].
  - rewrite length_take. f_equal. apply Permutation_length, order_by_perm.
Qed.

(** The head of the selection is at least as new as every row. *)
Lemma newest_head n rows out :
  newest (S n) rows out ->
  (head out = None /\ rows = []) \/
  (exists r, head out = Some r /\ r ∈ rows /\ forall r', r' ∈ rows -> r' = r \/ newer r r').
Proof.
  intros [[rest [Hp Hs]] Hl]. destruct out as [|r out]; simpl in *.
  - left. split; [done|]. destruct rows; [done|]. simpl in Hl. lia.
  - right. exists r. split; [done|]. split; [rewrite <- Hp; left|].
    intros r' Hr. rewrite <- Hp in Hr. inversion_clear Hs as [|?? _ Hf].
    apply elem_of_cons in Hr as [->|Hr]; [by left|right].
    by eapply Forall_forall in Hf.
Qed.

End Ordered.

Lemma limit_rows_nonneg {A} limit (rows : list A) :
  (0 <= limit)%Z -> limit_rows limit rows = take (Z.to_nat limit) rows.
Proof. intros H. unfold limit_rows. by destruct (Z.ltb_spec limit 0); [lia|]. Qed.

Lemma recent_runs_newest {sq : Sqlite} {L : SqliteLaws sq} name limit db :
  (0 <= limit)%Z ->
  exists out, recent_runs NoFault name limit db = Ret out /\
    newest run_started_at run_id (Z.to_nat limit) (runs_of name db) out.
Proof.
  intros Hl. unfold recent_runs, run_query. rewrite limit_rows_nonneg by done.
  eexists. split; [done|]. by apply newest_take.
Qed.

Lemma last_run_recent {sq : Sqlite} f name db :
  last_run f name db = (rows ← run_query "last_run" f
    (take 1 (order_by (newest_first run_started_at run_id) (runs_of name db)));
    Ret (head rows)).
Proof. done. Qed.

Lemma last_run_newest {sq : Sqlite} {L : SqliteLaws sq} name db :
  exists out, last_run NoFault name db = Ret (head out) /\
    newest run_started_at run_id 1 (runs_of name db) out.
Proof.
  rewrite last_run_recent. eexists. split; [reflexivity|]. by apply newest_take.
Qed.

(** ** Runs as they are inserted *)

Lemma runs_of_insert `{sq : Sqlite} r db db' id name :
  insert_run NoFault r db = Ret (db', id) ->
  runs_of name db' = runs_of name db ++
    (if String.eqb (c_str (run_job_name r)) (c_str name) then [stored_run id r] else []).
Proof.
  unfold insert_run, run_update. intros [= <- <-]. unfold runs_of. cbn [runs_tbl].
  rewrite List.filter_app. simpl. by destruct (String.eqb _ _).
Qed.

(** The ids of the runs: distinct and below the largest row id. *)
Definition ids_ok (db : Tables) : Prop :=
  NoDup (map run_id (runs_tbl db)) /\
  Forall (fun i => (i < int64_max)%Z) (map run_id (runs_tbl db)).

Lemma runs_of_incl r name db : r ∈ runs_of name db -> r ∈ runs_tbl db.
Proof. rewrite !list_elem_of_In. intros ?%filter_In. tauto. Qed.

Lemma new_rowid_fresh {sq : Sqlite} {L : SqliteLaws sq} r db :
  ids_ok db -> r ∈ runs_tbl db -> (run_id r < new_rowid (map run_id (runs_tbl db)))%Z.
Proof.
  intros [_ Hb] Hr. apply new_rowid_gt; [done|].
  apply list_elem_of_In, in_map, list_elem_of_In, Hr.
Qed.

(** ** Job definitions as a map *)

Definition defs_map (rows : list JobDef) : gmap string JobDef :=
  list_to_map ((fun d => (def_name d, d)) <$> rows).

Definition names_distinct (rows : list JobDef) : Prop := NoDup (map def_name rows).

Lemma upsert_rows_names d rows :
  forall n, n ∈ map def_name (upsert_rows d rows) <->
            n = def_name d \/ n ∈ map def_name rows.
Proof.
  induction rows as [|r rows IH]; intros n; simpl; [set_solver|].
  destruct (String.eqb_spec (def_name r) (def_name d)) as [E|]; simpl.
  - rewrite !elem_of_cons, E. tauto.
  - rewrite !elem_of_cons, IH. tauto.
Qed.

Lemma upsert_rows_distinct d rows :
  names_distinct rows -> names_distinct (upsert_rows d rows).
Proof.
  unfold names_distinct. induction rows as [|r rows IH]; simpl; intros Hn.
  - constructor; [set_solver|constructor].
  - apply NoDup_cons in Hn as [Hr Hn].
    destruct (String.eqb_spec (def_name r) (def_name d)) as [E|Hne]; simpl.
    + rewrite <- E. by constructor.
    + constructor; [rewrite upsert_rows_names; naive_solver|auto].
Qed.

Lemma defs_map_cons r rows : defs_map (r :: rows) = <[def_name r := r]> (defs_map rows).
Proof. done. Qed.

Lemma upsert_rows_map d rows :
  defs_map (upsert_rows d rows) = <[def_name d := d]> (defs_map rows).
Proof.
  induction rows as [|r rows IH]; simpl; [done|].
  destruct (String.eqb_spec (def_name r) (def_name d)) as [E|Hne]; rewrite !defs_map_cons.
  - by rewrite E, insert_insert_eq.
  - rewrite IH. by apply insert_insert_ne.
Qed.

Definition without (name : string) (rows : list JobDef) : list JobDef :=
  List.filter (fun r => negb (String.eqb (def_name r) name)) rows.

Lemma without_names name rows n :
  n ∈ map def_name (without name rows) <-> n ∈ map def_name rows /\ n <> name.
Proof.
  induction rows as [|r rows IH]; simpl; [set_solver|].
  destruct (String.eqb_spec (def_name r) name); simpl;
    rewrite ?elem_of_cons, IH; naive_solver.
Qed.

Lemma without_distinct name rows :
  names_distinct rows -> names_distinct (without name rows).
Proof.
  unfold names_distinct. induction rows as [|r rows IH]; simpl; intros Hn; [done|].
  apply NoDup_cons in Hn as [Hr Hn].
  destruct (String.eqb (def_name r) name); simpl; [auto|].
  constructor; [rewrite without_names; naive_solver|auto].
Qed.

Lemma without_map name rows : defs_map (without name rows) = delete name (defs_map rows).
Proof.
  induction rows as [|r rows IH]; simpl; [symmetry; apply delete_empty|].
  destruct (String.eqb_spec (def_name r) name) as [E|Hne]; simpl;
    rewrite !defs_map_cons, IH.
  - by rewrite E, delete_insert_eq.
  - by rewrite delete_insert_ne.
Qed.

Lemma defs_map_lookup rows n d :
  names_distinct rows -> (defs_map rows !! n = Some d <-> d ∈ rows /\ def_name d = n).
Proof.
  intros Hn. unfold defs_map. rewrite <- elem_of_list_to_map.
  - rewrite list_elem_of_fmap. split.
    + by intros (d' & [= -> ->] & Hd).
    + intros [Hd <-]. eauto.
  - rewrite <- list_fmap_compose. exact Hn.
Qed.

Lemma by_name_sorted {sq : Sqlite} {L : SqliteLaws sq} rows :
  StronglySorted (fun x y => by_name x y = true) (order_by by_name rows).
Proof.
  apply order_by_sorted; unfold by_name.
  - intros x y. destruct (String.leb_total (def_name x) (def_name y)); auto.
  - intros x y z Hxy Hyz.
    apply Is_true_true. apply Is_true_true in Hxy, Hyz.
    exact (transitivity (R := String.le) Hxy Hyz).
Qed.

(** One call on the definitions table, and the same on a map by name. *)
Inductive def_op := Upsert (d : JobDef) | Delete (name : string).

Definition def_call `{sq : Sqlite} (f : fault) (o : def_op) (db : Tables) : outcome Tables :=
  match o with
  | Upsert d => upsert_job_def f d db
  | Delete n => delete_job_def f n db
  end.

Definition def_spec (o : def_op) (m : gmap string JobDef) : gmap string JobDef :=
  match o with
  | Upsert d => <[c_str (def_name d) := stored_def d]> m
  | Delete n => delete (c_str n) m
  end.

(** A sequence of calls whose callers catch [DbError]. *)
Fixpoint def_calls `{sq : Sqlite} (calls : list (fault * def_op)) (db : Tables) : Tables :=
  match calls with
  | [] => db
  | (f, o) :: calls' =>
      def_calls calls' (match def_call f o db with Ret db' => db' | _ => db end)
  end.

Definition def_specs (calls : list (fault * def_op)) (m : gmap string JobDef)
    : gmap string JobDef :=
  fold_left (fun m '(f, o) => match f with NoFault => def_spec o m | _ => m end) calls m.

Lemma def_call_step `{sq : Sqlite} f o db :
  names_distinct (job_defs_tbl db) ->
  let db' := match def_call f o db with Ret db' => db' | _ => db end in
  names_distinct (job_defs_tbl db') /\
  defs_map (job_defs_tbl db') =
    match f with NoFault => def_spec o (defs_map (job_defs_tbl db))
               | _ => defs_map (job_defs_tbl db) end.
Proof.
  intros Hn. destruct o as [d|n], f; cbn; try done.
  - split; [by apply upsert_rows_distinct|apply (upsert_rows_map (stored_def d))].
  - split; [by apply without_distinct|apply without_map].
Qed.

Lemma def_calls_refine `{sq : Sqlite} calls db :
  names_distinct (job_defs_tbl db) ->
  names_distinct (job_defs_tbl (def_calls calls db)) /\
  defs_map (job_defs_tbl (def_calls calls db)) = def_specs calls (defs_map (job_defs_tbl db)).
Proof.
  revert db. induction calls as [|[f o] calls IH]; intros db Hn; cbn [def_calls]; [done|].
  destruct (def_call_step f o db Hn) as [Hn' E].
  destruct (IH _ Hn') as [Hd Em]. split; [done|]. rewrite Em, E. by destruct f.
Qed.

(** ** An engine that sorts by merging *)

#[export] Instance model_sqlite : Sqlite := {|
  order_by := fun A le l => @merge_sort A (fun x y => le x y = true) (fun x y => bool_eq_dec (le x y) true) l;
  new_rowid := fun ids => (foldr Z.max 0 ids + 1)%Z;
  not_null_errmsg := "NOT NULL constraint failed"
|}.

#[export] Instance model_sqlite_laws : SqliteLaws model_sqlite.
Proof.
  split.
  - intros A le l. apply merge_sort_Permutation.
  - intros A le l Ht Htr. apply StronglySorted_merge_sort; [exact Htr|exact Ht].
  - intros ids id _ Hin. cbn. induction ids as [|i ids IH]; [by apply not_elem_of_nil in Hin|].
    cbn [foldr]. apply elem_of_cons in Hin as [->|Hin]; [lia|]. specialize (IH Hin). lia.
Qed.

Definition example_run (name : string) (started : Z) : RunRecord :=
  {| run_id := 0; run_job_name := name; run_started_at := started; run_ended_at := started + 1;
     run_status := "success"; run_exit_code := 0; run_duration_ms := 1000;
     run_stdout := "ok"; run_stderr := ""; run_trigger := "manual" |}.

Definition example_db : Tables :=
  fold_left (fun db r => match insert_run NoFault r db with Ret (db', _) => db' | _ => db end)
    [example_run "a" 100; example_run "b" 50; example_run "a" 40; example_run "a" 100]
    empty_tables.

Example example_last_run :
  last_run NoFault "a" example_db = Ret (Some (stored_run 4 (example_run "a" 100))).
Proof. vm_compute. reflexivity. Qed.

(** ** Properties *)

(** The history queries return exactly the newest rows: [recent_runs]
    the newest [limit] runs of the job, newest first, [last_run] the first of
    them, [recent_alerts] the newest [limit] alerts. *)
Theorem recent_is_newest {sq : Sqlite} {L : SqliteLaws sq} name limit db :
  (0 <= limit)%Z ->
  (exists runs, recent_runs NoFault name limit db = Ret runs /\
    newest run_started_at run_id (Z.to_nat limit) (runs_of name db) runs /\
    ((0 < limit)%Z -> last_run NoFault name db = Ret (head runs))) /\
  (exists alerts, recent_alerts NoFault limit db = Ret alerts /\
    newest al_ts al_id (Z.to_nat limit) (alerts_tbl db) alerts).
Proof.
  intros Hl. split.
  - destruct (recent_runs_newest name limit db Hl) as (out & E & Hn).
    exists out. split_and!; [done|done|]. intros Hp.
    unfold recent_runs, run_query in E. rewrite limit_rows_nonneg in E by done.
    rewrite last_run_recent. injection E as <-. cbn. f_equal.
    destruct (Z.to_nat limit) eqn:?; [lia|]. by destruct (order_by _ _).
  - unfold recent_alerts, run_query. rewrite limit_rows_nonneg by done.
    eexists. split; [done|]. by apply newest_take.
Qed.

Lemma recent_is_newest_witness :
  exists runs, recent_runs NoFault "a" 2 example_db = Ret runs /\
    map run_id runs = [4; 1]%Z /\
    newest run_started_at run_id 2 (runs_of "a" example_db) runs.
Proof.
  destruct (recent_is_newest "a" 2 example_db) as [(runs & E & Hn & _) _]; [lia|].
  exists runs. split_and!; [exact E| |exact Hn].
  vm_compute in E. injection E as <-. reflexivity.
Defined.

(** [r'] holds what was bound from [r], texts up to their first NUL. *)
Definition same_run (r r' : RunRecord) : Prop :=
  run_job_name r' = c_str (run_job_name r) /\ run_started_at r' = run_started_at r /\
  run_ended_at r' = run_ended_at r /\ run_status r' = c_str (run_status r) /\
  run_exit_code r' = run_exit_code r /\ run_duration_ms r' = run_duration_ms r /\
  run_stdout r' = c_str (run_stdout r) /\ run_stderr r' = c_str (run_stderr r) /\
  run_trigger r' = c_str (run_trigger r).

(** C35: a run that started no earlier than the recorded runs of its job
    becomes that job's last run, every field as it was bound (texts up to
    their first NUL) under a fresh id; [count_runs], while the count is an
    [int], answers the number of the job's rows and one more than before, and
    no other job's last run or count changes. *)
Theorem insert_run_last_run {sq : Sqlite} {L : SqliteLaws sq} r db db' id :
  ids_ok db ->
  (forall r', r' ∈ runs_of (run_job_name r) db -> (run_started_at r' <= run_started_at r)%Z) ->
  insert_run NoFault r db = Ret (db', id) ->
  (exists r', last_run NoFault (run_job_name r) db' = Ret (Some r') /\ same_run r r' /\
     run_id r' = id) /\
  Forall (fun r' => run_id r' <> id) (runs_tbl db) /\
  (let n := Z.of_nat (length (runs_of (run_job_name r) db)) in
   (n < int_max)%Z ->
   count_runs NoFault (run_job_name r) db = Ret n /\
   count_runs NoFault (run_job_name r) db' = Ret (n + 1)%Z) /\
  (forall name, c_str name <> c_str (run_job_name r) ->
     last_run NoFault name db' = last_run NoFault name db /\
     count_runs NoFault name db' = count_runs NoFault name db).
Proof.
  intros Hids Hmax Hi.
  assert (Hfresh : forall r', r' ∈ runs_tbl db -> (run_id r' < id)%Z).
  { intros r' Hr. injection Hi as _ <-. by apply new_rowid_fresh. }
  pose proof (runs_of_insert r db db' id (run_job_name r) Hi) as E.
  rewrite String.eqb_refl in E. split_and!.
  - exists (stored_run id r). split; [|done].
    destruct (last_run_newest (run_job_name r) db') as (out & -> & Hn). f_equal.
    destruct (newest_head _ _ _ _ _ Hn) as [[_ H0]|(r0 & -> & Hr0 & Hnew)].
    { rewrite E in H0. by apply app_eq_nil in H0 as [_ ?]. }
    f_equal. rewrite E in Hr0, Hnew.
    destruct (Hnew (stored_run id r)) as [->|Hlt]; [set_solver|done|].
    apply elem_of_app in Hr0 as [Hr0|Hr0]; [|by apply list_elem_of_singleton in Hr0].
    pose proof (Hmax _ Hr0). pose proof (Hfresh _ (runs_of_incl _ _ _ Hr0)).
    unfold newer, newest_first in Hlt. cbn in Hlt. bool_lia.
  - apply Forall_forall. intros r' Hr. specialize (Hfresh _ Hr). lia.
  - intros n Hn. assert (Hn0 : (0 <= n)%Z) by lia. unfold count_runs, run_query.
    cbn [mbind outcome_mbind head default]. rewrite E, length_app. cbn [length].
    rewrite Nat2Z.inj_add. fold n.
    rewrite !wrap_int_id by (apply in_int_spec; unfold int_min, int_max in *; lia). done.
  - intros name Hne. pose proof (runs_of_insert r db db' id name Hi) as En.
    destruct (String.eqb_spec (c_str (run_job_name r)) (c_str name)); [congruence|].
    rewrite app_nil_r in En. unfold last_run, count_runs. by rewrite En.
Qed.

Lemma example_ids_ok : ids_ok example_db.
Proof.
  assert (E : map run_id (runs_tbl example_db) = [1; 2; 3; 4]%Z) by (vm_compute; reflexivity).
  unfold ids_ok. rewrite E. split.
  - repeat (apply NoDup_cons; split; [set_solver by lia|]). apply NoDup_nil_2.
  - repeat constructor.
Qed.

Lemma insert_run_last_run_witness :
  exists db' id r', insert_run NoFault (example_run "b" 60) example_db = Ret (db', id) /\
    last_run NoFault "b" db' = Ret (Some r') /\ run_ended_at r' = 61%Z.
Proof.
  eexists _, _.
  edestruct (insert_run_last_run (example_run "b" 60) example_db)
    as [(r' & E & Hr & _) _]; [apply example_ids_ok| |reflexivity|].
  - intros r' Hr. vm_compute in Hr. apply list_elem_of_singleton in Hr as ->. cbn. lia.
  - exists r'. split; [reflexivity|]. split; [exact E|apply Hr].
Defined.

(** A metric's history is its samples at or after the given time, each
    once, oldest first; and [latest_metric] is the value of a row than which
    none of that metric is newer. *)
Theorem metric_queries {sq : Sqlite} {L : SqliteLaws sq} metric since db :
  let rows := List.filter (fun r => String.eqb (m_metric r) (c_str metric)) (metrics_tbl db) in
  (exists out, metric_history NoFault metric since db = Ret out /\
     out ≡ₚ map (fun r => (m_ts r, m_value r))
                (List.filter (fun r => (since <=? m_ts r)%Z) rows) /\
     StronglySorted (fun p q => fst p <= fst q)%Z out) /\
  match latest_metric NoFault metric db with
  | Ret None => rows = []
  | Ret (Some p) => exists r, p = (m_ts r, m_value r) /\ r ∈ rows /\
      forall r', r' ∈ rows -> r' = r \/ newer m_ts m_id r r'
  | _ => False
  end.
Proof.
  intros rows. split.
  - set (sel := List.filter (fun r => String.eqb (m_metric r) (c_str metric) &&
                                      (since <=? m_ts r)%Z) (metrics_tbl db)).
    assert (E : List.filter (fun r => (since <=? m_ts r)%Z) rows = sel).
    { unfold rows, sel. induction (metrics_tbl db) as [|r l IH]; [done|]. simpl.
      destruct (String.eqb _ _); simpl; [|done]. by rewrite IH. }
    eexists. split; [reflexivity|]. rewrite E. split.
    + apply Permutation_map, order_by_perm.
    + assert (Hs : StronglySorted (fun a b => (m_ts a <=? m_ts b)%Z = true)
          (order_by (fun a b => (m_ts a <=? m_ts b)%Z) sel))
        by (apply order_by_sorted; intros; lia).
      fold sel. revert Hs. generalize (order_by (fun a b => (m_ts a <=? m_ts b)%Z) sel).
      intros l0 Hs. induction Hs as [|r l _ IH Hf]; simpl; constructor; [done|].
      apply Forall_map. eapply Forall_impl; [exact Hf|]. cbn. lia.
  - change (latest_metric NoFault metric db) with
      (Ret (option_map (fun r => (m_ts r, m_value r))
         (head (take 1 (order_by (newest_first m_ts m_id) rows))))).
    pose proof (newest_take m_ts m_id 1 rows) as Hn.
    destruct (newest_head _ _ _ _ _ Hn) as [[-> H]|(r & -> & Hr & Hnew)]; cbn; eauto.
Qed.

Definition example_metrics : Tables :=
  match insert_metric NoFault 200 "cpu" (dbl_of_Z 30) empty_tables with
  | Ret db =>
      match insert_metric NoFault 100 "cpu" (dbl_of_Z 20) db with
      | Ret db' => db'
      | _ => db
      end
  | _ => empty_tables
  end.

Lemma metric_queries_witness :
  exists out, metric_history NoFault "cpu" 50 example_metrics = Ret out /\
    out ≡ₚ [(200, dbl_of_Z 30); (100, dbl_of_Z 20)]%Z /\
    latest_metric NoFault "cpu" example_metrics = Ret (Some (200%Z, dbl_of_Z 30)).
Proof.
  destruct (metric_queries "cpu" 50 example_metrics) as [(out & E & Hp & _) _].
  exists out. split; [exact E|]. split; [rewrite Hp; vm_compute; reflexivity|].
  vm_compute. reflexivity.
Defined.

(** C25: the stored definitions behave as a map by name under any sequence of
    upserts and deletes, calls that fail leaving it unchanged: names stay
    distinct, the table is the map the calls build, and [load_job_defs] lists
    exactly its entries in the order of their names. *)
Theorem job_defs_refine_map {sq : Sqlite} {L : SqliteLaws sq} calls db :
  names_distinct (job_defs_tbl db) ->
  let db' := def_calls calls db in
  let m := def_specs calls (defs_map (job_defs_tbl db)) in
  names_distinct (job_defs_tbl db') /\
  exists out, load_job_defs NoFault db' = Ret out /\
    StronglySorted (fun a b => by_name a b = true) out /\
    names_distinct out /\
    forall name d, m !! name = Some d <-> d ∈ out /\ def_name d = name.
Proof.
  intros Hn. cbn zeta. destruct (def_calls_refine calls db Hn) as [Hd E].
  split; [done|]. eexists. split; [reflexivity|].
  set (rows := job_defs_tbl (def_calls calls db)) in *.
  pose proof (order_by_perm by_name rows) as Hp. split_and!.
  - apply by_name_sorted.
  - unfold names_distinct. eapply NoDup_Permutation_proper; [|exact Hd].
    apply Permutation_map, Hp.
  - intros name d. rewrite <- E, defs_map_lookup by done.
    assert (Hm : d ∈ order_by by_name rows <-> d ∈ rows) by (by rewrite Hp).
    split; intros [Hin En]; (split; [apply Hm, Hin|exact En]).
Qed.

Definition example_def (name cmd : string) : JobDef :=
  {| def_name := name; def_command := cmd; def_schedule_expr := "";
     def_missed_run_policy := "none"; def_timeout_seconds := 0; def_retries := 0 |}.

Lemma job_defs_refine_map_witness :
  exists out, load_job_defs NoFault (def_calls
      [(NoFault, Upsert (example_def "b" "x")); (NoFault, Upsert (example_def "a" "y"));
       (StepFails 0 "disk full", Delete "b"); (NoFault, Upsert (example_def "b" "z"))]
      empty_tables) = Ret out /\
    map def_name out = ["a"; "b"] /\ map def_command out = ["y"; "z"] /\ names_distinct out.
Proof.
  destruct (job_defs_refine_map
    [(NoFault, Upsert (example_def "b" "x")); (NoFault, Upsert (example_def "a" "y"));
     (StepFails 0 "disk full", Delete "b"); (NoFault, Upsert (example_def "b" "z"))]
    empty_tables) as (_ & out & E & _ & Hn & _); [constructor|].
  exists out. split_and!; [exact E| | |exact Hn];
    vm_compute in E; injection E as <-; reflexivity.
Defined.
