(* ===== verification/ProcessRunner.v ===== *)
(** * Running one command (daemon/src/jobs/process_runner.{hpp,cpp})

    [run_command] with the operating system as a script of what each call
    returns ([Os]): the pipes, the spawn, one [PollStep] per iteration of the
    draining loop, the wait status.  The result carries the trace of the calls
    that matter for the caller: descriptors, the kill, the wait. *)

From stdpp Require Import base option list strings.
From Stdlib Require Import Ascii ZArith Lia.
From S2P Require Import Prelude CppLib.

Open Scope string_scope.
Open Scope list_scope.

Inductive RunStatus := Success | Failed | Timeout | SpawnError.
#[export] Instance RunStatus_eq_dec : EqDecision RunStatus.
Proof. solve_decision. Defined.

Definition status_to_string (status : RunStatus) : string :=
  match status with
  | Success => "success"
  | Failed => "failed"
  | Timeout => "timeout"
  | SpawnError => "spawn_error"
  end.

Record RunResult := {
  res_status : RunStatus;
  res_exit_code : Z;
  res_started_at : Z;
  res_ended_at : Z;
  res_duration_ms : Z;
  res_stdout : string;
  res_stderr : string;
  res_stdout_truncated : bool;
  res_stderr_truncated : bool;
  res_error : string
}.

(** A result of a run that did not start. *)
Definition spawn_error (started ended : Z) (error : string) : RunResult :=
  {| res_status := SpawnError; res_exit_code := -1; res_started_at := started;
     res_ended_at := ended; res_duration_ms := 0; res_stdout := ""; res_stderr := "";
     res_stdout_truncated := false; res_stderr_truncated := false; res_error := error |}.

(** ** Capped capture *)

Definition kMaxCapture : nat := 64 * 1024.
#[global] Opaque kMaxCapture.

(** The buffer and the [truncated] flag after the append, and the result. *)
Definition append_capped (buf data : string) (truncated : bool) : string * bool * bool :=
  if Nat.leb kMaxCapture (String.length buf) then (buf, true, false)
  else
    let room := kMaxCapture - String.length buf in
    let n := String.length data in
    let take := if Nat.ltb n room then n else room in
    let buf' := buf +:+ str_take take data in
    if Nat.ltb take n then (buf', true, false) else (buf', truncated, true).

Record Stream := { text : string; truncated : bool; reading : bool }.

Definition open_stream : Stream := {| text := ""; truncated := false; reading := true |}.

(** What [read] returns: at end of file or on error a count that is not
    positive, otherwise that many bytes. *)
Inductive read_result := Eof | Data (bytes : string).

(** The [drain] lambda on one stream: nothing if it is not polled or not
    ready. *)
Definition drain (ready : option read_result) (s : Stream) : Stream :=
  if reading s then
    match ready with
    | None => s
    | Some Eof => {| text := text s; truncated := truncated s; reading := false |}
    | Some (Data d) =>
        let '(buf, tr, ok) := append_capped (text s) d (truncated s) in
        {| text := buf; truncated := tr; reading := ok |}
    end
  else s.

(** ** System calls *)

Inductive fd := OutRead | OutWrite | ErrRead | ErrWrite.

Inductive sys_call :=
| CPipe (r w : fd)
| CSpawn (argv : list string)
| CKill                       (* kill(-pid, SIGKILL) *)
| CClose (f : fd)
| CWait.

(** ** The draining loop *)

Inductive poll_result :=
| PollError (eintr : bool)
| PollTimeout
| PollReady (out err : option read_result).

(** One iteration: whole seconds since the start when the timeout is
    computed, then what [poll] (and the reads) return. *)
Record PollStep := { elapsed_s : Z; polled : poll_result }.

Record Drain := {
  out : Stream;
  err : Stream;
  timed_out : bool;
  killed : bool;
  calls : list sys_call          (* the calls of the loop, the reads apart *)
}.

Definition drain_start : Drain :=
  {| out := open_stream; err := open_stream; timed_out := false; killed := false; calls := [] |}.

Definition poll_timeout (timeout_seconds : Z) (killed : bool) (elapsed : Z) : Z :=
  if (0 <? timeout_seconds)%Z && negb killed then
    let ms := ((timeout_seconds - elapsed) * 1000)%Z in
    if (0 <? ms)%Z then wrap_int ms else 0%Z
  else (-1)%Z.

Definition looping (d : Drain) : bool := reading (out d) || reading (err d).

(** The loop body; [None] is [break]. *)
Definition poll_step (p : poll_result) (d : Drain) : option Drain :=
  match p with
  | PollError true => Some d
  | PollError false => None
  | PollTimeout =>
      if killed d then
        Some {| out := out d; err := err d; timed_out := true; killed := true; calls := calls d |}
      else
        Some {| out := out d; err := err d; timed_out := true; killed := true;
                calls := calls d ++ [CKill] |}
  | PollReady o e =>
      Some {| out := drain o (out d); err := drain e (err d);
              timed_out := timed_out d; killed := killed d; calls := calls d |}
  end.

(** The loop over the script: its final state and the steps left over, or
    [None] while it is still waiting for more. *)
Fixpoint drain_loop (steps : list PollStep) (d : Drain) : option (Drain * list PollStep) :=
  if looping d then
    match steps with
    | [] => None
    | s :: steps' =>
        match poll_step (polled s) d with
        | None => Some (d, steps')
        | Some d' => drain_loop steps' d'
        end
    end
  else Some (d, steps).

(** ** [run_command] *)

(** [waitpid] blocks for as long as the child lives; if it fails the status
    variable keeps its 0. *)
Inductive wait_result := WaitHangs | WaitFails | WaitStatus (status : Z).

Record Os := {
  os_started : Z;                    (* std::time *)
  os_ended : Z;
  os_pipe_out : option string;       (* strerror, if it fails *)
  os_pipe_err : option string;
  os_spawn : option string;
  os_steps : list PollStep;
  os_wait : wait_result;
  os_duration_ms : Z
}.

Definition wifexited (st : Z) : bool := (Z.land st 127 =? 0)%Z.
Definition wexitstatus (st : Z) : Z := Z.land (Z.shiftr st 8) 255.
Definition wtermsig (st : Z) : Z := Z.land st 127.
Definition wifsignaled (st : Z) : bool :=
  negb (Z.land st 127 =? 127)%Z && negb (Z.land st 127 =? 0)%Z.

Definition SIGKILL : Z := 9.

(** Status and exit code of a process that ran. *)
Definition classify (timed_out : bool) (status : Z) : RunStatus * Z :=
  if timed_out then (Timeout, (- SIGKILL)%Z)
  else if wifexited status then
    let code := wexitstatus status in
    ((if (code =? 0)%Z then Success else Failed), code)
  else if wifsignaled status then (Failed, (- wtermsig status)%Z)
  else (Failed, (-1)%Z).

Definition waited (w : wait_result) : option Z :=
  match w with
  | WaitHangs => None
  | WaitFails => Some 0%Z
  | WaitStatus st => Some st
  end.

(** [None]: the call never returns. *)
Definition run_command (os : Os) (command : string) (timeout_seconds : Z)
    : option (RunResult * list sys_call) :=
  match os_pipe_out os, os_pipe_err os with
  | Some e, _ => Some (spawn_error (os_started os) (os_ended os) ("pipe(): " +:+ e), [])
  | None, Some e =>
      Some (spawn_error (os_started os) (os_ended os) ("pipe(): " +:+ e),
            [CPipe OutRead OutWrite])
  | None, None =>
      let opened := [CPipe OutRead OutWrite; CPipe ErrRead ErrWrite;
                     CSpawn ["/bin/sh"; "-c"; c_str command];
                     CClose OutWrite; CClose ErrWrite] in
      match os_spawn os with
      | Some e =>
          Some (spawn_error (os_started os) (os_ended os) ("posix_spawn(): " +:+ e),
                opened ++ [CClose OutRead; CClose ErrRead])
      | None =>
          match drain_loop (os_steps os) drain_start with
          | None => None
          | Some (d, _) =>
              match waited (os_wait os) with
              | None => None
              | Some status =>
              let '(st, code) := classify (timed_out d) status in
              Some ({| res_status := st; res_exit_code := code;
                       res_started_at := os_started os; res_ended_at := os_ended os;
                       res_duration_ms := os_duration_ms os;
                       res_stdout := text (out d); res_stderr := text (err d);
                       res_stdout_truncated := truncated (out d);
                       res_stderr_truncated := truncated (err d); res_error := "" |},
                    opened ++ calls d ++ [CClose OutRead; CClose ErrRead; CWait])
              end
          end
      end
  end.

(** What the system may answer: [poll] times out only if it was given a
    timeout, and when it reports readiness some polled stream has data or is
    at its end. *)
Definition delivers (r : option read_result) (s : Stream) : bool :=
  reading s && match r with
               | None => false
               | Some Eof => true
               | Some (Data d) => negb (str_empty d)
               end.

Definition nonempty_read (r : option read_result) : bool :=
  match r with Some (Data d) => negb (str_empty d) | _ => true end.

Definition step_ok (timeout_seconds : Z) (d : Drain) (s : PollStep) : bool :=
  match polled s with
  | PollError _ => true
  | PollTimeout => (0 <=? poll_timeout timeout_seconds (killed d) (elapsed_s s))%Z
  | PollReady o e =>
      (delivers o (out d) || delivers e (err d)) && nonempty_read o && nonempty_read e
  end.

(** Every step is one the system may take in the state the loop is in. *)
Fixpoint steps_ok (timeout_seconds : Z) (steps : list PollStep) (d : Drain) : bool :=
  if looping d then
    match steps with
    | [] => true
    | s :: steps' =>
        step_ok timeout_seconds d s &&
        match poll_step (polled s) d with
        | None => true
        | Some d' => steps_ok timeout_seconds steps' d'
        end
    end
  else true.

(** ** Capture *)

(** What a stream delivers before its end of file. *)
Fixpoint received (rs : list (option read_result)) : string :=
  match rs with
  | [] => ""
  | None :: rs' => received rs'
  | Some Eof :: _ => ""
  | Some (Data d) :: rs' => d +:+ received rs'
  end.

(** The end of a stream was read. *)
Definition ended (rs : list (option read_result)) : bool :=
  existsb (fun r => match r with Some Eof => true | _ => false end) rs.

Definition ready_out (s : PollStep) : option read_result :=
  match polled s with PollReady o _ => o | _ => None end.
Definition ready_err (s : PollStep) : option read_result :=
  match polled s with PollReady _ e => e | _ => None end.
Definition is_timeout (s : PollStep) : bool :=
  match polled s with PollTimeout => true | _ => false end.

Definition drain_all (rs : list (option read_result)) (s : Stream) : Stream :=
  fold_left (fun s r => drain r s) rs s.

Lemma append_capped_spec buf d tr :
  String.length buf <= kMaxCapture -> str_empty d = false ->
  append_capped buf d tr =
    (str_take kMaxCapture (buf +:+ d),
     tr || Nat.ltb kMaxCapture (String.length (buf +:+ d)),
     Nat.leb (String.length (buf +:+ d)) kMaxCapture).
Proof.
  intros Hb Hd. unfold append_capped. generalize kMaxCapture as cap, Hb. clear Hb.
  intros cap Hb. rewrite str_app_length.
  assert (0 < String.length d) by (destruct d; simpl in *; [done|lia]).
  destruct (Nat.leb_spec cap (String.length buf)).
  { rewrite str_take_app_le, str_take_ge by lia.
    rewrite (proj2 (Nat.ltb_lt cap _)), (proj2 (Nat.leb_gt _ cap)) by lia.
    by rewrite orb_true_r. }
  rewrite str_take_app_ge by lia.
  destruct (Nat.ltb_spec (String.length d) (cap - String.length buf)) as [Hr|Hr].
  - rewrite Nat.ltb_irrefl, !str_take_ge by lia.
    rewrite (proj2 (Nat.ltb_ge cap _)), (proj2 (Nat.leb_le _ cap)) by lia.
    by rewrite orb_false_r.
  - destruct (Nat.ltb_spec (cap - String.length buf) (String.length d)).
    + rewrite (proj2 (Nat.ltb_lt cap _)), (proj2 (Nat.leb_gt _ cap)) by lia.
      by rewrite orb_true_r.
    + rewrite (proj2 (Nat.ltb_ge cap _)), (proj2 (Nat.leb_le _ cap)) by lia.
      by rewrite orb_false_r.
Qed.

Lemma drain_None s : drain None s = s.
Proof. unfold drain. by destruct (reading s). Qed.

Lemma drain_all_stopped rs s : reading s = false -> drain_all rs s = s.
Proof.
  intros Hs. induction rs as [|r rs IH]; [done|]. unfold drain_all in *. simpl.
  unfold drain at 2. by rewrite Hs.
Qed.

Lemma drain_all_spec rs s :
  reading s = true -> truncated s = false -> String.length (text s) <= kMaxCapture ->
  forallb nonempty_read rs = true ->
  text (drain_all rs s) = str_take kMaxCapture (text s +:+ received rs) /\
  truncated (drain_all rs s) = Nat.ltb kMaxCapture (String.length (text s +:+ received rs)).
Proof.
  revert s. induction rs as [|[[|d]|] rs IH]; intros s Hr Ht Hl Hn.
  - cbn [received]. rewrite str_app_nil_r, str_take_ge by done.
    split; [done|]. cbn. rewrite Ht. symmetry. by apply Nat.ltb_ge.
  - cbn [drain_all fold_left]. unfold drain at 2 4. rewrite Hr.
    fold (drain_all rs). rewrite drain_all_stopped by done. cbn [received text truncated].
    rewrite str_app_nil_r, str_take_ge by done. split; [done|]. rewrite Ht. symmetry.
    by apply Nat.ltb_ge.
  - cbn [forallb nonempty_read] in Hn. apply andb_true_iff in Hn as [Hd%negb_true_iff Hn].
    cbn [drain_all fold_left received]. unfold drain at 2 4. rewrite Hr.
    rewrite append_capped_spec, Ht by done. fold (drain_all rs). rewrite str_app_assoc.
    destruct (Nat.leb_spec (String.length (text s +:+ d)) kMaxCapture) as [Hle|Hgt].
    + rewrite str_take_ge by done. cbn [orb].
      apply IH; cbn [reading truncated text]; try done. by apply Nat.ltb_ge.
    + rewrite drain_all_stopped by done. cbn [text truncated orb].
      split; [symmetry; apply str_take_app_le; lia|].
      rewrite (proj2 (Nat.ltb_lt _ _)) by done. symmetry. apply Nat.ltb_lt.
      rewrite str_app_length. lia.
  - cbn [drain_all fold_left received]. unfold drain at 2 4. rewrite Hr.
    apply IH; try done.
Qed.

(** A stream is given up only at its end, or when it has delivered more than
    is kept. *)
Lemma drain_all_over rs s :
  reading s = true -> String.length (text s) <= kMaxCapture ->
  forallb nonempty_read rs = true -> reading (drain_all rs s) = false ->
  ended rs = true \/ kMaxCapture < String.length (text s +:+ received rs).
Proof.
  revert s. induction rs as [|[[|d]|] rs IH]; intros s Hr Hl Hn; cbn [drain_all fold_left].
  - congruence.
  - by left.
  - cbn [forallb nonempty_read] in Hn. apply andb_true_iff in Hn as [Hd%negb_true_iff Hn].
    unfold drain at 2. rewrite Hr, append_capped_spec by done. fold (drain_all rs).
    cbn [received]. rewrite str_app_assoc.
    destruct (Nat.leb_spec (String.length (text s +:+ d)) kMaxCapture) as [Hle|Hgt].
    + rewrite str_take_ge by done. intros Hf. cbn [ended existsb orb].
      eapply IH in Hf; [|done..]. exact Hf.
    + intros _. right. rewrite str_app_length. lia.
  - unfold drain at 2. rewrite Hr. fold (drain_all rs). cbn [ended existsb orb received].
    by apply IH.
Qed.

(** ** The loop *)

Definition is_break (s : PollStep) : bool :=
  match polled s with PollError false => true | _ => false end.

Lemma drain_loop_split timeout steps d d' rest :
  drain_loop steps d = Some (d', rest) -> steps_ok timeout steps d = true ->
  exists used, steps = used ++ rest /\
    out d' = drain_all (map ready_out used) (out d) /\
    err d' = drain_all (map ready_err used) (err d) /\
    timed_out d' = timed_out d || existsb is_timeout used /\
    killed d' = killed d || existsb is_timeout used /\
    calls d' = calls d ++ (if negb (killed d) && killed d' then [CKill] else []) /\
    (looping d' = false \/ existsb is_break used = true) /\
    forallb nonempty_read (map ready_out used) = true /\
    forallb nonempty_read (map ready_err used) = true.
Proof.
  revert d. induction steps as [|s steps IH]; intros d; simpl;
    destruct (looping d) eqn:El; intros H Hok; try discriminate H.
  1, 3: injection H as <- <-; exists []; rewrite ?orb_false_r;
    (split_and!; try done; [by destruct (killed d); rewrite app_nil_r|by left]).
  apply andb_true_iff in Hok as [Hs Hok].
  destruct (poll_step (polled s) d) as [d1|] eqn:Ep.
  - destruct (IH d1 H Hok) as (used & -> & Ho & He & Ht & Hk & Hc & Hl & Hno & Hne).
    exists (s :: used). unfold step_ok in Hs.
    unfold ready_out, ready_err in *. cbn [map existsb forallb drain_all fold_left app].
    assert (Hl' : looping d' = false \/ is_break s || existsb is_break used = true)
      by (destruct Hl as [|Hl]; [by left|right; by rewrite Hl, orb_true_r]).
    assert (Et : is_timeout s = match polled s with PollTimeout => true | _ => false end)
      by done.
    rewrite Et. destruct (polled s) as [[]| |o e] eqn:Es; simplify_eq/=.
    + by rewrite !drain_None.
    + destruct (killed d) eqn:Ekd; injection Ep as <-; cbn in *; rewrite !drain_None, Ht, ?Hk, ?Hc, ?orb_true_r;
        cbn; rewrite ?app_nil_r; done.
    + apply andb_true_iff in Hs as [Hs ->]; apply andb_true_iff in Hs as [_ ->]. done.
  - injection H as <- <-. exists [s].
    unfold ready_out, ready_err, is_timeout, is_break. simpl.
    destruct (polled s) as [[]| |]; simplify_eq/=; [|by destruct (killed d)].
    rewrite !drain_None, !orb_false_r. split_and!; try done; [by destruct (killed d); rewrite app_nil_r|by right].
Qed.

(** ** Termination *)

(** How many deliveries a stream still takes. *)
Definition room (s : Stream) : nat :=
  if reading s then S (kMaxCapture - String.length (text s)) else 0.

Definition measure (d : Drain) : nat :=
  room (out d) + room (err d) + (if killed d then 0 else 1).

Definition stream_ok (s : Stream) : Prop :=
  reading s = true -> String.length (text s) <= kMaxCapture.

Lemma drain_room r s :
  stream_ok s -> nonempty_read r = true ->
  stream_ok (drain r s) /\ room (drain r s) <= room s /\
  (delivers r s = true -> room (drain r s) < room s).
Proof.
  unfold stream_ok, room, delivers, drain. intros Hs Hn.
  destruct (reading s) eqn:Hr; rewrite ?Hr; [|repeat split; auto; discriminate].
  destruct r as [[|d]|]; cbn [reading andb]; rewrite ?Hr; try (repeat split; auto; lia).
  cbn in Hn. apply negb_true_iff in Hn as Hd. rewrite append_capped_spec by auto.
  specialize (Hs eq_refl). cbn [reading text].
  assert (0 < String.length d) by (destruct d; simpl in *; [done|lia]).
  rewrite Hn. rewrite str_app_length.
  destruct (Nat.leb_spec (String.length (text s) + String.length d) kMaxCapture);
    [|repeat split; auto; lia].
  rewrite str_take_ge by (rewrite str_app_length; lia).
  rewrite str_app_length. repeat split; auto; lia.
Qed.

Lemma poll_step_measure timeout s d d' :
  stream_ok (out d) -> stream_ok (err d) -> step_ok timeout d s = true ->
  poll_step (polled s) d = Some d' ->
  stream_ok (out d') /\ stream_ok (err d') /\
  (if match polled s with PollError _ => true | _ => false end
   then measure d' <= measure d else measure d' < measure d).
Proof.
  unfold step_ok, measure. intros Ho He Hok H.
  destruct (polled s) as [[]| |o e]; simplify_eq/=; [done| |].
  - destruct (killed d); injection H as <-; cbn; [|split_and!; auto; lia].
    exfalso. unfold poll_timeout in Hok. rewrite andb_false_r in Hok. lia.
  - apply andb_true_iff in Hok as [Hok Hne]. apply andb_true_iff in Hok as [Hd Hno].
    destruct (drain_room o (out d) Ho Hno) as (? & ? & Hlo).
    destruct (drain_room e (err d) He Hne) as (? & ? & Hle).
    split_and!; auto. apply orb_true_iff in Hd as [Hd|Hd].
    + specialize (Hlo Hd). lia.
    + specialize (Hle Hd). lia.
Qed.

(** The iterations that are not interrupted calls. *)
Definition effective (s : PollStep) : bool :=
  match polled s with PollError _ => false | _ => true end.

Lemma drain_loop_exits timeout steps d :
  stream_ok (out d) -> stream_ok (err d) -> steps_ok timeout steps d = true ->
  measure d <= length (List.filter effective steps) ->
  is_Some (drain_loop steps d).
Proof.
  revert d. induction steps as [|s steps IH]; intros d Ho He Hok Hm; simpl in *;
    destruct (looping d) eqn:Hl; eauto.
  - unfold looping in Hl. unfold measure, room in Hm.
    destruct (reading (out d)), (reading (err d)), (killed d); simpl in *; try done; lia.
  - apply andb_true_iff in Hok as [Hs Hok].
    destruct (poll_step (polled s) d) as [d'|] eqn:Ep; [|eauto].
    destruct (poll_step_measure _ _ _ _ Ho He Hs Ep) as (Ho' & He' & Hlt).
    apply IH; auto. unfold effective in Hm at 1.
    destruct (polled s); simpl in *; lia.
Qed.

Lemma measure_start : measure drain_start = 2 * (kMaxCapture + 1) + 1.
Proof. unfold measure, room. cbn [reading text drain_start open_stream out err killed String.length]. lia. Qed.

Lemma start_ok : stream_ok open_stream.
Proof. intros _. cbn. lia. Qed.

(** ** Runs that were started *)

(** No pipe or spawn failed. *)
Definition started (os : Os) : Prop :=
  os_pipe_out os = None /\ os_pipe_err os = None /\ os_spawn os = None.

Lemma run_command_started os command timeout r tr :
  started os -> run_command os command timeout = Some (r, tr) ->
  exists d rest status,
    drain_loop (os_steps os) drain_start = Some (d, rest) /\
    waited (os_wait os) = Some status /\
    (res_status r, res_exit_code r) = classify (timed_out d) status /\
    res_stdout r = text (out d) /\ res_stdout_truncated r = truncated (out d) /\
    res_stderr r = text (err d) /\ res_stderr_truncated r = truncated (err d) /\
    tr = [CPipe OutRead OutWrite; CPipe ErrRead ErrWrite;
          CSpawn ["/bin/sh"; "-c"; c_str command]; CClose OutWrite; CClose ErrWrite]
         ++ calls d ++ [CClose OutRead; CClose ErrRead; CWait].
Proof.
  intros (Ho & He & Hs). unfold run_command. rewrite Ho, He, Hs.
  destruct (drain_loop _ _) as [[d rest]|] eqn:Ed; [|done].
  destruct (waited _) as [status|] eqn:Ew; [|done].
  destruct (classify _ _) as [st code] eqn:Ec. intros H. injection H as <- <-.
  exists d, rest, status. cbn. by rewrite Ec.
Qed.

Lemma timeout_positive timeout steps d d' rest :
  drain_loop steps d = Some (d', rest) -> steps_ok timeout steps d = true ->
  timed_out d' = true -> timed_out d = true \/ (0 < timeout)%Z.
Proof.
  revert d. induction steps as [|s steps IH]; intros d; simpl;
    destruct (looping d); intros H Hok Ht; simplify_eq; auto.
  apply andb_true_iff in Hok as [Hs Hok].
  destruct (poll_step (polled s) d) as [d1|] eqn:Ep; [|simplify_eq; auto].
  destruct (IH d1 H Hok Ht) as [Hd1|]; [|auto].
  unfold step_ok in Hs. destruct (polled s) as [[]| |]; simplify_eq/=; auto.
  unfold poll_timeout in Hs. destruct (Z.ltb_spec 0 timeout); [auto|]. simpl in Hs. lia.
Qed.

Lemma land_127 z : (0 <= Z.land z 127 <= 127)%Z.
Proof.
  change 127%Z with (Z.ones 7). rewrite Z.land_ones by lia. change (Z.ones 7) with 127%Z.
  pose proof (Z.mod_pos_bound z (2 ^ 7) eq_refl). lia.
Qed.

Lemma land_255 z : (0 <= Z.land z 255 <= 255)%Z.
Proof.
  change 255%Z with (Z.ones 8). rewrite Z.land_ones by lia. change (Z.ones 8) with 255%Z.
  pose proof (Z.mod_pos_bound z (2 ^ 8) eq_refl). lia.
Qed.

(** The report of a run that was not timed out. *)
Lemma classify_false status st code :
  classify false status = (st, code) ->
  (st = Success <-> code = 0%Z) /\ st <> Timeout /\ st <> SpawnError /\
  (-126 <= code <= 255)%Z.
Proof.
  unfold classify, wifexited, wifsignaled, wtermsig, wexitstatus.
  pose proof (land_127 status). pose proof (land_255 (Z.shiftr status 8)).
  destruct (Z.eqb_spec (Z.land status 127) 0); [destruct (Z.eqb_spec (Z.land (Z.shiftr status 8) 255) 0)|destruct (Z.eqb_spec (Z.land status 127) 127)];
    simpl; intros [= <- <-]; split_and!; try done; try lia; split; try done; lia.
Qed.

(** The wait status of a process that exits, or is ended by a signal (with
    or without a core file). *)
Definition exit_status (code : Z) : Z := Z.shiftl code 8.
Definition signal_status (sig : Z) (core : bool) : Z := sig + (if core then 128 else 0).

Lemma land_127_mod z : Z.land z 127 = (z mod 128)%Z.
Proof. change 127%Z with (Z.ones 7). by rewrite Z.land_ones by lia. Qed.

Lemma classify_exit code :
  (0 <= code <= 255)%Z ->
  classify false (exit_status code) = (if (code =? 0)%Z then Success else Failed, code).
Proof.
  intros Hc. unfold classify, wifexited, wexitstatus, exit_status.
  rewrite land_127_mod, Z.shiftr_shiftl_l, Z.shiftl_0_r, Z.shiftl_mul_pow2 by lia.
  change (2 ^ 8)%Z with (2 * 128)%Z. rewrite Z.mul_assoc, Z.mod_mul by lia.
  change 255%Z with (Z.ones 8). rewrite Z.land_ones, Z.mod_small by lia. done.
Qed.

Lemma classify_signal sig core :
  (1 <= sig <= 126)%Z -> classify false (signal_status sig core) = (Failed, (- sig)%Z).
Proof.
  intros Hs. assert (E : Z.land (signal_status sig core) 127 = sig).
  { rewrite land_127_mod. unfold signal_status.
    destruct core; [change (sig + 128)%Z with (sig + 1 * 128)%Z; rewrite Z.mod_add by lia|rewrite Z.add_0_r];
      apply Z.mod_small; lia. }
  unfold classify, wifexited, wifsignaled, wtermsig. rewrite E.
  destruct (Z.eqb_spec sig 0); [lia|]. destruct (Z.eqb_spec sig 127); [lia|done].
Qed.

Definition count_calls (p : sys_call -> bool) (tr : list sys_call) : nat :=
  length (List.filter p tr).
Definition is_kill (c : sys_call) : bool := match c with CKill => true | _ => false end.
Definition fd_eqb (a b : fd) : bool :=
  match a, b with
  | OutRead, OutRead | OutWrite, OutWrite | ErrRead, ErrRead | ErrWrite, ErrWrite => true
  | _, _ => false
  end.
Definition closes (f : fd) (c : sys_call) : bool :=
  match c with CClose g => fd_eqb f g | _ => false end.

(** A system that runs a command: it prints, is silent, is killed at its
    deadline, and the streams end. *)
Definition example_os (steps : list poll_result) (w : wait_result) : Os :=
  {| os_started := 100; os_ended := 105; os_pipe_out := None; os_pipe_err := None;
     os_spawn := None; os_steps := (fun p => {| elapsed_s := 0; polled := p |}) <$> steps;
     os_wait := w; os_duration_ms := 5000 |}.

Definition talk_then_hang : list poll_result :=
  [PollReady (Some (Data "he")) None; PollError true;
   PollReady (Some (Data "llo")) (Some (Data "warn")); PollTimeout;
   PollReady (Some Eof) (Some Eof)].

(** ** Properties *)

(** The loop was done with a stream: it read its end, or more than is kept. *)
Definition read_out (rs : list (option read_result)) : Prop :=
  ended rs = true \/ kMaxCapture < String.length (received rs).

(** C17: of each stream of a command that was started the result holds exactly
    the first 64 KiB of what its reads delivered before its end, and the
    truncation flag tells whether there was more, however the bytes were split
    over reads and interleaved.  Unless [poll] fails, each of the two streams
    has been read to its end or beyond the 64 KiB, whichever ends first. *)
Theorem capture_is_prefix os command timeout r tr :
  started os -> steps_ok timeout (os_steps os) drain_start = true ->
  run_command os command timeout = Some (r, tr) ->
  exists used rest, os_steps os = used ++ rest /\
    (let o := received (map ready_out used) in
     res_stdout r = str_take kMaxCapture o /\
     res_stdout_truncated r = Nat.ltb kMaxCapture (String.length o)) /\
    (let e := received (map ready_err used) in
     res_stderr r = str_take kMaxCapture e /\
     res_stderr_truncated r = Nat.ltb kMaxCapture (String.length e)) /\
    (existsb is_break used = true \/
     read_out (map ready_out used) /\ read_out (map ready_err used)).
Proof.
  intros Hst Hok H.
  destruct (run_command_started _ _ _ _ _ Hst H)
    as (d & rest & status & Hd & _ & _ & -> & -> & -> & -> & _).
  destruct (drain_loop_split _ _ _ _ _ Hd Hok)
    as (used & Hu & Eo & Ee & _ & _ & _ & Hl & Hno & Hne). rewrite Eo, Ee.
  exists used, rest. split; [done|].
  split_and!; try (apply (drain_all_spec _ open_stream); auto; cbn; lia).
  destruct Hl as [Hl|Hl]; [right|by left]. unfold looping in Hl. rewrite Eo, Ee in Hl.
  apply orb_false_iff in Hl as [H1 H2].
  split; by apply (drain_all_over _ open_stream); [|cbn; lia|..].
Qed.

Lemma capture_is_prefix_witness :
  exists r tr, run_command (example_os talk_then_hang (WaitStatus 9)) "job" 5 = Some (r, tr) /\
    exists used rest, os_steps (example_os talk_then_hang (WaitStatus 9)) = used ++ rest /\
      res_stdout r = str_take kMaxCapture (received (map ready_out used)) /\ res_stdout r = "hello".
Proof.
  eexists _, _. split; [vm_compute; reflexivity|].
  destruct (capture_is_prefix (example_os talk_then_hang (WaitStatus 9)) "job" 5 _ _
    (conj eq_refl (conj eq_refl eq_refl)) eq_refl ltac:(vm_compute; reflexivity))
    as (used & rest & Hu & [Ho _] & _ & _).
  exists used, rest. split; [exact Hu|]. split; [exact Ho|reflexivity].
Defined.

(** C18: the draining loop ends: each stream takes at most 64 KiB + 1
    deliveries and the kill happens once, so among any 131,075 iterations that
    are not interrupted calls it exits; [run_command] then returns as soon as
    the child is waited for. *)
Theorem run_command_returns os command timeout :
  started os -> steps_ok timeout (os_steps os) drain_start = true ->
  2 * (kMaxCapture + 1) + 1 <= length (List.filter effective (os_steps os)) ->
  is_Some (drain_loop (os_steps os) drain_start) /\
  (os_wait os <> WaitHangs -> is_Some (run_command os command timeout)).
Proof.
  intros (Ho & He & Hs) Hok Hn.
  assert (Hx : is_Some (drain_loop (os_steps os) drain_start)).
  { apply (drain_loop_exits timeout); [apply start_ok|apply start_ok|exact Hok|].
    rewrite measure_start. lia. }
  split; [done|]. intros Hw. destruct Hx as [[d rest] Hd].
  unfold run_command. rewrite Ho, He, Hs, Hd.
  destruct (os_wait os); cbn; [done| |]; destruct (classify _ _); eauto.
Qed.

Definition long_script : list poll_result :=
  talk_then_hang ++ repeat (PollReady (Some Eof) (Some Eof)) (2 * (kMaxCapture + 1) + 1).

Lemma run_command_returns_witness :
  is_Some (run_command (example_os long_script (WaitStatus 13)) "talk" 5).
Proof.
  apply (run_command_returns (example_os long_script (WaitStatus 13)) "talk" 5);
    [done|vm_compute; reflexivity| |done].
  apply Nat.leb_le. vm_compute. reflexivity.
Defined.

(** C16: a command whose pipes and process could be created.  Its process group
    is killed at most once, exactly in the runs reported as timeouts;
    otherwise the report is what the child ended with: its exit code, success
    exactly for 0, or failure with the negated signal.  The child is waited
    for, and each of the four descriptors is closed once. *)
Theorem run_command_result os command timeout r tr :
  started os -> steps_ok timeout (os_steps os) drain_start = true ->
  run_command os command timeout = Some (r, tr) ->
  count_calls is_kill tr = (if decide (res_status r = Timeout) then 1 else 0) /\
  (res_status r = Timeout -> res_exit_code r = (-9)%Z /\ (0 < timeout)%Z) /\
  (res_status r = Success <-> res_status r <> Timeout /\ res_exit_code r = 0%Z) /\
  (forall code, (0 <= code <= 255)%Z -> os_wait os = WaitStatus (exit_status code) ->
     res_status r <> Timeout -> res_exit_code r = code) /\
  (forall sig core, (1 <= sig <= 126)%Z -> os_wait os = WaitStatus (signal_status sig core) ->
     res_status r <> Timeout -> res_status r = Failed /\ res_exit_code r = (- sig)%Z) /\
  (-126 <= res_exit_code r <= 255)%Z /\
  res_status r <> SpawnError /\
  (forall f, count_calls (closes f) tr = 1) /\
  last tr = Some CWait.
Proof.
  intros Hst Hok H.
  destruct (run_command_started _ _ _ _ _ Hst H)
    as (d & rest & status & Hd & Hw & Hc & _ & _ & _ & _ & ->).
  destruct (drain_loop_split _ _ _ _ _ Hd Hok) as (used & _ & _ & _ & Ht & Hk & Ec & _).
  cbn [timed_out killed calls drain_start orb negb andb app] in Ht, Hk, Ec.
  rewrite <- Ht in Hk. rewrite Hk in Ec. rewrite Ec.
  pose proof (timeout_positive _ _ _ _ _ Hd Hok) as Hp.
  destruct (timed_out d).
  - injection Hc as -> ->. split_and!; try done.
    + intros _. split; [done|]. by destruct (Hp eq_refl).
    + naive_solver.
    + intros f. by destruct f.
  - symmetry in Hc. destruct (classify_false _ _ _ Hc) as (Hs & Hnt & Hns & Hr).
    rewrite decide_False by done. split_and!; try done; try lia.
    + tauto.
    + intros code Hr0 E _. rewrite E in Hw. injection Hw as <-.
      rewrite classify_exit in Hc by done. by injection Hc.
    + intros sig core Hr0 E _. rewrite E in Hw. injection Hw as <-.
      rewrite classify_signal in Hc by done. by injection Hc.
    + intros f. by destruct f.
Qed.

Lemma run_command_result_witness :
  exists r tr, run_command (example_os talk_then_hang (WaitStatus 9)) "job" 5 = Some (r, tr) /\
    res_status r = Timeout /\ count_calls is_kill tr = 1 /\ res_exit_code r = (-9)%Z.
Proof.
  eexists _, _. split; [vm_compute; reflexivity|].
  destruct (run_command_result (example_os talk_then_hang (WaitStatus 9)) "job" 5 _ _
    (conj eq_refl (conj eq_refl eq_refl)) eq_refl ltac:(vm_compute; reflexivity))
    as (Hk & Ht & _).
  split; [reflexivity|]. split; [exact Hk|]. exact (proj1 (Ht eq_refl)).
Defined.

(** While no kill was sent, the deadline a poll is given lies at or after
    the requested timeout and less than a second beyond it ([elapsed] in
    milliseconds), for every timeout up to 2,147,483 seconds. *)
Theorem deadline_window timeout elapsed :
  (0 < timeout <= 2147483)%Z -> (0 <= elapsed)%Z ->
  let wait := poll_timeout timeout false (elapsed / 1000) in
  (0 <= wait)%Z /\
  (elapsed < 1000 * timeout -> 1000 * timeout <= elapsed + wait < 1000 * (timeout + 1))%Z /\
  (1000 * timeout <= elapsed -> wait = 0)%Z.
Proof.
  intros Ht He. unfold poll_timeout. cbn [negb andb].
  pose proof (Z.div_mod elapsed 1000 ltac:(lia)) as E.
  pose proof (Z.mod_pos_bound elapsed 1000 eq_refl) as Hm.
  set (q := (elapsed / 1000)%Z) in *. rewrite (proj2 (Z.ltb_lt 0 timeout)) by lia. cbn [andb].
  destruct (Z.ltb_spec 0 ((timeout - q) * 1000)).
  - rewrite wrap_int_id by (apply in_int_spec; unfold int_min, int_max; lia). lia.
  - lia.
Qed.

Lemma deadline_window_witness :
  let wait := poll_timeout 5 false (4900 / 1000) in (5000 <= 4900 + wait < 6000)%Z.
Proof. apply (deadline_window 5 4900); lia. Defined.

(** Beyond that range the deadline is not the requested one: a timeout
    of 4,294,968 seconds (seven weeks) gives the poll 704 milliseconds, after
    which a silent command is killed and reported as timed out. *)
Theorem long_timeout_wraps :
  poll_timeout 4294968 false 0 = 704%Z /\
  exists r tr, run_command (example_os [PollTimeout; PollReady (Some Eof) (Some Eof)]
                              (WaitStatus 9)) "sleep 60" 4294968 = Some (r, tr) /\
    steps_ok 4294968 (os_steps (example_os [PollTimeout; PollReady (Some Eof) (Some Eof)]
                              (WaitStatus 9))) drain_start = true /\
    res_status r = Timeout /\ count_calls is_kill tr = 1.
Proof. split; [reflexivity|]. eexists _, _. split; [vm_compute; reflexivity|]. done. Qed.

(** A timeout is only enforced while a stream is read: once both have
    ended or filled, no kill is ever sent.  A command that closes its output
    and goes on is waited for without limit whatever its timeout, and when it
    does end the run is reported by its exit code, not as a timeout. *)
Theorem timeout_lost_without_streams os command timeout :
  started os ->
  (exists s rest, os_steps os = s :: rest /\ polled s = PollReady (Some Eof) (Some Eof)) ->
  (os_wait os = WaitHangs -> run_command os command timeout = None) /\
  (forall r tr, run_command os command timeout = Some (r, tr) ->
     res_status r <> Timeout /\ count_calls is_kill tr = 0).
Proof.
  intros (Ho & He & Hs) (s & rest & Hst & Hp).
  assert (E : exists d, drain_loop (os_steps os) drain_start = Some (d, rest) /\
                timed_out d = false /\ calls d = []).
  { rewrite Hst. cbn [drain_loop looping drain_start reading out err open_stream orb].
    rewrite Hp. cbn [poll_step]. destruct rest; by eexists. }
  destruct E as (d & E & Ht & Hk). unfold run_command. rewrite Ho, He, Hs, E, Ht, Hk. split.
  - by intros ->.
  - intros r tr. destruct (waited _) as [status|]; [|done].
    destruct (classify _ status) as [st code] eqn:Ec. intros [= <- <-].
    destruct (classify_false _ _ _ Ec) as (_ & Hn & _). done.
Qed.

Lemma timeout_lost_without_streams_witness :
  run_command (example_os [PollReady (Some Eof) (Some Eof)] WaitHangs)
    "exec >&- 2>&-; sleep 100000" 1 = None.
Proof.
  apply (timeout_lost_without_streams
    (example_os [PollReady (Some Eof) (Some Eof)] WaitHangs) "exec >&- 2>&-; sleep 100000" 1);
    [done| |reflexivity].
  eexists _, _. split; reflexivity.
Defined.
