(* ===== verification/Scheduler.v ===== *)
(** * The scheduler (daemon/src/jobs/scheduler.{hpp,cpp})

    The state the scheduler keeps and every operation on it, run one after the
    other; SchedulerSteps interleaves them.  The clock readings, the ways
    SQLite fails and the results of commands are arguments; [localtime_r] and
    SQLite are parameters. *)

From stdpp Require Import base option list strings gmap.
From Stdlib Require Import Ascii ZArith Lia.
From S2P Require Import Prelude CppLib Double Cron SharedState Config Database ProcessRunner.

Open Scope string_scope.
Open Scope list_scope.

#[local] Opaque Cron.next_after Cron.prev_before.

(** ** State *)

(** A [RunningTask]: its [done] flag, and whether its thread is joinable. *)
Record Task := { task_done : bool; task_joinable : bool }.

Record Scheduler := {
  sc_jobs : list Job;
  sc_next_run : gmap string Z;  (* job -> next fire time *)
  sc_running : gmap string Task;
  sc_last_runs : gmap string RunRecord;
  sc_missed_handled : gmap string Z;  (* job -> handled occurrence *)
  sc_queue : list (string * string);  (* (name, trigger) *)
  sc_last_wall : Z;
  sc_wake_pending : bool;
  sc_active : bool;
  sc_db : Tables;
  sc_state : SharedState;
  sc_notified : list (string * string)  (* send_notification calls (title, body), latest first *)
}.

(** *** Assignments to the members *)

Definition with_jobs (v : list Job) (s : Scheduler) : Scheduler :=
  {| sc_jobs := v; sc_next_run := sc_next_run s; sc_running := sc_running s;
     sc_last_runs := sc_last_runs s; sc_missed_handled := sc_missed_handled s;
     sc_queue := sc_queue s; sc_last_wall := sc_last_wall s;
     sc_wake_pending := sc_wake_pending s; sc_active := sc_active s;
     sc_db := sc_db s; sc_state := sc_state s; sc_notified := sc_notified s |}.

Definition with_next_run (v : gmap string Z) (s : Scheduler) : Scheduler :=
  {| sc_jobs := sc_jobs s; sc_next_run := v; sc_running := sc_running s;
     sc_last_runs := sc_last_runs s; sc_missed_handled := sc_missed_handled s;
     sc_queue := sc_queue s; sc_last_wall := sc_last_wall s;
     sc_wake_pending := sc_wake_pending s; sc_active := sc_active s;
     sc_db := sc_db s; sc_state := sc_state s; sc_notified := sc_notified s |}.

Definition with_running (v : gmap string Task) (s : Scheduler) : Scheduler :=
  {| sc_jobs := sc_jobs s; sc_next_run := sc_next_run s; sc_running := v;
     sc_last_runs := sc_last_runs s; sc_missed_handled := sc_missed_handled s;
     sc_queue := sc_queue s; sc_last_wall := sc_last_wall s;
     sc_wake_pending := sc_wake_pending s; sc_active := sc_active s;
     sc_db := sc_db s; sc_state := sc_state s; sc_notified := sc_notified s |}.

Definition with_last_runs (v : gmap string RunRecord) (s : Scheduler) : Scheduler :=
  {| sc_jobs := sc_jobs s; sc_next_run := sc_next_run s;
     sc_running := sc_running s; sc_last_runs := v;
     sc_missed_handled := sc_missed_handled s; sc_queue := sc_queue s;
     sc_last_wall := sc_last_wall s; sc_wake_pending := sc_wake_pending s;
     sc_active := sc_active s; sc_db := sc_db s; sc_state := sc_state s;
     sc_notified := sc_notified s |}.

Definition with_missed_handled (v : gmap string Z) (s : Scheduler) : Scheduler :=
  {| sc_jobs := sc_jobs s; sc_next_run := sc_next_run s;
     sc_running := sc_running s; sc_last_runs := sc_last_runs s;
     sc_missed_handled := v; sc_queue := sc_queue s;
     sc_last_wall := sc_last_wall s; sc_wake_pending := sc_wake_pending s;
     sc_active := sc_active s; sc_db := sc_db s; sc_state := sc_state s;
     sc_notified := sc_notified s |}.

Definition with_queue (v : list (string * string)) (s : Scheduler) : Scheduler :=
  {| sc_jobs := sc_jobs s; sc_next_run := sc_next_run s;
     sc_running := sc_running s; sc_last_runs := sc_last_runs s;
     sc_missed_handled := sc_missed_handled s; sc_queue := v;
     sc_last_wall := sc_last_wall s; sc_wake_pending := sc_wake_pending s;
     sc_active := sc_active s; sc_db := sc_db s; sc_state := sc_state s;
     sc_notified := sc_notified s |}.

Definition with_last_wall (v : Z) (s : Scheduler) : Scheduler :=
  {| sc_jobs := sc_jobs s; sc_next_run := sc_next_run s;
     sc_running := sc_running s; sc_last_runs := sc_last_runs s;
     sc_missed_handled := sc_missed_handled s; sc_queue := sc_queue s;
     sc_last_wall := v; sc_wake_pending := sc_wake_pending s;
     sc_active := sc_active s; sc_db := sc_db s; sc_state := sc_state s;
     sc_notified := sc_notified s |}.

Definition with_wake_pending (v : bool) (s : Scheduler) : Scheduler :=
  {| sc_jobs := sc_jobs s; sc_next_run := sc_next_run s;
     sc_running := sc_running s; sc_last_runs := sc_last_runs s;
     sc_missed_handled := sc_missed_handled s; sc_queue := sc_queue s;
     sc_last_wall := sc_last_wall s; sc_wake_pending := v;
     sc_active := sc_active s; sc_db := sc_db s; sc_state := sc_state s;
     sc_notified := sc_notified s |}.

Definition with_active (v : bool) (s : Scheduler) : Scheduler :=
  {| sc_jobs := sc_jobs s; sc_next_run := sc_next_run s;
     sc_running := sc_running s; sc_last_runs := sc_last_runs s;
     sc_missed_handled := sc_missed_handled s; sc_queue := sc_queue s;
     sc_last_wall := sc_last_wall s; sc_wake_pending := sc_wake_pending s;
     sc_active := v; sc_db := sc_db s; sc_state := sc_state s;
     sc_notified := sc_notified s |}.

Definition with_db (v : Tables) (s : Scheduler) : Scheduler :=
  {| sc_jobs := sc_jobs s; sc_next_run := sc_next_run s;
     sc_running := sc_running s; sc_last_runs := sc_last_runs s;
     sc_missed_handled := sc_missed_handled s; sc_queue := sc_queue s;
     sc_last_wall := sc_last_wall s; sc_wake_pending := sc_wake_pending s;
     sc_active := sc_active s; sc_db := v; sc_state := sc_state s;
     sc_notified := sc_notified s |}.

Definition with_state (v : SharedState) (s : Scheduler) : Scheduler :=
  {| sc_jobs := sc_jobs s; sc_next_run := sc_next_run s;
     sc_running := sc_running s; sc_last_runs := sc_last_runs s;
     sc_missed_handled := sc_missed_handled s; sc_queue := sc_queue s;
     sc_last_wall := sc_last_wall s; sc_wake_pending := sc_wake_pending s;
     sc_active := sc_active s; sc_db := sc_db s; sc_state := v;
     sc_notified := sc_notified s |}.

Definition with_notified (v : list (string * string)) (s : Scheduler) : Scheduler :=
  {| sc_jobs := sc_jobs s; sc_next_run := sc_next_run s;
     sc_running := sc_running s; sc_last_runs := sc_last_runs s;
     sc_missed_handled := sc_missed_handled s; sc_queue := sc_queue s;
     sc_last_wall := sc_last_wall s; sc_wake_pending := sc_wake_pending s;
     sc_active := sc_active s; sc_db := sc_db s; sc_state := sc_state s;
     sc_notified := v |}.

(** ** Definitions and jobs *)

Definition job_from_def (d : JobDef) : outcome Job :=
  schedule ← (if str_empty (def_schedule_expr d) then Ret None
              else Cron.parse (def_schedule_expr d));
  Ret {| job_name := def_name d; job_command := def_command d;
         job_schedule := schedule; job_schedule_expr := def_schedule_expr d;
         job_missed_run_policy := missed_run_policy_from_string (def_missed_run_policy d);
         job_timeout_seconds := def_timeout_seconds d; job_retries := def_retries d;
         job_source := "ui" |}.

Definition def_from_job (j : Job) : JobDef :=
  {| def_name := job_name j; def_command := job_command j;
     def_schedule_expr := job_schedule_expr j;
     def_missed_run_policy := policy_to_string (job_missed_run_policy j);
     def_timeout_seconds := job_timeout_seconds j; def_retries := job_retries j |}.

Definition with_source (src : string) (j : Job) : Job :=
  {| job_name := job_name j; job_command := job_command j; job_schedule := job_schedule j;
     job_schedule_expr := job_schedule_expr j;
     job_missed_run_policy := job_missed_run_policy j;
     job_timeout_seconds := job_timeout_seconds j; job_retries := job_retries j;
     job_source := src |}.

Definition find_in (name : string) (jobs : list Job) : option Job :=
  List.find (fun j => String.eqb (job_name j) name) jobs.

Definition find_job (name : string) (s : Scheduler) : option Job := find_in name (sc_jobs s).

Section Operations.
Context (localtime : Z -> tm) {sq : Sqlite}.

Definition detect_missed_run (schedule : CronSchedule) (last_run_ts now : Z) : option Z :=
  match Cron.prev_before localtime schedule now with
  | None => None
  | Some prev => if (prev <=? last_run_ts)%Z then None else Some prev
  end.

(** ** Publishing *)

Definition is_running (s : Scheduler) (name : string) : bool :=
  match sc_running s !! name with
  | Some t => negb (task_done t)
  | None => false
  end.

Definition job_status (s : Scheduler) (j : Job) : JobStatus :=
  let next := default 0%Z (sc_next_run s !! job_name j) in
  match sc_last_runs s !! job_name j with
  | Some r =>
      {| js_name := job_name j; js_schedule_expr := job_schedule_expr j;
         js_source := job_source j; js_next_run := next;
         js_running := is_running s (job_name j); js_has_last_run := true;
         js_last_status := run_status r; js_last_started_at := run_started_at r;
         js_last_exit_code := run_exit_code r; js_last_duration_ms := run_duration_ms r;
         js_last_trigger := run_trigger r |}
  | None =>
      {| js_name := job_name j; js_schedule_expr := job_schedule_expr j;
         js_source := job_source j; js_next_run := next;
         js_running := is_running s (job_name j); js_has_last_run := false;
         js_last_status := ""; js_last_started_at := 0; js_last_exit_code := 0;
         js_last_duration_ms := 0; js_last_trigger := "" |}
  end.

(** When no worker ends during the copy, as in the constructor; Locked has
    the copy with the completion flags read one by one. *)
Definition publish_status (s : Scheduler) : Scheduler :=
  with_state (set_jobs (map (job_status s) (sc_jobs s)) (sc_state s)) s.

(** ** Construction *)

Definition schedule_next (now : Z) (j : Job) (m : gmap string Z) : gmap string Z :=
  match job_schedule j with
  | Some sched =>
      match Cron.next_after localtime sched now with
      | Some t => <[job_name j := t]> m
      | None => m
      end
  | None => m
  end.

Definition merge_def (d : JobDef) (jobs : list Job) : outcome (list Job) :=
  match find_in (def_name d) jobs with
  | Some _ => Ret jobs
  | None => j ← job_from_def d; Ret (jobs ++ [j])
  end.

Definition load_last (fault_of : string -> fault) (db : Tables) (j : Job)
    (m : gmap string RunRecord) : outcome (gmap string RunRecord) :=
  r ← last_run (fault_of (job_name j)) (job_name j) db;
  match r with
  | Some run => Ret (<[job_name j := run]> m)
  | None => Ret m
  end.

(** The constructor on an opened database file ([None]: a fresh one);
    [load_fault] and [last_fault] are how its queries fail. *)
Definition make_scheduler (jobs : list Job) (file : option Tables) (now : Z)
    (load_fault : fault) (last_fault : string -> fault) (state : SharedState)
    : outcome Scheduler :=
  let db := migrate file in
  defs ← load_job_defs load_fault db;
  jobs ← for_each merge_def defs jobs;
  last_runs ← for_each (load_last last_fault db) jobs ∅;
  Ret (publish_status
    {| sc_jobs := jobs; sc_next_run := fold_left (fun m j => schedule_next now j m) jobs ∅;
       sc_running := ∅; sc_last_runs := last_runs; sc_missed_handled := ∅; sc_queue := [];
       sc_last_wall := 0; sc_wake_pending := false; sc_active := false; sc_db := db;
       sc_state := state; sc_notified := [] |}).

(** ** Requests *)

Definition enqueue (name trigger : string) (s : Scheduler) : Scheduler :=
  with_queue (sc_queue s ++ [(name, trigger)]) s.

Definition request_run (name : string) (s : Scheduler) : bool * Scheduler :=
  match find_job name s with
  | None => (false, s)
  | Some _ => (true, enqueue name "manual" s)
  end.

Definition notify_wake (s : Scheduler) : Scheduler := with_wake_pending true s.

(** What [add_job] and [remove_job] do to the maps under the mutex. *)
Definition push_job (now : Z) (stored : Job) (s : Scheduler) : Scheduler :=
  let s := with_jobs (sc_jobs s ++ [stored]) s in
  with_next_run (schedule_next now stored (sc_next_run s)) s.

Definition erase_job (name : string) (s : Scheduler) : Scheduler :=
  let s := with_jobs (List.filter (fun j => negb (String.eqb (job_name j) name)) (sc_jobs s)) s in
  let s := with_next_run (delete name (sc_next_run s)) s in
  let s := with_last_runs (delete name (sc_last_runs s)) s in
  with_missed_handled (delete name (sc_missed_handled s)) s.

Definition add_job (f : fault) (now : Z) (job : Job) (s : Scheduler) : string * Scheduler :=
  if str_empty (job_name job) then ("job name is required", s)
  else if str_empty (job_command job) then ("job command is required", s)
  else if bool_decide (is_Some (find_job (job_name job) s)) then
    ("a job named '" +:+ job_name job +:+ "' already exists", s)
  else
    let stored := with_source "ui" job in
    match upsert_job_def f (def_from_job stored) (sc_db s) with
    | Ret db => ("", publish_status (push_job now stored (with_db db s)))
    | Throw e => ("could not persist job: " +:+ what e, s)
    | _ => ("", s)
    end.

Definition remove_job (f : fault) (name : string) (s : Scheduler) : string * Scheduler :=
  match find_job name s with
  | None => ("no such job: '" +:+ name +:+ "'", s)
  | Some job =>
      if negb (String.eqb (job_source job) "ui") then
        ("job '" +:+ name +:+ "' is defined in config.yaml", s)
      else
        match delete_job_def f name (sc_db s) with
        | Ret db => ("", publish_status (erase_job name (with_db db s)))
        | Throw e => ("could not delete job: " +:+ what e, s)
        | _ => ("", s)
        end
  end.

(** ** Alerts *)

(** [emit_alert] takes three locks in turn: the database's, the snapshot's,
    and none for the notification. *)
Definition alert_insert (f : fault) (ts : Z) (job_name severity message attribution : string)
    (value : double) (s : Scheduler) : Scheduler :=
  let rec :=
    {| al_id := 0; al_ts := ts; al_rule_name := job_name; al_severity := severity;
       al_metric := "job"; al_kind := "firing"; al_value := value; al_threshold := dbl_zero;
       al_message := message; al_attribution := attribution |} in
  match insert_alert f rec (sc_db s) with
  | Ret (db, _) => with_db db s
  | _ => s
  end.

Definition alert_publish (ts : Z) (job_name severity message attribution : string)
    (value : double) (s : Scheduler) : Scheduler :=
  let info :=
    {| ai_ts := ts; ai_rule_name := job_name; ai_severity := severity; ai_metric := "job";
       ai_kind := "firing"; ai_value := value; ai_threshold := dbl_zero;
       ai_message := message; ai_attribution := attribution; ai_notify := true |} in
  with_state (add_alert info default_cap (sc_state s)) s.

Definition alert_notify (job_name message attribution : string) (s : Scheduler) : Scheduler :=
  let body := if str_empty attribution then message else message +:+ NL +:+ attribution in
  with_notified (("AgentPulse: " +:+ job_name, body) :: sc_notified s) s.

Definition emit_alert (f : fault) (ts : Z) (job_name severity message attribution : string)
    (value : double) (s : Scheduler) : Scheduler :=
  let s := alert_insert f ts job_name severity message attribution value s in
  let s := alert_publish ts job_name severity message attribution value s in
  alert_notify job_name message attribution s.

(** ** Missed runs *)

Definition is_candidate (j : Job) : bool :=
  bool_decide (is_Some (job_schedule j)) &&
  bool_decide (job_missed_run_policy j <> NoPolicy).

Definition missed_message : string :=
  "scheduled run was missed (Mac asleep or daemon down) — recovering now".

(** The loop body of [scan_missed] for one candidate; [env] gives, for the
    alert of a job, its time stamp and how its insertion fails. *)
Definition scan_one (now : Z) (env : string -> Z * fault) (j : Job) (s : Scheduler)
    : Scheduler :=
  match job_schedule j with
  | None => s
  | Some sched =>
      let last_run_ts :=
        match sc_last_runs s !! job_name j with
        | Some r => run_started_at r
        | None => 0%Z
        end in
      match detect_missed_run sched last_run_ts now with
      | None => s
      | Some missed =>
          (* operator[] creates the entry, as 0 *)
          let handled := default 0%Z (sc_missed_handled s !! job_name j) in
          let s := with_missed_handled (<[job_name j := handled]> (sc_missed_handled s)) s in
          if (missed <=? handled)%Z then s
          else
            let s := with_missed_handled
                       (<[job_name j := missed]> (sc_missed_handled s)) s in
            let '(ts, f) := env (job_name j) in
            let s := emit_alert f ts (job_name j) "warning" missed_message
                       ("policy: " +:+ policy_to_string (job_missed_run_policy j))
                       (dbl_of_Z missed) s in
            enqueue (job_name j) "missed" s
      end
  end.

Definition scan_missed (now : Z) (env : string -> Z * fault) (s : Scheduler) : Scheduler :=
  fold_left (fun s j => scan_one now env j s) (List.filter is_candidate (sc_jobs s)) s.

(** [start]: the second clock reading is [scan_missed]'s. *)
Definition start (now scan_now : Z) (env : string -> Z * fault) (s : Scheduler) : Scheduler :=
  if sc_active s then s
  else scan_missed scan_now env (with_last_wall now (with_active true s)).

(** [stop], once the loop and the workers it joins have returned. *)
Definition stop (s : Scheduler) : Scheduler :=
  if sc_active s then with_running ∅ (with_active false s) else s.

(** ** One turn of the loop *)

(** The sections of a turn when no worker ends during them; Locked has them
    read by read. *)
Definition reap_finished (s : Scheduler) : Scheduler :=
  with_running (filter (fun p => task_done (snd p) = false) (sc_running s)) s.

Definition kWakeGapSeconds : Z := 90.

(** [wake_pending_] is only consumed when the gap test fails. *)
Definition wake_scan (wall : Z) (scan_now : Z) (env : string -> Z * fault) (s : Scheduler)
    : Scheduler :=
  let gap_wake := (kWakeGapSeconds <? wall - sc_last_wall s)%Z in
  let s := with_last_wall wall s in
  if gap_wake then scan_missed scan_now env s
  else
    let pending := sc_wake_pending s in
    let s := with_wake_pending false s in
    if pending then scan_missed scan_now env s else s.

(** Queued requests: the ones deferred and the ones to launch. *)
Fixpoint pick_queue (s : Scheduler) (q : list (string * string))
    : list (string * string) * list (Job * string) :=
  match q with
  | [] => ([], [])
  | (name, trigger) :: q' =>
      let '(deferred, launches) := pick_queue s q' in
      match find_job name s with
      | None => (deferred, launches)
      | Some job =>
          if is_running s name then ((name, trigger) :: deferred, launches)
          else (deferred, (job, trigger) :: launches)
      end
  end.

(** One job of the due-jobs loop. *)
Definition due_one (now : Z) (s : Scheduler) (acc : gmap string Z * list (Job * string))
    (j : Job) : gmap string Z * list (Job * string) :=
  let '(next_run, launches) := acc in
  match job_schedule j, next_run !! job_name j with
  | Some sched, Some t =>
      if (now <? t)%Z then acc
      else
        (match Cron.next_after localtime sched now with
         | Some next => <[job_name j := next]> next_run
         | None => delete (job_name j) next_run
         end,
         if is_running s (job_name j) then launches else launches ++ [(j, "schedule")])
  | _, _ => acc
  end.

Definition pick (now : Z) (s : Scheduler) : Scheduler * list (Job * string) :=
  let '(deferred, launches) := pick_queue s (sc_queue s) in
  let '(next_run, launches) := fold_left (due_one now s) (sc_jobs s) (sc_next_run s, launches) in
  (with_next_run next_run (with_queue deferred s), launches).

(** Replacing the task of a name destroys the old one; destroying a joinable
    [std::thread] terminates the process. *)
Definition launch (l : Job * string) (s : Scheduler) : outcome Scheduler :=
  let name := job_name (fst l) in
  match sc_running s !! name with
  | Some old => if task_joinable old then Terminate
                else Ret (with_running (<[name := {| task_done := false;
                                                     task_joinable := true |}]> (sc_running s)) s)
  | None => Ret (with_running (<[name := {| task_done := false;
                                            task_joinable := true |}]> (sc_running s)) s)
  end.

(** A turn of [loop]: the state after it and the workers it started. *)
Definition tick (wall scan_now : Z) (env : string -> Z * fault) (s : Scheduler)
    : outcome (Scheduler * list (Job * string)) :=
  let s := wake_scan wall scan_now env (reap_finished s) in
  let '(s, launches) := pick wall s in
  s ← for_each launch launches s;
  Ret (publish_status s, launches).

End Operations.

(** ** The worker *)

(** What a worker does, in order: record the result of an attempt, sleep
    100 ms, raise the failure alert, mark its task done. *)
Inductive worker_event :=
| Attempted (res : RunResult)
| Slept
| Raised (message detail : string) (exit_code : Z)
| Finished.

(** [active_.load()]: true for as many reads as the budget says ([None]: for
    ever), then false. *)
Definition check_active (budget : option nat) : bool * option nat :=
  match budget with
  | None => (true, None)
  | Some 0 => (false, Some 0)
  | Some (S n) => (true, Some n)
  end.

(** The backoff: [i < polls && active_.load()]. *)
Fixpoint backoff (polls : nat) (budget : option nat) : list worker_event * option nat :=
  match polls with
  | 0 => ([], budget)
  | S polls' =>
      let '(act, budget) := check_active budget in
      if act then
        let '(evs, budget) := backoff polls' budget in (Slept :: evs, budget)
      else ([], budget)
  end.

Definition no_result : RunResult := spawn_error 0 0 "".

Definition is_success (r : RunResult) : bool :=
  match res_status r with Success => true | _ => false end.

(** The attempt loop with [n] attempts left; [run k] is what the [k]-th run
    of the command gives. *)
Fixpoint attempt_loop (run : nat -> RunResult) (n attempt : nat) (res : RunResult)
    (budget : option nat) : list worker_event * RunResult * option nat :=
  match n with
  | 0 => ([], res, budget)
  | S n' =>
      let '(act, budget) := check_active budget in
      if act then
        let r := run attempt in
        if is_success r then ([Attempted r], r, budget)
        else
          let '(sleeps, budget) := match n' with
                                   | 0 => ([], budget)
                                   | _ => backoff (attempt * 10) budget
                                   end in
          let '(evs, res, budget) := attempt_loop run n' (S attempt) r budget in
          (Attempted r :: sleeps ++ evs, res, budget)
      else ([], res, budget)
  end.

Definition trailing_blank (c : ascii) : bool :=
  Ascii.eqb c " " || Ascii.eqb c "009" || Ascii.eqb c "013" || Ascii.eqb c "010".

(** The last line of the standard error, trimmed to 160 characters. *)
Definition failure_detail (err : string) : string :=
  match find_last (fun c => negb (trailing_blank c)) 0 err with
  | None => ""
  | Some end_ =>
      let start :=
        match find_last (Ascii.eqb nl) 0 (str_take (S end_) err) with
        | None => 0
        | Some i => S i
        end in
      let detail := substr start (end_ - start + 1) err in
      if Nat.ltb 160 (String.length detail) then substr 0 157 detail +:+ "..." else detail
  end.

Definition failure_message (res : RunResult) (attempts : Z) : string :=
  "run " +:+ status_to_string (res_status res) +:+ " (exit " +:+
  to_string_Z (res_exit_code res) +:+ ", after " +:+ to_string_Z attempts +:+
  " attempt" +:+ (if (attempts =? 1)%Z then "" else "s") +:+ ")".

(** The whole worker.  [attempts] is an [int]. *)
Definition worker (job : Job) (run : nat -> RunResult) (budget : option nat)
    : outcome (list worker_event) :=
  attempts ← int_add (job_retries job) 1;
  let '(evs, res, budget) := attempt_loop run (Z.to_nat attempts) 1 no_result budget in
  let '(act, _) := check_active budget in
  let alert :=
    if act && negb (is_success res) then
      [Raised (failure_message res attempts) (failure_detail (res_stderr res))
              (res_exit_code res)]
    else [] in
  Ret (evs ++ alert ++ [Finished]).

Definition run_record (job_name trigger : string) (res : RunResult) : RunRecord :=
  {| run_id := 0; run_job_name := job_name; run_started_at := res_started_at res;
     run_ended_at := res_ended_at res; run_status := status_to_string (res_status res);
     run_exit_code := res_exit_code res; run_duration_ms := res_duration_ms res;
     run_stdout := res_stdout res; run_stderr := res_stderr res; run_trigger := trigger |}.

(** The effect of an event on the scheduler; [f] is how its insertion fails
    and [ts] the clock. *)
Definition apply_event {sq : Sqlite} (f : fault) (ts : Z) (job_name trigger : string)
    (ev : worker_event) (s : Scheduler) : Scheduler :=
  match ev with
  | Attempted res =>
      let rec := run_record job_name trigger res in
      let s := match insert_run f rec (sc_db s) with
               | Ret (db, _) => with_db db s
               | _ => s
               end in
      with_last_runs (<[job_name := rec]> (sc_last_runs s)) s
  | Slept => s
  | Raised message detail code =>
      emit_alert f ts job_name "serious" message detail (dbl_of_Z code) s
  | Finished =>
      match sc_running s !! job_name with
      | Some t => with_running (<[job_name := {| task_done := true;
                                                 task_joinable := task_joinable t |}]>
                                  (sc_running s)) s
      | None => s
      end
  end.

(** ** Finding jobs *)

Definition names_of (jobs : list Job) : list string := map job_name jobs.

Lemma find_in_Some name jobs j :
  find_in name jobs = Some j -> j ∈ jobs /\ job_name j = name.
Proof.
  intros H. apply find_some in H as [Hin Hn].
  apply String.eqb_eq in Hn. by rewrite list_elem_of_In.
Qed.

Lemma find_in_None name jobs :
  find_in name jobs = None <-> name ∉ names_of jobs.
Proof.
  unfold find_in, names_of. induction jobs as [|j jobs IH]; simpl; [set_solver|].
  destruct (String.eqb_spec (job_name j) name) as [->|Hne].
  - split; [done|]. intros H. destruct H. left.
  - rewrite IH, not_elem_of_cons. naive_solver.
Qed.

Lemma find_in_unique jobs j :
  NoDup (names_of jobs) -> j ∈ jobs -> find_in (job_name j) jobs = Some j.
Proof.
  unfold find_in, names_of. induction jobs as [|i jobs IH]; simpl; [set_solver|].
  intros [Hi Hn]%NoDup_cons [->|Hj]%elem_of_cons.
  - by rewrite String.eqb_refl.
  - destruct (String.eqb_spec (job_name i) (job_name j)) as [E|]; [|auto].
    destruct Hi. rewrite E. apply list_elem_of_In, in_map, list_elem_of_In, Hj.
Qed.

Lemma find_in_app name l1 l2 :
  find_in name (l1 ++ l2) =
    match find_in name l1 with Some j => Some j | None => find_in name l2 end.
Proof.
  unfold find_in. induction l1 as [|j l1 IH]; simpl; [done|].
  by destruct (String.eqb (job_name j) name).
Qed.

Lemma names_filter (p : Job -> bool) jobs :
  NoDup (names_of jobs) -> NoDup (names_of (List.filter p jobs)).
Proof.
  unfold names_of. induction jobs as [|j jobs IH]; simpl; [done|].
  intros [Hj Hn]%NoDup_cons. destruct (p j); simpl; [|auto].
  constructor; [|auto]. contradict Hj. rewrite list_elem_of_In, in_map_iff in *.
  destruct Hj as (x & Hx & [Hin _]%filter_In). eauto.
Qed.

Definition without_job (name : string) (jobs : list Job) : list Job :=
  List.filter (fun j => negb (String.eqb (job_name j) name)) jobs.

Lemma without_job_elem name jobs j :
  j ∈ without_job name jobs <-> j ∈ jobs /\ job_name j <> name.
Proof.
  unfold without_job. rewrite !list_elem_of_In, filter_In, negb_true_iff, String.eqb_neq.
  done.
Qed.

Lemma find_without_job name n jobs :
  find_in n (without_job name jobs) = if String.eqb n name then None else find_in n jobs.
Proof.
  unfold find_in, without_job. induction jobs as [|j jobs IH]; simpl; [by destruct String.eqb|].
  destruct (String.eqb_spec (job_name j) name) as [->|Hne]; simpl.
  - rewrite IH. destruct (String.eqb_spec n name) as [->|Hn]; [done|].
    destruct (String.eqb_spec name n); congruence.
  - destruct (String.eqb_spec (job_name j) n) as [<-|Hn]; [|done].
    by destruct (String.eqb_spec (job_name j) name).
Qed.

(** ** What one turn launches *)

(** The queued requests whose job exists, split by whether it is running. *)
Definition requested (s : Scheduler) (run : bool) (q : string * string) : option (Job * string) :=
  match find_job (fst q) s with
  | Some j => if Bool.eqb (is_running s (fst q)) run then Some (j, snd q) else None
  | None => None
  end.

Lemma pick_queue_spec s q :
  pick_queue s q =
    (List.filter (fun p => bool_decide (is_Some (requested s true p))) q,
     omap (requested s false) q).
Proof.
  induction q as [|[name trigger] q IH]; simpl; [done|]. rewrite IH.
  assert (E : forall b, requested s b (name, trigger) = match find_job name s with
      | Some j => if Bool.eqb (is_running s name) b then Some (j, trigger) else None
      | None => None end) by done.
  rewrite !E. destruct (find_job name s) as [j|]; simpl; [|done].
  by destruct (is_running s name).
Qed.

Section Due.
Context (localtime : Z -> tm).

Definition is_due (now : Z) (next_run : gmap string Z) (j : Job) : bool :=
  match job_schedule j, next_run !! job_name j with
  | Some _, Some t => (t <=? now)%Z
  | _, _ => false
  end.

(** The entry of a job after the due-jobs loop. *)
Definition advanced (now : Z) (next_run : gmap string Z) (j : Job) : option Z :=
  match job_schedule j with
  | Some sched => if is_due now next_run j then Cron.next_after localtime sched now
                  else next_run !! job_name j
  | None => next_run !! job_name j
  end.

Definition fires (now : Z) (s : Scheduler) (next_run : gmap string Z) (j : Job) : bool :=
  is_due now next_run j && negb (is_running s (job_name j)).

Lemma due_one_spec now s nr ls j :
  exists nr', due_one localtime now s (nr, ls) j =
    (nr', ls ++ (if fires now s nr j then [(j, "schedule")] else [])) /\
  nr' !! job_name j = advanced now nr j /\
  forall n, n <> job_name j -> nr' !! n = nr !! n.
Proof.
  unfold due_one, fires, advanced, is_due.
  destruct (job_schedule j) as [sched|]; [|exists nr; rewrite app_nil_r; auto].
  destruct (nr !! job_name j) as [t|] eqn:E; [|exists nr; rewrite app_nil_r; auto].
  rewrite Z.leb_antisym. destruct (now <? t)%Z; cbn [negb andb].
  - exists nr. by rewrite app_nil_r.
  - eexists. split; [by destruct (is_running s (job_name j)); rewrite ?app_nil_r|].
    destruct (Cron.next_after localtime sched now); split.
    + by rewrite lookup_insert_eq.
    + intros n Hn. by rewrite lookup_insert_ne.
    + by rewrite lookup_delete_eq.
    + intros n Hn. by rewrite lookup_delete_ne.
Qed.

Lemma due_fold now s jobs nr ls :
  NoDup (names_of jobs) ->
  exists nr', fold_left (due_one localtime now s) jobs (nr, ls) =
    (nr', ls ++ map (fun j => (j, "schedule")) (List.filter (fires now s nr) jobs)) /\
  (forall j, j ∈ jobs -> nr' !! job_name j = advanced now nr j) /\
  (forall n, n ∉ names_of jobs -> nr' !! n = nr !! n).
Proof.
  revert nr ls. induction jobs as [|j jobs IH]; intros nr ls Hn.
  - exists nr. simpl. rewrite app_nil_r. split_and!; [done|set_solver|done].
  - apply NoDup_cons in Hn as [Hj Hn]. cbn [fold_left].
    destruct (due_one_spec now s nr ls j) as (nr1 & -> & Hj1 & Hne).
    destruct (IH nr1 (ls ++ if fires now s nr j then [(j, "schedule")] else []) Hn)
      as (nr' & -> & Hin & Hout).
    assert (Hext : forall i, i ∈ jobs -> nr1 !! job_name i = nr !! job_name i).
    { intros i Hi. apply Hne. intros E. apply Hj. unfold names_of. rewrite <- E.
      apply list_elem_of_In, in_map, list_elem_of_In, Hi. }
    exists nr'. split_and!.
    + f_equal. rewrite <- app_assoc. f_equal. simpl.
      assert (E : List.filter (fires now s nr1) jobs = List.filter (fires now s nr) jobs).
      { apply filter_ext_in. intros i Hi. unfold fires, is_due.
        by rewrite Hext by (by apply list_elem_of_In). }
      rewrite E. by destruct (fires now s nr j).
    + intros i [->|Hi]%elem_of_cons; [by rewrite Hout|].
      rewrite Hin by done. unfold advanced, is_due. by rewrite Hext.
    + intros n Hn'. simpl in Hn'. apply not_elem_of_cons in Hn' as [? ?].
      rewrite Hout by done. by apply Hne.
Qed.

Lemma due_launches_prefix now s jobs nr ls nr' ls' :
  fold_left (due_one localtime now s) jobs (nr, ls) = (nr', ls') -> exists e, ls' = ls ++ e.
Proof.
  revert nr ls. induction jobs as [|j jobs IH]; intros nr ls; cbn [fold_left].
  { intros [= <- <-]. exists []. by rewrite app_nil_r. }
  destruct (due_one_spec now s nr ls j) as (nr1 & -> & _). intros [e ->]%IH.
  eexists. by rewrite <- app_assoc.
Qed.

Lemma pick_spec now s :
  NoDup (names_of (sc_jobs s)) ->
  exists nr', pick localtime now s =
    (with_next_run nr' (with_queue
       (List.filter (fun p => bool_decide (is_Some (requested s true p))) (sc_queue s)) s),
     omap (requested s false) (sc_queue s) ++
     map (fun j => (j, "schedule")) (List.filter (fires now s (sc_next_run s)) (sc_jobs s))) /\
  (forall j, j ∈ sc_jobs s -> nr' !! job_name j = advanced now (sc_next_run s) j) /\
  (forall n, n ∉ names_of (sc_jobs s) -> nr' !! n = sc_next_run s !! n).
Proof.
  intros Hn. unfold pick. rewrite pick_queue_spec.
  destruct (due_fold now s (sc_jobs s) (sc_next_run s)
    (omap (requested s false) (sc_queue s)) Hn) as (nr' & -> & Hin & Hout).
  exists nr'. split_and!; done.
Qed.

(** The launches of a name with trigger "schedule". *)
Definition scheduled_launch (n : string) (l : Job * string) : bool :=
  String.eqb (job_name (fst l)) n && String.eqb (snd l) "schedule".

Lemma schedule_entries_none n ls :
  (forall l, l ∈ ls -> snd l <> "schedule") -> List.filter (scheduled_launch n) ls = [].
Proof.
  induction ls as [|l ls IH]; intros H; [done|]. simpl. unfold scheduled_launch at 1.
  destruct (String.eqb_spec (snd l) "schedule") as [E|_].
  { by destruct (H l ltac:(left)). }
  rewrite andb_false_r. apply IH. intros x Hx. apply H. by right.
Qed.

Lemma schedule_entries_absent n p jobs :
  n ∉ names_of jobs ->
  List.filter (scheduled_launch n)
    (map (fun j => (j, "schedule")) (List.filter p jobs)) = [].
Proof.
  induction jobs as [|j jobs IH]; intros Hn; [done|]. simpl in *.
  apply not_elem_of_cons in Hn as [Hne Hn].
  destruct (p j); simpl; [|auto]. unfold scheduled_launch at 1. simpl.
  destruct (String.eqb_spec (job_name j) n); [congruence|auto].
Qed.

Lemma schedule_entries_le n p jobs :
  NoDup (names_of jobs) ->
  length (List.filter (scheduled_launch n)
    (map (fun j => (j, "schedule")) (List.filter p jobs))) <= 1.
Proof.
  induction jobs as [|j jobs IH]; intros Hn; simpl; [lia|].
  apply NoDup_cons in Hn as [Hj Hn]. destruct (p j); simpl; [|auto].
  unfold scheduled_launch at 1. simpl.
  destruct (String.eqb_spec (job_name j) n) as [<-|]; simpl; [|auto].
  rewrite schedule_entries_absent by done. simpl. lia.
Qed.

(** An occurrence computed at [w] and not reached by [now] is the one computed
    at [now]; a reached one is an occurrence in between. *)
Lemma next_after_later sched w now t :
  (0 <= w <= now)%Z -> Cron.next_after localtime sched w = Some t ->
  (now < t)%Z -> Cron.next_after localtime sched now = Some t.
Proof.
  intros Hw Hn%next_after_iff Ht; [|lia]. apply next_after_iff; [lia|].
  destruct Hn as (_ & Ha & Hh & Hm & Hmin). split_and!; try done.
  - pose proof (Z.div_mod w 60 ltac:(lia)). pose proof (Z.div_mod now 60 ltac:(lia)).
    pose proof (Z.div_le_mono w now 60 ltac:(lia) ltac:(lia)). lia.
  - intros t' Ht' Hal. apply Hmin; [lia|done].
Qed.

Lemma next_after_occurs sched w now t :
  (0 <= w)%Z -> Cron.next_after localtime sched w = Some t ->
  (t <= now)%Z <-> exists t', (w < t' <= now)%Z /\ aligned t' /\
                              matches_at localtime sched t' = true.
Proof.
  intros Hw Hn%next_after_iff; [|done]. destruct Hn as (Hlt & Ha & _ & Hm & Hmin). split.
  - intros. exists t. split_and!; try done; lia.
  - intros (t' & Ht' & Ha' & Hm'). destruct (Z.le_gt_cases t now); [done|].
    rewrite Hmin in Hm'; [done|lia|done].
Qed.
End Due.

(** ** Scanning for missed runs *)

(** Everything a scan leaves alone. *)
Record scan_frame (s s' : Scheduler) : Prop := {
  frame_jobs : sc_jobs s' = sc_jobs s;
  frame_next : sc_next_run s' = sc_next_run s;
  frame_running : sc_running s' = sc_running s;
  frame_last : sc_last_runs s' = sc_last_runs s;
  frame_active : sc_active s' = sc_active s;
  frame_defs : job_defs_tbl (sc_db s') = job_defs_tbl (sc_db s);
  frame_runs : runs_tbl (sc_db s') = runs_tbl (sc_db s)
}.

Lemma scan_frame_refl s : scan_frame s s.
Proof. done. Qed.

Lemma scan_frame_trans s1 s2 s3 : scan_frame s1 s2 -> scan_frame s2 s3 -> scan_frame s1 s3.
Proof. intros [] []. split; congruence. Qed.

Lemma emit_alert_frame {sq : Sqlite} f ts n sev msg attr v s :
  let s' := emit_alert f ts n sev msg attr v s in
  scan_frame s s' /\ sc_queue s' = sc_queue s /\
  sc_missed_handled s' = sc_missed_handled s /\
  sc_notified s' =
    ("AgentPulse: " +:+ n, if str_empty attr then msg else msg +:+ NL +:+ attr)
    :: sc_notified s.
Proof.
  cbn zeta. unfold emit_alert, alert_insert, insert_alert, run_update. destruct (reject_nan _ _); done.
Qed.

#[export] Hint Resolve scan_frame_refl scan_frame_trans : cpp.

Section Scan.
Context (localtime : Z -> tm) {sq : Sqlite}.

(** The occurrence a scan at [now] finds missed for a job, if any. *)
Definition missed_of (now : Z) (s : Scheduler) (j : Job) : option Z :=
  match job_schedule j with
  | None => None
  | Some sched =>
      let last_run_ts := match sc_last_runs s !! job_name j with
                         | Some r => run_started_at r | None => 0%Z end in
      match detect_missed_run localtime sched last_run_ts now with
      | None => None
      | Some m => if (m <=? default 0 (sc_missed_handled s !! job_name j))%Z then None
                  else Some m
      end
  end.

Definition is_missed (now : Z) (s : Scheduler) (j : Job) : bool :=
  bool_decide (is_Some (missed_of now s j)).

Definition missed_notice (j : Job) : string * string :=
  ("AgentPulse: " +:+ job_name j,
   missed_message +:+ NL +:+ "policy: " +:+ policy_to_string (job_missed_run_policy j)).

Lemma scan_one_spec now env j s :
  let s' := scan_one localtime now env j s in
  scan_frame s s' /\
  sc_queue s' = sc_queue s ++ (if is_missed now s j then [(job_name j, "missed")] else []) /\
  sc_notified s' = (if is_missed now s j then [missed_notice j] else []) ++ sc_notified s /\
  missed_of now s' j = None /\
  (forall n, n <> job_name j -> sc_missed_handled s' !! n = sc_missed_handled s !! n).
Proof.
  cbn zeta. unfold is_missed, missed_of, scan_one.
  destruct (job_schedule j) as [sched|]; [|cbn; rewrite app_nil_r; auto using scan_frame_refl].
  destruct (detect_missed_run _ _ _ _) as [m|] eqn:Ed;
    [|cbn; rewrite app_nil_r, Ed; auto using scan_frame_refl].
  destruct (Z.leb_spec m (default 0 (sc_missed_handled s !! job_name j))%Z) as [Hle|Hgt];
    cbn [is_Some bool_decide].
  - cbn [sc_queue sc_notified sc_last_runs sc_missed_handled with_missed_handled].
    rewrite Ed, lookup_insert_eq, app_nil_r. cbn [from_option id].
    rewrite (proj2 (Z.leb_le _ _) Hle). split_and!; try done.
    intros n Hn. by rewrite lookup_insert_ne.
  - destruct (env (job_name j)) as [ts f].
    set (s1 := with_missed_handled _ (with_missed_handled _ s)).
    destruct (emit_alert_frame f ts (job_name j) "warning" missed_message
      ("policy: " +:+ policy_to_string (job_missed_run_policy j)) (dbl_of_Z m) s1)
      as (Hf & Hq & Hm & Hnt).
    set (s2 := emit_alert _ _ _ _ _ _ _ s1) in *.
    cbn [sc_queue sc_notified sc_last_runs sc_missed_handled enqueue with_queue].
    rewrite Hq, Hnt, Hm, (frame_last _ _ Hf). unfold s1.
    cbn [sc_queue sc_notified sc_last_runs sc_missed_handled with_missed_handled].
    rewrite Ed, lookup_insert_eq. cbn [from_option id]. rewrite Z.leb_refl. split_and!; try done.
    + destruct Hf. split; done.
    + intros n Hn. by rewrite !lookup_insert_ne.
Qed.

Lemma missed_of_ext now s s' j :
  sc_last_runs s' = sc_last_runs s ->
  sc_missed_handled s' !! job_name j = sc_missed_handled s !! job_name j ->
  missed_of now s' j = missed_of now s j.
Proof. intros E1 E2. unfold missed_of. by rewrite E1, E2. Qed.

Lemma scan_fold now env l s :
  NoDup (names_of l) ->
  let s' := fold_left (fun s j => scan_one localtime now env j s) l s in
  scan_frame s s' /\
  sc_queue s' = sc_queue s ++
    map (fun j => (job_name j, "missed")) (List.filter (is_missed now s) l) /\
  sc_notified s' = reverse (map missed_notice (List.filter (is_missed now s) l)) ++
    sc_notified s /\
  (forall j, j ∈ l -> missed_of now s' j = None) /\
  (forall n, n ∉ names_of l -> sc_missed_handled s' !! n = sc_missed_handled s !! n).
Proof.
  revert s. induction l as [|j l IH]; intros s Hn; cbn zeta.
  { simpl. rewrite app_nil_r. split_and!; auto using scan_frame_refl. set_solver. }
  apply NoDup_cons in Hn as [Hj Hn]. cbn [fold_left].
  destruct (scan_one_spec now env j s) as (Hf & Hq & Hnt & Hm & Hh).
  set (s1 := scan_one localtime now env j s) in *.
  destruct (IH s1 Hn) as (Hf' & Hq' & Hnt' & Hm' & Hh').
  set (s' := fold_left _ l s1) in *.
  assert (Hne : forall i, i ∈ l -> job_name i <> job_name j).
  { intros i Hi E. apply Hj. unfold names_of. rewrite <- E.
    apply list_elem_of_In, in_map, list_elem_of_In, Hi. }
  assert (E : List.filter (is_missed now s1) l = List.filter (is_missed now s) l).
  { apply filter_ext_in. intros i Hi%list_elem_of_In. unfold is_missed.
    rewrite (missed_of_ext now s s1); auto using frame_last. }
  rewrite E in Hq', Hnt'. split_and!.
  - eauto with cpp.
  - rewrite Hq', Hq, <- app_assoc. f_equal. simpl. by destruct (is_missed now s j).
  - rewrite Hnt', Hnt, app_assoc. f_equal. simpl. destruct (is_missed now s j); simpl.
    + by rewrite reverse_cons.
    + by rewrite app_nil_r.
  - intros i [->|Hi]%elem_of_cons; [|auto]. rewrite <- Hm.
    apply missed_of_ext; [by apply frame_last|auto].
  - intros n Hn'. simpl in Hn'. apply not_elem_of_cons in Hn' as [? ?]. rewrite Hh', Hh; auto.
Qed.

(** *** What a scan announces *)

Definition missed_info (env : string -> Z * fault) (jm : Job * Z) : AlertInfo :=
  let '(j, m) := jm in
  {| ai_ts := fst (env (job_name j)); ai_rule_name := job_name j; ai_severity := "warning";
     ai_metric := "job"; ai_kind := "firing"; ai_value := dbl_of_Z m; ai_threshold := dbl_zero;
     ai_message := missed_message;
     ai_attribution := "policy: " +:+ policy_to_string (job_missed_run_policy j);
     ai_notify := true |}.

Definition missed_row (env : string -> Z * fault) (jm : Job * Z) : AlertRecord :=
  let '(j, m) := jm in
  {| al_id := 0; al_ts := fst (env (job_name j)); al_rule_name := job_name j; al_severity := "warning";
     al_metric := "job"; al_kind := "firing"; al_value := dbl_of_Z m; al_threshold := dbl_zero;
     al_message := missed_message;
     al_attribution := "policy: " +:+ policy_to_string (job_missed_run_policy j) |}.

(** The row of a missed run can be inserted. *)
Definition insertable (env : string -> Z * fault) (jm : Job * Z) : bool :=
  match reject_nan dbl_zero (reject_nan (dbl_of_Z (snd jm)) (snd (env (job_name (fst jm))))) with
  | NoFault => true
  | _ => false
  end.

(** An alert in the snapshot and, where its insertion succeeds, in the
    database for each missed run, and no other change. *)
Record announces (env : string -> Z * fault) (jms : list (Job * Z)) (s s' : Scheduler) : Prop := {
  an_state : sc_state s' =
    fold_left (fun st jm => add_alert (missed_info env jm) default_cap st) jms (sc_state s);
  an_rows : exists rows, alerts_tbl (sc_db s') = alerts_tbl (sc_db s) ++ rows /\
    Forall2 (fun jm r => exists id, r = stored_alert id (missed_row env jm))
      (List.filter (insertable env) jms) rows;
  an_metrics : metrics_tbl (sc_db s') = metrics_tbl (sc_db s);
  an_wall : sc_last_wall s' = sc_last_wall s;
  an_wake : sc_wake_pending s' = sc_wake_pending s
}.

Lemma announces_nil env s s' :
  sc_state s' = sc_state s -> sc_db s' = sc_db s -> sc_last_wall s' = sc_last_wall s ->
  sc_wake_pending s' = sc_wake_pending s -> announces env [] s s'.
Proof.
  intros E1 E2 E3 E4. split; rewrite ?E2; try done. exists []. by rewrite app_nil_r.
Qed.

Lemma announces_app env l1 l2 s1 s2 s3 :
  announces env l1 s1 s2 -> announces env l2 s2 s3 -> announces env (l1 ++ l2) s1 s3.
Proof.
  intros [E1 (r1 & R1 & F1) M1 W1 K1] [E2 (r2 & R2 & F2) M2 W2 K2]. split; try congruence.
  - by rewrite fold_left_app, <- E1.
  - exists (r1 ++ r2). split; [by rewrite R2, R1, app_assoc|].
    rewrite List.filter_app. by apply Forall2_app.
Qed.

(** What a scan of a job finds missed, with its occurrence. *)
Definition found (now : Z) (s : Scheduler) (j : Job) : option (Job * Z) :=
  m ← missed_of now s j; Some (j, m).

Lemma scan_one_announces now env j s :
  announces env (option_list (found now s j)) s (scan_one localtime now env j s).
Proof.
  unfold found, missed_of, scan_one.
  destruct (job_schedule j) as [sched|]; [|by apply announces_nil].
  destruct (detect_missed_run _ _ _ _) as [m|]; [|by apply announces_nil].
  destruct (_ <=? _)%Z; [by apply announces_nil|].
  destruct (env (job_name j)) as [ts f] eqn:Ee. cbn [option_list mbind option_bind].
  unfold emit_alert, alert_notify, alert_publish, alert_insert, enqueue.
  set (s1 := with_missed_handled _ (with_missed_handled _ s)).
  destruct (insert_alert f _ (sc_db s1)) as [[db id]| | |] eqn:Ei; unfold insert_alert, run_update in Ei;
    cbn [al_value al_threshold] in Ei;
    (assert (Hi : insertable env (j, m) = match reject_nan dbl_zero (reject_nan (dbl_of_Z m) f) with
        NoFault => true | _ => false end) by (unfold insertable; cbn [fst snd]; by rewrite Ee));
    destruct (reject_nan dbl_zero (reject_nan (dbl_of_Z m) f)); simplify_eq.
  all: split; [cbn; by rewrite Ee| |done..]; change (option_list (Some (j, m))) with [(j, m)];
    cbn [List.filter]; rewrite Hi.
  - eexists. split; [reflexivity|]. constructor; [|constructor]. eexists. unfold missed_row. by rewrite Ee.
  - exists []. split; [by rewrite app_nil_r|constructor].
  - exists []. split; [by rewrite app_nil_r|constructor].
Qed.

Lemma scan_fold_announces now env l s :
  NoDup (names_of l) ->
  announces env (omap (found now s) l) s (fold_left (fun s j => scan_one localtime now env j s) l s).
Proof.
  revert s. induction l as [|j l IH]; intros s Hn; [by apply announces_nil|].
  apply NoDup_cons in Hn as [Hj Hn]. cbn [fold_left omap list_omap].
  destruct (scan_one_spec now env j s) as (Hf & _ & _ & _ & Hh).
  assert (E : omap (found now (scan_one localtime now env j s)) l = omap (found now s) l).
  { apply list_omap_ext, Forall_Forall2_diag, Forall_forall. intros i Hi. unfold found.
    rewrite (missed_of_ext now s); [done|by apply frame_last|]. apply Hh. intros E. apply Hj.
    unfold names_of. rewrite <- E. by apply list_elem_of_In, in_map, list_elem_of_In. }
  pose proof (announces_app _ _ _ _ _ _ (scan_one_announces now env j s) (IH _ Hn)) as H.
  rewrite E in H. by destruct (found now s j).
Qed.

Lemma missed_of_Some now s j m :
  (0 <= now)%Z ->
  missed_of now s j = Some m <->
  exists sched, job_schedule j = Some sched /\ is_prev localtime sched now m /\
    (forall r, sc_last_runs s !! job_name j = Some r -> run_started_at r < m)%Z /\
    (sc_last_runs s !! job_name j = None -> 0 < m)%Z /\
    (default 0 (sc_missed_handled s !! job_name j) < m)%Z.
Proof.
  intros Hnow. unfold missed_of, detect_missed_run.
  destruct (job_schedule j) as [sched|]; [|naive_solver].
  destruct (Cron.prev_before localtime sched now) as [p|] eqn:Ep.
  - assert (Hp : is_prev localtime sched now p) by (by apply prev_before_iff).
    assert (Hu : forall q, is_prev localtime sched now q -> q = p).
    { intros q Hq%prev_before_iff; [|done]. congruence. }
    set (h := default 0%Z (sc_missed_handled s !! job_name j)).
    destruct (sc_last_runs s !! job_name j) as [r|] eqn:Er.
    + destruct (Z.leb_spec p (run_started_at r)), (Z.leb_spec p h); split; intros Hm;
        try discriminate Hm;
        try (destruct Hm as (sc & [= <-] & Hq%Hu & H1 & H2 & H3); subst m;
             specialize (H1 _ eq_refl); lia || done).
      injection Hm as <-. exists sched.
      refine (conj eq_refl (conj Hp (conj _ (conj _ _)))); [|done|lia].
      intros r' [= <-]. lia.
    + destruct (Z.leb_spec p 0), (Z.leb_spec p h); split; intros Hm;
        try discriminate Hm;
        try (destruct Hm as (sc & [= <-] & Hq%Hu & H1 & H2 & H3); subst m;
             specialize (H2 eq_refl); lia || done).
      injection Hm as <-. exists sched.
      refine (conj eq_refl (conj Hp (conj _ (conj _ _)))); [done|lia|lia].
  - split; [done|]. intros (sc & [= <-] & Hq%prev_before_iff & _); [congruence|done].
Qed.
End Scan.

(** ** The worker's trace *)

(** What the failed attempts [from .. to-1] leave in the trace: each is
    recorded and followed by as many seconds as its number, in tenths. *)
Definition failed_attempts (run : nat -> RunResult) (from to : nat) : list worker_event :=
  flat_map (fun i => Attempted (run i) :: repeat Slept (i * 10)) (seq from (to - from)).

Lemma backoff_forever n : backoff n None = (repeat Slept n, None).
Proof. induction n as [|n IH]; simpl; [done|]. by rewrite IH. Qed.

Lemma attempt_loop_forever run n a res0 :
  n <> 0 ->
  exists k, a <= k < a + n /\
    attempt_loop run n a res0 None =
      (failed_attempts run a k ++ [Attempted (run k)], run k, None) /\
    (forall i, a <= i < k -> is_success (run i) = false) /\
    (is_success (run k) = true \/ k = a + n - 1).
Proof.
  revert a res0. induction n as [|n IH]; intros a res0 Hn; [done|]. simpl.
  destruct (is_success (run a)) eqn:Es.
  { exists a. unfold failed_attempts. rewrite Nat.sub_diag. simpl.
    split_and!; try done; try lia. by left. }
  destruct n as [|n].
  { exists a. unfold failed_attempts. rewrite Nat.sub_diag. simpl.
    split_and!; try done; try lia. }
  rewrite backoff_forever.
  destruct (IH (S a) (run a) ltac:(done)) as (k & Hk & -> & Hf & Hl).
  exists k. split_and!; try lia.
  - f_equal. f_equal. unfold failed_attempts.
    replace (k - a) with (S (k - S a)) by lia. simpl.
    by rewrite <- app_assoc.
  - intros i Hi. destruct (decide (i = a)) as [->|]; [done|]. apply Hf. lia.
  - destruct Hl as [?| ->]; [by left|right; lia].
Qed.

Lemma check_active_Some b : check_active (Some b) = (negb (Nat.eqb b 0), Some (pred b)).
Proof. by destruct b. Qed.

Lemma backoff_budget n b evs b' :
  backoff n (Some b) = (evs, b') -> exists c, b' = Some c /\ length evs + c <= b.
Proof.
  revert b evs b'. induction n as [|n IH]; intros b evs b'; simpl.
  { intros [= <- <-]. exists b. simpl. split; [done|lia]. }
  destruct b as [|b]; simpl.
  { intros [= <- <-]. exists 0. split; [done|simpl; lia]. }
  destruct (backoff n (Some b)) as [evs1 b1] eqn:E. intros [= <- <-].
  destruct (IH _ _ _ E) as (c & -> & Hc). exists c. simpl. split; [done|lia].
Qed.

Lemma attempt_loop_budget run n a res0 b evs res b' :
  attempt_loop run n a res0 (Some b) = (evs, res, b') ->
  exists c, b' = Some c /\ length evs + c <= b.
Proof.
  revert a res0 b evs res b'. induction n as [|n IH]; intros a res0 b evs res b'; simpl.
  { intros [= <- <- <-]. exists b. simpl. split; [done|lia]. }
  destruct b as [|b]; simpl.
  { intros [= <- <- <-]. exists 0. simpl. split; [done|lia]. }
  destruct (is_success (run a)).
  { intros [= <- <- <-]. exists b. simpl. split; [done|lia]. }
  destruct (match n with 0 => _ | _ => _ end) as [sl b1] eqn:Eb.
  assert (exists c, b1 = Some c /\ length sl + c <= b) as (c & -> & Hc).
  { destruct n; [injection Eb as <- <-; exists b; simpl; split; [done|lia]|].
    by apply backoff_budget in Eb. }
  destruct (attempt_loop run n (S a) (run a) (Some c)) as [[evs1 r1] b2] eqn:E.
  intros [= <- <- <-]. destruct (IH _ _ _ _ _ _ E) as (d & -> & Hd).
  exists d. simpl. rewrite length_app. split; [done|lia].
Qed.

Lemma backoff_unfinished n b evs b' : backoff n b = (evs, b') -> Finished ∉ evs.
Proof.
  revert b evs b'. induction n as [|n IH]; intros b evs b'; simpl.
  { intros [= <- <-]. set_solver. }
  destruct (check_active b) as [[] b1]; [|intros [= <- <-]; set_solver].
  destruct (backoff n b1) as [e b2] eqn:E. intros [= <- <-].
  apply IH in E. set_solver.
Qed.

Lemma attempt_loop_unfinished run n a res0 b evs res b' :
  attempt_loop run n a res0 b = (evs, res, b') -> Finished ∉ evs.
Proof.
  revert a res0 b evs res b'. induction n as [|n IH]; intros a res0 b evs res b'; simpl.
  { intros [= <- <- <-]. set_solver. }
  destruct (check_active b) as [[] b1]; [|intros [= <- <- <-]; set_solver].
  destruct (is_success (run a)); [intros [= <- <- <-]; set_solver|].
  destruct (match n with 0 => _ | _ => _ end) as [sl b2] eqn:Eb.
  assert (Finished ∉ sl).
  { destruct n; [injection Eb as <- <-; set_solver|]. by eapply backoff_unfinished. }
  destruct (attempt_loop run n (S a) (run a) b2) as [[e r] b3] eqn:E.
  intros [= <- <- <-]. apply IH in E. set_solver.
Qed.

(** ** The last line of the standard error *)

Lemma failure_detail_length err : String.length (failure_detail err) <= 160.
Proof.
  unfold failure_detail. destruct (find_last _ 0 err) as [e|]; [|simpl; lia].
  destruct (Nat.ltb_spec 160 (String.length
    (substr (match find_last (Ascii.eqb nl) 0 (str_take (S e) err) with
             | Some i => S i | None => 0 end)
       (e - match find_last (Ascii.eqb nl) 0 (str_take (S e) err) with
            | Some i => S i | None => 0 end + 1) err))) as [H|H]; [|lia].
  rewrite str_app_length. unfold substr at 1. rewrite str_take_length.
  change (String.length "...") with 3. lia.
Qed.

Lemma failure_detail_line pre l c blanks :
  (pre = "" \/ exists q, pre = q +:+ NL) ->
  trailing_blank c = false -> all_chars trailing_blank blanks = true ->
  all_chars (fun x => negb (Ascii.eqb nl x)) (l +:+ String c "") = true ->
  let line := l +:+ String c "" in
  failure_detail (pre +:+ (line +:+ blanks)) =
    if Nat.ltb 160 (String.length line) then str_take 157 line +:+ "..." else line.
Proof.
  intros Hpre Hc Hb Hl line. unfold failure_detail.
  assert (E1 : find_last (fun c => negb (trailing_blank c)) 0 (pre +:+ (line +:+ blanks)) =
               Some (String.length pre + String.length l)).
  { rewrite find_last_app. unfold line. rewrite <- str_app_assoc.
    rewrite find_last_app. cbn [String.append]. cbn [find_last].
    rewrite find_last_None; [by rewrite Hc|].
    clear -Hb. revert Hb. apply all_chars_impl. intros x Hx. by rewrite Hx. }
  rewrite E1.
  assert (E2 : str_take (S (String.length pre + String.length l))
                 (pre +:+ (line +:+ blanks)) = pre +:+ line).
  { rewrite str_app_assoc.
    replace (S (String.length pre + String.length l)) with (String.length (pre +:+ line))
      by (unfold line; rewrite !str_app_length; simpl; lia).
    apply str_take_app_length. }
  rewrite E2, find_last_app, (find_last_None _ _ line) by done.
  assert (E3 : match find_last (Ascii.eqb nl) 0 pre with Some i => S i | None => 0 end =
               String.length pre).
  { destruct Hpre as [->|[q ->]]; [done|]. rewrite find_last_app, str_app_length. cbn. lia. }
  rewrite E3.
  replace (String.length pre + String.length l - String.length pre + 1)
    with (String.length line) by (unfold line; rewrite str_app_length; cbn; lia).
  unfold substr. rewrite str_drop_app_length, str_take_app_length. done.
Qed.

(** ** Launching *)

(** A task whose replacement destroys a running thread. *)
Definition blocked (s : Scheduler) (n : string) : bool :=
  match sc_running s !! n with Some t => task_joinable t | None => false end.

Definition launch_names (ls : list (Job * string)) : list string :=
  map (fun l : Job * string => job_name (fst l)) ls.

Definition new_task : Task := {| task_done := false; task_joinable := true |}.

Lemma launch_cases l s :
  launch l s = if blocked s (job_name (fst l)) then Terminate
               else Ret (with_running (<[job_name (fst l) := new_task]> (sc_running s)) s).
Proof. unfold launch, blocked. by destruct (sc_running s !! _) as [[? []]|]. Qed.

Lemma blocked_after (l : Job * string) s n :
  blocked (with_running (<[job_name (fst l) := new_task]> (sc_running s)) s) n =
  bool_decide (job_name (fst l) = n) || blocked s n.
Proof.
  unfold blocked. cbn. case_bool_decide as E.
  - rewrite E, lookup_insert_eq. done.
  - by rewrite lookup_insert_ne.
Qed.

(** Launching several: all of them start, or the process terminates. *)
Lemma launch_all ls s :
  (NoDup (launch_names ls) /\ (forall n, n ∈ launch_names ls -> blocked s n = false) /\
   for_each launch ls s =
     Ret (with_running (fold_left (fun m n => <[n := new_task]> m) (launch_names ls)
                                  (sc_running s)) s)) \/
  (~ (NoDup (launch_names ls) /\ (forall n, n ∈ launch_names ls -> blocked s n = false)) /\
   for_each launch ls s = Terminate).
Proof.
  revert s. induction ls as [|l ls IH]; intros s; simpl.
  { left. split_and!; [constructor|set_solver|by destruct s]. }
  rewrite launch_cases. destruct (blocked s (job_name (fst l))) eqn:Eb.
  { right. split; [|done]. intros [_ H]. rewrite H in Eb; [done|]. by left. }
  simpl. set (s1 := with_running _ s).
  destruct (IH s1) as [(Hn & Hb & ->)|(Hno & ->)].
  - left. split_and!; [| |done].
    + constructor; [|done]. intros Hin. apply Hb in Hin. unfold s1 in Hin.
      rewrite blocked_after, bool_decide_true in Hin; done.
    + intros n [->|Hin]%elem_of_cons; [done|]. apply Hb in Hin. unfold s1 in Hin.
      rewrite blocked_after in Hin. by apply orb_false_iff in Hin as [_ ?].
  - right. split; [|done]. intros [[Hl Hn]%NoDup_cons Hb]. apply Hno. split; [done|].
    intros n Hin. unfold s1. rewrite blocked_after, bool_decide_false by congruence.
    apply Hb. by right.
Qed.

Lemma scan_missed_grows localtime {sq : Sqlite} now env s :
  let s' := scan_missed localtime now env s in
  scan_frame s s' /\ exists extra, sc_queue s' = sc_queue s ++ extra /\
    Forall (fun q : string * string => snd q = "missed" /\ fst q ∈ names_of (sc_jobs s)) extra.
Proof.
  cbn zeta. unfold scan_missed.
  assert (Hl : forall j, j ∈ List.filter is_candidate (sc_jobs s) ->
                         job_name j ∈ names_of (sc_jobs s)).
  { intros j Hj%list_elem_of_In%filter_In. apply list_elem_of_In, in_map. tauto. }
  revert Hl. generalize (List.filter is_candidate (sc_jobs s)) as l.
  generalize (names_of (sc_jobs s)) as names.
  intros names l. revert s. induction l as [|j l IH]; intros s Hl; cbn [fold_left].
  { split; [apply scan_frame_refl|]. exists []. by rewrite app_nil_r. }
  destruct (scan_one_spec localtime now env j s) as (Hf & Hq & _).
  destruct (IH (scan_one localtime now env j s)) as (Hf' & extra & Hq' & He).
  { intros i Hi. apply Hl. by right. }
  split; [by eapply scan_frame_trans|].
  rewrite Hq', Hq, <- app_assoc. eexists. split; [reflexivity|].
  apply Forall_app. split; [|done].
  destruct (is_missed _ _ _ j); constructor; [|constructor]. split; [done|]. apply Hl. left.
Qed.

Lemma wake_scan_grows localtime {sq : Sqlite} wall scan_now env s :
  let s' := wake_scan localtime wall scan_now env s in
  scan_frame s s' /\ exists extra, sc_queue s' = sc_queue s ++ extra /\
    Forall (fun q : string * string => snd q = "missed" /\ fst q ∈ names_of (sc_jobs s)) extra.
Proof.
  cbn zeta. unfold wake_scan.
  assert (H0 : forall s1, scan_frame s s1 -> sc_queue s1 = sc_queue s ->
    scan_frame s (scan_missed localtime scan_now env s1) /\
    exists extra, sc_queue (scan_missed localtime scan_now env s1) = sc_queue s ++ extra /\
      Forall (fun q : string * string => snd q = "missed" /\ fst q ∈ names_of (sc_jobs s)) extra).
  { intros s1 Hf Hq. destruct (scan_missed_grows localtime scan_now env s1) as (Hf' & e & He & Ha).
    split; [by eapply scan_frame_trans|]. exists e. rewrite He, Hq. split; [done|].
    by rewrite (frame_jobs _ _ Hf) in Ha. }
  destruct (kWakeGapSeconds <? wall - sc_last_wall s)%Z; [by apply H0|].
  cbn [sc_wake_pending with_last_wall]. destruct (sc_wake_pending s); [by apply H0|].
  split; [done|]. exists []. by rewrite app_nil_r.
Qed.

(** ** Jobs in memory and definitions on disk *)

(** A UI job that its stored form determines: texts without NUL, and the
    schedule its expression parses to. *)
Record restorable (j : Job) : Prop := {
  rest_source : job_source j = "ui";
  rest_name : c_str (job_name j) = job_name j;
  rest_command : c_str (job_command j) = job_command j;
  rest_expr : c_str (job_schedule_expr j) = job_schedule_expr j;
  rest_schedule : (if str_empty (job_schedule_expr j) then Ret None
                   else Cron.parse (job_schedule_expr j)) = Ret (job_schedule j)
}.

Lemma job_def_roundtrip j :
  restorable j -> job_from_def (stored_def (def_from_job j)) = Ret j.
Proof.
  intros []. unfold job_from_def, stored_def, def_from_job. cbn.
  rewrite rest_name0, rest_command0, rest_expr0, rest_schedule0. cbn. f_equal.
  destruct j as [n c s e p t r src]; cbn in *. by destruct p; subst.
Qed.

Lemma stored_name j : restorable j -> def_name (stored_def (def_from_job j)) = job_name j.
Proof. intros []. done. Qed.

(** UI jobs are the stored definitions, and every definition names a job. *)
Record synced (s : Scheduler) : Prop := {
  sync_distinct : names_distinct (job_defs_tbl (sc_db s));
  sync_jobs j : j ∈ sc_jobs s -> job_source j = "ui" ->
    restorable j /\
    defs_map (job_defs_tbl (sc_db s)) !! job_name j = Some (stored_def (def_from_job j));
  sync_defs n d : defs_map (job_defs_tbl (sc_db s)) !! n = Some d ->
    is_Some (find_job n s) /\
    exists j, restorable j /\ d = stored_def (def_from_job j) /\ job_name j = n
}.

Section Persist.
Context (localtime : Z -> tm) {sq : Sqlite}.

Lemma add_job_outcomes f now j s :
  let '(msg, s') := add_job localtime f now j s in
  (msg = "" /\ str_empty (job_name j) = false /\ str_empty (job_command j) = false /\
     f = NoFault /\ find_job (job_name j) s = None /\
     sc_jobs s' = sc_jobs s ++ [with_source "ui" j] /\
     sc_next_run s' = schedule_next localtime now (with_source "ui" j) (sc_next_run s) /\
     job_defs_tbl (sc_db s') =
       upsert_rows (stored_def (def_from_job (with_source "ui" j))) (job_defs_tbl (sc_db s)) /\
     sc_last_runs s' = sc_last_runs s /\ sc_queue s' = sc_queue s /\
     sc_running s' = sc_running s /\ sc_missed_handled s' = sc_missed_handled s)
  \/ (msg <> "" /\ s' = s).
Proof.
  unfold add_job, upsert_job_def, run_update.
  destruct (str_empty (job_name j)) eqn:En; [by right|].
  destruct (str_empty (job_command j)) eqn:Ec; [by right|].
  destruct (find_job (job_name j) s) eqn:Ef; [by right|].
  rewrite bool_decide_false by (by intros [? [=]]).
  destruct f; [left; by split_and!|by right|by right].
Qed.

Lemma add_job_accepted now j s :
  str_empty (job_name j) = false -> str_empty (job_command j) = false -> find_job (job_name j) s = None ->
  fst (add_job localtime NoFault now j s) = "".
Proof. intros Hn Hc Hf. unfold add_job, upsert_job_def, run_update. by rewrite Hn, Hc, Hf. Qed.

Lemma remove_job_outcomes f n s :
  let '(msg, s') := remove_job f n s in
  (msg = "" /\ f = NoFault /\
     (exists j, find_job n s = Some j /\ job_source j = "ui") /\
     sc_jobs s' = without_job n (sc_jobs s) /\
     sc_next_run s' = delete n (sc_next_run s) /\
     sc_last_runs s' = delete n (sc_last_runs s) /\
     sc_missed_handled s' = delete n (sc_missed_handled s) /\
     job_defs_tbl (sc_db s') = without (c_str n) (job_defs_tbl (sc_db s)) /\
     sc_queue s' = sc_queue s /\ sc_running s' = sc_running s)
  \/ (msg <> "" /\ s' = s).
Proof.
  unfold remove_job, delete_job_def, run_update.
  destruct (find_job n s) as [j|] eqn:Ef; [|by right].
  destruct (String.eqb_spec (job_source j) "ui") as [Es|]; [|by right].
  destruct f; [left; split_and!; eauto; done|by right|by right].
Qed.

(** What keeps memory and disk in agreement. *)
Lemma synced_ext s s' :
  sc_jobs s' = sc_jobs s -> job_defs_tbl (sc_db s') = job_defs_tbl (sc_db s) ->
  synced s -> synced s'.
Proof. intros Ej Ed []. split; unfold find_job in *; rewrite ?Ej, ?Ed; auto. Qed.

Lemma upsert_synced j s s' :
  restorable j -> find_job (job_name j) s = None -> synced s ->
  sc_jobs s' = sc_jobs s ++ [j] ->
  job_defs_tbl (sc_db s') = upsert_rows (stored_def (def_from_job j)) (job_defs_tbl (sc_db s)) ->
  synced s'.
Proof.
  intros Hr Hf [H1 H2 H3] Ej Ed.
  assert (Em : defs_map (job_defs_tbl (sc_db s')) =
    <[job_name j := stored_def (def_from_job j)]> (defs_map (job_defs_tbl (sc_db s)))).
  { rewrite Ed, upsert_rows_map. by rewrite stored_name. }
  split.
  - rewrite Ed. by apply upsert_rows_distinct.
  - rewrite Ej. intros i [Hi|Hi]%elem_of_app Hui.
    + destruct (H2 i Hi Hui) as [Hri Hl]. split; [done|]. rewrite Em.
      rewrite lookup_insert_ne; [done|]. intros E. apply find_in_None in Hf.
      apply Hf. rewrite E. apply list_elem_of_In, in_map, list_elem_of_In, Hi.
    + apply list_elem_of_singleton in Hi as ->. split; [done|]. rewrite Em.
      by apply lookup_insert_eq.
  - intros n d. rewrite Em. unfold find_job. rewrite Ej, find_in_app.
    intros [[<- <-]|[Hn Hd]]%lookup_insert_Some.
    + split; [|by exists j]. unfold find_job in Hf. rewrite Hf.
      unfold find_in. simpl. rewrite String.eqb_refl. eauto.
    + destruct (H3 n d Hd) as [[i Hi] He]. split; [|done].
      unfold find_job in Hi. rewrite Hi. eauto.
Qed.

Lemma delete_synced n s s' :
  synced s -> sc_jobs s' = without_job n (sc_jobs s) ->
  job_defs_tbl (sc_db s') = without n (job_defs_tbl (sc_db s)) -> synced s'.
Proof.
  intros [H1 H2 H3] Ej Ed.
  assert (Em : defs_map (job_defs_tbl (sc_db s')) = delete n (defs_map (job_defs_tbl (sc_db s)))).
  { by rewrite Ed, without_map. }
  split.
  - rewrite Ed. by apply without_distinct.
  - rewrite Ej. intros i [Hi Hne]%without_job_elem Hui.
    destruct (H2 i Hi Hui) as [Hri Hl]. split; [done|].
    by rewrite Em, lookup_delete_ne.
  - intros m d. rewrite Em. intros [Hne Hd]%lookup_delete_Some.
    destruct (H3 m d Hd) as [Hi He]. split; [|done].
    unfold find_job. rewrite Ej, find_without_job.
    by destruct (String.eqb_spec m n).
Qed.

Lemma add_job_synced f now j s :
  restorable (with_source "ui" j) -> synced s -> synced (snd (add_job localtime f now j s)).
Proof.
  intros Hr Hs. pose proof (add_job_outcomes f now j s) as H.
  destruct (add_job localtime f now j s) as [msg s']; simpl.
  destruct H as [(_ & _ & _ & _ & Hf & Ej & _ & Ed & _)|[_ ->]]; [|done].
  by eapply (upsert_synced (with_source "ui" j)).
Qed.

Lemma remove_job_synced f n s :
  c_str n = n -> synced s -> synced (snd (remove_job f n s)).
Proof.
  intros Hn Hs. pose proof (remove_job_outcomes f n s) as H.
  destruct (remove_job f n s) as [msg s']; simpl.
  destruct H as [(_ & _ & _ & Ej & _ & _ & _ & Ed & _)|[_ ->]]; [|done].
  rewrite Hn in Ed. by eapply delete_synced.
Qed.
End Persist.

Lemma merge_defs defs jobs :
  NoDup (map def_name defs) ->
  (forall d, d ∈ defs -> exists j, job_from_def d = Ret j /\ job_name j = def_name d) ->
  exists jobs', for_each merge_def defs jobs = Ret jobs' /\
    (forall n j, find_in n jobs = Some j -> find_in n jobs' = Some j) /\
    (forall d, d ∈ defs -> find_in (def_name d) jobs = None ->
       exists j, job_from_def d = Ret j /\ find_in (def_name d) jobs' = Some j) /\
    (forall n, is_Some (find_in n jobs') -> is_Some (find_in n jobs) \/ n ∈ map def_name defs).
Proof.
  revert jobs. induction defs as [|d defs IH]; intros jobs Hn Hd; simpl.
  { exists jobs. split_and!; auto. intros d Hx. by apply not_elem_of_nil in Hx. }
  apply NoDup_cons in Hn as [Hnd Hn].
  assert (Hd' : forall d, d ∈ defs -> exists j, job_from_def d = Ret j /\ job_name j = def_name d)
    by (intros; apply Hd; by right).
  unfold merge_def. destruct (find_in (def_name d) jobs) as [i|] eqn:Ef; simpl.
  - destruct (IH jobs Hn Hd') as (jobs' & E & H1 & H2 & H3). exists jobs'.
    split_and!; auto.
    + intros d' [->|Hin]%elem_of_cons; [congruence|auto].
    + intros n Hs. destruct (H3 n Hs); [by left|right; by right].
  - destruct (Hd d) as (j & Ej & En); [by left|]. rewrite Ej. simpl.
    destruct (IH (jobs ++ [j]) Hn Hd') as (jobs' & E & H1 & H2 & H3). exists jobs'.
    assert (Hj : find_in (def_name d) (jobs ++ [j]) = Some j).
    { rewrite find_in_app, Ef. unfold find_in. simpl. by rewrite En, String.eqb_refl. }
    split_and!; auto.
    + intros n i Hi. apply H1. by rewrite find_in_app, Hi.
    + intros d' [->|Hin]%elem_of_cons Hf; [by exists j; auto|].
      apply H2; [done|]. rewrite find_in_app, Hf. unfold find_in. simpl.
      destruct (String.eqb_spec (job_name j) (def_name d')) as [E'|]; [|done].
      destruct Hnd. rewrite <- En, E'. apply list_elem_of_In, in_map, list_elem_of_In, Hin.
    + intros n Hs. destruct (H3 n Hs) as [Hn'|]; [|right; by right].
      rewrite find_in_app in Hn'. destruct (find_in n jobs); [by left; eauto|].
      unfold find_in in Hn'. simpl in Hn'.
      destruct (String.eqb_spec (job_name j) n) as [<-|]; [|by destruct Hn'].
      right. rewrite En. by left.
Qed.

Lemma load_lasts {sq : Sqlite} jobs db m :
  exists m', for_each (load_last (fun _ => NoFault) db) jobs m = Ret m'.
Proof.
  revert m. induction jobs as [|j jobs IH]; intros m; simpl; [eauto|].
  unfold load_last, last_run, run_query. simpl.
  destruct (head _); simpl; apply IH.
Qed.

(** ** Properties *)

(** A scheduler for the examples. *)
Definition example_sched_job (name expr : string) (policy : MissedRunPolicy) : Job :=
  {| job_name := name; job_command := "true"; job_schedule := Some (sched_of expr);
     job_schedule_expr := expr; job_missed_run_policy := policy;
     job_timeout_seconds := 0; job_retries := 2; job_source := "ui" |}.

Definition hourly : Job := example_sched_job "hourly" "0 * * * *" RunOnWake.

Definition example_scheduler : Scheduler :=
  {| sc_jobs := [hourly; example_sched_job "daily" "30 8 * * *" NoPolicy];
     sc_next_run := {["hourly" := 1700038800%Z]};
     sc_running := ∅; sc_last_runs := ∅; sc_missed_handled := ∅; sc_queue := [];
     sc_last_wall := 1700035200; sc_wake_pending := false; sc_active := true;
     sc_db := {| metrics_tbl := []; runs_tbl := []; alerts_tbl := [];
                 job_defs_tbl := [stored_def (def_from_job hourly)] |};
     sc_state := initial_state; sc_notified := [] |}.

(** At a turn of the loop a scheduled job whose next run was computed at
    time [w] is started exactly when its schedule has an occurrence after [w]
    up to now and it is not still running; its next run is then the one after
    now, so that no occurrence starts it twice and several passed occurrences
    start it once. *)
Theorem due_jobs_fire_once localtime now w s s' launches j sched t :
  NoDup (names_of (sc_jobs s)) ->
  Forall (fun q => snd q <> "schedule") (sc_queue s) ->
  pick localtime now s = (s', launches) ->
  j ∈ sc_jobs s -> job_schedule j = Some sched -> (0 <= w <= now)%Z ->
  sc_next_run s !! job_name j = Some t -> Cron.next_after localtime sched w = Some t ->
  ((j, "schedule") ∈ launches <->
     is_running s (job_name j) = false /\
     exists t', (w < t' <= now)%Z /\ aligned t' /\ matches_at localtime sched t' = true) /\
  length (List.filter (scheduled_launch (job_name j)) launches) <= 1 /\
  sc_next_run s' !! job_name j = Cron.next_after localtime sched now.
Proof.
  intros Hn Hq Hp Hj Hs Hw Ht Hna.
  destruct (pick_spec localtime now s Hn) as (nr' & E & Hin & _).
  rewrite E in Hp. injection Hp as <- <-. clear E.
  assert (Hreq : forall l, l ∈ omap (requested s false) (sc_queue s) -> snd l <> "schedule").
  { intros l (q & Hql & Hr)%list_elem_of_omap. unfold requested in Hr.
    rewrite Forall_forall in Hq. specialize (Hq q Hql).
    destruct (find_job _ _); [|done]. destruct (Bool.eqb _ _); [|done].
    by injection Hr as <-. }
  assert (Hdue : is_due now (sc_next_run s) j = (t <=? now)%Z)
    by (unfold is_due; by rewrite Hs, Ht).
  split_and!.
  - rewrite <- (next_after_occurs localtime sched w now t) by (done || lia).
    rewrite elem_of_app, !list_elem_of_In, in_map_iff. split.
    + intros [Hx|(i & [= ->] & [Hi Hf]%filter_In)].
      { apply list_elem_of_In, Hreq in Hx. done. }
      unfold fires in Hf. rewrite Hdue in Hf.
      apply andb_true_iff in Hf as [Hle Hr%negb_true_iff]. split; [done|lia].
    + intros [Hr Hle]. right. exists j. split; [done|]. apply filter_In.
      split; [by apply list_elem_of_In|]. unfold fires. rewrite Hdue, Hr.
      by rewrite (proj2 (Z.leb_le _ _) Hle).
  - rewrite List.filter_app, length_app, (schedule_entries_none _ _ Hreq). simpl.
    by apply schedule_entries_le.
  - cbn. rewrite Hin by done. unfold advanced. rewrite Hs, Hdue.
    destruct (Z.leb_spec t now); [done|]. rewrite Ht. symmetry.
    by apply (next_after_later localtime sched w).
Qed.

Lemma due_jobs_fire_once_witness :
  (hourly, "schedule") ∈ snd (pick utc 1700046005 example_scheduler) /\
  sc_next_run (fst (pick utc 1700046005 example_scheduler)) !! "hourly" =
    Cron.next_after utc (sched_of "0 * * * *") 1700046005.
Proof.
  destruct (due_jobs_fire_once utc 1700046005 1700035201 example_scheduler
    (fst (pick utc 1700046005 example_scheduler)) (snd (pick utc 1700046005 example_scheduler))
    hourly (sched_of "0 * * * *") 1700038800%Z) as (Hf & _ & Hn).
  - apply NoDup_cons. split; [|apply NoDup_singleton].
    intros H. by apply list_elem_of_singleton in H.
  - constructor.
  - by destruct (pick utc 1700046005 example_scheduler).
  - left.
  - reflexivity.
  - lia.
  - vm_compute. reflexivity.
  - vm_compute. reflexivity.
  - split; [|exact Hn]. apply Hf. split; [vm_compute; reflexivity|].
    exists 1700038800%Z. split; [lia|]. split; [by exists 28333980%Z|].
    vm_compute. reflexivity.
Defined.

(** C8: a scan queues a "missed" run, with one notification, for exactly the
    jobs with a recovery policy whose latest occurrence at or before now is
    later than the start of their last recorded run and than the occurrence
    already handled.  Each is also announced by one alert in the snapshot and,
    unless the insertion fails, one in the database; nothing else changes but
    the record of what was handled ([scan_frame] and [announces] list the rest
    of the state), and a second scan at the same time queues nothing. *)
Theorem scan_missed_once localtime {sq : Sqlite} now env env' s :
  NoDup (names_of (sc_jobs s)) -> (0 <= now)%Z ->
  let s' := scan_missed localtime now env s in
  (exists missed, sc_queue s' = sc_queue s ++ map (fun j => (job_name j, "missed")) missed /\
     sc_notified s' = reverse (map missed_notice missed) ++ sc_notified s /\
     NoDup (names_of missed) /\
     (exists jms, map fst jms = missed /\ announces env jms s s' /\
        forall j p, (j, p) ∈ jms -> exists sched, job_schedule j = Some sched /\ is_prev localtime sched now p) /\
     forall j, j ∈ missed <->
       j ∈ sc_jobs s /\ job_missed_run_policy j <> NoPolicy /\
       exists sched p, job_schedule j = Some sched /\ is_prev localtime sched now p /\
         (forall r, sc_last_runs s !! job_name j = Some r -> run_started_at r < p)%Z /\
         (sc_last_runs s !! job_name j = None -> 0 < p)%Z /\
         (default 0 (sc_missed_handled s !! job_name j) < p)%Z) /\
  scan_frame s s' /\
  sc_queue (scan_missed localtime now env' s') = sc_queue s'.
Proof.
  intros Hn Hnow. cbn zeta. unfold scan_missed.
  pose proof (names_filter is_candidate _ Hn) as Hc.
  set (cs := List.filter is_candidate (sc_jobs s)) in *.
  destruct (scan_fold localtime now env cs s Hc) as (Hf & Hq & Hnt & Hm & _).
  set (s' := fold_left _ cs s) in *. split_and!.
  - exists (List.filter (is_missed localtime now s) cs). split_and!; [done|done| | |].
    + by apply names_filter.
    + exists (omap (found localtime now s) cs). split_and!.
      * clear. induction cs as [|j cs IH]; [done|]. cbn [omap list_omap List.filter].
        unfold found at 1, is_missed at 1. destruct (missed_of localtime now s j) as [m|] eqn:E; cbn.
        -- by f_equal.
        -- exact IH.
      * exact (scan_fold_announces localtime now env cs s Hc).
      * intros j p (i & Hi & Hfo)%list_elem_of_omap. unfold found in Hfo.
        destruct (missed_of localtime now s i) as [m|] eqn:E; [|done]. injection Hfo as -> ->.
        apply missed_of_Some in E as (sched & Hs & Hp & _); eauto.
    + intros j. rewrite list_elem_of_In, filter_In. unfold cs. rewrite filter_In.
      unfold is_missed, is_candidate. rewrite andb_true_iff, !bool_decide_eq_true.
      rewrite <- list_elem_of_In. split.
      * intros ((Hj & _ & Hp) & [m Hmi]). apply missed_of_Some in Hmi; [|done].
        destruct Hmi as (sched & ?). split_and!; eauto.
      * intros (Hj & Hp & sched & p & Hs & Hrest). split_and!; [done|by rewrite Hs|done|].
        exists p. apply missed_of_Some; [done|]. exists sched. by split.
  - done.
  - assert (Ecs : List.filter is_candidate (sc_jobs s') = cs) by (by rewrite (frame_jobs _ _ Hf)).
    rewrite Ecs. destruct (scan_fold localtime now env' cs s' Hc) as (_ & -> & _).
    rewrite (filter_none (is_missed localtime now s')), app_nil_r; [done|].
    intros j Hj. unfold is_missed. by rewrite Hm.
Qed.

Lemma names_example : NoDup (names_of (sc_jobs example_scheduler)).
Proof.
  apply NoDup_cons. split; [|apply NoDup_singleton].
  intros H. by apply list_elem_of_singleton in H.
Qed.

Definition no_env (_ : string) : Z * fault := (0%Z, NoFault).

Lemma scan_missed_once_witness :
  let s' := scan_missed utc 1700046005 no_env example_scheduler in
  sc_queue s' = [("hourly", "missed")] /\
  sc_queue (scan_missed utc 1700046005 no_env s') = [("hourly", "missed")].
Proof.
  destruct (scan_missed_once utc 1700046005 no_env no_env example_scheduler
              names_example ltac:(lia)) as (_ & _ & E).
  cbv zeta. split; [vm_compute; reflexivity|]. rewrite E. vm_compute. reflexivity.
Defined.

(** A call of the job API. *)
Inductive job_call :=
| AddJob (f : fault) (now : Z) (j : Job)
| RemoveJob (f : fault) (name : string).

Definition job_call_ok (c : job_call) : Prop :=
  match c with
  | AddJob _ _ j => restorable (with_source "ui" j)
  | RemoveJob _ n => c_str n = n
  end.

Definition job_calls (localtime : Z -> tm) {sq : Sqlite} (calls : list job_call) (s : Scheduler)
    : Scheduler :=
  fold_left (fun s c => match c with
                        | AddJob f now j => snd (add_job localtime f now j s)
                        | RemoveJob f n => snd (remove_job f n s)
                        end) calls s.

(** Memory and disk agree: after any sequence of additions and removals,
    whichever SQLite calls fail, the jobs whose source is the UI are exactly
    the stored definitions ([synced]), names stay distinct, and jobs of
    config.yaml are neither added nor removed. *)
Theorem memory_disk_agree localtime {sq : Sqlite} calls s :
  synced s -> NoDup (names_of (sc_jobs s)) -> Forall job_call_ok calls ->
  let s' := job_calls localtime calls s in
  synced s' /\ NoDup (names_of (sc_jobs s')) /\
  forall j, job_source j <> "ui" -> (j ∈ sc_jobs s' <-> j ∈ sc_jobs s).
Proof.
  intros Hs Hn Hc. cbn zeta. revert s Hs Hn.
  induction Hc as [|c calls Hok _ IH]; intros s Hs Hn; simpl; [done|].
  destruct c as [f now j|f n]; simpl in Hok.
  - pose proof (add_job_synced localtime f now j s Hok Hs) as Hs'.
    pose proof (add_job_outcomes localtime f now j s) as H.
    destruct (add_job localtime f now j s) as [msg s']; simpl in *.
    destruct H as [(_ & _ & _ & _ & Hf & Ej & _)|[_ ->]]; [|by apply IH].
    destruct (IH s' Hs') as (H1 & H2 & H3).
    { rewrite Ej. unfold names_of. rewrite map_app. apply NoDup_app. split_and!; [done| |].
      - intros x Hx Hx'. apply list_elem_of_singleton in Hx' as ->.
        by apply find_in_None in Hf.
      - apply NoDup_singleton. }
    split_and!; [done|done|]. intros i Hi. rewrite H3, Ej, elem_of_app by done.
    split; [|by left]. intros [?|Hx]; [done|]. by apply list_elem_of_singleton in Hx as ->.
  - pose proof (remove_job_synced f n s Hok Hs) as Hs'.
    pose proof (remove_job_outcomes f n s) as H.
    destruct (remove_job f n s) as [msg s']; simpl in *.
    destruct H as [(_ & _ & (r & Hr & Hui) & Ej & _)|[_ ->]]; [|by apply IH].
    destruct (IH s' Hs') as (H1 & H2 & H3); [rewrite Ej; by apply names_filter|].
    split_and!; [done|done|]. intros i Hi. rewrite H3, Ej, without_job_elem by done.
    split; [tauto|]. intros Hin. split; [done|]. intros E.
    apply (find_in_unique _ _ Hn) in Hin. unfold find_job in Hr. congruence.
Qed.

Lemma hourly_restorable : restorable hourly.
Proof. split; vm_compute; reflexivity. Qed.

Definition unsaved : Scheduler := with_jobs [] (with_db empty_tables example_scheduler).

Lemma unsaved_synced : synced unsaved.
Proof.
  split; [constructor| |].
  - intros j Hj. by apply not_elem_of_nil in Hj.
  - intros n d Hd. change (defs_map _) with (∅ : gmap string JobDef) in Hd.
    by rewrite lookup_empty in Hd.
Qed.

Lemma memory_disk_agree_witness :
  let s' := job_calls utc [AddJob NoFault 1700035200 hourly; RemoveJob (StepFails 0 "locked") "hourly";
                           AddJob NoFault 1700035200 hourly] unsaved in
  synced s' /\ names_of (sc_jobs s') = ["hourly"].
Proof.
  cbv zeta. split; [|vm_compute; reflexivity].
  apply (memory_disk_agree utc [AddJob NoFault 1700035200 hourly;
    RemoveJob (StepFails 0 "locked") "hourly"; AddJob NoFault 1700035200 hourly] unsaved).
  - exact unsaved_synced.
  - constructor.
  - repeat constructor; try reflexivity; try exact (rest_schedule _ hourly_restorable).
Defined.

(** ** Restarts *)

(** The job a database holds under a name. *)
Definition stored_job (db : Tables) (n : string) : option Job :=
  match defs_map (job_defs_tbl db) !! n with
  | Some d => match job_from_def d with Ret j => Some j | _ => None end
  | None => None
  end.

(** Every definition is that of a job it determines. *)
Record sound_defs (db : Tables) : Prop := {
  sd_distinct : names_distinct (job_defs_tbl db);
  sd_restorable n d : defs_map (job_defs_tbl db) !! n = Some d ->
    exists j, restorable j /\ d = stored_def (def_from_job j) /\ job_name j = n
}.

Lemma synced_sound s : synced s -> sound_defs (sc_db s).
Proof. intros [H1 H2 H3]. split; [done|]. intros n d Hd. by destruct (H3 n d Hd). Qed.

Lemma stored_job_def db j :
  restorable j -> defs_map (job_defs_tbl db) !! job_name j = Some (stored_def (def_from_job j)) ->
  stored_job db (job_name j) = Some j.
Proof. intros Hr Hd. unfold stored_job. by rewrite Hd, job_def_roundtrip. Qed.

Lemma stored_job_Some db n j :
  sound_defs db -> stored_job db n = Some j ->
  restorable j /\ job_name j = n /\
  defs_map (job_defs_tbl db) !! n = Some (stored_def (def_from_job j)).
Proof.
  intros [_ H]. unfold stored_job. destruct (defs_map _ !! n) as [d|] eqn:Ed; [|done].
  destruct (H n d Ed) as (i & Hr & -> & Hn). rewrite job_def_roundtrip by done. by intros [= ->].
Qed.

Lemma stored_job_None db n :
  sound_defs db -> stored_job db n = None -> defs_map (job_defs_tbl db) !! n = None.
Proof.
  intros [_ H]. unfold stored_job. destruct (defs_map _ !! n) as [d|] eqn:Ed; [|done].
  destruct (H n d Ed) as (i & Hr & -> & Hn). by rewrite job_def_roundtrip.
Qed.

(** A scheduler constructed on a database has the jobs of the configuration,
    and under any other name the job the database holds. *)
Lemma restart_spec localtime {sq : Sqlite} {L : SqliteLaws sq} cfg now st db :
  sound_defs db ->
  exists s', make_scheduler localtime cfg (Some db) now NoFault (fun _ => NoFault) st = Ret s' /\
    sc_db s' = db /\
    forall n, find_job n s' = match find_in n cfg with Some j => Some j | None => stored_job db n end.
Proof.
  intros Hs. pose proof Hs as [H1 H3]. unfold make_scheduler, load_job_defs, run_query. simpl.
  set (defs := order_by by_name (job_defs_tbl db)).
  assert (Hp : defs ≡ₚ job_defs_tbl db) by apply order_by_perm.
  assert (Hd : forall d, d ∈ defs <-> defs_map (job_defs_tbl db) !! def_name d = Some d).
  { intros d. rewrite defs_map_lookup by done. rewrite Hp. tauto. }
  destruct (merge_defs defs cfg) as (jobs & E & Hcfg & Hdef & Hnew).
  { eapply NoDup_Permutation_proper; [|exact H1]. apply Permutation_map, Hp. }
  { intros d Hin. destruct (H3 _ _ (proj1 (Hd d) Hin)) as (j & Hr & -> & Hn).
    exists j. split; [by apply job_def_roundtrip|]. by rewrite stored_name. }
  rewrite E. simpl. destruct (load_lasts jobs db ∅) as [lr ->]. simpl.
  eexists. split; [reflexivity|]. split; [done|]. unfold find_job. cbn. intros n.
  destruct (find_in n cfg) as [j|] eqn:Ec; [by apply Hcfg|].
  destruct (stored_job db n) as [j|] eqn:Ej.
  - destruct (stored_job_Some db n j Hs Ej) as (Hr & <- & Hl).
    destruct (Hdef (stored_def (def_from_job j))) as (i & Hi & Hfi); rewrite ?stored_name in * by done.
    { apply Hd. by rewrite stored_name. }
    { done. }
    rewrite job_def_roundtrip in Hi by done. injection Hi as <-. exact Hfi.
  - apply stored_job_None in Ej; [|done]. destruct (find_in n jobs) as [j|] eqn:Ef; [|done].
    destruct (Hnew n) as [Hx|Hin]; [by rewrite Ef|rewrite Ec in Hx; by destruct Hx|].
    rewrite list_elem_of_In, in_map_iff in Hin. destruct Hin as (d & <- & Hin).
    apply list_elem_of_In, Hd in Hin. congruence.
Qed.

(** Jobs survive a restart: a scheduler constructed on the database of a
    synced one, with any config.yaml jobs, starts; it has every configured
    job, every UI job of the old one, field by field, whose name
    config.yaml does not take, and no other names. *)
Theorem ui_jobs_survive_restart localtime {sq : Sqlite} {L : SqliteLaws sq} cfg now st s :
  synced s ->
  exists s', make_scheduler localtime cfg (Some (sc_db s)) now NoFault (fun _ => NoFault) st = Ret s' /\
    (forall n j, find_in n cfg = Some j -> find_job n s' = Some j) /\
    (forall j, j ∈ sc_jobs s -> job_source j = "ui" -> find_in (job_name j) cfg = None ->
       find_job (job_name j) s' = Some j) /\
    (forall n, is_Some (find_job n s') -> is_Some (find_in n cfg) \/ is_Some (find_job n s)).
Proof.
  intros Hs. destruct (restart_spec localtime cfg now st (sc_db s) (synced_sound s Hs)) as (s' & E & _ & Hf).
  exists s'. split; [exact E|]. split_and!.
  - intros n j Hj. by rewrite Hf, Hj.
  - intros j Hj Hui Hn. rewrite Hf, Hn. destruct (sync_jobs _ Hs j Hj Hui). by apply stored_job_def.
  - intros n. rewrite Hf. destruct (find_in n cfg); [by left|]. intros [j Hj]. right.
    apply stored_job_Some in Hj as (_ & _ & Hd); [|by apply synced_sound].
    by destruct (sync_defs _ Hs n _ Hd).
Qed.

Lemma ui_jobs_survive_restart_witness :
  exists s', make_scheduler utc [example_sched_job "daily" "0 8 * * *" NoPolicy]
      (Some (sc_db (job_calls utc [AddJob NoFault 1700035200 hourly] unsaved)))
      1700035200 NoFault (fun _ => NoFault) initial_state = Ret s' /\
    find_job "hourly" s' = Some hourly.
Proof.
  assert (Hs : synced (job_calls utc [AddJob NoFault 1700035200 hourly] unsaved)).
  { exact (add_job_synced utc NoFault 1700035200 hourly unsaved hourly_restorable unsaved_synced). }
  destruct (ui_jobs_survive_restart utc [example_sched_job "daily" "0 8 * * *" NoPolicy]
    1700035200 initial_state _ Hs) as (s' & E & _ & Hui & _).
  exists s'. split; [exact E|]. apply (Hui hourly); [|reflexivity|reflexivity]. left.
Defined.

(** An undisturbed worker runs its command until it first succeeds, at
    most [retries + 1] times, recording every attempt; after the [i]-th failed
    attempt, unless it is the last one, it waits [i] seconds; it raises one
    alert exactly if the last attempt failed, and marks itself done last. *)
Theorem worker_retries job run :
  (0 <= job_retries job)%Z -> (job_retries job < int_max)%Z ->
  let n := Z.to_nat (job_retries job + 1) in
  exists k, 1 <= k <= n /\
    (forall i, 1 <= i < k -> is_success (run i) = false) /\
    (is_success (run k) = true \/ k = n) /\
    worker job run None =
      Ret ((failed_attempts run 1 k ++ [Attempted (run k)]) ++
           (if is_success (run k) then []
            else [Raised (failure_message (run k) (job_retries job + 1))
                         (failure_detail (res_stderr (run k))) (res_exit_code (run k))]) ++
           [Finished]).
Proof.
  intros Hr Hm n. destruct (attempt_loop_forever run n 1 no_result) as (k & Hk & E & Hf & Hl).
  { unfold n. lia. }
  exists k. split; [lia|]. split; [exact Hf|]. split; [destruct Hl; [by left|right; lia]|].
  unfold worker. rewrite int_add_Ret by (apply in_int_spec; unfold int_min, int_max in *; lia).
  simpl. fold n. rewrite E. simpl. by destruct (is_success (run k)).
Qed.

Definition failing (n : nat) (i : nat) : RunResult :=
  {| res_status := if Nat.ltb i n then Failed else Success; res_exit_code := 1;
     res_started_at := 0; res_ended_at := 0; res_duration_ms := 0; res_stdout := "";
     res_stderr := "oops"; res_stdout_truncated := false; res_stderr_truncated := false;
     res_error := "" |}.

Lemma worker_retries_witness :
  exists k, 1 <= k <= 3 /\ is_success (failing 2 k) = true /\
    exists pre, worker hourly (failing 2) None = Ret (pre ++ [Finished]).
Proof.
  destruct (worker_retries hourly (failing 2)) as (k & Hk & Hf & Hl & E);
    [cbn; lia|cbn; unfold int_max; lia|].
  exists k. split; [exact Hk|]. split; [|rewrite E; eexists; by rewrite app_assoc].
  destruct Hl as [H| ->]; [exact H|reflexivity].
Defined.

(** A worker told to stop reacts promptly: once [active_] reads false for
    the [b+1]-th time it starts no attempt, no further wait and no alert; what
    it does before marking itself done is at most one event per earlier
    reading. *)
Theorem worker_stops job run b evs :
  worker job run (Some b) = Ret evs ->
  exists pre, evs = pre ++ [Finished] /\ length pre <= b /\ Finished ∉ pre.
Proof.
  unfold worker, int_add. destruct (in_int _); simpl; [|done].
  destruct (attempt_loop run _ 1 no_result (Some b)) as [[evs0 res] b'] eqn:E.
  destruct (attempt_loop_budget _ _ _ _ _ _ _ _ E) as (c & -> & Hc).
  apply attempt_loop_unfinished in E.
  rewrite check_active_Some. intros [= <-]. rewrite app_assoc.
  eexists. split; [reflexivity|]. rewrite length_app, not_elem_of_app.
  destruct c, (is_success res); simpl; split_and!; try lia; auto; set_solver.
Qed.

Lemma worker_stops_witness :
  match worker hourly (failing 5) (Some 7) with
  | Ret evs => exists pre, evs = pre ++ [Finished] /\ length pre <= 7 /\ Finished ∉ pre
  | _ => False
  end.
Proof. exact (worker_stops hourly (failing 5) 7 _ eq_refl). Defined.

(** All launches of a turn start, each with a fresh task, exactly when
    their names differ and no joinable task has one of them; otherwise a
    joinable [std::thread] is destroyed and the process terminates. *)
Theorem launches_start_or_terminate ls s :
  if decide (NoDup (launch_names ls) /\ Forall (fun n => blocked s n = false) (launch_names ls))
  then exists s', for_each launch ls s = Ret s' /\
         (forall n, n ∈ launch_names ls -> sc_running s' !! n = Some new_task) /\
         (forall n, n ∉ launch_names ls -> sc_running s' !! n = sc_running s !! n)
  else for_each launch ls s = Terminate.
Proof.
  destruct (launch_all ls s) as [(Hn & Hb & E)|(Hno & E)].
  - rewrite decide_True by (split; [done|by apply Forall_forall]).
    eexists. split; [exact E|]. cbn. generalize (sc_running s) as m. clear.
    induction (launch_names ls) as [|x l IH]; intros m; simpl.
    { split; [set_solver|done]. }
    destruct (IH (<[x := new_task]> m)) as [H1 H2]. split.
    + intros n Hn. destruct (decide (n ∈ l)); [auto|].
      rewrite H2 by done. apply elem_of_cons in Hn as [->|]; [|done]. by apply lookup_insert_eq.
    + intros n Hn. apply not_elem_of_cons in Hn as [? ?]. rewrite H2 by done.
      by rewrite lookup_insert_ne.
  - rewrite decide_False; [done|]. by rewrite Forall_forall.
Qed.

(** Two requests to run the same idle job before the loop's next turn
    (a double click on "run now") make that turn terminate the daemon, instead
    of the second being deferred as requests for a running job are. *)
Theorem double_request_terminates localtime {sq : Sqlite} s n wall scan_now env :
  is_Some (find_job n s) -> sc_running s !! n = None ->
  let s2 := snd (request_run n (snd (request_run n s))) in
  tick localtime wall scan_now env s2 = Terminate.
Proof.
  intros [j Hj] Hr. cbn zeta.
  assert (E2 : snd (request_run n (snd (request_run n s))) =
    with_queue ((sc_queue s ++ [(n, "manual")]) ++ [(n, "manual")]) s).
  { unfold request_run. rewrite Hj. simpl. unfold find_job in Hj |- *. simpl. by rewrite Hj. }
  rewrite E2. set (s2 := with_queue _ s). unfold tick.
  destruct (wake_scan_grows localtime wall scan_now env (reap_finished s2))
    as (Hf & extra & Hq & _).
  set (s3 := wake_scan _ _ _ _ _) in *. unfold pick. rewrite pick_queue_spec.
  destruct (fold_left _ (sc_jobs s3) _) as [nr' ls] eqn:Efold.
  assert (Hpre : exists ls', ls = omap (requested s3 false) (sc_queue s3) ++ ls').
  { eapply due_launches_prefix, Efold. }
  destruct Hpre as [ls' ->]. rewrite Hq.
  assert (Hfind : find_job n s3 = Some j).
  { unfold find_job. by rewrite (frame_jobs _ _ Hf). }
  assert (Hidle : is_running s3 n = false).
  { unfold is_running. rewrite (frame_running _ _ Hf). cbn.
    rewrite map_lookup_filter, Hr. done. }
  assert (Ereq : requested s3 false (n, "manual") = Some (j, "manual")).
  { unfold requested. cbn [fst snd]. by rewrite Hfind, Hidle. }
  apply find_in_Some in Hj as [_ Hn].
  match goal with |- context [for_each launch ?l ?st] => destruct (launch_all l st) as [(Hnd & _)|(_ & ->)] end;
    [exfalso|done].
  revert Hnd. unfold launch_names, s2, reap_finished. cbn [sc_queue with_queue with_running].
  rewrite !omap_app. cbn [omap list_omap]. rewrite Ereq, !map_app.
  cbn [map fst]. intros Hnd.
  rewrite <- !app_assoc in Hnd. apply NoDup_app in Hnd as (_ & _ & Hnd).
  apply NoDup_cons in Hnd as [Hnd _]. apply Hnd. left.
Qed.

Lemma double_request_terminates_witness :
  tick utc 1700035300 1700035300 no_env
    (snd (request_run "hourly" (snd (request_run "hourly" example_scheduler)))) = Terminate.
Proof.
  apply (double_request_terminates utc example_scheduler "hourly" 1700035300 1700035300 no_env);
    [eexists; reflexivity|reflexivity].
Defined.

(** The detail of a failure alert is the last line of the standard error
    that is not blank, without its trailing blanks, cut to 157 characters and
    an ellipsis when it is longer than 160. *)
Theorem failure_detail_last_line pre l c blanks :
  (pre = "" \/ exists q, pre = q +:+ NL) ->
  trailing_blank c = false -> all_chars trailing_blank blanks = true ->
  all_chars (fun x => negb (Ascii.eqb nl x)) (l +:+ String c "") = true ->
  let line := l +:+ String c "" in
  let detail := failure_detail (pre +:+ (line +:+ blanks)) in
  String.length detail <= 160 /\
  (String.length line <= 160 -> detail = line) /\
  (160 < String.length line -> detail = str_take 157 line +:+ "...").
Proof.
  intros Hpre Hc Hb Hl. cbn zeta. split; [apply failure_detail_length|].
  rewrite failure_detail_line by done.
  destruct (Nat.ltb_spec 160 (String.length (l +:+ String c ""))); split; auto; lia.
Qed.

Lemma failure_detail_last_line_witness :
  failure_detail ("usage: x" +:+ NL +:+ ("disk ful" +:+ "l" +:+ "  " +:+ NL)) = "disk full".
Proof.
  destruct (failure_detail_last_line ("usage: x" +:+ NL) "disk ful" "l" ("  " +:+ NL))
    as (_ & H & _); [right; by exists "usage: x"|reflexivity|reflexivity|reflexivity|].
  apply H. cbn. lia.
Defined.

(** A negative retry count, which [add_job] does not reject, makes a run that
    never executes the command and reports a failure. *)
Lemma negative_retries_never_run job run :
  job_retries job = (-1)%Z ->
  worker job run None =
    Ret [Raised "run spawn_error (exit -1, after 0 attempts)" "" (-1); Finished].
Proof. intros E. unfold worker. by rewrite E. Qed.

(** A job running past its occurrence is found missed by a scan: only runs
    that ended are compared with the occurrence. *)
Lemma running_job_found_missed :
  let s := with_running {["hourly" := new_task]} example_scheduler in
  is_running s "hourly" = true /\
  sc_queue (scan_missed utc 1700038900 no_env s) = [("hourly", "missed")].
Proof. vm_compute. split; reflexivity. Qed.
