(* ===== verification/Runs.v ===== *)
(** * What a run leaves behind (daemon/src/jobs/scheduler.cpp, worker)

    The effect of a whole worker on the database, the last runs, the alerts
    and the published status, whichever insertions fail. *)

From stdpp Require Import base option list strings gmap.
From Stdlib Require Import Ascii ZArith Lia.
From S2P Require Import Prelude CppLib Double Cron SharedState Config Database ProcessRunner.
From S2P Require Import Scheduler.

Open Scope string_scope.
Open Scope list_scope.

#[local] Opaque Cron.next_after Cron.prev_before.

(** An event of a worker with the way its insertion fails and the clock. *)
Record Effect := { ef_event : worker_event; ef_fault : fault; ef_ts : Z }.

Section Effects.
Context {sq : Sqlite} (name trigger : string).

Definition apply_all (tr : list Effect) (s : Scheduler) : Scheduler :=
  fold_left (fun s e => apply_event (ef_fault e) (ef_ts e) name trigger (ef_event e) s) tr s.

(** ** Reading a trace *)

Definition attempts_of (evs : list worker_event) : list RunResult :=
  omap (fun e => match e with Attempted r => Some r | _ => None end) evs.

(** A row of the runs table without its id. *)
Definition row_fields (r : RunRecord) :=
  (run_job_name r, run_started_at r, run_ended_at r, run_status r, run_exit_code r,
   run_duration_ms r, run_stdout r, run_stderr r, run_trigger r).

(** The row a result should leave. *)
Definition result_row (r : RunResult) :=
  (c_str name, res_started_at r, res_ended_at r, status_to_string (res_status r),
   res_exit_code r, res_duration_ms r, c_str (res_stdout r), c_str (res_stderr r),
   c_str trigger).

(** The attempts whose insertion does not fail. *)
Definition recorded (tr : list Effect) : list RunResult :=
  omap (fun e => match ef_event e, ef_fault e with
                 | Attempted r, NoFault => Some r
                 | _, _ => None
                 end) tr.

Definition quiet_event (e : worker_event) : Prop :=
  match e with Attempted _ | Slept => True | _ => False end.

(** Everything a run leaves alone. *)
Record run_frame (s s' : Scheduler) : Prop := {
  keeps_jobs : sc_jobs s' = sc_jobs s;
  keeps_next : sc_next_run s' = sc_next_run s;
  keeps_queue : sc_queue s' = sc_queue s;
  keeps_missed : sc_missed_handled s' = sc_missed_handled s;
  keeps_defs : job_defs_tbl (sc_db s') = job_defs_tbl (sc_db s)
}.

Lemma status_c_str st : c_str (status_to_string st) = status_to_string st.
Proof. by destruct st. Qed.

Lemma apply_quiet e s :
  quiet_event (ef_event e) ->
  let s' := apply_event (ef_fault e) (ef_ts e) name trigger (ef_event e) s in
  run_frame s s' /\
  map row_fields (runs_tbl (sc_db s')) =
    map row_fields (runs_tbl (sc_db s)) ++ map result_row (recorded [e]) /\
  sc_last_runs s' = match attempts_of [ef_event e] with
                    | r :: _ => <[name := run_record name trigger r]> (sc_last_runs s)
                    | [] => sc_last_runs s
                    end /\
  sc_running s' = sc_running s /\ sc_state s' = sc_state s /\ sc_notified s' = sc_notified s /\
  alerts_tbl (sc_db s') = alerts_tbl (sc_db s).
Proof.
  destruct e as [ev f ts]. destruct ev as [r| | |]; cbn; try done; intros _.
  - unfold insert_run, run_update. destruct f; cbn; split_and!; try done;
      rewrite ?map_app, ?app_nil_r; try done.
    cbn. unfold row_fields, result_row. cbn. by rewrite status_c_str.
  - by rewrite app_nil_r.
Qed.

Lemma apply_quiet_all tr s :
  Forall (fun e => quiet_event (ef_event e)) tr ->
  let s' := apply_all tr s in
  run_frame s s' /\
  map row_fields (runs_tbl (sc_db s')) =
    map row_fields (runs_tbl (sc_db s)) ++ map result_row (recorded tr) /\
  sc_last_runs s' = match last (attempts_of (map ef_event tr)) with
                    | Some r => <[name := run_record name trigger r]> (sc_last_runs s)
                    | None => sc_last_runs s
                    end /\
  sc_running s' = sc_running s /\ sc_state s' = sc_state s /\ sc_notified s' = sc_notified s /\
  alerts_tbl (sc_db s') = alerts_tbl (sc_db s).
Proof.
  cbn zeta. intros Hq. revert s. induction Hq as [|e tr He Hq IH]; intros s.
  { cbn. rewrite app_nil_r. split_and!; done. }
  destruct (apply_quiet e s He) as ([] & Er & El & Eru & Est & En & Ea).
  unfold apply_all in *. cbn [fold_left].
  set (s1 := apply_event _ _ _ _ _ s) in *.
  destruct (IH s1) as ([] & -> & -> & -> & -> & -> & ->). rewrite Er, El, Eru, Est, En, Ea.
  split_and!; try done.
  - split; congruence.
  - change (e :: tr) with ([e] ++ tr). unfold recorded. rewrite omap_app, map_app.
    by rewrite <- app_assoc.
  - change (map ef_event (e :: tr)) with ([ef_event e] ++ map ef_event tr).
    unfold attempts_of. rewrite omap_app, last_app.
    destruct (last (omap _ (map ef_event tr))) as [r|] eqn:E; [|by destruct (ef_event e)].
    destruct (ef_event e); cbn; try done. by rewrite insert_insert_eq.
Qed.

(** ** A whole worker *)

Lemma failed_attempts_quiet run a k :
  Forall quiet_event (failed_attempts run a k ++ [Attempted (run k)]).
Proof.
  apply Forall_app. split; [|by repeat constructor].
  unfold failed_attempts. apply Forall_flat_map, Forall_forall. intros i _. cbn.
  constructor; [done|]. apply Forall_forall. intros e He.
  apply list_elem_of_In, repeat_spec in He as ->. exact I.
Qed.

Lemma attempts_of_app l1 l2 : attempts_of (l1 ++ l2) = attempts_of l1 ++ attempts_of l2.
Proof. apply omap_app. Qed.

Lemma attempts_slept n : attempts_of (repeat Slept n) = [].
Proof. induction n as [|n IH]; [done|exact IH]. Qed.

Lemma failed_attempts_of run a k :
  a <= k ->
  attempts_of (failed_attempts run a k ++ [Attempted (run k)]) = map run (seq a (S k - a)).
Proof.
  intros Hk. rewrite attempts_of_app.
  replace (S k - a) with ((k - a) + 1) by lia. rewrite seq_app, map_app.
  replace (a + (k - a)) with k by lia. f_equal. unfold failed_attempts.
  induction (seq a (k - a)) as [|i l IH]; [done|]. cbn [flat_map map].
  rewrite attempts_of_app. change (attempts_of (Attempted (run i) :: repeat Slept (i * 10)))
    with (run i :: attempts_of (repeat Slept (i * 10))).
  by rewrite attempts_slept, IH.
Qed.

Lemma apply_all_app l1 l2 s : apply_all (l1 ++ l2) s = apply_all l2 (apply_all l1 s).
Proof. apply fold_left_app. Qed.
End Effects.

(** What a worker's failure alert says: its notification. *)
Definition failure_notice (job : Job) (res : RunResult) : string * string :=
  ("AgentPulse: " +:+ job_name job,
   let message := failure_message res (job_retries job + 1) in
   match failure_detail (res_stderr res) with
   | "" => message
   | detail => message +:+ NL +:+ detail
   end).

(** The end of a worker: its alert, if any, and its completion flag. *)
Lemma apply_closing {sq : Sqlite} name trigger alert tr s t :
  map ef_event tr = alert ++ [Finished] -> sc_running s !! name = Some t ->
  alert = [] \/ (exists msg det code, alert = [Raised msg det code]) ->
  let s' := apply_all name trigger tr s in
  run_frame s s' /\ runs_tbl (sc_db s') = runs_tbl (sc_db s) /\
  sc_last_runs s' = sc_last_runs s /\
  sc_running s' = <[name := {| task_done := true; task_joinable := task_joinable t |}]>
                    (sc_running s) /\
  sc_notified s' = match alert with
                   | Raised msg det _ :: _ =>
                       [("AgentPulse: " +:+ name,
                         if str_empty det then msg else msg +:+ NL +:+ det)]
                   | _ => []
                   end ++ sc_notified s.
Proof.
  cbn zeta. intros Ht Hr [->|(msg & det & code & ->)].
  - destruct tr as [|e [|]]; try discriminate Ht. injection Ht as Ht.
    unfold apply_all. cbn. rewrite Ht. cbn. by rewrite Hr.
  - destruct tr as [|e1 [|e2 [|]]]; try discriminate Ht. injection Ht as H1 H2.
    unfold apply_all. cbn [fold_left]. rewrite H1, H2. cbn [apply_event].
    destruct (emit_alert_frame (ef_fault e1) (ef_ts e1) name "serious" msg det (dbl_of_Z code) s)
      as ([Hj Hn Hru Hl _ Hd Hrs] & Hq & Hm & Hno).
    set (s1 := emit_alert _ _ _ _ _ _ _ s) in *. rewrite Hru, Hr.
    cbn [with_running sc_running sc_db sc_last_runs sc_notified]. split_and!; try done.
Qed.

(** ** Properties *)

(** C11: what an undisturbed worker leaves behind, for a job whose retries are
    not negative and less than [INT_MAX].  It ran its command [k]
    times, up to the first success and at most [retries + 1] times.  The runs
    table has grown by one row for each of these runs whose insertion did not
    fail, in order; and whatever SQLite does, the job's last run is the last
    one, its failure is notified once exactly if that one failed, the job is
    no longer reported running, and no other job's last run, no schedule, no
    queued request and no definition changed. *)
Theorem worker_leaves_history {sq : Sqlite} job trigger run evs tr s :
  (0 <= job_retries job < int_max)%Z ->
  worker job run None = Ret evs -> map ef_event tr = evs ->
  sc_running s !! job_name job = Some new_task ->
  let s' := apply_all (job_name job) trigger tr s in
  exists k, 1 <= k <= Z.to_nat (job_retries job + 1)%Z /\
    (forall i, 1 <= i < k -> is_success (run i) = false) /\
    (is_success (run k) = true \/ Z.of_nat k = (job_retries job + 1)%Z) /\
    attempts_of evs = map run (seq 1 k) /\
    map row_fields (runs_tbl (sc_db s')) =
      map row_fields (runs_tbl (sc_db s)) ++
      map (result_row (job_name job) trigger) (recorded tr) /\
    sc_last_runs s' =
      <[job_name job := run_record (job_name job) trigger (run k)]> (sc_last_runs s) /\
    sc_notified s' =
      (if is_success (run k) then [] else [failure_notice job (run k)]) ++ sc_notified s /\
    is_running s' (job_name job) = false /\
    (forall n, n <> job_name job -> is_running s' n = is_running s n) /\
    run_frame s s'.
Proof.
  intros Hr Hw Ht Hrun s'. set (n := Z.to_nat (job_retries job + 1)).
  destruct (attempt_loop_forever run n 1 no_result) as (k & Hk & E & Hf & Hl);
    [unfold n; lia|].
  unfold worker in Hw.
  rewrite int_add_Ret in Hw by (apply in_int_spec; unfold int_min, int_max in *; lia).
  cbn [mbind outcome_mbind] in Hw. fold n in Hw. rewrite E in Hw. cbn [check_active andb] in Hw.
  set (alert := if negb (is_success (run k)) then _ else _) in Hw.
  injection Hw as <-. apply map_eq_app in Ht as (t1 & t2 & -> & H1 & H2).
  pose proof (failed_attempts_of run 1 k ltac:(lia)) as Ha.
  pose proof (failed_attempts_quiet run 1 k) as Hq.
  replace (S k - 1) with k in Ha by lia.
  rewrite <- H1, Forall_map in Hq. rewrite <- H1 in Ha.
  destruct (apply_quiet_all (job_name job) trigger t1 s Hq)
    as ([] & Er & El & Eru & _ & En & _).
  unfold s'. rewrite apply_all_app. set (s1 := apply_all _ _ t1 s) in *.
  assert (Hal : alert = [] \/ exists msg det code, alert = [Raised msg det code])
    by (unfold alert; destruct (is_success (run k)); cbn; eauto).
  rewrite <- Eru in Hrun.
  destruct (apply_closing (job_name job) trigger alert t2 s1 new_task H2 Hrun Hal)
    as ([] & Er2 & El2 & Eru2 & En2).
  exists k. rewrite Er2, El2, En2, Er, El, En, Ha.
  split_and!; [lia|lia|intros i Hi; apply Hf; lia|destruct Hl; [by left|right; lia]| | | | | | |].
  - rewrite attempts_of_app, <- H1, Ha. unfold alert.
    by destruct (is_success (run k)); cbn; rewrite app_nil_r.
  - do 2 f_equal. unfold recorded. rewrite omap_app.
    enough (omap _ t2 = ([] : list RunResult)) as -> by (by rewrite app_nil_r).
    revert H2. unfold alert. destruct (is_success (run k)); cbn; intros H2.
    + destruct t2 as [|e [|]]; try discriminate H2. injection H2 as H2. cbn. by rewrite H2.
    + destruct t2 as [|e1 [|e2 [|]]]; try discriminate H2. injection H2 as H3 H4.
      cbn. by rewrite H3, H4.
  - assert (last (map run (seq 1 k)) = Some (run k)) as ->; [|done].
    destruct k as [|k]; [lia|]. rewrite seq_S, map_app. apply last_snoc.
  - unfold alert, failure_notice. destruct (is_success (run k)); cbn; [done|].
    by destruct (failure_detail (res_stderr (run k))).
  - unfold is_running. by rewrite Eru2, lookup_insert_eq.
  - intros m Hm. unfold is_running. rewrite Eru2, lookup_insert_ne by done. by rewrite Eru.
  - split; congruence.
Qed.

(** Two attempts, the second successful; the first insertion fails. *)
Definition two_effects : list Effect :=
  match worker hourly (failing 2) None with
  | Ret evs => imap (fun i e => {| ef_event := e;
                       ef_fault := if Nat.eqb i 0 then StepFails 0 "busy" else NoFault;
                       ef_ts := 1700038900 |}) evs
  | _ => []
  end.

Definition hourly_running : Scheduler := with_running {["hourly" := new_task]} example_scheduler.

Lemma worker_leaves_history_witness :
  let s' := apply_all "hourly" "manual" two_effects hourly_running in
  length (runs_tbl (sc_db s')) = 1 /\ is_running s' "hourly" = false /\
  exists k, sc_last_runs s' !! "hourly" = Some (run_record "hourly" "manual" (failing 2 k)) /\
    is_success (failing 2 k) = true.
Proof.
  destruct (worker_leaves_history hourly "manual" (failing 2) (map ef_event two_effects)
    two_effects hourly_running)
    as (k & Hk & Hf & Hl & Ha & Hrows & Hlast & Hno & Hrun & _);
    [cbn; unfold int_max; lia|vm_compute; reflexivity|reflexivity|reflexivity|].
  split; [vm_compute; reflexivity|]. split; [exact Hrun|]. exists k.
  split; [exact (eq_trans (f_equal (lookup "hourly") Hlast) (lookup_insert_eq _ _ _))|].
  destruct Hl as [H|H]; [exact H|]. assert (k = 3) as -> by (cbn in H; lia). reflexivity.
Defined.
