(* ===== verification/Sections.v ===== *)
(** * The critical sections of the scheduler's operations
    (daemon/src/jobs/scheduler.cpp)

    Each operation of Scheduler as the sections it runs under one lock at a
    time: a worker's events, a scan for missed runs, and the calls of the
    thread that serves the clients.  Run with nothing in between, the sections
    are the operation; SchedulerSteps interleaves them. *)

From stdpp Require Import base option list strings gmap.
From Stdlib Require Import Ascii ZArith Lia.
From S2P Require Import Prelude CppLib Double Cron SharedState Config Database ProcessRunner.
From S2P Require Import Scheduler.

Open Scope string_scope.
Open Scope list_scope.

#[local] Opaque Cron.next_after Cron.prev_before.

(** ** Workers *)

(** The database's mutex guards the insertions, the scheduler's the last
    runs, the snapshot's its alerts; the completion flag is atomic. *)
Inductive section :=
| RunInsert (res : RunResult)
| RunRemember (res : RunResult)
| Pause
| FailInsert (ts : Z) (message detail : string) (exit_code : Z)
| FailPublish (ts : Z) (message detail : string) (exit_code : Z)
| FailNotify (message detail : string)
| MarkDone.

(** The sections of an event; [ts] is the clock when an alert is raised. *)
Definition sections (ts : Z) (ev : worker_event) : list section :=
  match ev with
  | Attempted res => [RunInsert res; RunRemember res]
  | Slept => [Pause]
  | Raised message detail code =>
      [FailInsert ts message detail code; FailPublish ts message detail code;
       FailNotify message detail]
  | Finished => [MarkDone]
  end.

(** [task->done.store(true)]. *)
Definition mark_done (job_name : string) (s : Scheduler) : Scheduler :=
  match sc_running s !! job_name with
  | Some t => with_running (<[job_name := {| task_done := true;
                                             task_joinable := task_joinable t |}]>
                              (sc_running s)) s
  | None => s
  end.

Definition apply_section {sq : Sqlite} (f : fault) (job_name trigger : string)
    (sec : section) (s : Scheduler) : Scheduler :=
  match sec with
  | RunInsert res =>
      match insert_run f (run_record job_name trigger res) (sc_db s) with
      | Ret (db, _) => with_db db s
      | _ => s
      end
  | RunRemember res =>
      with_last_runs (<[job_name := run_record job_name trigger res]> (sc_last_runs s)) s
  | Pause => s
  | FailInsert ts message detail code =>
      alert_insert f ts job_name "serious" message detail (dbl_of_Z code) s
  | FailPublish ts message detail code =>
      alert_publish ts job_name "serious" message detail (dbl_of_Z code) s
  | FailNotify message detail => alert_notify job_name message detail s
  | MarkDone => mark_done job_name s
  end.

Lemma apply_event_sections {sq : Sqlite} f ts name trigger ev s :
  apply_event f ts name trigger ev s =
    fold_left (fun s sec => apply_section f name trigger sec s) (sections ts ev) s.
Proof. by destruct ev. Qed.

Lemma sections_finished ts evs : MarkDone ∈ flat_map (sections ts) evs -> Finished ∈ evs.
Proof.
  rewrite list_elem_of_In, in_flat_map. intros (ev & Hin & Hs). apply list_elem_of_In.
  destruct ev; cbn in Hs; try exact Hin; exfalso; repeat destruct Hs as [Hs|Hs]; congruence || done.
Qed.

(** Every section but the last leaves the jobs, the queue and the tasks. *)
Lemma apply_section_keeps {sq : Sqlite} f n tr sec s :
  let s' := apply_section f n tr sec s in
  sc_jobs s' = sc_jobs s /\ sc_next_run s' = sc_next_run s /\ sc_queue s' = sc_queue s /\
  sc_active s' = sc_active s /\ job_defs_tbl (sc_db s') = job_defs_tbl (sc_db s) /\
  jobs_ (sc_state s') = jobs_ (sc_state s) /\
  (sec <> MarkDone -> sc_running s' = sc_running s).
Proof.
  destruct sec; cbn zeta; unfold apply_section, alert_insert, insert_run, insert_alert, run_update;
    try (destruct f; done); try (destruct (reject_nan _ _); done); try done.
  unfold mark_done. by destruct (sc_running s !! n).
Qed.

(** ** A scan for missed runs *)

(** Where a scan is: taking the candidates, looking at the next one, marking
    an occurrence as handled, and the sections of its alert and its request. *)
Inductive Scan :=
| Collect
| Look (js : list Job)
| Mark (j : Job) (missed : Z) (js : list Job)
| MissInsert (j : Job) (missed : Z) (js : list Job)
| MissPublish (j : Job) (missed ts : Z) (js : list Job)
| MissNotify (j : Job) (js : list Job)
| MissQueue (j : Job) (js : list Job).

Definition missed_policy (j : Job) : string :=
  "policy: " +:+ policy_to_string (job_missed_run_policy j).

Section Scanning.
Context (localtime : Z -> tm) {sq : Sqlite}.

(** One section of a scan begun at [now]; [None]: the scan is over. *)
Definition scan_section (now ts : Z) (f : fault) (c : Scan) (s : Scheduler)
    : option (Scan * Scheduler) :=
  match c with
  | Collect => Some (Look (List.filter is_candidate (sc_jobs s)), s)
  | Look [] => None
  | Look (j :: js) =>
      match job_schedule j with
      | None => Some (Look js, s)
      | Some sched =>
          let last_run_ts := match sc_last_runs s !! job_name j with
                             | Some r => run_started_at r
                             | None => 0%Z
                             end in
          match detect_missed_run localtime sched last_run_ts now with
          | None => Some (Look js, s)
          | Some missed => Some (Mark j missed js, s)
          end
      end
  | Mark j missed js =>
      let handled := default 0%Z (sc_missed_handled s !! job_name j) in
      let s := with_missed_handled (<[job_name j := handled]> (sc_missed_handled s)) s in
      if (missed <=? handled)%Z then Some (Look js, s)
      else Some (MissInsert j missed js,
                 with_missed_handled (<[job_name j := missed]> (sc_missed_handled s)) s)
  | MissInsert j missed js =>
      Some (MissPublish j missed ts js,
            alert_insert f ts (job_name j) "warning" missed_message (missed_policy j)
              (dbl_of_Z missed) s)
  | MissPublish j missed ts js =>
      Some (MissNotify j js,
            alert_publish ts (job_name j) "warning" missed_message (missed_policy j)
              (dbl_of_Z missed) s)
  | MissNotify j js =>
      Some (MissQueue j js, alert_notify (job_name j) missed_message (missed_policy j) s)
  | MissQueue j js => Some (Look js, enqueue (job_name j) "missed" s)
  end.

(** The names a scan may still queue, once it has its candidates. *)
Definition scan_names (c : Scan) : list string :=
  match c with
  | Collect => []
  | Look js => names_of js
  | Mark j _ js | MissInsert j _ js | MissPublish j _ _ js | MissNotify j js | MissQueue j js =>
      job_name j :: names_of js
  end.

Lemma candidates_named s n :
  n ∈ names_of (List.filter is_candidate (sc_jobs s)) -> n ∈ names_of (sc_jobs s).
Proof.
  unfold names_of. rewrite !list_elem_of_In, !in_map_iff.
  intros (j & <- & [Hj _]%filter_In). by exists j.
Qed.

(** A section changes only what scans change, queues at most a missed run of
    the candidate it is at, and goes on with candidates it had or takes them
    from the jobs. *)
Lemma scan_section_grows now ts f c s c' s' :
  scan_section now ts f c s = Some (c', s') ->
  scan_frame s s' /\ jobs_ (sc_state s') = jobs_ (sc_state s) /\
  (exists extra, sc_queue s' = sc_queue s ++ extra /\
     Forall (fun q : string * string => snd q = "missed" /\ fst q ∈ scan_names c) extra) /\
  (forall n, n ∈ scan_names c' -> n ∈ scan_names c \/ n ∈ names_of (sc_jobs s)).
Proof.
  assert (Hno : forall q : list (string * string), exists extra, q = q ++ extra /\
    Forall (fun q : string * string => snd q = "missed" /\ fst q ∈ scan_names c) extra).
  { intros q. exists []. by rewrite app_nil_r. }
  destruct c as [|[|j js]|j m js|j m js|j m t js|j js|j js]; cbn [scan_section scan_names names_of map].
  - intros [= <- <-]. split_and!; [done|done|apply Hno|]. intros n Hn. right. by apply candidates_named.
  - done.
  - destruct (job_schedule j) as [sch|]; [destruct (detect_missed_run _ _ _ _)|]; intros [= <- <-];
      (split_and!; [done|done|apply Hno|intros n Hn; left; cbn in *; set_solver]).
  - destruct (_ <=? _)%Z; intros [= <- <-];
      (split_and!; [done|done|apply Hno|intros n Hn; left; cbn in *; set_solver]).
  - intros [= <- <-]. unfold alert_insert, insert_alert, run_update.
    destruct (reject_nan _ _); (split_and!; [done|done|apply Hno|intros n Hn; by left]).
  - intros [= <- <-]. split_and!; [done|done|apply Hno|intros n Hn; by left].
  - intros [= <- <-]. split_and!; [done|done|apply Hno|intros n Hn; by left].
  - intros [= <- <-]. split_and!; [done|done| |intros n Hn; left; by right].
    exists [(job_name j, "missed")]. split; [done|]. repeat constructor.
Qed.

(** The sections of a scan, in a row. *)
Inductive scan_runs (now : Z) : Scan -> Scheduler -> Scan -> Scheduler -> Prop :=
| scan_stays c s : scan_runs now c s c s
| scan_goes ts f c s c1 s1 c2 s2 :
    scan_section now ts f c s = Some (c1, s1) -> scan_runs now c1 s1 c2 s2 ->
    scan_runs now c s c2 s2.

(** The sections for one candidate are [scan_one]. *)
Lemma scan_one_sections now env j js s :
  scan_runs now (Look (j :: js)) s (Look js) (scan_one localtime now env j s).
Proof.
  unfold scan_one. destruct (job_schedule j) as [sch|] eqn:Es.
  2: { eapply (scan_goes _ 0 NoFault); [cbn; by rewrite Es|apply scan_stays]. }
  destruct (detect_missed_run _ _ _ _) as [m|] eqn:Ed.
  2: { eapply (scan_goes _ 0 NoFault); [cbn; by rewrite Es, Ed|apply scan_stays]. }
  eapply (scan_goes _ 0 NoFault); [cbn; by rewrite Es, Ed|].
  destruct (m <=? _)%Z eqn:El.
  { eapply (scan_goes _ 0 NoFault); [cbn [scan_section]; by rewrite El|apply scan_stays]. }
  eapply (scan_goes _ 0 NoFault); [cbn [scan_section]; by rewrite El|].
  destruct (env (job_name j)) as [ts f].
  eapply (scan_goes _ ts f); [reflexivity|]. eapply (scan_goes _ 0 NoFault); [reflexivity|].
  eapply (scan_goes _ 0 NoFault); [reflexivity|]. eapply (scan_goes _ 0 NoFault); [reflexivity|].
  apply scan_stays.
Qed.

Lemma scan_runs_trans now c1 s1 c2 s2 c3 s3 :
  scan_runs now c1 s1 c2 s2 -> scan_runs now c2 s2 c3 s3 -> scan_runs now c1 s1 c3 s3.
Proof. induction 1 as [|ts f c s c1' s1' c2 s2 Hs _ IH]; intros H3; [exact H3|]. eapply scan_goes; [exact Hs|auto]. Qed.

(** All of them, from the snapshot of the jobs on, are [scan_missed]. *)
Lemma scan_missed_sections now env s :
  scan_runs now Collect s (Look []) (scan_missed localtime now env s).
Proof.
  eapply (scan_goes _ 0 NoFault); [reflexivity|]. unfold scan_missed.
  generalize (List.filter is_candidate (sc_jobs s)). intros js. revert s.
  induction js as [|j js IH]; intros s; [apply scan_stays|].
  eapply scan_runs_trans; [apply (scan_one_sections now env)|apply IH].
Qed.

(** How much a scan has to do once it has its candidates. *)
Definition scan_size (c : Scan) : nat :=
  match c with
  | Collect => 0
  | Look js => 6 * length js
  | Mark _ _ js => 6 * length js + 5
  | MissInsert _ _ js => 6 * length js + 4
  | MissPublish _ _ _ js => 6 * length js + 3
  | MissNotify _ js => 6 * length js + 2
  | MissQueue _ js => 6 * length js + 1
  end.

Lemma scan_section_shrinks now ts f c s c' s' :
  scan_section now ts f c s = Some (c', s') -> c <> Collect ->
  c' <> Collect /\ scan_size c' < scan_size c.
Proof.
  destruct c as [|[|j js]|j m js|j m js|j m t js|j js|j js]; cbn [scan_section]; try done;
    intros H _; repeat (destruct (job_schedule _) || destruct (detect_missed_run _ _ _ _) ||
      destruct (_ <=? _)%Z); injection H as <- <-; (split; [done|cbn; lia]).
Qed.

Lemma scan_section_over now ts f c s : scan_section now ts f c s = None <-> c = Look [].
Proof.
  split; [|by intros ->].
  destruct c as [|[|j js]|j m js|j m js|j m t js|j js|j js]; cbn [scan_section]; try done.
  - destruct (job_schedule j); [destruct (detect_missed_run _ _ _ _)|]; done.
  - by destruct (_ <=? _)%Z.
Qed.

(** ** The thread that calls the scheduler *)

(** The main thread runs [start] before it starts the socket server, whose
    thread then makes one call at a time.  Where it is: between calls; in the
    scan of [start]; past the lookup of [request_run]; past the lookup, and
    then the insertion, of [add_job]; past the lookup, and then the deletion,
    of [remove_job]; and in [publish_status], before and after the statuses
    are copied (the copy itself is in Locked). *)
Inductive Caller :=
| Idle
| Starting (scan_now : Z) (c : Scan)
| Requested (n : string)
| Adding (stored : Job)
| Added (stored : Job)
| Removing (n : string)
| Removed (n : string)
| Publishing
| Copied (statuses : list JobStatus).

Inductive caller_step : Caller * Scheduler -> Caller * Scheduler -> Prop :=
| CallScan now ts f c c' s s' :
    scan_section now ts f c s = Some (c', s') ->
    caller_step (Starting now c, s) (Starting now c', s')
| CallScanned now s : caller_step (Starting now (Look []), s) (Idle, s)
| CallRun n j s : find_job n s = Some j -> caller_step (Idle, s) (Requested n, s)
| CallEnqueue n s : caller_step (Requested n, s) (Idle, enqueue n "manual" s)
| CallAdd j s :
    str_empty (job_name j) = false -> str_empty (job_command j) = false ->
    find_job (job_name j) s = None ->
    caller_step (Idle, s) (Adding (with_source "ui" j), s)
| CallUpsert f stored db s :
    upsert_job_def f (def_from_job stored) (sc_db s) = Ret db ->
    caller_step (Adding stored, s) (Added stored, with_db db s)
| CallUpsertFails f stored e s :
    upsert_job_def f (def_from_job stored) (sc_db s) = Throw e ->
    caller_step (Adding stored, s) (Idle, s)
| CallPush now stored s :
    caller_step (Added stored, s) (Publishing, push_job localtime now stored s)
| CallRemove n j s :
    find_job n s = Some j -> job_source j = "ui" -> caller_step (Idle, s) (Removing n, s)
| CallDelete f n db s :
    delete_job_def f n (sc_db s) = Ret db -> caller_step (Removing n, s) (Removed n, with_db db s)
| CallDeleteFails f n e s :
    delete_job_def f n (sc_db s) = Throw e -> caller_step (Removing n, s) (Idle, s)
| CallErase n s : caller_step (Removed n, s) (Publishing, erase_job n s)
| CallStore statuses s :
    caller_step (Copied statuses, s) (Idle, with_state (set_jobs statuses (sc_state s)) s).

(** Sections in a row, with no other thread in between. *)
Inductive caller_runs : Caller * Scheduler -> Caller * Scheduler -> Prop :=
| caller_stays x : caller_runs x x
| caller_goes x y z : caller_step x y -> caller_runs y z -> caller_runs x z
| caller_copies s z :
    caller_runs (Copied (map (job_status s) (sc_jobs s)), s) z -> caller_runs (Publishing, s) z.

(** The sections of a call, in a row, are the call. *)
Lemma request_run_sections n s : caller_runs (Idle, s) (Idle, snd (request_run n s)).
Proof.
  unfold request_run. destruct (find_job n s) as [j|] eqn:E; [|apply caller_stays].
  eapply caller_goes; [by eapply CallRun|]. eapply caller_goes; [apply CallEnqueue|apply caller_stays].
Qed.

Lemma publish_sections s : caller_runs (Publishing, s) (Idle, publish_status s).
Proof. apply caller_copies. eapply caller_goes; [apply CallStore|apply caller_stays]. Qed.

Lemma add_job_sections f now j s : caller_runs (Idle, s) (Idle, snd (add_job localtime f now j s)).
Proof.
  unfold add_job.
  destruct (str_empty (job_name j)) eqn:En; [apply caller_stays|].
  destruct (str_empty (job_command j)) eqn:Ec; [apply caller_stays|].
  destruct (find_job (job_name j) s) eqn:Ef; [apply caller_stays|].
  rewrite bool_decide_false by (by intros [? [=]]).
  destruct (upsert_job_def f _ _) as [db|e| |] eqn:Eu; cbn [snd]; [| |apply caller_stays..].
  - eapply caller_goes; [by apply CallAdd|]. eapply caller_goes; [by eapply CallUpsert|].
    eapply caller_goes; [apply (CallPush now)|apply publish_sections].
  - apply caller_stays.
Qed.

Lemma remove_job_sections f n s : caller_runs (Idle, s) (Idle, snd (remove_job f n s)).
Proof.
  unfold remove_job. destruct (find_job n s) as [j|] eqn:Ef; [|apply caller_stays].
  destruct (String.eqb_spec (job_source j) "ui") as [Es|]; [cbn [negb]|apply caller_stays].
  destruct (delete_job_def f n _) as [db|e| |] eqn:Ed; cbn [snd]; [|apply caller_stays..].
  eapply caller_goes; [by eapply CallRemove|]. eapply caller_goes; [by eapply CallDelete|].
  eapply caller_goes; [apply CallErase|apply publish_sections].
Qed.

(** What a call knows of the jobs: nobody else changes them. *)
Definition caller_ok (c : Caller) (s : Scheduler) : Prop :=
  match c with
  | Requested n => is_Some (find_job n s)
  | Adding j | Added j => find_job (job_name j) s = None /\ job_source j = "ui"
  | Removing n | Removed n => exists j, find_job n s = Some j /\ job_source j = "ui"
  | _ => True
  end.

Lemma caller_ok_ext c s s' : sc_jobs s' = sc_jobs s -> caller_ok c s -> caller_ok c s'.
Proof. intros E. unfold caller_ok, find_job. rewrite E. by destruct c. Qed.

Lemma caller_step_ok c s c' s' : caller_step (c, s) (c', s') -> caller_ok c s -> caller_ok c' s'.
Proof. intros H. inversion H; subst; cbn; eauto; try done. Qed.

Definition caller_names (c : Caller) : list string :=
  match c with Starting _ sc => scan_names sc | _ => [] end.

(** The effect of a section of a call, by what it does to the jobs. *)
Lemma caller_step_cases c s c' s' :
  caller_step (c, s) (c', s') -> caller_ok c s ->
  sc_running s' = sc_running s /\ sc_active s' = sc_active s /\
  ((sc_jobs s' = sc_jobs s /\ sc_next_run s' = sc_next_run s /\
    exists extra, sc_queue s' = sc_queue s ++ extra /\
      Forall (fun q => fst q ∈ names_of (sc_jobs s) /\ snd q = "manual" \/
                       fst q ∈ caller_names c /\ snd q = "missed") extra) \/
   (exists now j, c = Added j /\ find_job (job_name j) s = None /\ job_source j = "ui" /\
      sc_jobs s' = sc_jobs s ++ [j] /\ sc_queue s' = sc_queue s /\
      sc_next_run s' = schedule_next localtime now j (sc_next_run s)) \/
   (exists n j, c = Removed n /\ find_job n s = Some j /\ job_source j = "ui" /\
      sc_jobs s' = without_job n (sc_jobs s) /\ sc_queue s' = sc_queue s /\
      sc_next_run s' = delete n (sc_next_run s))).
Proof.
  assert (Hno : forall q : list (string * string), exists extra, q = q ++ extra /\
    Forall (fun q => fst q ∈ names_of (sc_jobs s) /\ snd q = "manual" \/
                     fst q ∈ caller_names c /\ snd q = "missed") extra).
  { intros q. exists []. by rewrite app_nil_r. }
  intros H Hok. inversion H as [now ts f sc sc' s0 s1 Hsc| | |n| | | |now j| | | |n|]; subst;
    try (split_and!; [done..|left; split_and!; [done..|apply Hno]]; fail).
  - destruct (scan_section_grows _ _ _ _ _ _ _ Hsc) as (Hf & _ & (extra & Hq & Ha) & _).
    split_and!; [apply (frame_running _ _ Hf)|apply (frame_active _ _ Hf)|left].
    split_and!; [apply (frame_jobs _ _ Hf)|apply (frame_next _ _ Hf)|]. exists extra. split; [done|].
    eapply Forall_impl; [exact Ha|]. intros q [H1 H2]. by right.
  - split_and!; [done..|left]. split_and!; [done..|]. exists [(n, "manual")]. split; [done|].
    apply Forall_singleton. left. split; [|done]. destruct Hok as [j Hj].
    apply find_in_Some in Hj as [Hj <-]. unfold names_of.
    apply list_elem_of_In, (in_map job_name), list_elem_of_In, Hj.
  - split_and!; [done..|right; left]. destruct Hok. by exists now, j.
  - split_and!; [done..|right; right]. destruct Hok as (j & ? & ?). by exists n, j.
Qed.
End Scanning.
