(* ===== verification/Locked.v ===== *)
(** * Sections that read completion flags (daemon/src/jobs/scheduler.cpp)

    [reap_finished], the choice of a turn and the copy of [publish_status] hold
    the scheduler's mutex and read the tasks' completion flags one by one,
    while a worker stores its flag ([task->done.store(true)]) without the
    mutex.  So these sections are modelled read by read, with workers that end
    in between.  A copy and a reaping turn out to be those of one state; a
    choice does not, and what it takes is bounded by the states at its ends. *)

From stdpp Require Import base option list strings gmap relations.
From Stdlib Require Import ZArith Lia.
From S2P Require Import Prelude CppLib Double Cron SharedState Config Database ProcessRunner.
From S2P Require Import Scheduler Sections.

Open Scope string_scope.
Open Scope list_scope.

#[local] Opaque Cron.next_after Cron.prev_before.

(** ** Workers that end *)

(** A worker thread: its job, its trigger and the sections it has left. *)
Record Worker := { w_name : string; w_trigger : string; w_sections : list section }.

(** A worker with nothing left but its flag stores it, and is gone. *)
Inductive finish : Scheduler * list Worker -> Scheduler * list Worker -> Prop :=
| Finish s ws1 ws2 w :
    w_sections w = [MarkDone] ->
    finish (s, ws1 ++ w :: ws2) (mark_done (w_name w) s, ws1 ++ ws2).

(** A section that goes on while [next] has something to do, with workers
    that end before, between and after what it does. *)
Inductive locked {A} (next : A -> Scheduler -> option (A * Scheduler))
    : A -> Scheduler * list Worker -> A -> Scheduler * list Worker -> Prop :=
| locked_over a s ws : next a s = None -> locked next a (s, ws) a (s, ws)
| locked_next a s ws a1 s1 b z :
    next a s = Some (a1, s1) -> locked next a1 (s1, ws) b z -> locked next a (s, ws) b z
| locked_finish a x y b z : finish x y -> locked next a y b z -> locked next a x b z.

(** ** The three sections *)

(** Reaping: the tasks still to look at. *)
Definition reap_next (ns : list string) (s : Scheduler) : option (list string * Scheduler) :=
  match ns with
  | [] => None
  | n :: ns =>
      Some (ns, match sc_running s !! n with
                | Some t => if task_done t then with_running (delete n (sc_running s)) s else s
                | None => s
                end)
  end.

Definition reaps (x z : Scheduler * list Worker) : Prop :=
  exists ns, ns ≡ₚ map fst (map_to_list (sc_running (fst x))) /\ locked reap_next ns x [] z.

(** Copying: the jobs still to look at, and the statuses so far. *)
Definition copy_next (c : list Job * list JobStatus) (s : Scheduler)
    : option (list Job * list JobStatus * Scheduler) :=
  match fst c with
  | [] => None
  | j :: js => Some (js, snd c ++ [job_status s j], s)
  end.

Definition copies (x : Scheduler * list Worker) (sts : list JobStatus)
    (z : Scheduler * list Worker) : Prop :=
  locked copy_next (sc_jobs (fst x), []) x ([], sts) z.

(** Choosing: the requests still to look at, those deferred and the launches
    so far; then the jobs still to look at and the launches so far. *)
Inductive Picking :=
| Requests (q deferred : list (string * string)) (to_launch : list (Job * string))
| Due (js : list Job) (to_launch : list (Job * string)).

Definition pick_next (localtime : Z -> tm) (wall : Z) (p : Picking) (s : Scheduler)
    : option (Picking * Scheduler) :=
  match p with
  | Requests [] deferred ls => Some (Due (sc_jobs s) ls, with_queue deferred s)
  | Requests ((name, trigger) :: q) deferred ls =>
      Some (match find_job name s with
            | None => Requests q deferred ls
            | Some job =>
                if is_running s name then Requests q (deferred ++ [(name, trigger)]) ls
                else Requests q deferred (ls ++ [(job, trigger)])
            end, s)
  | Due [] _ => None
  | Due (job :: js) ls =>
      let '(next_run, ls) := due_one localtime wall s (sc_next_run s, ls) job in
      Some (Due js ls, with_next_run next_run s)
  end.

Definition picks (localtime : Z -> tm) (wall : Z) (x : Scheduler * list Worker)
    (ls : list (Job * string)) (z : Scheduler * list Worker) : Prop :=
  locked (pick_next localtime wall) (Requests (sc_queue (fst x)) [] []) x (Due [] ls) z.

(** ** Several workers that end *)

(** The flags of [N] set. *)
Definition flagged (N : gset string) (m : gmap string Task) : gmap string Task :=
  map_imap (fun n t => Some (if decide (n ∈ N)
    then {| task_done := true; task_joinable := task_joinable t |} else t)) m.

Definition still (N : gset string) (ws : list Worker) : list Worker :=
  List.filter (fun w => negb (bool_decide (w_name w ∈ N))) ws.

(** The workers of [N] ended. *)
Definition finished (N : gset string) (x : Scheduler * list Worker) : Scheduler * list Worker :=
  (with_running (flagged N (sc_running (fst x))) (fst x), still N (snd x)).

(** Each of [N] is a worker with only its flag to store. *)
Definition ready (N : gset string) (ws : list Worker) : Prop :=
  forall n, n ∈ N -> exists w, w ∈ ws /\ w_name w = n /\ w_sections w = [MarkDone].

Lemma flagged_lookup N m n :
  flagged N m !! n = (fun t => if decide (n ∈ N)
    then {| task_done := true; task_joinable := task_joinable t |} else t) <$> m !! n.
Proof. unfold flagged. rewrite map_lookup_imap. by destruct (m !! n). Qed.

Lemma flagged_flagged N1 N2 m : flagged N2 (flagged N1 m) = flagged (N1 ∪ N2) m.
Proof.
  apply map_eq. intros n. rewrite !flagged_lookup. destruct (m !! n) as [t|]; [|done]. cbn. f_equal.
  destruct (decide (n ∈ N1)), (decide (n ∈ N2)), (decide (n ∈ N1 ∪ N2)); set_solver || done.
Qed.

Lemma flagged_none N m : N = ∅ -> flagged N m = m.
Proof.
  intros ->. apply map_eq. intros n. rewrite flagged_lookup. destruct (m !! n); [|done]. cbn.
  by rewrite decide_False by set_solver.
Qed.

Lemma still_still N1 N2 ws : still N2 (still N1 ws) = still (N1 ∪ N2) ws.
Proof.
  unfold still. induction ws as [|w ws IH]; [done|]. cbn.
  rewrite (bool_decide_ext (w_name w ∈ N1 ∪ N2) (w_name w ∈ N1 \/ w_name w ∈ N2)) by set_solver.
  rewrite bool_decide_or. destruct (bool_decide (w_name w ∈ N1)); cbn; [done|].
  destruct (bool_decide (w_name w ∈ N2)); cbn; by rewrite IH.
Qed.

Lemma still_elem N w ws : w ∈ still N ws <-> w ∈ ws /\ w_name w ∉ N.
Proof.
  unfold still. rewrite !list_elem_of_In, filter_In, negb_true_iff, bool_decide_eq_false. done.
Qed.

Lemma still_all N ws : (forall w, w ∈ ws -> w_name w ∉ N) -> still N ws = ws.
Proof.
  induction ws as [|w ws IH]; intros H; [done|]. cbn.
  rewrite bool_decide_false by (apply H; left). cbn. f_equal. apply IH. intros x Hx. apply H. by right.
Qed.

Lemma still_names N ws : NoDup (map w_name ws) -> NoDup (map w_name (still N ws)).
Proof.
  induction ws as [|w ws IH]; intros H; [done|]. apply NoDup_cons in H as [Hw H]. cbn.
  destruct (bool_decide _); cbn; [auto|]. apply NoDup_cons. split; [|auto].
  intros (x & E & Hx)%list_elem_of_In%in_map_iff. apply Hw. rewrite <- E.
  apply list_elem_of_In, in_map. apply filter_In in Hx. tauto.
Qed.

Lemma finished_none x : finished ∅ x = x.
Proof.
  destruct x as [s ws]. unfold finished. cbn [fst snd]. rewrite flagged_none by done.
  rewrite still_all by set_solver. by destruct s.
Qed.

Lemma finished_finished N1 N2 x : finished N2 (finished N1 x) = finished (N1 ∪ N2) x.
Proof.
  unfold finished. cbn [fst snd sc_running with_running].
  by rewrite flagged_flagged, still_still.
Qed.

Lemma ready_app N1 N2 ws : ready N1 ws -> ready N2 (still N1 ws) -> ready (N1 ∪ N2) ws.
Proof.
  intros H1 H2 n [Hn|Hn]%elem_of_union; [auto|].
  destruct (H2 n Hn) as (w & [Hw _]%still_elem & E). by exists w.
Qed.

Lemma ready_sub N N' ws : N' ⊆ N -> ready N ws -> ready N' ws.
Proof. intros Hs H n Hn. auto. Qed.

Lemma ready_both N1 N2 ws : ready (N1 ∪ N2) ws -> N1 ## N2 -> ready N1 ws /\ ready N2 (still N1 ws).
Proof.
  intros H Hd. split; [eapply ready_sub; [|exact H]; set_solver|]. intros n Hn.
  destruct (H n) as (w & Hw & <- & Hs); [by apply elem_of_union_r|]. exists w.
  split; [|done]. apply still_elem. split; [done|set_solver].
Qed.

Lemma ready_apart n N ws : ready N (still {[n]} ws) -> n ∉ N.
Proof. intros H Hn. destruct (H n Hn) as (w & [_ Hw]%still_elem & <- & _). set_solver. Qed.

Lemma ready_none ws : ready ∅ ws.
Proof. intros n Hn. set_solver. Qed.

Lemma named_once ws1 w ws2 x :
  NoDup (map w_name (ws1 ++ w :: ws2)) -> x ∈ ws1 ++ ws2 -> w_name x <> w_name w.
Proof.
  intros Hn Hx E. rewrite map_app in Hn. apply NoDup_app in Hn as (_ & H12 & H2).
  apply NoDup_cons in H2 as [H2 _]. apply elem_of_app in Hx as [Hx|Hx].
  - apply (H12 (w_name x)); [|rewrite E; left]. by apply list_elem_of_In, in_map, list_elem_of_In.
  - apply H2. rewrite <- E. by apply list_elem_of_In, in_map, list_elem_of_In.
Qed.

Lemma finish_one s ws1 w ws2 :
  NoDup (map w_name (ws1 ++ w :: ws2)) ->
  (mark_done (w_name w) s, ws1 ++ ws2) = finished {[w_name w]} (s, ws1 ++ w :: ws2).
Proof.
  intros Hn. unfold finished. cbn [fst snd]. f_equal.
  - unfold mark_done. destruct (sc_running s !! w_name w) as [t|] eqn:E.
    + f_equal. apply map_eq. intros n. rewrite flagged_lookup. destruct (decide (n = w_name w)) as [->|Hne].
      * rewrite lookup_insert_eq, E. cbn. by rewrite decide_True by set_solver.
      * rewrite lookup_insert_ne by done. destruct (_ !! n); [|done]. cbn.
        by rewrite decide_False by set_solver.
    + assert (Ef : flagged {[w_name w]} (sc_running s) = sc_running s).
      { apply map_eq. intros n. rewrite flagged_lookup. destruct (decide (n = w_name w)) as [->|Hne].
        - by rewrite E.
        - destruct (_ !! n); [|done]. cbn. by rewrite decide_False by set_solver. }
      rewrite Ef. by destruct s.
  - rewrite <- (still_all {[w_name w]} (ws1 ++ ws2)).
    + unfold still. rewrite !List.filter_app. cbn [List.filter].
      by rewrite (bool_decide_true (w_name w ∈ {[w_name w]})) by set_solver.
    + intros x Hx. rewrite elem_of_singleton. by eapply named_once.
Qed.

(** Workers of distinct names that end in a row are workers that end. *)
Lemma finishes_are x z :
  NoDup (map w_name (snd x)) -> rtc finish x z ->
  exists N, ready N (snd x) /\ z = finished N x.
Proof.
  intros Hn H. revert Hn. induction H as [x|x y z Hxy _ IH]; intros Hn.
  - exists ∅. split; [apply ready_none|by rewrite finished_none].
  - inversion Hxy as [s ws1 ws2 w Hw]; subst. cbn [snd] in Hn. rewrite (finish_one s ws1 w ws2 Hn) in IH.
    destruct IH as (N & Hr & ->); [by apply still_names|].
    exists ({[w_name w]} ∪ N). split; [|by rewrite finished_finished].
    apply ready_app; [|exact Hr]. intros n ->%elem_of_singleton. exists w.
    split; [apply elem_of_app; right; left|done].
Qed.

Lemma finishes N x : NoDup (map w_name (snd x)) -> ready N (snd x) -> rtc finish x (finished N x).
Proof.
  revert x. induction N as [|n N Hn IH] using set_ind_L; intros x Hd Hr.
  - rewrite finished_none. apply rtc_refl.
  - rewrite <- finished_finished. destruct (Hr n) as (w & Hw & <- & Hs); [apply elem_of_union_l, elem_of_singleton; done|].
    destruct x as [s ws]. cbn [snd] in *. apply list_elem_of_split in Hw as (ws1 & ws2 & ->).
    eapply rtc_l; [by apply Finish|]. rewrite (finish_one s ws1 w ws2 Hd).
    apply IH; [by apply still_names|]. intros m Hm.
    destruct (Hr m) as (v & Hv & <- & Hvs); [by apply elem_of_union_r|].
    exists v. split; [|done]. apply still_elem. split; [done|]. rewrite elem_of_singleton. congruence.
Qed.

(** Names of workers stay distinct as workers end. *)
Lemma finish_names x y :
  finish x y -> NoDup (map w_name (snd x)) ->
  NoDup (map w_name (snd y)) /\ exists n, ready {[n]} (snd x) /\ y = finished {[n]} x.
Proof.
  intros H Hn. inversion H as [s ws1 ws2 w Hw]; subst. cbn [snd] in *.
  pose proof (finish_one s ws1 w ws2 Hn) as E. split.
  - change (ws1 ++ ws2) with (snd (mark_done (w_name w) s, ws1 ++ ws2)). rewrite E.
    by apply still_names.
  - exists (w_name w). split; [|exact E]. intros n ->%elem_of_singleton. exists w.
    split; [apply elem_of_app; right; left|done].
Qed.

Lemma finished_running N x n :
  is_running (fst (finished N x)) n = is_running (fst x) n && negb (bool_decide (n ∈ N)).
Proof.
  unfold is_running, finished. cbn [fst sc_running with_running]. rewrite flagged_lookup.
  destruct (sc_running (fst x) !! n) as [t|]; [|done]. cbn.
  destruct (decide (n ∈ N)) as [H|H].
  - rewrite bool_decide_true by done. by rewrite andb_false_r.
  - rewrite bool_decide_false by done. by rewrite andb_true_r.
Qed.

Lemma finished_status N N' x j :
  (job_name j ∈ N <-> job_name j ∈ N') ->
  job_status (fst (finished N x)) j = job_status (fst (finished N' x)) j.
Proof.
  intros H. unfold job_status. rewrite !finished_running, (bool_decide_ext _ _ H). done.
Qed.

(** ** A copy is that of one state *)

(** Some of the workers that end during the copy end before it, the others
    after it. *)
Lemma copies_from js sts x b out z :
  NoDup (map w_name (snd x)) -> NoDup (names_of js) -> locked copy_next (js, sts) x (b, out) z ->
  exists N1 N2, ready (N1 ∪ N2) (snd x) /\ N1 ## N2 /\ z = finished (N1 ∪ N2) x /\
    out = sts ++ map (job_status (fst (finished N1 x))) js.
Proof.
  intros Hn Hj H. remember (js, sts) as a eqn:Ea. remember (b, out) as o eqn:Eo.
  revert js sts Ea Hj. revert Hn.
  induction H as [a s ws Hnx|a s ws a1 s1 o z Hnx _ IH|a x y o z Hf _ IH]; intros Hn js sts -> Hj.
  - injection Eo as <- <-. destruct js as [|j js]; [|discriminate].
    exists ∅, ∅. rewrite union_empty_l_L, finished_none, app_nil_r. split_and!; [apply ready_none|set_solver|done..].
  - destruct js as [|j js]; [discriminate|]. injection Hnx as <- <-. apply NoDup_cons in Hj as [Hj Hjs].
    destruct (IH Eo Hn js _ eq_refl Hjs) as (N1 & N2 & Hr & Hd & -> & ->).
    exists (N1 ∖ {[job_name j]}), (N2 ∪ (N1 ∩ {[job_name j]})).
    assert (EN : N1 ∖ {[job_name j]} ∪ (N2 ∪ (N1 ∩ {[job_name j]})) = N1 ∪ N2).
    { apply set_eq. intros n. destruct (decide (n = job_name j)); set_solver. }
    rewrite EN. split_and!; [done|set_solver|done|]. rewrite <- app_assoc. cbn [map app]. do 2 f_equal.
    + rewrite (finished_status _ ∅ (s, ws)) by set_solver. by rewrite finished_none.
    + apply map_ext_in. intros i Hi. apply finished_status.
      assert (job_name i <> job_name j).
      { intros E. apply Hj. unfold names_of. rewrite <- E. by apply list_elem_of_In, in_map. }
      set_solver.
  - destruct (finish_names x y Hf Hn) as (Hny & n & Hrn & ->).
    destruct (IH Eo Hny js sts eq_refl Hj) as (N1 & N2 & Hr & Hd & -> & ->).
    exists ({[n]} ∪ N1), N2. rewrite !finished_finished, (assoc_L (∪)) in *.
    split_and!; [rewrite <- (assoc_L (∪)); by apply ready_app| |done..].
    apply ready_apart in Hr. set_solver.
Qed.

Lemma copies_spec x sts z :
  NoDup (map w_name (snd x)) -> NoDup (names_of (sc_jobs (fst x))) -> copies x sts z ->
  exists x1, rtc finish x x1 /\ rtc finish x1 z /\ sts = map (job_status (fst x1)) (sc_jobs (fst x1)).
Proof.
  intros Hn Hj H. destruct (copies_from _ _ _ _ _ _ Hn Hj H) as (N1 & N2 & Hr & Hd & -> & ->).
  destruct (ready_both _ _ _ Hr Hd) as [H1 H2]. exists (finished N1 x). rewrite <- finished_finished.
  split_and!; [by apply finishes| |done]. apply finishes; [by apply still_names|exact H2].
Qed.

(** ** A reaping is that of one state *)

Definition reap_on (ns : list string) (s : Scheduler) : Scheduler :=
  with_running (filter (fun p => ~ (fst p ∈ ns /\ task_done (snd p) = true)) (sc_running s)) s.

Definition reaped_on (ns : list string) (x : Scheduler * list Worker) : Scheduler * list Worker :=
  (reap_on ns (fst x), snd x).

Lemma reap_on_lookup (ns : list string) (m : gmap string Task) n :
  filter (fun p : string * Task => ~ (fst p ∈ ns /\ task_done (snd p) = true)) m !! n =
    t ← m !! n; if bool_decide (n ∈ ns) && task_done t then None else Some t.
Proof.
  rewrite map_lookup_filter. destruct (m !! n) as [t|]; [|done]. cbn.
  destruct (bool_decide_reflect (n ∈ ns)) as [Hn|Hn], (task_done t) eqn:E; cbn;
    [rewrite option_guard_False by tauto|rewrite option_guard_True by intuition congruence..]; done.
Qed.

Lemma reap_on_all s ns :
  (forall n t, sc_running s !! n = Some t -> n ∈ ns) -> reap_on ns s = reap_finished s.
Proof.
  intros Hns. unfold reap_on, reap_finished. f_equal. apply map_eq. intros n.
  rewrite reap_on_lookup, map_lookup_filter. destruct (sc_running s !! n) as [t|] eqn:Et; [|done]. cbn.
  rewrite bool_decide_true by by eapply Hns. cbn.
  destruct (task_done t); [rewrite option_guard_False by done|rewrite option_guard_True by done]; done.
Qed.

(** The next task: deleted if its flag is set, and otherwise there, whether
    or not its flag is set later. *)
Lemma reap_next_one n ns s ws N1 N2 :
  n ∉ ns ->
  let s1 := match sc_running s !! n with
            | Some t => if task_done t then with_running (delete n (sc_running s)) s else s
            | None => s
            end in
  exists N1' N2', N1' ∪ N2' = N1 ∪ N2 /\ (N1 ## N2 -> N1' ## N2') /\
    finished N2 (reaped_on ns (finished N1 (s1, ws))) = finished N2' (reaped_on (n :: ns) (finished N1' (s, ws))).
Proof.
  intros Hn s1. exists (N1 ∖ {[n]}), (N2 ∪ (N1 ∩ {[n]})).
  assert (EN : N1 ∖ {[n]} ∪ (N2 ∪ (N1 ∩ {[n]})) = N1 ∪ N2).
  { apply set_eq. intros m. destruct (decide (m = n)); set_solver. }
  split; [exact EN|]. split; [set_solver|]. unfold finished, reaped_on, reap_on.
  cbn [fst snd sc_running with_running]. rewrite !still_still, EN. f_equal.
  assert (Es : forall r, with_running r s1 = with_running r s).
  { intros r. unfold s1. destruct (sc_running s !! n) as [t|]; [|done]. by destruct (task_done t). }
  change (with_running ?r (with_running _ (with_running _ ?t))) with (with_running r t). rewrite Es.
  f_equal. apply map_eq. intros m. rewrite !flagged_lookup, !reap_on_lookup, !flagged_lookup.
  destruct (decide (m = n)) as [->|Hm].
  - rewrite (bool_decide_false (n ∈ ns)), (bool_decide_true (n ∈ n :: ns)) by (done || left).
    unfold s1. destruct (sc_running s !! n) as [t|] eqn:Et.
    2: { by rewrite Et. }
    destruct (task_done t) eqn:Ed; cbn [sc_running with_running].
    + rewrite lookup_delete_eq. cbn. rewrite decide_False by set_solver. by rewrite Ed.
    + rewrite Et. cbn. rewrite (decide_False (P := n ∈ N1 ∖ {[n]})) by set_solver. rewrite Ed. cbn.
      destruct (decide (n ∈ N1)), (decide (n ∈ N2)), (decide (n ∈ N2 ∪ N1 ∩ {[n]}));
        try set_solver; done.
  - assert (E1 : sc_running s1 !! m = sc_running s !! m).
    { unfold s1. destruct (sc_running s !! n) as [t|]; [|done].
      destruct (task_done t); [|done]. cbn. by rewrite lookup_delete_ne. }
    rewrite E1. destruct (sc_running s !! m) as [t|]; [|done]. cbn.
    rewrite (bool_decide_ext (m ∈ n :: ns) (m ∈ ns)) by set_solver.
    destruct (decide (m ∈ N1)), (decide (m ∈ N1 ∖ {[n]})), (decide (m ∈ N2)),
      (decide (m ∈ N2 ∪ N1 ∩ {[n]})); try set_solver; done.
Qed.

Lemma reaps_on ns x b z :
  NoDup (map w_name (snd x)) -> NoDup ns -> locked reap_next ns x b z ->
  exists N1 N2, ready (N1 ∪ N2) (snd x) /\ N1 ## N2 /\ z = finished N2 (reaped_on ns (finished N1 x)).
Proof.
  intros Hn Hs H. revert Hn Hs.
  induction H as [ns s ws Hnx|ns s ws ns1 s1 o z Hnx _ IH|ns x y o z Hf _ IH]; intros Hn Hns.
  - destruct ns; [|discriminate]. exists ∅, ∅. rewrite !finished_none, union_empty_l_L. split; [apply ready_none|split; [set_solver|]].
    unfold reaped_on, reap_on. cbn [fst snd]. rewrite map_filter_id; [by destruct s|].
    intros n t _ [Hx _]. by apply not_elem_of_nil in Hx.
  - destruct ns as [|n ns]; [discriminate|]. injection Hnx as <- <-. apply NoDup_cons in Hns as [Hnn Hns].
    destruct (IH Hn Hns) as (N1 & N2 & Hr & Hd & ->).
    destruct (reap_next_one n ns s ws N1 N2 Hnn) as (N1' & N2' & EN & Hd' & ->).
    exists N1', N2'. rewrite EN. auto.
  - destruct (finish_names x y Hf Hn) as (Hny & n & Hrn & ->).
    destruct (IH Hny Hns) as (N1 & N2 & Hr & Hd & ->).
    exists ({[n]} ∪ N1), N2. rewrite finished_finished. split_and!; [| |done].
    + rewrite <- (assoc_L (∪)). by apply ready_app.
    + apply ready_apart in Hr. set_solver.
Qed.

Lemma keys_elem (m : gmap string Task) n t : m !! n = Some t -> n ∈ map fst (map_to_list m).
Proof.
  intros H. apply list_elem_of_In, in_map_iff. exists (n, t). split; [done|].
  by apply list_elem_of_In, elem_of_map_to_list.
Qed.

Lemma reaps_spec x z :
  NoDup (map w_name (snd x)) -> reaps x z ->
  exists x1, rtc finish x x1 /\ rtc finish (reap_finished (fst x1), snd x1) z.
Proof.
  intros Hn (ns & Hp & H).
  assert (Hns : NoDup ns) by (rewrite Hp; apply NoDup_fst_map_to_list).
  destruct (reaps_on ns x [] z Hn Hns H) as (N1 & N2 & Hr & Hd & ->).
  destruct (ready_both _ _ _ Hr Hd) as [H1 H2]. exists (finished N1 x). split; [by apply finishes|].
  unfold reaped_on. rewrite reap_on_all; [apply finishes; [by apply still_names|exact H2]|].
  intros n t. unfold finished. cbn [fst sc_running with_running].
  rewrite flagged_lookup. destruct (sc_running (fst x) !! n) as [t0|] eqn:E; [|done]. intros _.
  rewrite Hp. by eapply keys_elem.
Qed.

(** ** What a choice takes *)

Definition pair_of (l : Job * string) : string * string := (job_name (fst l), snd l).

(** The requests that are deferred and those that are taken, between a state
    and a later one: what is deferred runs in the first, what is taken does
    not run in the second. *)
Inductive sorted (s s1 : Scheduler)
    : list (string * string) -> list (string * string) -> list (Job * string) -> Prop :=
| sorted_nil : sorted s s1 [] [] []
| sorted_unknown n tr q d ls :
    find_job n s = None -> sorted s s1 q d ls -> sorted s s1 ((n, tr) :: q) d ls
| sorted_deferred n tr j q d ls :
    find_job n s = Some j -> is_running s n = true -> sorted s s1 q d ls ->
    sorted s s1 ((n, tr) :: q) ((n, tr) :: d) ls
| sorted_taken n tr j q d ls :
    find_job n s = Some j -> is_running s1 n = false -> sorted s s1 q d ls ->
    sorted s s1 ((n, tr) :: q) d ((j, tr) :: ls).

(** What is deferred was queued. *)
Lemma sorted_sub s s1 q d ls p : sorted s s1 q d ls -> p ∈ d -> p ∈ q.
Proof. induction 1; set_solver. Qed.

(** The due jobs that are taken: only those that do not run in the second
    state, and all those that do not run in the first. *)
Record fired (wall : Z) (nr : gmap string Z) (s s1 : Scheduler) (js : list Job)
    (ls : list (Job * string)) : Prop := {
  fi_due : ls `sublist_of` map (fun j => (j, "schedule")) (List.filter (is_due wall nr) js);
  fi_idle l : l ∈ ls -> is_running s1 (job_name (fst l)) = false;
  fi_all j : j ∈ js -> is_due wall nr j = true -> is_running s (job_name j) = false ->
    (j, "schedule") ∈ ls
}.

Lemma sorted_mono s s' s1 s1' q d ls :
  (forall n, find_job n s' = find_job n s) ->
  (forall n, is_running s n = true -> is_running s' n = true) ->
  (forall n, is_running s1 n = false -> is_running s1' n = false) ->
  sorted s s1 q d ls -> sorted s' s1' q d ls.
Proof.
  intros Hf Hr Hr1. induction 1 as [|n tr q d ls Hn _ IH|n tr j q d ls Hn Hi _ IH|n tr j q d ls Hn Hi _ IH].
  - constructor.
  - apply sorted_unknown; [by rewrite Hf|exact IH].
  - eapply sorted_deferred; [by rewrite Hf|by apply Hr|exact IH].
  - eapply sorted_taken; [by rewrite Hf|by apply Hr1|exact IH].
Qed.

Lemma fired_mono wall nr s s' s1 s1' js ls :
  (forall n, is_running s n = true -> is_running s' n = true) ->
  (forall n, is_running s1 n = false -> is_running s1' n = false) ->
  fired wall nr s s1 js ls -> fired wall nr s' s1' js ls.
Proof.
  intros Hr Hr1 [H1 H2 H3]. split; [exact H1|auto|]. intros j Hj Hd Hi. apply H3; [done|done|].
  destruct (is_running s (job_name j)) eqn:E; [|done]. apply Hr in E. congruence.
Qed.

Lemma finished_idle N x n :
  is_running (fst (finished N x)) n = true -> is_running (fst x) n = true.
Proof. rewrite finished_running. by intros [? _]%andb_true_iff. Qed.

Lemma idle_finished N x n :
  is_running (fst x) n = false -> is_running (fst (finished N x)) n = false.
Proof. rewrite finished_running. by intros ->. Qed.

Section Choosing.
Context (localtime : Z -> tm) (wall : Z).

Lemma is_due_ext nr nr' js :
  (forall i, i ∈ js -> nr' !! job_name i = nr !! job_name i) ->
  List.filter (is_due wall nr') js = List.filter (is_due wall nr) js.
Proof.
  intros H. apply filter_ext_in. intros i Hi. unfold is_due. by rewrite H by (by apply list_elem_of_In).
Qed.

(** One more job that is looked at. *)
Lemma fired_cons s s1 nr nr1 j js fs :
  (forall i, i ∈ js -> nr1 !! job_name i = nr !! job_name i) ->
  (is_running s (job_name j) = false -> is_running s1 (job_name j) = false) ->
  fired wall nr1 s s1 js fs ->
  fired wall nr s s1 (j :: js) ((if fires wall s nr j then [(j, "schedule")] else []) ++ fs).
Proof.
  intros Hnr Hj [H1 H2 H3]. rewrite (is_due_ext nr nr1 js Hnr) in H1. unfold fires.
  split.
  - cbn [List.filter]. destruct (is_due wall nr j); cbn [andb app map]; [|exact H1].
    destruct (is_running s (job_name j)); cbn; by constructor.
  - intros l [Hl|Hl]%elem_of_app; [|auto].
    destruct (is_due wall nr j), (is_running s (job_name j)); cbn in Hl;
      try (by apply not_elem_of_nil in Hl). apply list_elem_of_singleton in Hl as ->. auto.
  - intros i [->|Hi]%elem_of_cons Hd Hr; apply elem_of_app.
    + left. rewrite Hd, Hr. left.
    + right. apply H3; [exact Hi| |exact Hr]. unfold is_due in *. by rewrite Hnr.
Qed.

Lemma due_spec js ls x b z :
  NoDup (map w_name (snd x)) -> NoDup (names_of js) -> locked (pick_next localtime wall) (Due js ls) x b z ->
  exists N fs nr', ready N (snd x) /\ b = Due [] (ls ++ fs) /\
    z = (with_next_run nr' (fst (finished N x)), snd (finished N x)) /\
    (forall j, j ∈ js -> nr' !! job_name j = advanced localtime wall (sc_next_run (fst x)) j) /\
    (forall n, n ∉ names_of js -> nr' !! n = sc_next_run (fst x) !! n) /\
    fired wall (sc_next_run (fst x)) (fst x) (fst (finished N x)) js fs.
Proof.
  intros Hn Hj H. remember (Due js ls) as a eqn:Ea. revert js ls Ea Hj. revert Hn.
  induction H as [a s ws Hnx|a s ws a1 s1 o z Hnx _ IH|a x y o z Hf _ IH]; intros Hn js ls -> Hj.
  - destruct js as [|j js]; [|cbn [pick_next] in Hnx; by destruct (due_one _ _ _ _ _)].
    exists ∅, [], (sc_next_run s). rewrite finished_none, app_nil_r.
    split_and!; [apply ready_none|done|by destruct s|set_solver|done|].
    split; [done|intros l Hl; by apply not_elem_of_nil in Hl|intros j Hi; by apply not_elem_of_nil in Hi].
  - destruct js as [|j js]; [discriminate|]. apply NoDup_cons in Hj as [Hjn Hjs].
    cbn [pick_next] in Hnx. destruct (due_one_spec localtime wall s (sc_next_run s) ls j) as (nr1 & E & Hj1 & Hne).
    rewrite E in Hnx. injection Hnx as <- <-.
    destruct (IH Hn js _ eq_refl Hjs) as (N & fs & nr' & Hr & -> & -> & Hin & Hout & Hfi).
    cbn [fst snd sc_next_run with_next_run] in *.
    assert (Hext : forall i, i ∈ js -> nr1 !! job_name i = sc_next_run s !! job_name i).
    { intros i Hi. apply Hne. intros Ei. apply Hjn. unfold names_of. rewrite <- Ei.
      apply list_elem_of_In, in_map, list_elem_of_In, Hi. }
    exists N, ((if fires wall s (sc_next_run s) j then [(j, "schedule")] else []) ++ fs), nr'.
    split_and!; [exact Hr|by rewrite app_assoc|done| | |].
    + intros i [->|Hi]%elem_of_cons; [by rewrite Hout|]. rewrite Hin by done.
      unfold advanced, is_due. by rewrite Hext.
    + intros n [Hx1 Hx2]%not_elem_of_cons. rewrite Hout by done. by apply Hne.
    + eapply fired_cons; [exact Hext|apply (idle_finished N (s, ws))|].
      eapply fired_mono; [| |exact Hfi]; done.
  - destruct (finish_names x y Hf Hn) as (Hny & n & Hrn & ->).
    destruct (IH Hny js ls eq_refl Hj) as (N & fs & nr' & Hr & -> & -> & Hin & Hout & Hfi).
    rewrite finished_finished in *. exists ({[n]} ∪ N), fs, nr'.
    split_and!; [by apply ready_app|done|done|exact Hin|exact Hout|].
    eapply fired_mono; [| |exact Hfi]; [apply finished_idle|done].
Qed.

(** The whole choice: the requests sorted, the next runs of the due jobs
    advanced, and some workers ended. *)
Record picked (x : Scheduler * list Worker) (ls : list (Job * string)) (z : Scheduler * list Worker)
    (N : gset string) (d : list (string * string)) (reqs fs : list (Job * string)) (nr : gmap string Z)
    : Prop := {
  pk_ready : ready N (snd x);
  pk_launches : ls = reqs ++ fs;
  pk_state : z = (with_next_run nr (with_queue d (fst (finished N x))), snd (finished N x));
  pk_requests : sorted (fst x) (fst (finished N x)) (sc_queue (fst x)) d reqs;
  pk_due : fired wall (sc_next_run (fst x)) (fst x) (fst (finished N x)) (sc_jobs (fst x)) fs;
  pk_advanced j : j ∈ sc_jobs (fst x) -> nr !! job_name j = advanced localtime wall (sc_next_run (fst x)) j;
  pk_others n : n ∉ names_of (sc_jobs (fst x)) -> nr !! n = sc_next_run (fst x) !! n
}.

Lemma requests_spec q d ls x b z :
  NoDup (map w_name (snd x)) -> NoDup (names_of (sc_jobs (fst x))) ->
  locked (pick_next localtime wall) (Requests q d ls) x b z ->
  exists N d' reqs fs nr, b = Due [] (ls ++ reqs ++ fs) /\ ready N (snd x) /\
    z = (with_next_run nr (with_queue (d ++ d') (fst (finished N x))), snd (finished N x)) /\
    sorted (fst x) (fst (finished N x)) q d' reqs /\
    fired wall (sc_next_run (fst x)) (fst x) (fst (finished N x)) (sc_jobs (fst x)) fs /\
    (forall j, j ∈ sc_jobs (fst x) -> nr !! job_name j = advanced localtime wall (sc_next_run (fst x)) j) /\
    (forall n, n ∉ names_of (sc_jobs (fst x)) -> nr !! n = sc_next_run (fst x) !! n).
Proof.
  intros Hn Hj H. remember (Requests q d ls) as a eqn:Ea. revert q d ls Ea Hj. revert Hn.
  induction H as [a s ws Hnx|a s ws a1 s1 o z Hnx Hl IH|a x y o z Hf _ IH]; intros Hn q d ls -> Hj.
  - by destruct q as [|[]].
  - destruct q as [|[n tr] q]; cbn [pick_next] in Hnx.
    + injection Hnx as <- <-. clear IH.
      destruct (due_spec (sc_jobs s) ls (with_queue d s, ws) o z Hn Hj Hl) as (N & fs & nr & Hr & -> & -> & Hin & Hout & Hfi).
      exists N, [], [], fs, nr. rewrite app_nil_r.
      split_and!; [done|exact Hr|done|constructor| |exact Hin|exact Hout].
      eapply fired_mono; [| |exact Hfi]; done.
    + cbn [fst] in Hj. destruct (find_job n s) as [j|] eqn:Ef; [destruct (is_running s n) eqn:Er|]; injection Hnx as <- <-;
        destruct (IH Hn q _ _ eq_refl Hj) as (N & d' & reqs & fs & nr & -> & Hr & -> & Hs & Hrest).
      * exists N, ((n, tr) :: d'), reqs, fs, nr. rewrite <- app_assoc.
        split_and!; [done|exact Hr|done|by eapply sorted_deferred|apply Hrest..].
      * exists N, d', ((j, tr) :: reqs), fs, nr. rewrite <- app_assoc.
        split_and!; [done|exact Hr|done| |apply Hrest..].
        eapply sorted_taken; [exact Ef|by apply (idle_finished N (s, ws))|exact Hs].
      * exists N, d', reqs, fs, nr. split_and!; [done|exact Hr|done|by apply sorted_unknown|apply Hrest..].
  - destruct (finish_names x y Hf Hn) as (Hny & n & Hrn & ->).
    destruct (IH Hny q d ls eq_refl Hj) as (N & d' & reqs & fs & nr & -> & Hr & -> & Hs & Hfi & Hrest).
    rewrite finished_finished in *. exists ({[n]} ∪ N), d', reqs, fs, nr.
    split_and!; [done|by apply ready_app|done| | |apply Hrest..].
    + eapply sorted_mono; [| | |exact Hs]; [done|apply finished_idle|done].
    + eapply fired_mono; [| |exact Hfi]; [apply finished_idle|done].
Qed.

Lemma picks_spec x ls z :
  NoDup (map w_name (snd x)) -> NoDup (names_of (sc_jobs (fst x))) -> picks localtime wall x ls z ->
  exists N d reqs fs nr, picked x ls z N d reqs fs nr.
Proof.
  intros Hn Hj H.
  destruct (requests_spec _ _ _ _ _ _ Hn Hj H) as (N & d & reqs & fs & nr & [= ->] & Hr & -> & Hs & Hfi & Hin & Hout).
  by exists N, d, reqs, fs, nr.
Qed.

(** ** With nothing in between *)

Lemma due_now js s ws ls :
  locked (pick_next localtime wall) (Due js ls) (s, ws)
    (Due [] (snd (fold_left (due_one localtime wall s) js (sc_next_run s, ls))))
    (with_next_run (fst (fold_left (due_one localtime wall s) js (sc_next_run s, ls))) s, ws).
Proof.
  assert (H : forall s0 js s ls, (forall n, is_running s n = is_running s0 n) ->
    locked (pick_next localtime wall) (Due js ls) (s, ws)
      (Due [] (snd (fold_left (due_one localtime wall s0) js (sc_next_run s, ls))))
      (with_next_run (fst (fold_left (due_one localtime wall s0) js (sc_next_run s, ls))) s, ws));
    [|by apply H].
  clear. intros s0 js. induction js as [|j js IH]; intros s ls Hr.
  - cbn [fold_left fst snd]. replace (with_next_run (sc_next_run s) s) with s by (by destruct s).
    by apply locked_over.
  - cbn [fold_left].
    assert (E : due_one localtime wall s0 (sc_next_run s, ls) j = due_one localtime wall s (sc_next_run s, ls) j)
      by (unfold due_one; by rewrite Hr).
    rewrite E. destruct (due_one localtime wall s (sc_next_run s, ls) j) as [nr l] eqn:Ed.
    eapply locked_next; [cbn [pick_next]; by rewrite Ed|].
    exact (IH (with_next_run nr s) l Hr).
Qed.

Lemma picks_now s ws :
  picks localtime wall (s, ws) (snd (pick localtime wall s)) (fst (pick localtime wall s), ws).
Proof.
  unfold picks, pick. cbn [fst].
  assert (H : forall q d ls, locked (pick_next localtime wall) (Requests q d ls) (s, ws)
    (Due [] (snd (fold_left (due_one localtime wall s) (sc_jobs s)
                    (sc_next_run s, ls ++ snd (pick_queue s q)))))
    (with_next_run (fst (fold_left (due_one localtime wall s) (sc_jobs s)
                           (sc_next_run s, ls ++ snd (pick_queue s q))))
       (with_queue (d ++ fst (pick_queue s q)) s), ws)).
  { induction q as [|[n tr] q IH]; intros d ls.
    - eapply locked_next; [reflexivity|]. cbn [pick_queue fst snd]. rewrite !app_nil_r.
      apply (due_now (sc_jobs s) (with_queue d s)).
    - eapply locked_next; [reflexivity|]. cbn [pick_queue].
      destruct (pick_queue s q) as [d' l'] eqn:Eq. cbn [fst snd] in IH.
      destruct (find_job n s) as [j|]; [destruct (is_running s n)|]; cbn [fst snd].
      + specialize (IH (d ++ [(n, tr)]) ls). by rewrite <- app_assoc in IH.
      + specialize (IH d (ls ++ [(j, tr)])). by rewrite <- app_assoc in IH.
      + apply IH. }
  specialize (H (sc_queue s) [] []). destruct (pick_queue s (sc_queue s)) as [d ls]. cbn [app fst snd] in *.
  by destruct (fold_left _ _ _) as [nr l].
Qed.
End Choosing.

Lemma copies_now s ws : copies (s, ws) (map (job_status s) (sc_jobs s)) (s, ws).
Proof.
  unfold copies. cbn [fst].
  assert (H : forall js sts, locked copy_next (js, sts) (s, ws) ([], sts ++ map (job_status s) js) (s, ws)).
  { induction js as [|j js IH]; intros sts.
    - rewrite app_nil_r. by apply locked_over.
    - eapply locked_next; [reflexivity|]. cbn [map snd fst].
      specialize (IH (sts ++ [job_status s j])). by rewrite <- app_assoc in IH. }
  apply (H (sc_jobs s) []).
Qed.

Lemma reaps_now s ws : reaps (s, ws) (reap_finished s, ws).
Proof.
  exists (map fst (map_to_list (sc_running s))). split; [done|]. cbn [fst].
  rewrite <- (reap_on_all s (map fst (map_to_list (sc_running s)))) by apply keys_elem.
  assert (Hnd : NoDup (map fst (map_to_list (sc_running s)))) by apply NoDup_fst_map_to_list.
  revert Hnd. generalize (map fst (map_to_list (sc_running s))). intros ns. revert s.
  induction ns as [|n ns IH]; intros s Hn.
  - replace (reap_on [] s) with s; [by apply locked_over|].
    unfold reap_on. rewrite map_filter_id; [by destruct s|]. intros n t _ [Hx _]. by apply not_elem_of_nil in Hx.
  - apply NoDup_cons in Hn as [Hnn Hn]. eapply locked_next; [reflexivity|].
    destruct (reap_next_one n ns s ws ∅ ∅ Hnn) as (N1 & N2 & EN & _ & E).
    assert (N1 = ∅ /\ N2 = ∅) as [-> ->] by set_solver. rewrite !finished_none in E. apply (f_equal fst) in E. cbn [fst reaped_on] in E.
    rewrite <- E. by apply IH.
Qed.

(** ** What the sections leave alone *)

(** Only the tasks, none of them new, and the workers, none of them new. *)
Definition only_tasks (x z : Scheduler * list Worker) : Prop :=
  exists r N, z = (with_running r (fst x), still N (snd x)) /\
    forall n, sc_running (fst x) !! n = None -> r !! n = None.

Lemma only_tasks_trans x y z : only_tasks x y -> only_tasks y z -> only_tasks x z.
Proof.
  intros (r1 & N1 & -> & H1) (r2 & N2 & -> & H2). exists r2, (N1 ∪ N2). cbn [fst snd].
  split; [by rewrite still_still|]. intros n Hn. apply H2, H1, Hn.
Qed.

Lemma finishes_frame x z : NoDup (map w_name (snd x)) -> rtc finish x z -> only_tasks x z.
Proof.
  intros Hn H. destruct (finishes_are x z Hn H) as (N & _ & ->). eexists _, N. split; [done|].
  intros n E. by rewrite flagged_lookup, E.
Qed.

Lemma finishes_names x z :
  NoDup (map w_name (snd x)) -> rtc finish x z -> NoDup (map w_name (snd z)).
Proof. intros Hn H. destruct (finishes_frame x z Hn H) as (r & N & -> & _). by apply still_names. Qed.

Lemma reaps_frame x z : NoDup (map w_name (snd x)) -> reaps x z -> only_tasks x z.
Proof.
  intros Hn H. destruct (reaps_spec x z Hn H) as (x1 & H1 & H2).
  apply (only_tasks_trans x x1); [by apply finishes_frame|].
  apply (only_tasks_trans _ (reap_finished (fst x1), snd x1)).
  - eexists _, ∅. split; [cbn [fst snd]; rewrite (still_all ∅ (snd x1)); [reflexivity|]|].
    { intros w _. apply not_elem_of_empty. }
    intros n E. apply map_lookup_filter_None_2. by left.
  - apply finishes_frame; [exact (finishes_names x x1 Hn H1)|exact H2].
Qed.

Lemma copies_frame x sts z :
  NoDup (map w_name (snd x)) -> NoDup (names_of (sc_jobs (fst x))) -> copies x sts z -> only_tasks x z.
Proof.
  intros Hn Hj H. destruct (copies_spec x sts z Hn Hj H) as (x1 & H1 & H2 & _).
  apply (finishes_frame x z Hn). by etrans.
Qed.

(** The requests of a choice, deferred, taken, or for a job there is not. *)
Lemma sorted_split s s1 q d ls :
  sorted s s1 q d ls ->
  exists unknown, Forall (fun p => find_job (fst p) s = None) unknown /\
    q ≡ₚ unknown ++ d ++ map pair_of ls.
Proof.
  induction 1 as [|n tr q d ls Hn _ IH|n tr j q d ls Hn Hi _ IH|n tr j q d ls Hn Hi _ IH].
  - by exists [].
  - destruct IH as (u & Hu & E). exists ((n, tr) :: u). split; [by constructor|]. cbn. by apply perm_skip.
  - destruct IH as (u & Hu & E). exists u. split; [done|]. rewrite E. cbn. by rewrite Permutation_middle.
  - destruct IH as (u & Hu & E). exists u. split; [done|]. rewrite E.
    assert (Ep : pair_of (j, tr) = (n, tr)) by (apply find_in_Some in Hn as [_ <-]; done).
    cbn [map]. rewrite Ep, !app_assoc. by rewrite Permutation_middle.
Qed.

Lemma sorted_request s s1 q d ls n tr j :
  sorted s s1 q d ls -> find_job n s = Some j -> (n, tr) ∈ q -> (n, tr) ∈ d \/ (j, tr) ∈ ls.
Proof.
  intros H Hj. induction H as [|m tr' q d ls Hn _ IH|m tr' i q d ls Hn Hi _ IH|m tr' i q d ls Hn Hi _ IH].
  - by intros ?%not_elem_of_nil.
  - intros [[= -> ->]|Hin]%elem_of_cons; [congruence|auto].
  - intros [[= -> ->]|Hin]%elem_of_cons; [left; left|]. destruct (IH Hin); [left; by right|by right].
  - intros [[= -> ->]|Hin]%elem_of_cons.
    + right. rewrite Hj in Hn. injection Hn as <-. left.
    + destruct (IH Hin); [by left|right; by right].
Qed.

Lemma sorted_defers s s1 q d ls p : sorted s s1 q d ls -> p ∈ d -> is_running s (fst p) = true.
Proof.
  induction 1 as [|n tr q d ls Hn _ IH|n tr j q d ls Hn Hi _ IH|n tr j q d ls Hn Hi _ IH]; auto.
  - by intros ?%not_elem_of_nil.
  - intros [->|Hp]%elem_of_cons; auto.
Qed.

Lemma sorted_takes s s1 q d ls l :
  sorted s s1 q d ls -> l ∈ ls ->
  pair_of l ∈ q /\ fst l ∈ sc_jobs s /\ is_running s1 (job_name (fst l)) = false.
Proof.
  induction 1 as [|n tr q d ls Hn _ IH|n tr j q d ls Hn Hi _ IH|n tr j q d ls Hn Hi _ IH];
    intros Hl; [by apply not_elem_of_nil in Hl|..];
    try (destruct (IH Hl) as (H1 & H2 & H3); split_and!; [by right|done|done]).
  apply elem_of_cons in Hl as [->|Hl]; [|destruct (IH Hl) as (H1 & H2 & H3); split_and!; [by right|done|done]].
  apply find_in_Some in Hn as [Hj <-]. split_and!; [left|done|done].
Qed.

Lemma fired_takes wall nr s s1 js ls l :
  fired wall nr s s1 js ls -> l ∈ ls ->
  snd l = "schedule" /\ fst l ∈ js /\ is_due wall nr (fst l) = true /\
  is_running s1 (job_name (fst l)) = false.
Proof.
  intros [H1 H2 _] Hl. pose proof (H2 l Hl) as Hi.
  assert (Hin : l ∈ map (fun j => (j, "schedule")) (List.filter (is_due wall nr) js)).
  { eapply elem_of_sublist; [exact Hl|exact H1]. }
  apply list_elem_of_In, in_map_iff in Hin as (j & <- & [Hj Hd]%filter_In).
  split_and!; [done|by apply list_elem_of_In|done|done].
Qed.
