(* ===== verification/SchedulerSteps.v ===== *)
(** * The scheduler's threads (daemon/src/jobs/scheduler.cpp)

    The loop thread, the worker threads and the calling thread interleaved, a
    step per critical section (Sections): the loop reaps, tests for a wake,
    scans, picks, launches one job at a time, copies the statuses and stores
    them; a worker performs its sections one by one, and so does the thread
    that starts the scheduler and then serves the clients.  The sleep monitor
    and the sampler act in between.  Workers also end inside the sections that
    read completion flags (Locked); what else another thread does meanwhile
    reads and writes nothing these sections do, and is taken before or after
    them.  A step that destroys a running thread ends in [Crashed]. *)

From stdpp Require Import base option list strings gmap relations.
From Stdlib Require Import Ascii ZArith Lia.
From S2P Require Import Prelude CppLib Double Cron SharedState Config Database ProcessRunner.
From S2P Require Import Scheduler Sections Locked.

Open Scope string_scope.
Open Scope list_scope.

(** ** Configurations *)

(** Where the loop thread is. *)
Inductive Phase :=
| PReap
| PWake
| PScan (wall scan_now : Z) (c : Scan)
| PPick (wall : Z)
| PLaunch (launches : list (Job * string))
| PStore (statuses : list JobStatus).

Record System := {
  sched : Scheduler;
  phase : Phase;
  workers : list Worker;
  caller : Caller
}.

Inductive config := Running (y : System) | Crashed.

(** ** The sampler *)

(** What the sampler thread does to the snapshot, and through its own
    connection to the database. *)
Inductive sampler_write : SharedState -> SharedState -> Prop :=
| WriteCpu percent ts st : sampler_write st (set_cpu percent ts st)
| WriteSelf rss cpu st : sampler_write st (set_self rss cpu st)
| WriteSystem sys st : sampler_write st (set_system sys st)
| WriteAlert info st : sampler_write st (add_alert info default_cap st).

Section Steps.
Context (localtime : Z -> tm) {sq : Sqlite}.

Inductive sampler_insert : Tables -> Tables -> Prop :=
| InsertMetric f ts metric value db db' :
    insert_metric f ts metric value db = Ret db' -> sampler_insert db db'
| InsertAlert f rec db db' id : insert_alert f rec db = Ret (db', id) -> sampler_insert db db'.

(** The threads outside the scheduler. *)
Inductive outside_step : Scheduler -> Scheduler -> Prop :=
| OutsideWake s : outside_step s (notify_wake s)
| OutsideWrite s st : sampler_write (sc_state s) st -> outside_step s (with_state st s)
| OutsideInsert s db : sampler_insert (sc_db s) db -> outside_step s (with_db db s).

(** The wake test of a turn: whether it scans, and the state after it. *)
Definition scans_on_wake (wall : Z) (s : Scheduler) : bool :=
  (kWakeGapSeconds <? wall - sc_last_wall s)%Z || sc_wake_pending s.

Definition wake_flags (wall : Z) (s : Scheduler) : Scheduler :=
  if (kWakeGapSeconds <? wall - sc_last_wall s)%Z then with_last_wall wall s
  else with_wake_pending false (with_last_wall wall s).

(** The sections of the loop thread that read no flag: from a phase and a
    state to the next, with the worker it starts; [None] when it destroys a
    running thread. *)
Inductive loop_section : Phase -> Scheduler -> option (Phase * Scheduler * list Worker) -> Prop :=
| StepWake s wall scan_now :
    loop_section PWake s
      (Some (if scans_on_wake wall s then PScan wall scan_now Collect else PPick wall,
             wake_flags wall s, []))
| StepScan wall scan_now ts f c s c' s' :
    scan_section localtime scan_now ts f c s = Some (c', s') ->
    loop_section (PScan wall scan_now c) s (Some (PScan wall scan_now c', s', []))
| StepScanned wall scan_now s :
    loop_section (PScan wall scan_now (Look [])) s (Some (PPick wall, s, []))
| StepLaunch s s' l ls run budget evs ts :
    launch l s = Ret s' ->
    worker (fst l) run budget = Ret evs ->
    loop_section (PLaunch (l :: ls)) s
      (Some (PLaunch ls, s', [{| w_name := job_name (fst l); w_trigger := snd l;
                                 w_sections := flat_map (sections ts) evs |}]))
| StepCrash s l ls :
    launch l s = Terminate -> loop_section (PLaunch (l :: ls)) s None
| StepStore statuses s :
    loop_section (PStore statuses) s
      (Some (PReap, with_state (set_jobs statuses (sc_state s)) s, [])).

(** A worker performing its next section; the last one ends it. *)
Inductive worker_step : Scheduler * list Worker -> Scheduler * list Worker -> Prop :=
| StepWorker s ws1 ws2 w sec secs f :
    w_sections w = sec :: secs ->
    worker_step (s, ws1 ++ w :: ws2)
      (apply_section f (w_name w) (w_trigger w) sec s,
       ws1 ++ match secs with
              | [] => ws2
              | _ => {| w_name := w_name w; w_trigger := w_trigger w; w_sections := secs |} :: ws2
              end).

(** What a worker leaves alone. *)
Lemma worker_step_keeps s ws s' ws' :
  worker_step (s, ws) (s', ws') ->
  sc_jobs s' = sc_jobs s /\ sc_next_run s' = sc_next_run s /\ sc_queue s' = sc_queue s /\
  sc_active s' = sc_active s /\ job_defs_tbl (sc_db s') = job_defs_tbl (sc_db s) /\
  jobs_ (sc_state s') = jobs_ (sc_state s).
Proof.
  intros H. inversion H as [s0 ws1 ws2 w sec secs f Hsec]; subst.
  destruct (apply_section_keeps f (w_name w) (w_trigger w) sec s) as (? & ? & ? & ? & ? & ? & _). by split_and!.
Qed.

Definition moved (ph : Phase) (s : Scheduler) (ws : list Worker) (y : System) : System :=
  {| sched := s; phase := ph; workers := ws ++ workers y; caller := caller y |}.

(** The same after a section that reads flags. *)
Definition read_by (ph : Phase) (z : Scheduler * list Worker) (y : System) : System :=
  {| sched := fst z; phase := ph; workers := snd z; caller := caller y |}.

Inductive loop_step (y : System) : config -> Prop :=
| LoopMoves ph s ws :
    loop_section (phase y) (sched y) (Some (ph, s, ws)) -> loop_step y (Running (moved ph s ws y))
| LoopCrashes : loop_section (phase y) (sched y) None -> loop_step y Crashed
| LoopReaps z :
    phase y = PReap -> reaps (sched y, workers y) z -> loop_step y (Running (read_by PWake z y))
| LoopPicks wall ls z :
    phase y = PPick wall -> picks localtime wall (sched y, workers y) ls z ->
    loop_step y (Running (read_by (PLaunch ls) z y))
| LoopCopies sts z :
    phase y = PLaunch [] -> copies (sched y, workers y) sts z ->
    loop_step y (Running (read_by (PStore sts) z y)).

Inductive step (y : System) : config -> Prop :=
| ByLoop c : loop_step y c -> step y c
| ByWorker s ws :
    worker_step (sched y, workers y) (s, ws) ->
    step y (Running {| sched := s; phase := phase y; workers := ws; caller := caller y |})
| ByCaller c s :
    caller_step localtime (caller y, sched y) (c, s) ->
    step y (Running {| sched := s; phase := phase y; workers := workers y; caller := c |})
| ByCopy sts z :
    caller y = Publishing -> copies (sched y, workers y) sts z ->
    step y (Running {| sched := fst z; phase := phase y; workers := snd z; caller := Copied sts |})
| ByOutside s :
    outside_step (sched y) s ->
    step y (Running {| sched := s; phase := phase y; workers := workers y; caller := caller y |}).

Inductive steps : config -> config -> Prop :=
| steps_refl c : steps c c
| steps_next y c c' : step y c -> steps c c' -> steps (Running y) c'.

Lemma steps_trans c1 c2 c3 : steps c1 c2 -> steps c2 c3 -> steps c1 c3.
Proof. induction 1 as [|y c c' Hs _ IH]; intros H3; [exact H3|]. eapply steps_next; [exact Hs|auto]. Qed.

(** A scheduler whose loop begins: no task, no worker, and the thread that
    starts it is about to scan, or has. *)
Definition fresh (y : System) : Prop :=
  sc_running (sched y) = ∅ /\ workers y = [] /\ phase y = PReap /\
  (caller y = Idle \/ exists now, caller y = Starting now Collect) /\
  NoDup (names_of (sc_jobs (sched y))) /\ Forall (fun q => snd q <> "schedule") (sc_queue (sched y)).

(** ** Invariant *)

(** The sections left end with the completion flag, set once. *)
Definition closing (secs : list section) : Prop :=
  exists pre, secs = pre ++ [MarkDone] /\ MarkDone ∉ pre.

Record inv (y : System) : Prop := {
  inv_workers : NoDup (map w_name (workers y));
  inv_sections w : w ∈ workers y -> closing (w_sections w);
  inv_live w : w ∈ workers y -> sc_running (sched y) !! w_name w = Some new_task;
  inv_joinable n t : sc_running (sched y) !! n = Some t -> task_joinable t = true;
  inv_task n t : sc_running (sched y) !! n = Some t -> task_done t = false ->
    exists w, w ∈ workers y /\ w_name w = n;
  inv_names : NoDup (names_of (sc_jobs (sched y)));
  inv_triggers : Forall (fun q => snd q <> "schedule") (sc_queue (sched y));
  inv_caller : caller_ok (caller y) (sched y)
}.

Lemma worker_closing job run budget evs ts :
  worker job run budget = Ret evs -> closing (flat_map (sections ts) evs).
Proof.
  unfold worker. destruct (int_add _ _); try discriminate. simpl.
  destruct (attempt_loop run _ 1 no_result budget) as [[e res] b] eqn:E.
  apply attempt_loop_unfinished in E. destruct (check_active b) as [act b'].
  intros [= <-]. rewrite app_assoc, flat_map_app. eexists. split; [reflexivity|].
  intros [Hin|Hin]%sections_finished%elem_of_app; [done|].
  destruct (act && negb (is_success res)); set_solver.
Qed.

(** Steps that keep the tasks keep the invariant. *)
Lemma inv_same_running s s' ph ph' ws c c' :
  inv {| sched := s; phase := ph; workers := ws; caller := c |} ->
  sc_running s' = sc_running s -> NoDup (names_of (sc_jobs s')) ->
  Forall (fun q => snd q <> "schedule") (sc_queue s') -> caller_ok c' s' ->
  inv {| sched := s'; phase := ph'; workers := ws; caller := c' |}.
Proof. intros [] E Hn Hq Hc. split; cbn in *; rewrite ?E; auto. Qed.

Lemma caller_step_keeps c s c' s' :
  caller_step localtime (c, s) (c', s') -> caller_ok c s ->
  NoDup (names_of (sc_jobs s)) -> Forall (fun q => snd q <> "schedule") (sc_queue s) ->
  sc_running s' = sc_running s /\ NoDup (names_of (sc_jobs s')) /\
  Forall (fun q => snd q <> "schedule") (sc_queue s').
Proof.
  intros Hs Hok Hn Hq.
  destruct (caller_step_cases localtime c s c' s' Hs Hok) as (Er & _ &
    [(Ej & _ & extra & Eq & Ha)|[(now & j & _ & Hf & _ & Ej & Eq & _)|(n & j & _ & _ & _ & Ej & Eq & _)]]).
  - rewrite Ej, Eq. split_and!; [done|done|]. apply Forall_app. split; [done|].
    eapply Forall_impl; [exact Ha|]. by intros q [[_ ->]|[_ ->]].
  - rewrite Ej, Eq. split_and!; [done| |done]. unfold names_of. rewrite map_app.
    apply NoDup_app. split_and!; [done| |apply NoDup_singleton].
    intros x Hx Hx'. apply list_elem_of_singleton in Hx' as ->. by apply find_in_None in Hf.
  - rewrite Ej, Eq. split_and!; [done|by apply names_filter|done].
Qed.

(** What the other threads leave alone. *)
Record outside_frame (s s' : Scheduler) : Prop := {
  out_jobs : sc_jobs s' = sc_jobs s;
  out_next : sc_next_run s' = sc_next_run s;
  out_running : sc_running s' = sc_running s;
  out_last : sc_last_runs s' = sc_last_runs s;
  out_queue : sc_queue s' = sc_queue s;
  out_active : sc_active s' = sc_active s;
  out_defs : job_defs_tbl (sc_db s') = job_defs_tbl (sc_db s);
  out_status : jobs_ (sc_state s') = jobs_ (sc_state s)
}.

Lemma outside_step_frame s s' : outside_step s s' -> outside_frame s s'.
Proof.
  destruct 1 as [s|s st Hw|s db Hi]; [done|by inversion Hw|].
  inversion Hi as [f ts m v db0 db1 H|f rec db0 db1 id H]; subst;
    unfold insert_metric, insert_alert, run_update in H; destruct (reject_nan _ _); simplify_eq/=; done.
Qed.

Lemma worker_elem ws1 ws2 (w : Worker) x : x ∈ ws1 ++ ws2 -> x ∈ ws1 ++ w :: ws2.
Proof. rewrite !elem_of_app, elem_of_cons. tauto. Qed.

(** A worker that sets its flag leaves. *)
Lemma inv_worker_ends s ph c ws1 ws2 w f :
  inv {| sched := s; phase := ph; workers := ws1 ++ w :: ws2; caller := c |} ->
  inv {| sched := apply_section f (w_name w) (w_trigger w) MarkDone s; phase := ph;
         workers := ws1 ++ ws2; caller := c |}.
Proof.
  intros [Hw He Hl Hj Ht Hn Hq Hc]; cbn in *.
  assert (Hin : w ∈ ws1 ++ w :: ws2) by (apply elem_of_app; right; left).
  rewrite map_app in Hw. cbn in Hw. apply NoDup_app in Hw as (H1 & H12 & H2).
  apply NoDup_cons in H2 as [H2w H2].
  assert (Hne : forall x, x ∈ ws1 ++ ws2 -> w_name x <> w_name w).
  { intros x [Hx|Hx]%elem_of_app E.
    - apply (H12 (w_name x)); [|rewrite E; left].
      apply list_elem_of_In, in_map, list_elem_of_In, Hx.
    - apply H2w. rewrite <- E. apply list_elem_of_In, in_map, list_elem_of_In, Hx. }
  specialize (Hl w Hin) as Hlw. unfold mark_done. rewrite Hlw. split; cbn; auto.
  - rewrite map_app. apply NoDup_app. split_and!; [done| |done].
    intros x Hx Hx2. apply (H12 x Hx). by right.
  - intros x Hx. apply He. by apply worker_elem.
  - intros x Hx. rewrite lookup_insert_ne by (symmetry; auto).
    apply Hl. by apply worker_elem.
  - intros n t [[<- <-]|[_ Hx]]%lookup_insert_Some; [done|eauto].
  - intros n t [[<- <-]|[Hnw Hx]]%lookup_insert_Some Hd; [done|].
    destruct (Ht n t Hx Hd) as (w' & [Hw'|[->|Hw']%elem_of_cons]%elem_of_app & <-); [| done|];
      (exists w'; split; [apply elem_of_app; tauto|done]).
Qed.

Lemma inv_worker_step s ph c ws1 ws2 w sec secs f :
  inv {| sched := s; phase := ph; workers := ws1 ++ w :: ws2; caller := c |} ->
  w_sections w = sec :: secs ->
  inv {| sched := apply_section f (w_name w) (w_trigger w) sec s; phase := ph;
         workers := ws1 ++ match secs with
                           | [] => ws2
                           | _ => {| w_name := w_name w; w_trigger := w_trigger w;
                                     w_sections := secs |} :: ws2
                           end; caller := c |}.
Proof.
  intros Hi Ew. pose proof Hi as [Hw He Hl Hj Ht Hn Hq Hc]; cbn in *.
  assert (Hin : w ∈ ws1 ++ w :: ws2) by (apply elem_of_app; right; left).
  destruct (He w Hin) as (pre & Epre & Hpre). rewrite Ew in Epre.
  destruct pre as [|sec' pre]; simpl in Epre; injection Epre as -> ->; [by apply inv_worker_ends|].
  apply not_elem_of_cons in Hpre as [Hsec Hpre].
  destruct (apply_section_keeps f (w_name w) (w_trigger w) sec' s) as (Ej & _ & Eq & _ & _ & _ & Er).
  specialize (Er (not_eq_sym Hsec)).
  destruct (pre ++ [MarkDone]) as [|e es] eqn:Ees; [by destruct pre|].
  rewrite <- Ees. set (w' := {| w_name := w_name w; w_trigger := w_trigger w;
                                w_sections := pre ++ [MarkDone] |}).
  assert (Hin' : forall x, x ∈ ws1 ++ w' :: ws2 -> x = w' \/ x ∈ ws1 ++ w :: ws2).
  { intros x. rewrite !elem_of_app, !elem_of_cons. tauto. }
  split; cbn; rewrite ?Er, ?Ej, ?Eq; auto.
  - rewrite map_app in Hw |- *. exact Hw.
  - intros x [->|Hx]%Hin'; [by exists pre|auto].
  - intros x [->|Hx]%Hin'; [exact (Hl w Hin)|auto].
  - intros n t Hx Hd. destruct (Ht n t Hx Hd) as (x & Hxin & <-).
    apply elem_of_app in Hxin as [Hx1|[->|Hx2]%elem_of_cons].
    + exists x. split; [apply elem_of_app; by left|done].
    + exists w'. split; [apply elem_of_app; right; left|done].
    + exists x. split; [apply elem_of_app; right; by right|done].
  - by eapply caller_ok_ext.
Qed.

(** Launching over no task, or a joined one, adds a worker. *)
Lemma inv_launch s s' ph ph' ws c l evs :
  inv {| sched := s; phase := ph; workers := ws; caller := c |} -> launch l s = Ret s' ->
  closing evs ->
  inv {| sched := s'; phase := ph';
         workers := {| w_name := job_name (fst l); w_trigger := snd l; w_sections := evs |} :: ws;
         caller := c |}.
Proof.
  intros [Hw He Hl Hj Ht Hn Hq Hc] Hla Hev; cbn in *.
  rewrite launch_cases in Hla. unfold blocked in Hla.
  destruct (sc_running s !! job_name (fst l)) as [t|] eqn:Et.
  { rewrite (Hj _ _ Et) in Hla. done. }
  injection Hla as <-.
  assert (Hne : forall w, w ∈ ws -> w_name w <> job_name (fst l)).
  { intros w Hin E. apply Hl in Hin. congruence. }
  split; cbn; auto.
  - constructor; [|done]. intros Hin. rewrite list_elem_of_In, in_map_iff in Hin.
    destruct Hin as (w & E & Hin%list_elem_of_In). by apply (Hne w).
  - intros w [->|Hin]%elem_of_cons; [done|auto].
  - intros w [->|Hin]%elem_of_cons; cbn; [by apply lookup_insert_eq|].
    rewrite lookup_insert_ne by (symmetry; auto). auto.
  - intros n t [[<- <-]|[_ Hx]]%lookup_insert_Some; [done|eauto].
  - intros n t [[<- <-]|[_ Hx]]%lookup_insert_Some Hd; [by eexists; split; [left|]|].
    destruct (Ht n t Hx Hd) as (w & Hin & <-). exists w. split; [by right|done].
Qed.

Lemma inv_reap s ph ph' ws c :
  inv {| sched := s; phase := ph; workers := ws; caller := c |} ->
  inv {| sched := reap_finished s; phase := ph'; workers := ws; caller := c |}.
Proof.
  intros [Hw He Hl Hj Ht Hn Hq Hc]; cbn in *. split; cbn; auto.
  - intros w Hin. apply map_lookup_filter_Some. split; [by apply Hl|done].
  - intros n t [Hx _]%map_lookup_filter_Some. eauto.
  - intros n t [Hx _]%map_lookup_filter_Some. eauto.
Qed.

(** What a section of the loop leaves alone, launches apart. *)
Lemma loop_section_cases ph s ph' s' ws :
  loop_section ph s (Some (ph', s', ws)) ->
  sc_jobs s' = sc_jobs s /\ sc_active s' = sc_active s /\ sc_next_run s' = sc_next_run s /\
  ((ws = [] /\ sc_running s' = sc_running s /\ (forall ls, ph' <> PLaunch ls) /\
    exists extra, sc_queue s' = sc_queue s ++ extra /\
      Forall (fun q => snd q = "missed" /\
        match ph with PScan _ _ c => fst q ∈ scan_names c | _ => False end) extra) \/
   (exists l ls run budget evs ts, ph = PLaunch (l :: ls) /\ ph' = PLaunch ls /\
      launch l s = Ret s' /\ worker (fst l) run budget = Ret evs /\ sc_queue s' = sc_queue s /\
      ws = [{| w_name := job_name (fst l); w_trigger := snd l;
               w_sections := flat_map (sections ts) evs |}])).
Proof.
  intros H.
  assert (Hno : forall q : list (string * string), exists extra, q = q ++ extra /\
    Forall (fun q : string * string => snd q = "missed" /\
      match ph with PScan _ _ c => fst q ∈ scan_names c | _ => False end) extra).
  { intros q. exists []. by rewrite app_nil_r. }
  inversion H as [s0 wall sn|wall sn ts f c s0 c' s1 Hsc|wall sn
    |s0 s1 l ls run budget evs ts Hla Hwo| |]; subst.
  - unfold wake_flags. split_and!; [by destruct (_ <? _)%Z..|left].
    split_and!; [done|by destruct (_ <? _)%Z|by destruct (scans_on_wake _ _)|].
    destruct (_ <? _)%Z; apply Hno.
  - destruct (scan_section_grows _ _ _ _ _ _ _ _ Hsc) as (Hf & _ & (extra & Hq & Ha) & _).
    split_and!; [apply (frame_jobs _ _ Hf)|apply (frame_active _ _ Hf)|apply (frame_next _ _ Hf)|left].
    split_and!; [done|apply (frame_running _ _ Hf)|done|]. by exists extra.
  - split_and!; [done..|left]. split_and!; [done..|apply Hno].
  - pose proof Hla as Hla'. rewrite launch_cases in Hla. destruct (blocked s _); [done|]. injection Hla as <-.
    split_and!; [done..|right]. by exists l, ls, run, budget, evs, ts.
  - split_and!; [done..|left]. split_and!; [done..|apply Hno].
Qed.

(** What a section that reads flags does, whichever it is: some workers end,
    it acts on the state, and others end. *)
Lemma inv_finish s ws ph c z :
  inv {| sched := s; phase := ph; workers := ws; caller := c |} -> finish (s, ws) z ->
  inv {| sched := fst z; phase := ph; workers := snd z; caller := c |}.
Proof.
  intros Hi H. inversion H as [s0 ws1 ws2 w Hw]; subst. exact (inv_worker_ends s ph c ws1 ws2 w NoFault Hi).
Qed.

Lemma inv_finishes x ph c z :
  inv {| sched := fst x; phase := ph; workers := snd x; caller := c |} -> rtc finish x z ->
  inv {| sched := fst z; phase := ph; workers := snd z; caller := c |}.
Proof.
  intros Hi H. induction H as [x|x y z Hxy _ IH]; [done|]. apply IH.
  destruct x as [s ws]. by apply (inv_finish s ws).
Qed.

Lemma inv_finished N x ph c :
  inv {| sched := fst x; phase := ph; workers := snd x; caller := c |} -> ready N (snd x) ->
  inv {| sched := fst (finished N x); phase := ph; workers := snd (finished N x); caller := c |}.
Proof. intros Hi Hr. eapply inv_finishes; [exact Hi|]. apply finishes; [apply (inv_workers _ Hi)|exact Hr]. Qed.

Lemma inv_phase s ph ph' ws c c' :
  inv {| sched := s; phase := ph; workers := ws; caller := c |} -> caller_ok c' s ->
  inv {| sched := s; phase := ph'; workers := ws; caller := c' |}.
Proof. intros [] H. by split. Qed.

Lemma inv_reaps x ph ph' c z :
  inv {| sched := fst x; phase := ph; workers := snd x; caller := c |} -> reaps x z ->
  inv {| sched := fst z; phase := ph'; workers := snd z; caller := c |}.
Proof.
  intros Hi H. destruct (reaps_spec _ _ (inv_workers _ Hi) H) as (x1 & H1 & H2).
  eapply (inv_finishes (reap_finished (fst x1), snd x1)); [|exact H2].
  cbn [fst snd]. eapply inv_reap, (inv_finishes x ph c x1); [exact Hi|exact H1].
Qed.

Lemma inv_copies x ph ph' c c' sts z :
  inv {| sched := fst x; phase := ph; workers := snd x; caller := c |} -> copies x sts z ->
  (forall s, caller_ok c' s) \/ c' = c ->
  inv {| sched := fst z; phase := ph'; workers := snd z; caller := c' |}.
Proof.
  intros Hi H Hc. destruct (copies_spec _ _ _ (inv_workers _ Hi) (inv_names _ Hi) H) as (x1 & H1 & H2 & _).
  assert (Hz : inv {| sched := fst z; phase := ph; workers := snd z; caller := c |}).
  { eapply inv_finishes; [|exact H2]. by eapply inv_finishes. }
  apply (inv_phase _ ph _ _ c); [exact Hz|]. destruct Hc as [Hc| ->]; [apply Hc|exact (inv_caller _ Hz)].
Qed.

Lemma inv_picks x ph ph' c wall ls z :
  inv {| sched := fst x; phase := ph; workers := snd x; caller := c |} -> picks localtime wall x ls z ->
  inv {| sched := fst z; phase := ph'; workers := snd z; caller := c |}.
Proof.
  intros Hi H.
  destruct (picks_spec localtime wall _ _ _ (inv_workers _ Hi) (inv_names _ Hi) H)
    as (N & d & reqs & fs & nr & Hp).
  pose proof (inv_finished N x ph c Hi (pk_ready _ _ _ _ _ _ _ _ _ _ Hp)) as Hf.
  rewrite (pk_state _ _ _ _ _ _ _ _ _ _ Hp). cbn [fst snd].
  eapply inv_same_running; [exact Hf|done|exact (inv_names _ Hf)| |].
  - cbn [sc_queue with_next_run with_queue]. pose proof (inv_triggers _ Hi) as Hq. cbn in Hq.
    rewrite Forall_forall in Hq |- *. intros q Hin. apply Hq.
    eapply sorted_sub; [|exact Hin]. exact (pk_requests _ _ _ _ _ _ _ _ _ _ Hp).
  - eapply caller_ok_ext; [|exact (inv_caller _ Hf)]. done.
Qed.

Lemma loop_step_inv y y' : inv y -> loop_step y (Running y') -> inv y'.
Proof.
  intros Hi Hs. destruct y as [s0 ph0 ws0 c].
  inversion Hs as [ph s ws Hl| |z Hp H|wall ls z Hp H|sts z Hp H]; subst; clear Hs; unfold moved, read_by;
    cbn [sched phase workers caller] in *;
    [|by apply (inv_reaps (s0, ws0) ph0)|by apply (inv_picks (s0, ws0) ph0 _ c wall ls)
     |by apply (inv_copies (s0, ws0) ph0 _ c c sts); [| |right]].
  destruct (loop_section_cases _ _ _ _ _ Hl) as (Ej & _ & _ & [(-> & Er & _ & extra & Eq & Ha)|
    (l & ls & run & b & evs & ts & -> & -> & Hla & Hwo & Eq & ->)]).
  - eapply inv_same_running; [exact Hi|exact Er|rewrite Ej; exact (inv_names _ Hi)| |].
    + rewrite Eq. apply Forall_app. split; [exact (inv_triggers _ Hi)|].
      eapply Forall_impl; [exact Ha|]. by intros q [-> _].
    + eapply caller_ok_ext; [exact Ej|exact (inv_caller _ Hi)].
  - eapply inv_launch; [exact Hi|exact Hla|by eapply worker_closing].
Qed.

Lemma step_inv y y' : inv y -> step y (Running y') -> inv y'.
Proof.
  intros Hi Hs. inversion Hs as [c Hl|s ws Hw|c s Hr|sts z Hk Hc|s Ho]; subst; clear Hs.
  - by eapply loop_step_inv.
  - destruct y as [s0 ph ws0 c]. cbn in *. inversion Hw; subst. by eapply inv_worker_step.
  - destruct y as [s0 ph ws c0]. cbn in *.
    pose proof (inv_names _ Hi) as Hn. pose proof (inv_triggers _ Hi) as Hq.
    pose proof (inv_caller _ Hi) as Hc. cbn in Hn, Hq, Hc.
    destruct (caller_step_keeps _ _ _ _ Hr Hc Hn Hq) as (Er & Hn' & Hq').
    eapply inv_same_running; [exact Hi|done..|by eapply caller_step_ok].
  - destruct y as [s0 ph ws c]. by apply (inv_copies (s0, ws) ph _ c (Copied sts) sts); [| |left].
  - destruct y as [s0 ph ws c0]. cbn in *. destruct (outside_step_frame _ _ Ho) as [Ej _ Er _ Eq].
    pose proof Hi as []; cbn in *.
    eapply inv_same_running; [exact Hi|exact Er|by rewrite Ej|by rewrite Eq|by eapply caller_ok_ext].
Qed.

Lemma steps_inv y y' : inv y -> steps (Running y) (Running y') -> inv y'.
Proof.
  intros Hi Hs. remember (Running y) as c eqn:Ec. remember (Running y') as c' eqn:Ec'.
  revert y y' Hi Ec Ec'. induction Hs as [c|z c c' Hz Hs IH]; intros y y' Hi Ec Ec'; simplify_eq.
  - done.
  - destruct c as [y1|]; [|inversion Hs].
    eapply IH; [|reflexivity|reflexivity]. by eapply step_inv.
Qed.

Lemma fresh_inv y : fresh y -> inv y.
Proof.
  intros (Er & Ew & _ & Hc & Hn & Hq). split; rewrite ?Ew, ?Er; auto.
  - constructor.
  - intros w Hw. by apply not_elem_of_nil in Hw.
  - intros w Hw. by apply not_elem_of_nil in Hw.
  - intros n t Ht. by rewrite lookup_empty in Ht.
  - intros n t Ht. by rewrite lookup_empty in Ht.
  - by destruct Hc as [->|[now ->]].
Qed.

(** *** Sections with nothing in between *)

(** One step of the loop, in the form executions are built from. *)
Lemma loop_takes ph s ws c ph' s' ws' y' :
  loop_section ph s (Some (ph', s', ws')) ->
  {| sched := s'; phase := ph'; workers := ws' ++ ws; caller := c |} = y' ->
  step {| sched := s; phase := ph; workers := ws; caller := c |} (Running y').
Proof.
  intros Hl <-.
  exact (ByLoop _ _ (LoopMoves {| sched := s; phase := ph; workers := ws; caller := c |} _ _ _ Hl)).
Qed.

Lemma loop_goes ph s ws c ph' s' ws' k :
  loop_section ph s (Some (ph', s', ws')) ->
  steps (Running {| sched := s'; phase := ph'; workers := ws' ++ ws; caller := c |}) k ->
  steps (Running {| sched := s; phase := ph; workers := ws; caller := c |}) k.
Proof. intros Hl Hs. eapply steps_next; [by eapply loop_takes|exact Hs]. Qed.

Lemma section_step s ws c ph ph' s' ws' :
  loop_section ph s (Some (ph', s', ws')) ->
  loop_step {| sched := s; phase := ph; workers := ws; caller := c |}
    (Running {| sched := s'; phase := ph'; workers := ws' ++ ws; caller := c |}).
Proof. exact (LoopMoves {| sched := s; phase := ph; workers := ws; caller := c |} ph' s' ws'). Qed.

(** The sections that read flags, when no worker ends meanwhile. *)
Lemma reap_step s ws c :
  loop_step {| sched := s; phase := PReap; workers := ws; caller := c |}
    (Running {| sched := reap_finished s; phase := PWake; workers := ws; caller := c |}).
Proof. exact (LoopReaps {| sched := s; phase := PReap; workers := ws; caller := c |} _ eq_refl (reaps_now s ws)). Qed.

Lemma pick_step s ws c wall :
  loop_step {| sched := s; phase := PPick wall; workers := ws; caller := c |}
    (Running {| sched := fst (pick localtime wall s); phase := PLaunch (snd (pick localtime wall s));
                workers := ws; caller := c |}).
Proof.
  exact (LoopPicks {| sched := s; phase := PPick wall; workers := ws; caller := c |} wall _ _ eq_refl
           (picks_now localtime wall s ws)).
Qed.

Lemma copy_step s ws c :
  loop_step {| sched := s; phase := PLaunch []; workers := ws; caller := c |}
    (Running {| sched := s; phase := PStore (map (job_status s) (sc_jobs s)); workers := ws; caller := c |}).
Proof.
  exact (LoopCopies {| sched := s; phase := PLaunch []; workers := ws; caller := c |} _ _ eq_refl (copies_now s ws)).
Qed.

(** Workers that end are steps of workers. *)
Lemma finish_steps x z ph k :
  rtc finish x z ->
  steps (Running {| sched := fst x; phase := ph; workers := snd x; caller := k |})
        (Running {| sched := fst z; phase := ph; workers := snd z; caller := k |}).
Proof.
  induction 1 as [x|x y z Hxy _ IH]; [apply steps_refl|]. eapply steps_next; [|exact IH].
  inversion Hxy as [s ws1 ws2 w Hw]; subst. cbn [fst snd].
  exact (ByWorker {| sched := s; phase := ph; workers := ws1 ++ w :: ws2; caller := k |} _ _
           (StepWorker s ws1 ws2 w MarkDone [] NoFault Hw)).
Qed.

Lemma loop_then y y1 k : loop_step y (Running y1) -> steps (Running y1) k -> steps (Running y) k.
Proof. intros H. eapply steps_next. by apply ByLoop. Qed.

Lemma scan_steps s ws k wall now c c' s' z :
  scan_runs localtime now c s c' s' ->
  steps (Running {| sched := s'; phase := PScan wall now c'; workers := ws; caller := k |}) z ->
  steps (Running {| sched := s; phase := PScan wall now c; workers := ws; caller := k |}) z.
Proof.
  induction 1 as [|ts f c s c1 s1 c2 s2 Hs _ IH]; intros Hz; [exact Hz|].
  eapply loop_goes; [by eapply StepScan|]. by apply IH.
Qed.

(** The sections of a wake test and its scan are [wake_scan]. *)
Lemma wake_steps s ws k wall now env z :
  steps (Running {| sched := wake_scan localtime wall now env s; phase := PPick wall;
                    workers := ws; caller := k |}) z ->
  steps (Running {| sched := s; phase := PWake; workers := ws; caller := k |}) z.
Proof.
  intros Hs. eapply loop_goes; [apply (StepWake _ wall now)|].
  assert (E : wake_scan localtime wall now env s =
    if scans_on_wake wall s then scan_missed localtime now env (wake_flags wall s)
    else wake_flags wall s).
  { unfold wake_scan, scans_on_wake, wake_flags.
    destruct (kWakeGapSeconds <? _)%Z; cbn; [reflexivity|]. by destruct (sc_wake_pending s). }
  rewrite E in Hs. destruct (scans_on_wake wall s); [|exact Hs].
  eapply scan_steps; [apply (scan_missed_sections localtime now env)|].
  eapply loop_goes; [apply StepScanned|exact Hs].
Qed.

(** A call whose sections run in a row. *)
Lemma call_steps y s c s' :
  sched y = s -> caller_runs localtime (caller y, s) (c, s') ->
  steps (Running y) (Running {| sched := s'; phase := phase y; workers := workers y; caller := c |}).
Proof.
  intros <- H. remember (caller y, sched y) as x eqn:Ex. remember (c, s') as z eqn:Ez.
  revert y Ex. induction H as [x|x [c1 s1] z Hs _ IH|s1 z _ IH]; intros y Ex.
  - injection (eq_trans (eq_sym Ex) Ez) as <- <-. destruct y. apply steps_refl.
  - subst x. eapply steps_next; [apply ByCaller, Hs|].
    exact (IH Ez {| sched := s1; phase := phase y; workers := workers y; caller := c1 |} eq_refl).
  - injection Ex as Ec Es. subst s1. eapply steps_next; [exact (ByCopy y _ _ (eq_sym Ec) (copies_now (sched y) (workers y)))|].
    exact (IH Ez {| sched := sched y; phase := phase y; workers := workers y;
                    caller := Copied (map (job_status (sched y)) (sc_jobs (sched y))) |} eq_refl).
Qed.
End Steps.

(** ** Properties *)

(** C12: at most one concurrent run per job, under every interleaving of the
    loop, the workers and the clients: in every state reached without
    terminating, the live workers have distinct names, and a job is reported
    running exactly while one of them has its name. *)
Theorem at_most_one_run localtime {sq : Sqlite} y y' :
  fresh y -> steps localtime (Running y) (Running y') ->
  NoDup (map w_name (workers y')) /\
  forall n, is_running (sched y') n = true <-> n ∈ map w_name (workers y').
Proof.
  intros Hf Hs. destruct (steps_inv localtime _ _ (fresh_inv _ Hf) Hs) as [Hw _ Hl _ Ht _ _ _].
  split; [done|]. intros n. unfold is_running. split.
  - destruct (sc_running (sched y') !! n) as [t|] eqn:Et; [|done].
    intros Hd%negb_true_iff. destruct (Ht n t Et Hd) as (w & Hin & <-).
    apply list_elem_of_In, in_map, list_elem_of_In, Hin.
  - intros Hin. rewrite list_elem_of_In, in_map_iff in Hin.
    destruct Hin as (w & <- & Hin%list_elem_of_In). by rewrite (Hl w Hin).
Qed.

Definition one_success (i : nat) : RunResult := failing 0 i.

(** The first turn of the loop on an idle scheduler, one job due. *)
Definition calm : Scheduler := with_last_wall 1700038800 example_scheduler.

Definition calm_picked : Scheduler * list (Job * string) :=
  pick utc 1700038860 (wake_scan utc 1700038860 1700038860 no_env (reap_finished calm)).

Definition calm_launched : System :=
  {| sched := with_running (<["hourly" := new_task]> (sc_running (fst calm_picked)))
                           (fst calm_picked);
     phase := PLaunch [];
     workers := [{| w_name := "hourly"; w_trigger := "schedule";
                    w_sections := [RunInsert (one_success 1); RunRemember (one_success 1);
                                   MarkDone] |}];
     caller := Idle |}.

Definition calm_start : System :=
  {| sched := calm; phase := PReap; workers := []; caller := Idle |}.

Lemma calm_steps : steps utc (Running calm_start) (Running calm_launched).
Proof.
  eapply loop_then; [apply reap_step|].
  apply (wake_steps utc _ _ _ 1700038860 1700038860 no_env).
  eapply loop_then; [apply pick_step|].
  assert (E : snd calm_picked = [(hourly, "schedule")]) by (vm_compute; reflexivity).
  unfold calm_picked in E. rewrite E.
  eapply (loop_goes utc _ _ _ _ _ (sched calm_launched) (workers calm_launched));
    [|apply steps_refl].
  apply (StepLaunch utc _ _ (hourly, "schedule") [] one_success None
    [Attempted (one_success 1); Finished] 0); [|reflexivity].
  unfold calm_launched, calm_picked. vm_compute. reflexivity.
Qed.

Lemma calm_fresh : fresh calm_start.
Proof.
  refine (conj eq_refl (conj eq_refl (conj eq_refl (conj (or_introl eq_refl) (conj names_example _))))).
  constructor.
Qed.

Lemma at_most_one_run_witness :
  is_running (sched calm_launched) "hourly" = true /\ NoDup (map w_name (workers calm_launched)).
Proof.
  destruct (at_most_one_run utc calm_start calm_launched calm_fresh calm_steps) as [Hn Hr].
  split; [apply Hr; left|exact Hn].
Defined.

(** Deferring requests for running jobs is racy: if a worker sets its
    completion flag between the reaping and the picking of the same turn, a
    single request for its job made during the run is launched over the
    unreaped task, and the daemon terminates. *)
Theorem request_race_terminates localtime {sq : Sqlite} s j w trigger c :
  find_job (w_name w) s = Some j ->
  sc_running s !! w_name w = Some new_task -> w_sections w = [MarkDone] ->
  sc_queue s = [(w_name w, trigger)] ->
  steps localtime (Running {| sched := s; phase := PReap; workers := [w]; caller := c |}) Crashed.
Proof.
  intros Hj Hr Hw Hq.
  eapply loop_then; [apply reap_step|].
  eapply steps_next.
  { apply ByWorker, (StepWorker _ [] [] w MarkDone [] NoFault Hw). }
  cbn [app sched phase caller]. set (s1 := apply_section _ _ _ _ (reap_finished s)).
  assert (H1 : sc_jobs s1 = sc_jobs s /\ sc_queue s1 = sc_queue s /\
    sc_running s1 !! w_name w = Some {| task_done := true; task_joinable := true |}).
  { unfold s1, apply_section, mark_done, reap_finished. cbn.
    rewrite (map_lookup_filter_Some_2 _ _ _ new_task) by done. cbn.
    split_and!; try done. by rewrite lookup_insert_eq. }
  destruct H1 as (Ej & Eq & Er).
  apply (wake_steps localtime _ _ _ 0 0 no_env).
  destruct (wake_scan_grows localtime 0 0 no_env s1) as (Hf & extra & Hqe & _).
  set (s2 := wake_scan _ _ _ _ s1) in *.
  eapply loop_then; [apply pick_step|].
  assert (Hls : exists ls, snd (pick localtime 0 s2) = (j, trigger) :: ls).
  { unfold pick. rewrite pick_queue_spec, Hqe, Eq, Hq.
    destruct (fold_left _ (sc_jobs s2) _) as [nr' ls] eqn:Efold.
    apply due_launches_prefix in Efold as [e ->]. cbn [app omap list_omap].
    assert (Ereq : requested s2 false (w_name w, trigger) = Some (j, trigger)).
    { unfold requested, find_job, is_running. cbn [fst snd].
      rewrite (frame_jobs _ _ Hf), Ej, (frame_running _ _ Hf), Er.
      unfold find_job in Hj. by rewrite Hj. }
    rewrite Ereq. eexists. reflexivity. }
  destruct Hls as [ls ->].
  eapply steps_next; [|apply steps_refl]. apply ByLoop, LoopCrashes, StepCrash. cbn [sched].
  rewrite launch_cases. unfold blocked. apply find_in_Some in Hj as [_ Hn]. cbn [fst].
  rewrite Hn. unfold pick. destruct (pick_queue s2 _), (fold_left _ _ _). cbn.
  rewrite (frame_running _ _ Hf), Er. done.
Qed.

Definition finishing : Scheduler :=
  with_queue [("hourly", "manual")] (with_running {["hourly" := new_task]} calm).

Definition last_section : Worker :=
  {| w_name := "hourly"; w_trigger := "schedule"; w_sections := [MarkDone] |}.

Lemma request_race_terminates_witness :
  steps utc (Running {| sched := finishing; phase := PReap; workers := [last_section];
                        caller := Idle |}) Crashed.
Proof.
  apply (request_race_terminates utc finishing hourly last_section "manual" Idle); reflexivity.
Defined.
