(* ===== verification/SchedulerSpec.v ===== *)
(** * What the scheduler promises, and that its threads keep it

    An abstract scheduler: the jobs there are, the runs asked for, the runs in
    progress.  The interleaved threads of SchedulerSteps refine it: every run
    started and ended is a step of the abstract scheduler. *)

From stdpp Require Import base option list strings gmap gmultiset relations.
From Stdlib Require Import Ascii ZArith Lia.
From S2P Require Import Prelude CppLib Double Cron SharedState Config Database ProcessRunner.
From S2P Require Import Scheduler Sections Locked SchedulerSteps.

Open Scope string_scope.
Open Scope list_scope.

#[local] Opaque Cron.next_after Cron.prev_before.

(** ** The abstract scheduler *)

(** The jobs (whether the user interface manages them), those the scans for
    missed runs found and have still to look at, the runs that are pending, by name and
    trigger, and the names of those in progress. *)
Record Spec := {
  sp_jobs : gmap string bool;
  sp_scan : gset string;
  sp_pending : gmultiset (string * string);
  sp_live : gset string
}.

(** What can be seen of it. *)
Inductive action := Starts (name trigger : string) | Ends (name : string).

Definition triggers : list string := ["manual"; "missed"; "schedule"].

(** A run is asked for (by a client, a wake scan or the schedule) only for
    a job there is, or there was when the scan began; a request for a job that
    was removed meanwhile may be forgotten; a pending run starts only when no
    run of its name is in progress. *)
Inductive spec_step : Spec -> option action -> Spec -> Prop :=
| SpecScan js c c' p l :
    c' ⊆ dom js ∪ c ->
    spec_step {| sp_jobs := js; sp_scan := c; sp_pending := p; sp_live := l |} None
              {| sp_jobs := js; sp_scan := c'; sp_pending := p; sp_live := l |}
| SpecAsk js c p l n tr :
    is_Some (js !! n) /\ tr ∈ triggers \/ n ∈ c /\ tr = "missed" ->
    spec_step {| sp_jobs := js; sp_scan := c; sp_pending := p; sp_live := l |} None
              {| sp_jobs := js; sp_scan := c; sp_pending := {[+ (n, tr) +]} ⊎ p; sp_live := l |}
| SpecForget js c p l n tr :
    js !! n = None ->
    spec_step {| sp_jobs := js; sp_scan := c; sp_pending := {[+ (n, tr) +]} ⊎ p; sp_live := l |} None
              {| sp_jobs := js; sp_scan := c; sp_pending := p; sp_live := l |}
| SpecAdd js c p l n :
    js !! n = None ->
    spec_step {| sp_jobs := js; sp_scan := c; sp_pending := p; sp_live := l |} None
              {| sp_jobs := <[n := true]> js; sp_scan := c; sp_pending := p; sp_live := l |}
| SpecRemove js c p l n :
    js !! n = Some true ->
    spec_step {| sp_jobs := js; sp_scan := c; sp_pending := p; sp_live := l |} None
              {| sp_jobs := delete n js; sp_scan := c; sp_pending := p; sp_live := l |}
| SpecStart js c p l n tr :
    n ∉ l ->
    spec_step {| sp_jobs := js; sp_scan := c; sp_pending := {[+ (n, tr) +]} ⊎ p; sp_live := l |}
              (Some (Starts n tr))
              {| sp_jobs := js; sp_scan := c; sp_pending := p; sp_live := {[n]} ∪ l |}
| SpecEnd js c p l n :
    n ∈ l ->
    spec_step {| sp_jobs := js; sp_scan := c; sp_pending := p; sp_live := l |} (Some (Ends n))
              {| sp_jobs := js; sp_scan := c; sp_pending := p; sp_live := l ∖ {[n]} |}.

(** Its executions, with what is seen of them. *)
Inductive spec_trace : Spec -> list action -> Spec -> Prop :=
| spec_stop s : spec_trace s [] s
| spec_go s a s' acts s'' :
    spec_step s a s' -> spec_trace s' acts s'' ->
    spec_trace s (option_list a ++ acts) s''.

Lemma spec_trace_app s1 a1 s2 a2 s3 :
  spec_trace s1 a1 s2 -> spec_trace s2 a2 s3 -> spec_trace s1 (a1 ++ a2) s3.
Proof.
  induction 1 as [|s a s' acts s'' Hs _ IH]; intros H2; [exact H2|].
  rewrite <- app_assoc. eapply spec_go; [exact Hs|by apply IH].
Qed.

Lemma spec_one s a s' : spec_step s a s' -> spec_trace s (option_list a) s'.
Proof. intros H. rewrite <- (app_nil_r (option_list a)). eapply spec_go; [exact H|apply spec_stop]. Qed.

(** ** The abstraction *)

Definition is_ui (j : Job) : bool := String.eqb (job_source j) "ui".

Definition jobs_map (jobs : list Job) : gmap string bool :=
  list_to_map (map (fun j => (job_name j, is_ui j)) jobs).

Definition pending_of (y : System) : list (string * string) :=
  sc_queue (sched y) ++ match phase y with PLaunch ls => map pair_of ls | _ => [] end.

Definition live_of (ws : list Worker) : gset string := list_to_set (map w_name ws).

(** What the scans of the loop and of the starting thread have before them. *)
Definition scan_of (y : System) : gset string :=
  match phase y with PScan _ _ c => list_to_set (scan_names c) | _ => ∅ end ∪
  list_to_set (caller_names (caller y)).

Definition abstract (y : System) : Spec :=
  {| sp_jobs := jobs_map (sc_jobs (sched y)); sp_scan := scan_of y; sp_pending := list_to_set_disj (pending_of y);
     sp_live := live_of (workers y) |}.

(** What a concrete step shows: the workers that are new, and those that are
    gone. *)
Definition visible (y y' : System) : list action :=
  omap (fun w => if decide (w_name w ∈ live_of (workers y)) then None
                 else Some (Starts (w_name w) (w_trigger w))) (workers y') ++
  omap (fun w => if decide (w_name w ∈ live_of (workers y')) then None
                 else Some (Ends (w_name w))) (workers y).

Lemma jobs_map_lookup jobs n : jobs_map jobs !! n = is_ui <$> find_in n jobs.
Proof.
  unfold jobs_map, find_in. induction jobs as [|j jobs IH]; cbn; [done|].
  destruct (String.eqb_spec (job_name j) n) as [<-|]; [by rewrite lookup_insert_eq|].
  by rewrite lookup_insert_ne.
Qed.

Lemma jobs_map_add jobs j :
  find_in (job_name j) jobs = None ->
  jobs_map (jobs ++ [with_source "ui" j]) = <[job_name j := true]> (jobs_map jobs).
Proof.
  intros Hn. apply map_eq. intros n. rewrite jobs_map_lookup, find_in_app, lookup_insert, jobs_map_lookup.
  unfold find_in at 2. cbn.
  destruct (String.eqb_spec (job_name j) n) as [<-|Hne].
  - by rewrite decide_True, Hn.
  - rewrite decide_False by done. by destruct (find_in n jobs).
Qed.

Lemma jobs_map_remove jobs n : jobs_map (without_job n jobs) = delete n (jobs_map jobs).
Proof.
  apply map_eq. intros m. rewrite jobs_map_lookup, find_without_job, lookup_delete, jobs_map_lookup.
  destruct (String.eqb_spec m n) as [->|Hne]; [by rewrite decide_True|by rewrite decide_False].
Qed.

Lemma live_elem ws n : n ∈ live_of ws <-> n ∈ map w_name ws.
Proof. unfold live_of. apply elem_of_list_to_set. Qed.

Lemma live_in (w : Worker) ws : w ∈ ws -> w_name w ∈ live_of ws.
Proof. intros H. rewrite live_elem. apply list_elem_of_In, in_map, list_elem_of_In, H. Qed.

Lemma hidden {A} (ws ws' : list Worker) (f : Worker -> A) :
  (forall w, w ∈ ws -> w_name w ∈ live_of ws') ->
  omap (fun w => if decide (w_name w ∈ live_of ws') then None else Some (f w)) ws = [].
Proof.
  induction ws as [|w ws IH]; intros H; cbn; [done|].
  rewrite decide_True by (apply H; left). apply IH. intros x Hx. apply H. by right.
Qed.

Lemma seen {A} (w : Worker) ws ws' (f : Worker -> A) :
  w_name w ∉ live_of ws' ->
  omap (fun w => if decide (w_name w ∈ live_of ws') then None else Some (f w)) (w :: ws) =
  f w :: omap (fun w => if decide (w_name w ∈ live_of ws') then None else Some (f w)) ws.
Proof. intros H. cbn. by rewrite decide_False. Qed.

Lemma visible_same y y' :
  map w_name (workers y) = map w_name (workers y') -> visible y y' = [].
Proof.
  intros E. assert (El : live_of (workers y) = live_of (workers y')) by (unfold live_of; by rewrite E).
  unfold visible. rewrite !hidden; [done| |]; intros w Hw; [rewrite <- El|rewrite El]; by apply live_in.
Qed.

(** A section in which workers end shows their ends. *)
Definition gone (N : gset string) (ws : list Worker) : list string :=
  map w_name (List.filter (fun w => bool_decide (w_name w ∈ N)) ws).

Lemma still_live N ws w : w ∈ ws -> w_name w ∈ live_of (still N ws) <-> w_name w ∉ N.
Proof.
  intros Hw. rewrite live_elem, list_elem_of_In, in_map_iff. split.
  - intros (x & <- & Hx%list_elem_of_In%still_elem). tauto.
  - intros Hn. exists w. split; [done|]. by apply list_elem_of_In, still_elem.
Qed.

Lemma visible_still y y' N :
  workers y' = still N (workers y) -> visible y y' = map Ends (gone N (workers y)).
Proof.
  intros Ew. unfold visible. rewrite Ew, hidden.
  2: { intros w [Hw _]%still_elem. by apply live_in. }
  cbn [app]. unfold gone. rewrite map_map.
  assert (H : forall ws, (forall w, w ∈ ws -> w ∈ workers y) ->
    omap (fun w => if decide (w_name w ∈ live_of (still N (workers y))) then None else Some (Ends (w_name w))) ws =
    map (fun w => Ends (w_name w)) (List.filter (fun w => bool_decide (w_name w ∈ N)) ws)); [|by apply H].
  induction ws as [|w ws IH]; intros Hws; [done|]. cbn [omap list_omap List.filter].
  pose proof (still_live N _ w (Hws w ltac:(left))) as Hl.
  assert (IHw := IH (fun x Hx => Hws x (list_elem_of_further _ _ _ Hx))).
  case_bool_decide as Hb.
  - rewrite decide_False by tauto. cbn [map]. by rewrite <- IHw.
  - by rewrite decide_True by tauto.
Qed.

Lemma gone_live N ws :
  NoDup (map w_name ws) ->
  NoDup (gone N ws) /\ list_to_set (gone N ws) ⊆ live_of ws /\
  live_of (still N ws) = live_of ws ∖ list_to_set (gone N ws).
Proof.
  intros Hn.
  assert (Hg : forall n, n ∈ gone N ws <-> n ∈ map w_name ws /\ n ∈ N).
  { intros n. unfold gone. rewrite !list_elem_of_In, !in_map_iff. split.
    - intros (w & <- & [Hw Hb%bool_decide_eq_true]%filter_In). split; [by exists w|done].
    - intros [(w & <- & Hw) Hb]. exists w. split; [done|]. apply filter_In.
      split; [done|by apply bool_decide_eq_true]. }
  split_and!.
  - clear Hg. induction ws as [|w ws IH]; [constructor|]. apply NoDup_cons in Hn as [Hw Hn].
    unfold gone. cbn. destruct (bool_decide _); [|by apply IH]. cbn. apply NoDup_cons. split; [|by apply IH].
    intros (x & E & [Hx _]%filter_In)%list_elem_of_In%in_map_iff. apply Hw. rewrite <- E.
    by apply list_elem_of_In, in_map.
  - intros n Hin%elem_of_list_to_set%Hg. rewrite live_elem. tauto.
  - apply set_eq. intros n. rewrite elem_of_difference, elem_of_list_to_set, Hg, !live_elem.
    rewrite !list_elem_of_In, !in_map_iff. split.
    + intros (w & <- & [Hw Hn']%list_elem_of_In%still_elem). split; [|tauto].
      exists w. split; [done|by apply list_elem_of_In].
    + intros [(w & <- & Hw) Hno]. exists w. split; [done|]. apply list_elem_of_In, still_elem.
      split; [by apply list_elem_of_In|]. intros HN. apply Hno. split; [by exists w|done].
Qed.

(** ** Silent executions *)

Lemma spec_asks js c p l qs :
  Forall (fun q => is_Some (js !! fst q) /\ snd q ∈ triggers \/ fst q ∈ c /\ snd q = "missed") qs ->
  spec_trace {| sp_jobs := js; sp_scan := c; sp_pending := p; sp_live := l |} []
             {| sp_jobs := js; sp_scan := c; sp_pending := list_to_set_disj qs ⊎ p; sp_live := l |}.
Proof.
  intros H. revert p. induction H as [|[n tr] qs Hn _ IH]; intros p; cbn [list_to_set_disj].
  - rewrite (left_id_L ∅ (⊎)). apply spec_stop.
  - apply (spec_trace_app _ [] {| sp_jobs := js; sp_scan := c;
      sp_pending := list_to_set_disj qs ⊎ p; sp_live := l |} []).
    + apply IH.
    + rewrite <- (assoc_L (⊎)). exact (spec_one _ _ _ (SpecAsk _ _ _ _ _ _ Hn)).
Qed.

Lemma spec_forgets js c p l qs :
  Forall (fun q : string * string => js !! fst q = None) qs ->
  spec_trace {| sp_jobs := js; sp_scan := c;
      sp_pending := list_to_set_disj qs ⊎ p; sp_live := l |} []
             {| sp_jobs := js; sp_scan := c; sp_pending := p; sp_live := l |}.
Proof.
  intros H. induction H as [|[n tr] qs Hn _ IH]; cbn [list_to_set_disj].
  - rewrite (left_id_L ∅ (⊎)). apply spec_stop.
  - apply (spec_trace_app _ [] {| sp_jobs := js; sp_scan := c;
      sp_pending := list_to_set_disj qs ⊎ p; sp_live := l |} []);
      [|exact IH]. rewrite <- (assoc_L (⊎)). exact (spec_one _ _ _ (SpecForget _ _ _ _ _ _ Hn)).
Qed.

Lemma spec_ends js c p l ns :
  NoDup ns -> list_to_set ns ⊆ l ->
  spec_trace {| sp_jobs := js; sp_scan := c; sp_pending := p; sp_live := l |} (map Ends ns)
             {| sp_jobs := js; sp_scan := c; sp_pending := p; sp_live := l ∖ list_to_set ns |}.
Proof.
  intros Hn. revert l. induction Hn as [|n ns Hin _ IH]; intros l Hl; cbn [map list_to_set] in *.
  - rewrite difference_empty_L. apply spec_stop.
  - rewrite <- difference_difference_l_L.
    apply (spec_go _ (Some (Ends n)) {| sp_jobs := js; sp_scan := c; sp_pending := p;
                                         sp_live := l ∖ {[n]} |} (map Ends ns)).
    + apply SpecEnd. set_solver.
    + apply IH. intros m Hm. pose proof Hm as Hm'%elem_of_list_to_set. set_solver.
Qed.

(** ** The simulation *)

Section Refinement.
Context (localtime : Z -> tm) {sq : Sqlite}.

(** A step that asks for runs, or changes nothing one can see. *)
Lemma asking y y' qs :
  workers y' = workers y -> sc_jobs (sched y') = sc_jobs (sched y) ->
  scan_of y' ⊆ dom (jobs_map (sc_jobs (sched y))) ∪ scan_of y ->
  pending_of y' ≡ₚ qs ++ pending_of y ->
  Forall (fun q => fst q ∈ names_of (sc_jobs (sched y)) /\ snd q ∈ triggers \/
                   fst q ∈ scan_of y /\ snd q = "missed") qs ->
  spec_trace (abstract y) (visible y y') (abstract y').
Proof.
  intros Ew Ej Es Ep Hq. rewrite visible_same by (by rewrite Ew).
  unfold abstract. rewrite Ew, Ej, Ep, list_to_set_disj_app.
  eapply (spec_trace_app _ [] _ []); [apply spec_asks|apply (spec_one _ None), SpecScan, Es].
  eapply Forall_impl; [exact Hq|]. intros q [[Hn Ht]|Hc]; [left|by right]. split; [|exact Ht].
  rewrite jobs_map_lookup. destruct (find_in (fst q) _) eqn:E; [by eexists|].
  by apply find_in_None in E.
Qed.

(** A step that changes nothing one can see. *)
Lemma silent y y' :
  workers y' = workers y -> sc_jobs (sched y') = sc_jobs (sched y) ->
  scan_of y' ⊆ dom (jobs_map (sc_jobs (sched y))) ∪ scan_of y ->
  pending_of y' = pending_of y -> spec_trace (abstract y) (visible y y') (abstract y').
Proof. intros Ew Ej Es Ep. apply (asking y y' []); [done..|by rewrite Ep|constructor]. Qed.

(** A section in which workers end, and that is silent otherwise. *)
Lemma reading y y' N :
  NoDup (map w_name (workers y)) -> workers y' = still N (workers y) ->
  spec_trace (abstract y) []
    {| sp_jobs := jobs_map (sc_jobs (sched y')); sp_scan := scan_of y';
       sp_pending := list_to_set_disj (pending_of y'); sp_live := live_of (workers y) |} ->
  spec_trace (abstract y) (visible y y') (abstract y').
Proof.
  intros Hn Ew Hs. rewrite (visible_still y y' N Ew).
  destruct (gone_live N (workers y) Hn) as (H1 & H2 & H3).
  eapply (spec_trace_app _ [] _ _ _ Hs). unfold abstract. rewrite Ew, H3. by apply spec_ends.
Qed.

(** Reaping and copying are silent otherwise. *)
Lemma reading_silent s ws ph ph' k k' r N :
  NoDup (map w_name ws) ->
  match ph' with PLaunch ls => ls | _ => [] end = match ph with PLaunch ls => ls | _ => [] end ->
  match ph' with PScan _ _ _ => ph' = ph | _ => True end -> caller_names k' ⊆ caller_names k ->
  let y := {| sched := s; phase := ph; workers := ws; caller := k |} in
  let y' := {| sched := with_running r s; phase := ph'; workers := still N ws; caller := k' |} in
  spec_trace (abstract y) (visible y y') (abstract y').
Proof.
  intros Hn H1 H3 Hk y y'. apply (reading y y' N); [exact Hn|done|].
  assert (Ep : pending_of y' = pending_of y).
  { unfold pending_of, y, y'. cbn [sched phase sc_queue with_running]. f_equal.
    destruct ph, ph'; cbn in H1 |- *; subst; try done; by rewrite H1. }
  rewrite Ep. apply (spec_one _ None), SpecScan. unfold scan_of, y, y'. cbn [phase caller].
  destruct ph'; try rewrite H3; set_solver.
Qed.

Lemma pick_refines s ws wall k ls z :
  NoDup (map w_name ws) -> NoDup (names_of (sc_jobs s)) -> picks localtime wall (s, ws) ls z ->
  let y := {| sched := s; phase := PPick wall; workers := ws; caller := k |} in
  let y' := {| sched := fst z; phase := PLaunch ls; workers := snd z; caller := k |} in
  spec_trace (abstract y) (visible y y') (abstract y').
Proof.
  intros Hw Hn Hp y y'.
  destruct (picks_spec localtime wall (s, ws) ls z Hw Hn Hp) as (N & d & reqs & fs & nr & [Hr -> -> Hs Hf _ _]).
  cbn [fst snd] in *. apply (reading y y' N); [exact Hw|done|].
  destruct (sorted_split _ _ _ _ _ Hs) as (unknown & Hu & Eq).
  unfold y', y, abstract, pending_of, scan_of. cbn [sched phase workers caller finished fst snd sc_jobs
    sc_queue with_next_run with_queue with_running]. rewrite app_nil_r, map_app.
  rewrite (list_to_set_disj_perm _ _ Eq), !list_to_set_disj_app.
  set (scan := ∅ ∪ list_to_set _).
  apply (spec_trace_app _ [] {| sp_jobs := jobs_map (sc_jobs s); sp_scan := scan;
    sp_pending := list_to_set_disj d ⊎ list_to_set_disj (map pair_of reqs); sp_live := live_of ws |} []).
  - apply spec_forgets. eapply Forall_impl; [exact Hu|]. intros q Hq.
    rewrite jobs_map_lookup. unfold find_job in Hq. by rewrite Hq.
  - rewrite (assoc_L (⊎)), (comm_L (⊎) _ (list_to_set_disj (map pair_of fs))). apply spec_asks.
    apply Forall_forall. intros q Hq%list_elem_of_In%in_map_iff.
    destruct Hq as (l & <- & Hl%list_elem_of_In). destruct (fired_takes _ _ _ _ _ _ _ Hf Hl) as (Et & Hj & _).
    cbn [pair_of fst snd]. left. rewrite Et. split; [|do 2 right; left].
    rewrite jobs_map_lookup, (find_in_unique _ _ Hn) by done. by eexists.
Qed.

Lemma launch_refines s s' ws l ls k evs :
  inv {| sched := s; phase := PLaunch (l :: ls); workers := ws; caller := k |} ->
  launch l s = Ret s' ->
  let y := {| sched := s; phase := PLaunch (l :: ls); workers := ws; caller := k |} in
  let w := {| w_name := job_name (fst l); w_trigger := snd l; w_sections := evs |} in
  let y' := {| sched := s'; phase := PLaunch ls; workers := w :: ws; caller := k |} in
  spec_trace (abstract y) (visible y y') (abstract y').
Proof.
  intros Hi Hla y w y'. rewrite launch_cases in Hla. unfold blocked in Hla.
  assert (Hnew : job_name (fst l) ∉ live_of ws).
  { intros (x & Hx & Hin%list_elem_of_In)%live_elem%list_elem_of_In%in_map_iff.
    pose proof (inv_live _ Hi x Hin) as H. cbn in H. rewrite Hx in H.
    rewrite H in Hla. discriminate. }
  assert (Es : s' = with_running (<[job_name (fst l) := new_task]> (sc_running s)) s).
  { destruct (sc_running s !! job_name (fst l)) as [t|] eqn:Et; [|congruence].
    pose proof (inv_joinable _ Hi _ _ Et) as Hj. rewrite Hj in Hla. discriminate. }
  assert (Ev : visible y y' = [Starts (job_name (fst l)) (snd l)]).
  { unfold visible, y, y'. cbn [workers].
    rewrite (seen w ws ws (fun w => Starts (w_name w) (w_trigger w))) by exact Hnew.
    rewrite !hidden; [done| |intros; by apply live_in].
    intros x Hx. apply live_in. by right. }
  rewrite Ev. unfold abstract, pending_of, scan_of, y, y'. rewrite Es.
  cbn [sched phase workers caller sc_jobs sc_queue with_running map].
  replace (list_to_set_disj (sc_queue s ++ pair_of l :: map pair_of ls))
    with ({[+ (job_name (fst l), snd l) +]} ⊎ list_to_set_disj (sc_queue s ++ map pair_of ls)
          : gmultiset (string * string))
    by (rewrite <- Permutation_middle; reflexivity).
  unfold live_of at 2. cbn [map list_to_set].
  exact (spec_one _ _ _ (SpecStart _ _ _ _ _ _ Hnew)).
Qed.

(** A worker's last section is the end of its run; the others show nothing. *)
Lemma worker_refines s s' ws ws' ph k :
  inv {| sched := s; phase := ph; workers := ws; caller := k |} -> worker_step (s, ws) (s', ws') ->
  let y := {| sched := s; phase := ph; workers := ws; caller := k |} in
  let y' := {| sched := s'; phase := ph; workers := ws'; caller := k |} in
  spec_trace (abstract y) (visible y y') (abstract y').
Proof.
  intros Hi Hs y y'. inversion Hs as [s0 ws1 ws2 w sec secs f Hsec]; subst.
  destruct (apply_section_keeps f (w_name w) (w_trigger w) sec s) as (Ej & _ & Eq & _).
  set (s1 := apply_section f (w_name w) (w_trigger w) sec s) in *.
  assert (Ea : forall ws, abstract {| sched := s1; phase := ph; workers := ws; caller := k |} =
                          abstract {| sched := s; phase := ph; workers := ws; caller := k |}).
  { intros ws. unfold abstract, pending_of, scan_of. cbn [sched phase workers caller]. by rewrite Ej, Eq. }
  unfold y'. rewrite Ea. destruct secs as [|e secs].
  - pose proof (inv_workers _ Hi) as Hn. cbn in Hn. rewrite map_app in Hn. cbn in Hn.
    apply NoDup_app in Hn as (H1 & H12 & H2). apply NoDup_cons in H2 as [H2w H2].
    assert (Hgone : w_name w ∉ live_of (ws1 ++ ws2)).
    { rewrite live_elem, map_app, elem_of_app. intros [Hw|Hw]; [|done].
      apply (H12 _ Hw). left. }
    assert (El : live_of (ws1 ++ ws2) = live_of (ws1 ++ w :: ws2) ∖ {[w_name w]}).
    { apply set_eq. intros n. rewrite elem_of_difference, elem_of_singleton, !live_elem.
      rewrite !map_app, !elem_of_app. cbn [map]. rewrite elem_of_cons.
      rewrite live_elem, map_app, elem_of_app in Hgone. naive_solver. }
    assert (Ev : visible y {| sched := s1; phase := ph; workers := ws1 ++ ws2; caller := k |} =
                 [Ends (w_name w)]).
    { unfold visible, y. cbn [workers]. rewrite hidden by (intros x Hx; by apply live_in, worker_elem).
      rewrite omap_app, (seen w ws2 _ (fun w => Ends (w_name w))) by exact Hgone.
      rewrite !hidden; [done| |]; intros x Hx; apply live_in, elem_of_app; tauto. }
    rewrite Ev. unfold abstract, y, pending_of, scan_of. cbn [sched phase workers caller]. rewrite El.
    refine (spec_one _ _ _ (SpecEnd _ _ _ _ _ _)). apply live_in, elem_of_app. right. left.
  - set (w' := {| w_name := w_name w; w_trigger := w_trigger w; w_sections := e :: secs |}).
    assert (En : map w_name (ws1 ++ w' :: ws2) = map w_name (ws1 ++ w :: ws2))
      by (rewrite !map_app; reflexivity).
    rewrite visible_same by (symmetry; exact En).
    replace (abstract {| sched := s; phase := ph; workers := ws1 ++ w' :: ws2; caller := k |})
      with (abstract y) by (unfold abstract, y, live_of; cbn [workers]; by rewrite En).
    apply spec_stop.
Qed.

Lemma names_dom s n : n ∈ names_of (sc_jobs s) -> n ∈ dom (jobs_map (sc_jobs s)).
Proof.
  intros Hn. apply elem_of_dom. rewrite jobs_map_lookup.
  destruct (find_in n (sc_jobs s)) eqn:E; [by eexists|]. by apply find_in_None in E.
Qed.

(** A scan goes on with names it had, or takes them from the jobs. *)
Lemma caller_names_step c s c' s' :
  caller_step localtime (c, s) (c', s') ->
  forall n, n ∈ caller_names c' -> n ∈ caller_names c \/ n ∈ names_of (sc_jobs s).
Proof.
  intros H. inversion H as [now ts f sc sc' s0 s1 Hsc| | | | | | | | | | | |]; subst;
    cbn [caller_names]; intros m Hn; try (by apply not_elem_of_nil in Hn).
  revert m Hn. by destruct (scan_section_grows _ _ _ _ _ _ _ _ Hsc) as (_ & _ & _ & Hn).
Qed.

Lemma caller_refines s s' ws ph k k' :
  caller_ok k s -> caller_step localtime (k, s) (k', s') ->
  let y := {| sched := s; phase := ph; workers := ws; caller := k |} in
  let y' := {| sched := s'; phase := ph; workers := ws; caller := k' |} in
  spec_trace (abstract y) (visible y y') (abstract y').
Proof.
  intros Hok Hs y y'. pose proof (caller_names_step _ _ _ _ Hs) as Hnm.
  destruct (caller_step_cases localtime k s k' s' Hs Hok) as (_ & _ &
    [(Ej & _ & extra & Eq & Ha)|[(now & j & -> & Hf & Hui & Ej & Eq & _)|(n & j & -> & Hf & Hui & Ej & Eq & _)]]).
  - apply (asking y y' extra); [done|done| | |].
    + unfold scan_of, y, y'. cbn [sched phase caller]. intros n [Hn|Hn]%elem_of_union; [set_solver|].
      apply elem_of_list_to_set, Hnm in Hn as [Hn|Hn]; [set_solver|]. apply names_dom in Hn. set_solver.
    + unfold pending_of, y, y'. cbn [sched phase]. rewrite Eq, <- app_assoc.
      apply Permutation_app_swap_app.
    + eapply Forall_impl; [exact Ha|]. intros q [[Hq ->]|[Hq ->]].
      * left. split; [done|left].
      * right. split; [|done]. unfold scan_of, y. cbn [caller]. set_solver.
  - assert (Ek : caller_names k' = []) by (inversion Hs; by subst).
    rewrite visible_same by done. unfold abstract, pending_of, scan_of, y, y'.
    cbn [sched phase workers caller caller_names]. rewrite Eq, Ej, Ek.
    replace (jobs_map (sc_jobs s ++ [j])) with (<[job_name j := true]> (jobs_map (sc_jobs s))).
    { apply (spec_one _ None), SpecAdd. rewrite jobs_map_lookup. unfold find_job in Hf. by rewrite Hf. }
    rewrite <- jobs_map_add by done. do 3 f_equal. by destruct j; cbn in *; subst.
  - assert (Ek : caller_names k' = []) by (inversion Hs; by subst).
    rewrite visible_same by done. unfold abstract, pending_of, scan_of, y, y'.
    cbn [sched phase workers caller caller_names]. rewrite Eq, Ej, Ek, jobs_map_remove.
    apply (spec_one _ None), SpecRemove.
    rewrite jobs_map_lookup. unfold find_job in Hf. rewrite Hf. cbn. unfold is_ui. by rewrite Hui.
Qed.

(** The scan of a turn, from its candidates on. *)
Lemma loop_scan_names ph s ph' s' ws :
  loop_section localtime ph s (Some (ph', s', ws)) ->
  forall n, match ph' with PScan _ _ c => n ∈ scan_names c | _ => False end ->
  match ph with PScan _ _ c => n ∈ scan_names c | _ => False end \/ n ∈ names_of (sc_jobs s).
Proof.
  intros H. inversion H as [s0 wall sn|wall sn ts f c s0 c' s1 Hsc| | | |]; subst; try done.
  - destruct (scans_on_wake _ _); [|done]. by intros n ?%not_elem_of_nil.
  - by destruct (scan_section_grows _ _ _ _ _ _ _ _ Hsc) as (_ & _ & _ & Hn).
Qed.

Lemma loop_section_refines y ph s ws :
  inv y -> loop_section localtime (phase y) (sched y) (Some (ph, s, ws)) ->
  spec_trace (abstract y) (visible y (moved ph s ws y)) (abstract (moved ph s ws y)).
Proof.
  intros Hi Hl. unfold moved. destruct y as [s0 ph0 ws0 k]. cbn [sched phase workers caller] in *.
  pose proof (loop_scan_names _ _ _ _ _ Hl) as Hsn.
  destruct (loop_section_cases _ _ _ _ _ _ Hl) as (Ej & _ & _ &
    [(-> & _ & Hno & extra & Eq & Ha)|(l & ls & run & b & evs & ts & -> & -> & Hla & Hwo & Eq & ->)]).
  - cbn [app]. apply (asking _ _ extra); [done|exact Ej| | |].
    + unfold scan_of. cbn [sched phase caller]. intros n [Hn'|Hn']%elem_of_union; [|set_solver].
      destruct (Hsn n) as [Hp|Hp]; [|destruct ph0; set_solver|apply names_dom in Hp; set_solver].
      destruct ph; set_solver.
    + unfold pending_of. cbn [sched phase]. rewrite Eq.
      destruct ph0 as [| |? ? c| |ls|]; try (inversion Hl; fail);
        destruct ph as [| | | |ls'|]; try (by destruct (Hno ls'));
        try (inversion Hl; subst; fail); rewrite ?app_nil_r; apply Permutation_app_comm.
    + eapply Forall_impl; [exact Ha|]. intros q [-> Hq]. right. split; [|done].
      unfold scan_of. cbn [phase]. destruct ph0; set_solver.
  - by apply launch_refines.
Qed.

Lemma loop_refines y y' :
  inv y -> loop_step localtime y (Running y') -> spec_trace (abstract y) (visible y y') (abstract y').
Proof.
  intros Hi Hs. pose proof (inv_workers _ Hi) as Hw. pose proof (inv_names _ Hi) as Hn.
  inversion Hs as [ph s ws Hl| |z Hp H|wall ls z Hp H|sts z Hp H]; subst; clear Hs;
    [by apply loop_section_refines|unfold read_by; destruct y as [s ph ws k]; cbn [sched phase workers caller] in *; subst ph..].
  - destruct (reaps_frame (s, ws) z Hw H) as (r & N & -> & _). by apply reading_silent.
  - by apply pick_refines.
  - destruct (copies_frame (s, ws) sts z Hw Hn H) as (r & N & -> & _). by apply reading_silent.
Qed.

Lemma step_refines y y' :
  inv y -> step localtime y (Running y') -> spec_trace (abstract y) (visible y y') (abstract y').
Proof.
  intros Hi Hs. inversion Hs as [c Hl|s ws Hw|c s Hr|sts z Hk Hc|s Ho]; subst; clear Hs;
    [by apply loop_refines|destruct y; by apply worker_refines| | |].
  - destruct y. apply caller_refines; [exact (inv_caller _ Hi)|exact Hr].
  - destruct (copies_frame (sched y, workers y) sts z (inv_workers _ Hi) (inv_names _ Hi) Hc) as (r & N & -> & _).
    destruct y as [s ph ws k]. cbn [sched phase workers caller fst snd] in *. subst k.
    apply reading_silent; [exact (inv_workers _ Hi)|done|by destruct ph|done].
  - destruct (outside_step_frame _ _ Ho) as [Ej _ _ _ Eq].
    apply silent; [done|done|apply union_subseteq_r|]. unfold pending_of. cbn. by rewrite Eq.
Qed.

(** An execution and what is seen of it. *)
Inductive shown : System -> list action -> System -> Prop :=
| shown_refl y : shown y [] y
| shown_next y y1 acts y2 :
    step localtime y (Running y1) -> shown y1 acts y2 -> shown y (visible y y1 ++ acts) y2.

Lemma shown_refines y acts y' :
  inv y -> shown y acts y' -> spec_trace (abstract y) acts (abstract y').
Proof.
  intros Hi Hs. induction Hs as [y|y y1 acts y2 Hst _ IH]; [apply spec_stop|].
  eapply spec_trace_app; [by apply step_refines|]. apply IH. by eapply step_inv.
Qed.

(** *** What is chosen is started *)

Definition starts (acts : list action) : list (string * string) :=
  omap (fun a => match a with Starts n tr => Some (n, tr) | Ends _ => None end) acts.

Lemma starts_visible y y' :
  starts (visible y y') =
    omap (fun w => if decide (w_name w ∈ live_of (workers y)) then None
                   else Some (w_name w, w_trigger w)) (workers y').
Proof.
  unfold starts, visible. rewrite omap_app.
  assert (E1 : forall ws : list Worker, omap (fun a => match a with Starts n tr => Some (n, tr) | Ends _ => None end)
    (omap (fun w => if decide (w_name w ∈ live_of (workers y)) then None
                    else Some (Starts (w_name w) (w_trigger w))) ws) =
    omap (fun w => if decide (w_name w ∈ live_of (workers y)) then None
                   else Some (w_name w, w_trigger w)) ws).
  { induction ws as [|w ws IH]; [done|]. cbn. destruct (decide _); cbn; [exact IH|by f_equal]. }
  assert (E2 : forall ws : list Worker, omap (fun a => match a with Starts n tr => Some (n, tr) | Ends _ => None end)
    (omap (fun w => if decide (w_name w ∈ live_of (workers y')) then None else Some (Ends (w_name w))) ws) = []).
  { induction ws as [|w ws IH]; [done|]. cbn. by destruct (decide _). }
  by rewrite E1, E2, app_nil_r.
Qed.

Lemma starts_none y y' :
  (forall w, w ∈ workers y' -> w_name w ∈ live_of (workers y)) -> starts (visible y y') = [].
Proof. intros H. rewrite starts_visible. by apply hidden. Qed.

Lemma worker_step_names s ws s' ws' w :
  worker_step (s, ws) (s', ws') -> w ∈ ws' -> w_name w ∈ live_of ws.
Proof.
  intros H. inversion H as [s0 ws1 ws2 v sec secs f Hsec]; subst. intros Hw. destruct secs as [|e secs].
  - by apply live_in, worker_elem.
  - apply elem_of_app in Hw as [Hw|[->|Hw]%elem_of_cons].
    + apply live_in, elem_of_app. by left.
    + apply (live_in v), elem_of_app. right. left.
    + apply live_in, elem_of_app. right. by right.
Qed.

(** While launches are left, the loop starts the first of them. *)
Lemma step_starts y y1 l ls :
  inv y -> step localtime y (Running y1) -> phase y = PLaunch (l :: ls) ->
  (phase y1 = PLaunch (l :: ls) /\ starts (visible y y1) = []) \/
  (phase y1 = PLaunch ls /\ starts (visible y y1) = [pair_of l]).
Proof.
  intros Hi Hs Hp. pose proof (inv_workers _ Hi) as Hw. pose proof (inv_names _ Hi) as Hn.
  inversion Hs as [c Hl|s ws Hwk|c s Hr|sts z Hk Hc|s Ho]; subst; clear Hs; cbn [phase].
  - inversion Hl as [ph s ws Hl'| |z Hp' H|wall ls' z Hp' H|sts z Hp' H]; subst; clear Hl; try congruence.
    rewrite Hp in Hl'. inversion Hl' as [| | |s0 s1 l' ls' run b evs ts Hla Hwo| |]; subst.
    right. split; [done|]. rewrite starts_visible. cbn [moved workers app].
    rewrite launch_cases in Hla. unfold blocked in Hla.
    rewrite (seen _ (workers y) (workers y) (fun w => (w_name w, w_trigger w))).
    + rewrite hidden; [done|]. intros w. apply live_in.
    + cbn [w_name]. intros (x & Hx & Hin%list_elem_of_In)%live_elem%list_elem_of_In%in_map_iff.
      pose proof (inv_live _ Hi x Hin) as H. rewrite Hx in H. by rewrite H in Hla.
  - left. split; [done|]. apply starts_none. intros w. by eapply worker_step_names.
  - left. split; [done|]. apply starts_none. intros w. apply live_in.
  - left. split; [done|]. apply starts_none. cbn [workers].
    destruct (copies_frame (sched y, workers y) sts z Hw Hn Hc) as (r & N & -> & _).
    intros w [Hin _]%still_elem. by apply live_in.
  - left. split; [done|]. apply starts_none. intros w. apply live_in.
Qed.

(** Of the launches left, some are started and the loop is still at the
    others, or all are started, in their order. *)
Lemma launches_started y acts y' ls :
  inv y -> shown y acts y' -> phase y = PLaunch ls ->
  (exists started rest, ls = started ++ rest /\ phase y' = PLaunch rest /\
     starts acts = map pair_of started) \/
  map pair_of ls `prefix_of` starts acts.
Proof.
  intros Hi Hs. revert ls Hi. induction Hs as [y|y y1 acts y2 Hst _ IH]; intros ls Hi Hp.
  { left. by exists [], ls. }
  destruct ls as [|l ls]; [right; apply prefix_nil|].
  pose proof (step_inv localtime _ _ Hi Hst) as Hi1. unfold starts in *. rewrite omap_app.
  destruct (step_starts _ _ _ _ Hi Hst Hp) as [[Hp1 E]|[Hp1 E]]; unfold starts in E; rewrite E; cbn [app].
  - by apply IH.
  - destruct (IH ls Hi1 Hp1) as [(d & r & -> & Hr & Ed)|Hd].
    + left. exists (l :: d), r. split_and!; [done|exact Hr|]. cbn [map]. by rewrite <- Ed.
    + right. cbn [map]. by apply prefix_cons.
Qed.
End Refinement.

(** The runs of a name in what is seen: one ends before the next starts. *)
Fixpoint alternates (n : string) (live : bool) (acts : list action) : Prop :=
  match acts with
  | [] => True
  | Starts m _ :: acts =>
      if String.eqb m n then live = false /\ alternates n true acts else alternates n live acts
  | Ends m :: acts =>
      if String.eqb m n then live = true /\ alternates n false acts else alternates n live acts
  end.

Lemma spec_alternates n s acts s' :
  spec_trace s acts s' -> alternates n (bool_decide (n ∈ sp_live s)) acts.
Proof.
  induction 1 as [s|s a s' acts s'' Hs _ IH]; [exact I|].
  destruct Hs as [js c c' p l _|js c p l m tr _|js c p l m tr _|js c p l m _|js c p l m _
    |js c p l m tr Hm|js c p l m Hm];
    cbn [sp_live] in *; try exact IH; change (option_list (Some ?a) ++ ?l) with (a :: l); cbn [alternates].
  - destruct (String.eqb_spec m n) as [->|Hne].
    + rewrite (bool_decide_false _ Hm). split; [reflexivity|].
      rewrite bool_decide_true in IH by set_solver. exact IH.
    + rewrite (bool_decide_ext _ (n ∈ l)) in IH by set_solver. exact IH.
  - destruct (String.eqb_spec m n) as [->|Hne].
    + rewrite (bool_decide_true _ Hm). split; [reflexivity|].
      rewrite bool_decide_false in IH by set_solver. exact IH.
    + rewrite (bool_decide_ext _ (n ∈ l)) in IH by set_solver. exact IH.
Qed.

(** ** Properties *)

(** C2: the threads refine the abstract scheduler: whatever the loop, the
    workers and the clients do, in whatever order, the runs that start and
    end are those of an execution of the abstract scheduler, from the
    abstraction of the first state to that of the last; so a run starts only
    when it is pending, it becomes pending only for a job there is (or there
    was when a wake scan began), only jobs the user interface manages are
    removed, and the runs of a job follow one
    another without overlap. *)
Theorem threads_refine_scheduler localtime {sq : Sqlite} y acts y' :
  fresh y -> shown localtime y acts y' ->
  spec_trace (abstract y) acts (abstract y') /\
  sp_live (abstract y) = ∅ /\ forall n, alternates n false acts.
Proof.
  intros Hf Hs. pose proof (shown_refines localtime _ _ _ (fresh_inv _ Hf) Hs) as Ht.
  assert (E : sp_live (abstract y) = ∅) by (destruct Hf as (_ & Ew & _); cbn; by rewrite Ew).
  split_and!; [exact Ht|exact E|]. intros n. pose proof (spec_alternates n _ _ _ Ht) as Ha.
  rewrite E, bool_decide_false in Ha by (by apply not_elem_of_empty). exact Ha.
Qed.

(** The calm turn of SchedulerSteps: one run starts. *)
Lemma calm_shown :
  exists acts, shown utc calm_start acts calm_launched /\ acts = [Starts "hourly" "schedule"].
Proof.
  eexists. split.
  - eapply shown_next; [apply (ByLoop utc calm_start), reap_step|].
    eapply shown_next; [apply ByLoop, LoopMoves, (StepWake utc _ 1700038860 1700038860)|].
    replace (if scans_on_wake _ _ then _ else _) with (PPick 1700038860) by (vm_compute; reflexivity).
    replace (wake_flags _ _) with (wake_scan utc 1700038860 1700038860 no_env (reap_finished calm))
      by (vm_compute; reflexivity).
    eapply shown_next; [apply ByLoop, pick_step|].
    assert (E : snd calm_picked = [(hourly, "schedule")]) by (vm_compute; reflexivity).
    unfold calm_picked in E. rewrite E.
    eapply shown_next; [|apply shown_refl].
    apply ByLoop. refine (LoopMoves utc _ (PLaunch []) (sched calm_launched) (workers calm_launched) _).
    cbn [phase sched].
    apply (StepLaunch utc _ _ (hourly, "schedule") [] one_success None
      [Attempted (one_success 1); Finished] 0); [|reflexivity].
    unfold calm_launched, calm_picked. vm_compute. reflexivity.
  - vm_compute. reflexivity.
Qed.

Definition calm_pending : gmultiset (string * string) := list_to_set_disj (pending_of calm_launched).

Lemma calm_abstract :
  abstract calm_launched = {| sp_jobs := jobs_map (sc_jobs calm); sp_scan := ∅;
                              sp_pending := calm_pending; sp_live := {["hourly"]} |}.
Proof. unfold abstract, calm_pending. f_equal; vm_compute; reflexivity. Qed.

Lemma threads_refine_scheduler_witness :
  spec_trace (abstract calm_start) [Starts "hourly" "schedule"]
    {| sp_jobs := jobs_map (sc_jobs calm); sp_scan := ∅; sp_pending := calm_pending;
       sp_live := {["hourly"]} |}.
Proof.
  destruct calm_shown as (acts & Hs & Ha). rewrite Ha in Hs. rewrite <- calm_abstract.
  exact (proj1 (threads_refine_scheduler utc calm_start _ calm_launched calm_fresh Hs)).
Defined.
