(* ===== verification/Occurrences.v ===== *)
(** * Which occurrences of a schedule are run, over a whole execution

    The interleaving of SchedulerSteps with the turns of the loop recorded:
    over any execution, which jobs of the configuration a turn chooses to
    launch, by the occurrences of their schedules since the turn before. *)

From stdpp Require Import base option list strings gmap relations.
From Stdlib Require Import Ascii ZArith Lia.
From S2P Require Import Prelude CppLib Double Cron SharedState Config Database ProcessRunner.
From S2P Require Import Scheduler Sections Locked SchedulerSteps SchedulerSpec.

Open Scope string_scope.
Open Scope list_scope.

#[local] Opaque Cron.next_after Cron.prev_before.

Section Trace.
Context (localtime : Z -> tm) {sq : Sqlite}.

(** A turn's choice: the wall clock it read, what it decided to launch, and
    the states in which it began and ended to decide. *)
Record Choice := {
  at_wall : Z;
  chosen : list (Job * string);
  before_pick : Scheduler;
  after_pick : Scheduler
}.

(** What a step shows: the loop choosing, or nothing. *)
Definition choice_of (y y' : System) : list Choice :=
  match phase y, phase y' with
  | PPick w, PLaunch ls =>
      [{| at_wall := w; chosen := ls; before_pick := sched y; after_pick := sched y' |}]
  | _, _ => []
  end.

(** An execution and the choices made in it, oldest first. *)
Inductive traced : System -> list Choice -> System -> Prop :=
| traced_refl y : traced y [] y
| traced_next y y1 cs y2 :
    step localtime y (Running y1) -> traced y1 cs y2 -> traced y (choice_of y y1 ++ cs) y2.

Lemma traced_inv y cs y' : inv y -> traced y cs y' -> inv y'.
Proof. intros Hi H. induction H as [y|y y1 cs y2 Hs _ IH]; [done|]. apply IH. by eapply step_inv. Qed.

(** ** A job of the configuration stays, with its next run *)

Definition configured (j : Job) (s : Scheduler) : Prop :=
  j ∈ sc_jobs s /\ job_source j <> "ui".

Definition same_job (j : Job) (s s' : Scheduler) : Prop :=
  (j ∈ sc_jobs s -> j ∈ sc_jobs s') /\
  sc_next_run s' !! job_name j = sc_next_run s !! job_name j.

Lemma caller_same_job j c s c' s' :
  NoDup (names_of (sc_jobs s)) -> configured j s -> caller_ok c s ->
  caller_step localtime (c, s) (c', s') -> same_job j s s'.
Proof.
  intros Hn [Hj Hui] Hok Hs. unfold same_job.
  destruct (caller_step_cases localtime c s c' s' Hs Hok) as (_ & _ &
    [(Ej & En & _)|[(now & i & _ & Hf & _ & Ej & _ & En)|(n & i & _ & Hf & Hi & Ej & _ & En)]]).
  - split; congruence.
  - split; [rewrite Ej, elem_of_app; by left|]. rewrite En.
    assert (job_name i <> job_name j).
    { intros E. apply find_in_None in Hf. apply Hf. rewrite E.
      apply list_elem_of_In, in_map, list_elem_of_In, Hj. }
    unfold schedule_next. destruct (job_schedule i); [|done]. destruct (next_after _ _ _); [|done].
    by rewrite lookup_insert_ne.
  - assert (job_name j <> n).
    { intros <-. unfold find_job in Hf. rewrite (find_in_unique _ _ Hn Hj) in Hf. congruence. }
    split; [rewrite Ej, without_job_elem; tauto|]. by rewrite En, lookup_delete_ne.
Qed.

(** Every step but the choice: a section of the loop that reads no flag, one
    that reads flags and leaves everything but the tasks, or another thread. *)
Lemma step_not_choice y y' :
  inv y -> step localtime y (Running y') -> choice_of y y' = [] ->
  (exists ph s ws, y' = moved ph s ws y /\ loop_section localtime (phase y) (sched y) (Some (ph, s, ws))) \/
  only_tasks (sched y, workers y) (sched y', workers y') \/
  worker_step (sched y, workers y) (sched y', workers y') \/
  caller_step localtime (caller y, sched y) (caller y', sched y') \/
  outside_step (sched y) (sched y').
Proof.
  intros Hi Hs Ho. pose proof (inv_workers _ Hi) as Hw. pose proof (inv_names _ Hi) as Hn.
  inversion Hs as [c Hl|s ws Hwk|c s Hr|sts z Hk Hc|s Hx]; subst; clear Hs; cbn [sched workers caller] in *; auto.
  - inversion Hl as [ph s ws Hl'| |z Hp H|wall ls z Hp H|sts z Hp H]; subst; clear Hl; unfold read_by in *;
      cbn [sched phase] in *.
    + left. by exists ph, s, ws.
    + right; left. destruct z. by apply reaps_frame.
    + unfold choice_of in Ho. by rewrite Hp in Ho.
    + right; left. destruct z. by apply (copies_frame _ sts).
  - right; left. destruct z. by apply (copies_frame _ sts).
Qed.

(** Every step but the choice keeps the job and its next run. *)
Lemma step_same_job j y y' :
  inv y -> configured j (sched y) -> step localtime y (Running y') ->
  choice_of y y' = [] -> same_job j (sched y) (sched y').
Proof.
  intros Hi Hc Hs Ho.
  destruct (step_not_choice y y' Hi Hs Ho) as [(ph & s & ws & -> & Hl)|[(r & N & [= E _] & _)|[Hw|[Hr|Hx]]]].
  - destruct (loop_section_cases _ _ _ _ _ _ Hl) as (Ej & _ & En & _). split; cbn; congruence.
  - by rewrite E.
  - destruct (worker_step_keeps _ _ _ _ Hw) as (Ej & En & _). split; congruence.
  - exact (caller_same_job j (caller y) _ (caller y') _ (inv_names _ Hi) Hc (inv_caller _ Hi) Hr).
  - destruct (outside_step_frame _ _ Hx). split; congruence.
Qed.

(** The choice itself. *)
Lemma step_choice y y' c cs :
  step localtime y (Running y') -> choice_of y y' = c :: cs ->
  cs = [] /\ before_pick c = sched y /\ after_pick c = sched y' /\ phase y = PPick (at_wall c) /\
  picks localtime (at_wall c) (sched y, workers y) (chosen c) (sched y', workers y').
Proof.
  intros Hs. unfold choice_of.
  inversion Hs as [c0 Hl|s ws Hw|c0 s Hr|sts z Hk Hc|s Hx]; subst; clear Hs; cbn [sched phase];
    try (by destruct (phase y)).
  inversion Hl as [ph s ws Hl'| |z Hp H|wall ls z Hp H|sts z Hp H]; subst; clear Hl; unfold moved, read_by;
    cbn [sched phase workers]; try (by rewrite Hp).
  - inversion Hl' as [s0 wall sn| | | | |]; subst; try discriminate.
  - rewrite Hp. intros [= <- <-]. cbn [at_wall chosen before_pick after_pick]. by destruct z.
Qed.

(** What it makes of a job. *)
Lemma choice_job j wall x ls z ph c :
  inv {| sched := fst x; phase := ph; workers := snd x; caller := c |} ->
  picks localtime wall x ls z -> j ∈ sc_jobs (fst x) ->
  sc_jobs (fst z) = sc_jobs (fst x) /\
  sc_next_run (fst z) !! job_name j = advanced localtime wall (sc_next_run (fst x)) j /\
  ((j, "schedule") ∈ ls -> is_due wall (sc_next_run (fst x)) j = true /\ is_running (fst z) (job_name j) = false) /\
  (is_due wall (sc_next_run (fst x)) j = true -> is_running (fst x) (job_name j) = false -> (j, "schedule") ∈ ls) /\
  length (List.filter (scheduled_launch (job_name j)) ls) <= 1.
Proof.
  intros Hi Hp Hj.
  destruct (picks_spec localtime wall _ _ _ (inv_workers _ Hi) (inv_names _ Hi) Hp)
    as (N & d & reqs & fs & nr & [Hr -> -> Hs Hf Hin _]).
  assert (Hreq : forall l, l ∈ reqs -> snd l <> "schedule").
  { intros l Hl. destruct (sorted_takes _ _ _ _ _ _ Hs Hl) as (Hq & _). pose proof (inv_triggers _ Hi) as Ht.
    rewrite Forall_forall in Ht. exact (Ht _ Hq). }
  split_and!; [done|by apply Hin| | |].
  - intros [Hl|Hl]%elem_of_app; [by destruct (Hreq _ Hl)|].
    destruct (fired_takes _ _ _ _ _ _ _ Hf Hl) as (_ & _ & Hd & Hi'). by split.
  - intros Hd Hi'. apply elem_of_app. right. by apply (fi_all _ _ _ _ _ _ Hf).
  - rewrite List.filter_app, length_app, (schedule_entries_none _ _ Hreq). cbn.
    etrans; [apply sublist_length, filter_sublist, (fi_due _ _ _ _ _ _ Hf)|].
    apply schedule_entries_le, (inv_names _ Hi).
Qed.

(** ** Coverage *)

(** The schedule has an occurrence after [p], up to [w]. *)
Definition occurs (sched : CronSchedule) (p w : Z) : Prop :=
  exists t, (p < t <= w)%Z /\ aligned t /\ matches_at localtime sched t = true.

(** Each choice against the interval since the one before ([p], for the
    first): if the schedule of the job occurred in the interval and no run of
    it is in progress as the choice begins, it is among what is launched by
    schedule; it is so at most once, and only if its schedule occurred and no
    run of it is in progress as the choice ends.  (A run that ends meanwhile
    may be seen or not.) *)
Fixpoint covers (j : Job) (sched : CronSchedule) (p : Z) (cs : list Choice) : Prop :=
  match cs with
  | [] => True
  | c :: cs' =>
      (occurs sched p (at_wall c) -> is_running (before_pick c) (job_name j) = false ->
         (j, "schedule") ∈ chosen c) /\
      ((j, "schedule") ∈ chosen c ->
         occurs sched p (at_wall c) /\ is_running (after_pick c) (job_name j) = false) /\
      length (List.filter (scheduled_launch (job_name j)) (chosen c)) <= 1 /\
      covers j sched (at_wall c) cs'
  end.

(** The clock does not go back, and the search for the next occurrence finds
    one whenever a turn looks. *)
Fixpoint clock_ok (sched : CronSchedule) (p : Z) (cs : list Choice) : Prop :=
  is_Some (next_after localtime sched p) /\
  match cs with
  | [] => True
  | c :: cs' => (p <= at_wall c)%Z /\ clock_ok sched (at_wall c) cs'
  end.

Lemma traced_covers j sched p y cs y' :
  inv y -> configured j (SchedulerSteps.sched y) -> job_schedule j = Some sched -> (0 <= p)%Z ->
  sc_next_run (SchedulerSteps.sched y) !! job_name j = next_after localtime sched p ->
  traced y cs y' -> clock_ok sched p cs -> covers j sched p cs.
Proof.
  intros Hi Hc Hs Hp Hn Ht. revert p Hp Hi Hc Hn.
  induction Ht as [y|y y1 cs y2 Hst _ IH]; intros p Hp Hi Hc Hn Hck; [exact I|].
  pose proof (step_inv localtime _ _ Hi Hst) as Hi1.
  destruct (choice_of y y1) as [|c l] eqn:Ec.
  - destruct (step_same_job j y y1 Hi Hc Hst Ec) as [Hj1 Hn1].
    apply IH; [exact Hp|exact Hi1| |congruence|exact Hck]. destruct Hc. split; auto.
  - destruct (step_choice _ _ _ _ Hst Ec) as (-> & Eb & Ea & Hph & Hpk).
    cbn [app] in *. destruct Hck as [[t Hnt] [Hle Hck]]. destruct Hc as [Hj Hui].
    set (w := at_wall c) in *. set (s := SchedulerSteps.sched y) in *.
    assert (Hi0 : inv {| SchedulerSteps.sched := s; phase := phase y; workers := workers y; caller := caller y |})
      by (destruct y; exact Hi).
    destruct (choice_job j w (s, workers y) (chosen c) (SchedulerSteps.sched y1, workers y1) _ _ Hi0 Hpk Hj)
      as (Ej & Enr & Hch & Hall & Hl). cbn [fst snd] in *.
    assert (Hdue : is_due w (sc_next_run s) j = true <-> occurs sched p w).
    { unfold is_due. rewrite Hs, Hn, Hnt, Z.leb_le. unfold occurs.
      rewrite <- (next_after_occurs localtime sched p w t) by (done || lia). done. }
    cbn [covers]. rewrite Eb, Ea. split_and!.
    + intros Ho. by apply Hall, Hdue.
    + intros Hin. destruct (Hch Hin) as [Hd Hr]. split; [by apply Hdue|exact Hr].
    + exact Hl.
    + apply IH; [lia|exact Hi1| | |exact Hck]; [split; [by rewrite Ej|exact Hui]|].
      assert (Ed : is_due w (sc_next_run s) j = (t <=? w)%Z) by (unfold is_due; by rewrite Hs, Hn, Hnt).
      rewrite Enr. unfold advanced. rewrite Hs, Ed. destruct (Z.leb_spec t w); [reflexivity|].
      rewrite Hn, Hnt. symmetry. by apply (next_after_later localtime sched p).
Qed.

(** ** A request for a job of the configuration stays queued *)

Definition queued (j : Job) (tr : string) (s : Scheduler) : Prop :=
  (job_name j, tr) ∈ sc_queue s.

(** Every step but the choice keeps the request. *)
Lemma step_queued j tr y y' :
  inv y -> queued j tr (sched y) -> step localtime y (Running y') -> choice_of y y' = [] ->
  queued j tr (sched y').
Proof.
  unfold queued. intros Hi Hq Hs Ho.
  destruct (step_not_choice y y' Hi Hs Ho) as [(ph & s & ws & -> & Hl)|[(r & N & [= E _] & _)|[Hw|[Hr|Hx]]]].
  - destruct (loop_section_cases _ _ _ _ _ _ Hl) as (_ & _ & _ &
      [(_ & _ & _ & extra & E & _)|(l & ls & run & b & evs & ts & _ & _ & _ & _ & E & _)]); cbn; rewrite E;
      [apply elem_of_app; by left|done].
  - by rewrite E.
  - by destruct (worker_step_keeps _ _ _ _ Hw) as (_ & _ & -> & _).
  - destruct (caller_step_cases localtime _ _ _ _ Hr (inv_caller _ Hi)) as (_ & _ &
      [(_ & _ & extra & -> & _)|[(now & i & _ & _ & _ & _ & -> & _)|(n & i & _ & _ & _ & _ & -> & _)]]);
      [apply elem_of_app; by left|done|done].
  - by destruct (outside_step_frame _ _ Hx) as [_ _ _ _ -> _].
Qed.

(** The choice launches it, or defers it because the job is running. *)
Lemma pick_queued j tr wall x ls z ph c :
  inv {| sched := fst x; phase := ph; workers := snd x; caller := c |} ->
  picks localtime wall x ls z -> j ∈ sc_jobs (fst x) -> queued j tr (fst x) ->
  (j, tr) ∈ ls \/ queued j tr (fst z) /\ is_running (fst x) (job_name j) = true.
Proof.
  intros Hi Hp Hj Hq.
  destruct (picks_spec localtime wall _ _ _ (inv_workers _ Hi) (inv_names _ Hi) Hp)
    as (N & d & reqs & fs & nr & [Hr -> -> Hs Hf Hin _]).
  assert (Hfj : find_job (job_name j) (fst x) = Some j) by (apply find_in_unique; [exact (inv_names _ Hi)|done]).
  destruct (sorted_request _ _ _ _ _ _ _ _ Hs Hfj Hq) as [Hd|Hl].
  - right. split; [exact Hd|]. exact (sorted_defers _ _ _ _ _ _ Hs Hd).
  - left. apply elem_of_app. by left.
Qed.

Lemma queued_until_launched j tr y cs y' :
  inv y -> configured j (sched y) -> queued j tr (sched y) -> traced y cs y' ->
  (exists c, c ∈ cs /\ (j, tr) ∈ chosen c) \/
  (queued j tr (sched y') /\
   Forall (fun c => is_running (before_pick c) (job_name j) = true) cs).
Proof.
  intros Hi Hc Hq Ht. revert Hi Hc Hq.
  induction Ht as [y|y y1 cs y2 Hst _ IH]; intros Hi Hc Hq; [by right|].
  pose proof (step_inv localtime _ _ Hi Hst) as Hi1. pose proof (inv_names _ Hi) as Hn.
  destruct (choice_of y y1) as [|c l] eqn:Ec.
  - destruct (step_same_job j y y1 Hi Hc Hst Ec) as [Hj1 _]. destruct Hc as [Hj Hui].
    apply IH; [exact Hi1|split; auto|by eapply (step_queued j tr y)].
  - destruct (step_choice _ _ _ _ Hst Ec) as (-> & Eb & _ & _ & Hpk). destruct Hc as [Hj Hui]. cbn [app].
    assert (Hi0 : inv {| sched := sched y; phase := phase y; workers := workers y; caller := caller y |})
      by (destruct y; exact Hi).
    destruct (pick_queued j tr _ (sched y, workers y) _ _ _ _ Hi0 Hpk Hj Hq) as [Hl|[Hq1 Hr]];
      [left; exists c; by split; [left|]|]. cbn [fst] in *.
    destruct (choice_job j _ (sched y, workers y) _ _ _ _ Hi0 Hpk Hj) as (Ej & _).
    destruct IH as [(c' & Hin & Hc')|[Hq2 Hf]]; [exact Hi1| |exact Hq1| |].
    + split; [|exact Hui]. cbn [fst] in Ej. by rewrite Ej.
    + left. exists c'. split; [by right|exact Hc'].
    + right. split; [exact Hq2|]. constructor; [by rewrite Eb|exact Hf].
Qed.

(** A job whose next run the search did not find is never due again: nothing
    looks for it later. *)
Lemma unscheduled_stays j y cs y' :
  inv y -> configured j (sched y) -> sc_next_run (sched y) !! job_name j = None ->
  traced y cs y' -> Forall (fun c => (j, "schedule") ∉ chosen c) cs.
Proof.
  intros Hi Hc Hn Ht. revert Hi Hc Hn.
  induction Ht as [y|y y1 cs y2 Hst _ IH]; intros Hi Hc Hn; [constructor|].
  pose proof (step_inv localtime _ _ Hi Hst) as Hi1. pose proof (inv_names _ Hi) as Hnd.
  destruct (choice_of y y1) as [|c l] eqn:Ec.
  - destruct (step_same_job j y y1 Hi Hc Hst Ec) as [Hj1 Hn1]. destruct Hc as [Hj Hui].
    apply IH; [exact Hi1|split; auto|congruence].
  - destruct (step_choice _ _ _ _ Hst Ec) as (-> & _ & _ & _ & Hpk). destruct Hc as [Hj Hui]. cbn [app].
    assert (Hi0 : inv {| sched := sched y; phase := phase y; workers := workers y; caller := caller y |})
      by (destruct y; exact Hi).
    destruct (choice_job j _ (sched y, workers y) _ _ _ _ Hi0 Hpk Hj) as (Ej & Enr & Hch & _).
    cbn [fst] in *.
    assert (Hd : is_due (at_wall c) (sc_next_run (sched y)) j = false)
      by (unfold is_due; rewrite Hn; by destruct (job_schedule j)).
    constructor.
    + intros [Hd' _]%Hch. congruence.
    + apply IH; [exact Hi1|split; [by rewrite Ej|exact Hui]|].
      rewrite Enr. unfold advanced. rewrite Hd. by destruct (job_schedule j).
Qed.
End Trace.

(** ** Properties *)

(** C1: turns cover the occurrences of a schedule.  Over any execution, under
    every interleaving of the loop, the workers and the clients, every turn
    that finds that the schedule of a job of the configuration had an
    occurrence since the turn before, and that the job is not running as it
    begins to choose, chooses the job to launch by its schedule, once, however
    many occurrences there were; it chooses it only if there was one and the
    job is not running as it ends to choose, so no occurrence is chosen twice,
    and those that pass while the job runs are skipped.  And what is chosen is
    started: in whatever state the execution is with launches left, they are
    started in their order, before the loop does anything else, if the
    execution goes on (the loop may end the process at one of them).  (The
    clock does not go back; the schedule has an occurrence within the four
    years a search looks ahead.) *)
Theorem turns_cover_occurrences localtime {sq : Sqlite} y cs y' j sched p :
  fresh y -> traced localtime y cs y' ->
  j ∈ sc_jobs (SchedulerSteps.sched y) -> job_source j = "config" ->
  job_schedule j = Some sched -> (0 <= p)%Z ->
  sc_next_run (SchedulerSteps.sched y) !! job_name j = next_after localtime sched p ->
  clock_ok localtime sched p cs ->
  covers localtime j sched p cs /\
  forall ls, phase y' = PLaunch ls -> forall acts y'', shown localtime y' acts y'' ->
    (exists started rest, ls = started ++ rest /\ phase y'' = PLaunch rest /\
       starts acts = map pair_of started) \/
    map pair_of ls `prefix_of` starts acts.
Proof.
  intros Hf Ht Hj Hc Hs Hp Hn Hck. split.
  - apply (traced_covers localtime j sched p y cs y'); auto using fresh_inv.
    split; [done|]. by rewrite Hc.
  - intros ls Hl acts y'' Hsh. apply (launches_started localtime y' acts y'' ls); [|exact Hsh|exact Hl].
    exact (traced_inv localtime _ _ _ (fresh_inv _ Hf) Ht).
Qed.

(** A turn on a scheduler with one job of the configuration. *)
Definition hourly_config : Job := with_source "config" hourly.

Definition at_turn (wall : Z) : System :=
  {| SchedulerSteps.sched := with_last_wall wall (with_jobs [hourly_config] calm);
     phase := PPick wall; workers := []; caller := Idle |}.

Definition after_turn (wall : Z) : System :=
  {| SchedulerSteps.sched := fst (pick utc wall (SchedulerSteps.sched (at_turn wall)));
     phase := PLaunch (snd (pick utc wall (SchedulerSteps.sched (at_turn wall)))); workers := []; caller := Idle |}.

(** A step of the loop that is no choice. *)
Lemma traced_loop localtime {sq : Sqlite} ph s ph' s' cs y :
  loop_step localtime {| SchedulerSteps.sched := s; phase := ph; workers := []; caller := Idle |}
    (Running {| SchedulerSteps.sched := s'; phase := ph'; workers := []; caller := Idle |}) ->
  match ph, ph' with PPick _, PLaunch _ => False | _, _ => True end ->
  traced localtime {| SchedulerSteps.sched := s'; phase := ph'; workers := []; caller := Idle |} cs y ->
  traced localtime {| SchedulerSteps.sched := s; phase := ph; workers := []; caller := Idle |} cs y.
Proof.
  intros Hl Hp Ht. replace cs with (choice_of
    {| SchedulerSteps.sched := s; phase := ph; workers := []; caller := Idle |}
    {| SchedulerSteps.sched := s'; phase := ph'; workers := []; caller := Idle |} ++ cs)
    by (unfold choice_of; cbn; by destruct ph, ph').
  eapply traced_next; [|exact Ht]. by apply ByLoop.
Qed.

(** A choice of the loop, with nothing in between. *)
Definition choice_at (localtime : Z -> tm) (wall : Z) (s : Scheduler) : Choice :=
  {| at_wall := wall; chosen := snd (pick localtime wall s); before_pick := s;
     after_pick := fst (pick localtime wall s) |}.

Lemma traced_pick localtime {sq : Sqlite} s wall :
  traced localtime {| SchedulerSteps.sched := s; phase := PPick wall; workers := []; caller := Idle |}
    [choice_at localtime wall s]
    {| SchedulerSteps.sched := fst (pick localtime wall s);
       phase := PLaunch (snd (pick localtime wall s)); workers := []; caller := Idle |}.
Proof.
  set (y' := {| SchedulerSteps.sched := fst (pick localtime wall s);
    phase := PLaunch (snd (pick localtime wall s)); workers := []; caller := Idle |}).
  assert (Hs : step localtime {| SchedulerSteps.sched := s; phase := PPick wall; workers := [];
                                 caller := Idle |} (Running y'))
    by (apply ByLoop, pick_step).
  exact (traced_next localtime _ y' [] y' Hs (traced_refl localtime y')).
Qed.

(** An idle turn up to its choice, when no scan is due. *)
Lemma quiet_turn localtime {sq : Sqlite} s wall :
  scans_on_wake wall (reap_finished s) = false ->
  let s' := wake_flags wall (reap_finished s) in
  traced localtime {| SchedulerSteps.sched := s; phase := PReap; workers := []; caller := Idle |}
    [choice_at localtime wall s']
    {| SchedulerSteps.sched := fst (pick localtime wall s');
       phase := PLaunch (snd (pick localtime wall s')); workers := []; caller := Idle |}.
Proof.
  intros Hw s'. apply (traced_loop localtime PReap s PWake (reap_finished s)); [apply reap_step|exact I|].
  apply (traced_loop localtime PWake _ (PPick wall) s'); [|exact I|apply traced_pick].
  pose proof (StepWake localtime (reap_finished s) wall wall) as H. rewrite Hw in H.
  exact (section_step localtime _ [] Idle _ _ _ [] H).
Qed.

Definition configured_start : System :=
  {| SchedulerSteps.sched := with_jobs [hourly_config] calm; phase := PReap; workers := [];
     caller := Idle |}.

Lemma configured_fresh s :
  sc_running s = ∅ -> sc_jobs s = [hourly_config] -> sc_queue s = [] ->
  fresh {| SchedulerSteps.sched := s; phase := PReap; workers := []; caller := Idle |}.
Proof.
  intros Er Ej Eq. refine (conj Er (conj eq_refl (conj eq_refl (conj (or_introl eq_refl) (conj _ _)))));
    cbn [SchedulerSteps.sched]; [rewrite Ej; apply NoDup_singleton|by rewrite Eq].
Qed.

Lemma one_turn :
  exists cs, traced utc configured_start cs (after_turn 1700038860) /\
    map at_wall cs = [1700038860%Z] /\
    Forall (fun c => before_pick c = SchedulerSteps.sched (at_turn 1700038860)) cs.
Proof.
  eexists. split; [|split].
  - assert (E : SchedulerSteps.sched (at_turn 1700038860) =
      wake_flags 1700038860 (reap_finished (with_jobs [hourly_config] calm)))
      by (vm_compute; reflexivity).
    unfold after_turn. rewrite E. apply quiet_turn. vm_compute. reflexivity.
  - reflexivity.
  - constructor; [|constructor]. vm_compute. reflexivity.
Qed.

Lemma turns_cover_occurrences_witness :
  exists c, at_wall c = 1700038860%Z /\ (hourly_config, "schedule") ∈ chosen c.
Proof.
  destruct one_turn as (cs & Ht & Hw & Hb).
  destruct cs as [|c [|]]; try discriminate Hw. injection Hw as Hw.
  exists c. split; [exact Hw|].
  assert (Hc : covers utc hourly_config (sched_of "0 * * * *") 1700035200 [c]).
  { refine (proj1 (turns_cover_occurrences utc _ _ _ _ _ _ _ Ht _ _ _ _ _ _)).
    - by apply configured_fresh.
    - left.
    - reflexivity.
    - reflexivity.
    - lia.
    - vm_compute. reflexivity.
    - cbn [clock_ok]. rewrite Hw. split; [eexists; vm_compute; reflexivity|].
      split; [lia|]. split; [eexists; vm_compute; reflexivity|exact I]. }
  destruct Hc as [Hc _]. apply Hc; apply Forall_inv in Hb; rewrite ?Hb, ?Hw.
  - exists 1700038800%Z. split; [lia|]. split; [by exists 28333980%Z|vm_compute; reflexivity].
  - vm_compute. reflexivity.
Defined.

(** C7: a request is kept until a turn chooses it: once a run of a job of the
    configuration is queued (by a client, or because it was missed), then over
    any execution, under every interleaving, either a turn of the loop has
    chosen to launch the job with the trigger of the request, or the request is
    still queued and the job was running as each turn so far began to choose. *)
Theorem requests_are_served localtime {sq : Sqlite} y0 y cs y' j tr :
  fresh y0 -> steps localtime (Running y0) (Running y) ->
  j ∈ sc_jobs (SchedulerSteps.sched y) -> job_source j = "config" ->
  (job_name j, tr) ∈ sc_queue (SchedulerSteps.sched y) -> traced localtime y cs y' ->
  (exists c, c ∈ cs /\ (j, tr) ∈ chosen c) \/
  ((job_name j, tr) ∈ sc_queue (SchedulerSteps.sched y') /\
   Forall (fun c => is_running (before_pick c) (job_name j) = true) cs).
Proof.
  intros Hf Hs Hj Hc Hq Ht. apply (queued_until_launched localtime j tr y cs y'); auto.
  - exact (steps_inv localtime _ _ (fresh_inv _ Hf) Hs).
  - split; [done|]. by rewrite Hc.
Qed.

(** A request made before the turn on [hourly_config], with no next run. *)
Definition before_asking : System :=
  {| SchedulerSteps.sched := with_next_run ∅ (with_last_wall 1700038860 (with_jobs [hourly_config] calm));
     phase := PReap; workers := []; caller := Idle |}.

Definition asked : System :=
  {| SchedulerSteps.sched := snd (request_run "hourly" (SchedulerSteps.sched before_asking));
     phase := PReap; workers := []; caller := Idle |}.

Lemma asking_steps : steps utc (Running before_asking) (Running asked).
Proof. apply (call_steps utc before_asking _ Idle _ eq_refl), request_run_sections. Qed.

Lemma requests_are_served_witness :
  exists cs y', traced utc asked cs y' /\ exists c, c ∈ cs /\ (hourly_config, "manual") ∈ chosen c.
Proof.
  assert (Ht : exists cs y', traced utc asked cs y' /\ sc_queue (SchedulerSteps.sched y') = []).
  { do 2 eexists. split; [apply (quiet_turn utc _ 1700038860); vm_compute; reflexivity|].
    vm_compute. reflexivity. }
  destruct Ht as (cs & y' & Ht & Hq). exists cs, y'. split; [exact Ht|].
  destruct (requests_are_served utc before_asking asked cs y' hourly_config "manual")
    as [H|[H _]]; [| | | | |exact Ht|exact H|].
  - by apply configured_fresh.
  - exact asking_steps.
  - left.
  - reflexivity.
  - left.
  - rewrite Hq in H. by apply not_elem_of_nil in H.
Defined.
