(* ===== verification/Restart.v ===== *)
(** * A restart (daemon/src/jobs/scheduler.cpp, the constructor and start)

    A scheduler constructed on a database file and started: its jobs have
    distinct names, its threads begin in a fresh state, and it recovers the
    runs that were missed while the daemon was down.  The scan of the loop
    after a wake-up, which the same argument covers, recovers those missed
    while the computer slept. *)

From stdpp Require Import base option list strings gmap.
From Stdlib Require Import Ascii ZArith Lia.
From S2P Require Import Prelude CppLib Double Cron SharedState Config Database ProcessRunner.
From S2P Require Import Scheduler Sections Locked SchedulerSteps Occurrences.

Open Scope string_scope.
Open Scope list_scope.

#[local] Opaque Cron.next_after Cron.prev_before.

(** ** What the constructor builds *)

Lemma job_from_def_name d j : job_from_def d = Ret j -> job_name j = def_name d.
Proof.
  unfold job_from_def. destruct (if str_empty _ then _ else _); cbn; [|done..]. by intros [= <-].
Qed.

Lemma merge_names defs jobs jobs' :
  NoDup (names_of jobs) -> for_each merge_def defs jobs = Ret jobs' -> NoDup (names_of jobs').
Proof.
  revert jobs. induction defs as [|d defs IH]; intros jobs Hn; cbn [for_each]; [by intros [= <-]|].
  destruct (merge_def d jobs) as [jobs1| | |] eqn:Em; cbn [mbind outcome_mbind]; try discriminate.
  unfold merge_def in Em. destruct (find_in (def_name d) jobs) as [i|] eqn:Ef.
  { injection Em as <-. by apply IH. }
  destruct (job_from_def d) as [j| | |] eqn:Ej; cbn in Em; try discriminate. injection Em as <-.
  apply IH. unfold names_of. rewrite map_app. apply NoDup_app. split_and!; [exact Hn| |apply NoDup_singleton].
  intros n Hin [= ->]%list_elem_of_singleton. apply find_in_None in Ef.
  by rewrite (job_from_def_name d j Ej) in Hin.
Qed.

(** The last run of each job is the first row the query yields. *)
Lemma load_lasts_lookup {sq : Sqlite} jobs db m m' n :
  for_each (load_last (fun _ => NoFault) db) jobs m = Ret m' ->
  (n ∈ names_of jobs -> last_run NoFault n db = Ret (m' !! n) \/
     (last_run NoFault n db = Ret None /\ m' !! n = m !! n)) /\
  (n ∉ names_of jobs -> m' !! n = m !! n).
Proof.
  revert m. induction jobs as [|j jobs IH]; intros m; cbn [for_each names_of map].
  { intros [= <-]. split; [by intros ?%not_elem_of_nil|done]. }
  assert (El : exists r, last_run NoFault (job_name j) db = Ret r) by (unfold last_run, run_query; cbn; eauto).
  destruct El as [r El].
  set (m1 := match r with Some run => <[job_name j := run]> m | None => m end).
  assert (E1 : load_last (fun _ => NoFault) db j m = Ret m1).
  { unfold load_last. rewrite El. unfold m1. by destruct r. }
  rewrite E1.
  cbn [mbind outcome_mbind]. intros E. destruct (IH m1 E) as [IH1 IH2].
  fold (names_of jobs). split.
  - intros Hn%elem_of_cons. destruct (decide (n ∈ names_of jobs)) as [Hin|Hout].
    + destruct (IH1 Hin) as [H|[H Hm]]; [by left|]. destruct (decide (n = job_name j)) as [->|Hne].
      * right. split; [exact H|]. rewrite Hm. unfold m1. rewrite El in H. by injection H as ->.
      * right. split; [exact H|]. rewrite Hm. unfold m1. destruct r; [by rewrite lookup_insert_ne|done].
    + destruct Hn as [->|]; [|done]. rewrite (IH2 Hout), El. unfold m1.
      destruct r; [left; by rewrite lookup_insert_eq|by right].
  - intros [Hne Hout]%not_elem_of_cons. rewrite (IH2 Hout). unfold m1. destruct r; [by rewrite lookup_insert_ne|done].
Qed.

(** The last run against the stored ones. *)
Lemma last_run_before {sq : Sqlite} {L : SqliteLaws sq} name db r p :
  last_run NoFault name db = Ret r ->
  (match r with Some x => run_started_at x < p | None => True end)%Z <->
  (forall x, x ∈ runs_of name db -> run_started_at x < p)%Z.
Proof.
  destruct (last_run_newest name db) as (out & -> & Hn). intros [= <-].
  destruct (newest_head run_started_at run_id 0 _ _ Hn) as [[-> ->]|(x & -> & Hx & Hm)].
  - split; [intros _ x Hx; by apply not_elem_of_nil in Hx|done].
  - split; [|auto]. intros Hp y Hy. destruct (Hm y Hy) as [->|Hne]; [exact Hp|].
    unfold newer, newest_first in Hne. rewrite orb_true_iff, andb_true_iff in Hne. lia.
Qed.

(** ** The database decides what was missed *)

(** The latest occurrence of the job's schedule has no stored run that
    started at it or since. *)
Definition missed_run (localtime : Z -> tm) (now : Z) (db : Tables) (j : Job) : Prop :=
  job_missed_run_policy j <> NoPolicy /\
  exists sched p, job_schedule j = Some sched /\ is_prev localtime sched now p /\ (0 < p)%Z /\
    forall r, r ∈ runs_of (job_name j) db -> (run_started_at r < p)%Z.

Section Restart.
Context (localtime : Z -> tm) {sq : Sqlite} {L : SqliteLaws sq}.
Context (cfg : list Job) (db : Tables) (now scan_now : Z) (env : string -> Z * fault).
Context (st : SharedState) (s : Scheduler).
Context (Hcfg : NoDup (names_of cfg)).
Context (Hs : make_scheduler localtime cfg (Some db) now NoFault (fun _ => NoFault) st = Ret s).

Lemma made :
  NoDup (names_of (sc_jobs s)) /\ sc_db s = db /\ sc_queue s = [] /\ sc_running s = ∅ /\
  sc_missed_handled s = ∅ /\ sc_active s = false /\
  forall j, j ∈ sc_jobs s -> last_run NoFault (job_name j) db = Ret (sc_last_runs s !! job_name j).
Proof.
  unfold make_scheduler, load_job_defs, run_query, migrate in Hs. cbn [mbind outcome_mbind default] in Hs.
  destruct (for_each merge_def _ cfg) as [jobs| | |] eqn:Em; cbn [mbind outcome_mbind] in Hs; try discriminate.
  destruct (for_each (load_last _ _) jobs ∅) as [lasts| | |] eqn:El; cbn [mbind outcome_mbind] in Hs;
    try discriminate.
  injection Hs as <-. cbn. split_and!; try done; [by eapply merge_names|].
  intros j Hj. destruct (load_lasts_lookup jobs db ∅ lasts (job_name j) El) as [H _].
  destruct H as [H|[H Hn]]; [|exact H|].
  - apply list_elem_of_In, (in_map job_name), list_elem_of_In, Hj.
  - refine (eq_trans H _). rewrite Hn. reflexivity.
Qed.

Lemma started_queue :
  sc_queue (start localtime now scan_now env s) =
    map (fun j => (job_name j, "missed"))
      (List.filter (is_missed localtime scan_now s) (List.filter is_candidate (sc_jobs s))) /\
  scan_frame (with_last_wall now (with_active true s)) (start localtime now scan_now env s).
Proof.
  destruct made as (Hn & _ & Hq & _ & _ & Ha & _). unfold start. rewrite Ha.
  set (s0 := with_last_wall now (with_active true s)). unfold scan_missed.
  destruct (scan_fold localtime scan_now env (List.filter is_candidate (sc_jobs s0)) s0
    (names_filter _ _ Hn)) as (Hf & Hq' & _). split; [|exact Hf].
  rewrite Hq'. unfold s0. cbn [sc_queue sc_jobs with_last_wall with_active]. by rewrite Hq.
Qed.

Lemma is_missed_run j :
  (0 <= scan_now)%Z -> j ∈ sc_jobs s ->
  is_candidate j = true /\ is_missed localtime scan_now s j = true <->
  missed_run localtime scan_now db j.
Proof.
  intros Hnow Hj. destruct made as (_ & _ & _ & _ & Hh & _ & Hl).
  unfold is_missed, is_candidate, missed_run. rewrite andb_true_iff, !bool_decide_eq_true.
  pose proof (fun p => last_run_before (job_name j) db _ p (Hl j Hj)) as Hb. split.
  - intros [[_ Hp] [m (sched & Hsc & Hpr & H1 & H2 & H3)%missed_of_Some]]; [|done].
    rewrite Hh, lookup_empty in H3. cbn in H3. split; [exact Hp|]. exists sched, m.
    split_and!; [done|done|done|]. apply Hb.
    destruct (sc_last_runs s !! job_name j); [by apply H1|done].
  - intros (Hp & sched & p & Hsc & Hpr & H0 & Hr). apply Hb in Hr.
    split; [split; [rewrite Hsc; by eexists|exact Hp]|]. exists p. apply missed_of_Some; [done|].
    exists sched. rewrite Hh, lookup_empty. split_and!; try done.
    intros r E. by rewrite E in Hr.
Qed.
End Restart.

(** ** The scan of [start] against the other threads *)

(** A scan has found a missed run of the name and not queued it yet. *)
Definition scan_found (n : string) (c : Scan) : Prop :=
  match c with
  | MissInsert i _ _ | MissPublish i _ _ _ | MissNotify i _ | MissQueue i _ => job_name i = n
  | _ => False
  end.

Definition loop_scan (ph : Phase) : option Scan :=
  match ph with PScan _ _ c => Some c | _ => None end.

Definition start_scan (k : Caller) : option Scan :=
  match k with Starting _ c => Some c | _ => None end.

Section Recovery.
Context (localtime : Z -> tm) {sq : Sqlite} (j : Job) (scan_now p : Z) (last : option RunRecord).

Definition handled (s : Scheduler) : Z := default 0%Z (sc_missed_handled s !! job_name j).

(** A scan has the job before it, or its occurrence is handled. *)
Definition scan_ahead (s : Scheduler) (c : Scan) : Prop :=
  c = Collect \/
  match c with
  | Collect => True
  | Mark i m js => i = j /\ m = p \/ j ∈ js
  | Look js | MissInsert _ _ js | MissPublish _ _ _ js | MissNotify _ js | MissQueue _ js => j ∈ js
  end \/ (p <= handled s)%Z.

(** The scan of [start] or one of the loop, begun at [scan_now], will come to
    the job, or its occurrence is handled. *)
Definition ahead (y : System) : Prop :=
  (exists c, caller y = Starting scan_now c /\ scan_ahead (sched y) c) \/
  (exists wall c, phase y = PScan wall scan_now c /\ scan_ahead (sched y) c) \/
  (p <= handled (sched y))%Z.

(** While no turn has chosen the job: no run of it is in progress or about to
    be, its last run is the stored one, and once its occurrence is handled the
    missed run is queued, or being queued. *)
Record waiting (y : System) : Prop := {
  wt_configured : configured j (sched y);
  wt_running : sc_running (sched y) !! job_name j = None;
  wt_workers w : w ∈ workers y -> w_name w <> job_name j;
  wt_launches ls l : phase y = PLaunch ls -> l ∈ ls -> job_name (fst l) <> job_name j;
  wt_last : sc_last_runs (sched y) !! job_name j = last;
  wt_ahead : ahead y;
  wt_queued : (p <= handled (sched y))%Z ->
    queued j "missed" (sched y) \/
    (exists c, (loop_scan (phase y) = Some c \/ start_scan (caller y) = Some c) /\
               scan_found (job_name j) c)
}.

(** What a section of a scan does to the occurrence handled for the job. *)
Lemma scan_section_handled now ts f c s c' s' :
  scan_section localtime now ts f c s = Some (c', s') ->
  (handled s <= handled s')%Z /\
  (handled s' = handled s \/ scan_found (job_name j) c') /\
  (scan_found (job_name j) c -> scan_found (job_name j) c' \/ queued j "missed" s').
Proof.
  unfold handled.
  destruct c as [|[|i js]|i m js|i m js|i m t js|i js|i js]; cbn [scan_section scan_found].
  - intros [= <- <-]. split_and!; [lia|by left|done].
  - done.
  - destruct (job_schedule i); [destruct (detect_missed_run _ _ _ _)|]; intros [= <- <-];
      (split_and!; [lia|by left|done]).
  - destruct (decide (job_name i = job_name j)) as [E|Hne].
    + rewrite E. destruct (Z.leb_spec m (default 0 (sc_missed_handled s !! job_name j))%Z);
        intros [= <- <-]; cbn; rewrite lookup_insert_eq; cbn; (split_and!; [lia|auto|done]).
    + destruct (_ <=? _)%Z; intros [= <- <-]; cbn; rewrite !lookup_insert_ne by done;
        (split_and!; [lia|by left|done]).
  - intros [= <- <-]. unfold alert_insert, insert_alert, run_update.
    destruct (reject_nan _ _); (split_and!; [cbn; lia|by left|by left]).
  - intros [= <- <-]. split_and!; [cbn; lia|by left|by left].
  - intros [= <- <-]. split_and!; [cbn; lia|by left|by left].
  - intros [= <- <-]. split_and!; [cbn; lia|by left|]. intros E. right. unfold queued. cbn.
    rewrite E. apply elem_of_app. right. left.
Qed.

Lemma scan_ahead_le s s' c : (handled s <= handled s')%Z -> scan_ahead s c -> scan_ahead s' c.
Proof. intros Hle [->|[Ha|Hh]]; [by left|by right; left|right; right; lia]. Qed.

(** Other threads leave a scan's way to the job alone. *)
Lemma ahead_le y s ph ws k :
  (handled (sched y) <= handled s)%Z ->
  (forall c, caller y = Starting scan_now c -> caller y = k) ->
  (forall wall c, phase y = PScan wall scan_now c -> phase y = ph) ->
  ahead y -> ahead {| sched := s; phase := ph; workers := ws; caller := k |}.
Proof.
  intros Hle Hk Hp [(c & E & Ha)|[(wall & c & E & Ha)|Hh]]; unfold ahead; cbn [caller phase sched].
  - left. exists c. rewrite <- (Hk c E). split; [done|by eapply scan_ahead_le].
  - right; left. exists wall, c. rewrite <- (Hp wall c E). split; [done|by eapply scan_ahead_le].
  - right; right. lia.
Qed.

(** A scan begun at [scan_now] finds the job's missed occurrence. *)
Lemma scan_ahead_section ts f c s c' s' sch :
  job_schedule j = Some sch ->
  detect_missed_run localtime sch
    (match last with Some r => run_started_at r | None => 0%Z end) scan_now = Some p ->
  j ∈ sc_jobs s -> is_candidate j = true -> sc_last_runs s !! job_name j = last ->
  scan_section localtime scan_now ts f c s = Some (c', s') ->
  scan_ahead s c -> scan_ahead s' c'.
Proof.
  intros Hsch Hd Hj Hcand Hl Hs. destruct (scan_section_handled _ _ _ _ _ _ _ Hs) as (Hle & _).
  unfold scan_ahead. intros [->|[Ha|Hh]]; [| |right; right; lia].
  - injection Hs as <- <-. right; left. apply list_elem_of_In, filter_In.
    split; [by apply list_elem_of_In|done].
  - destruct c as [|[|i js]|i m js|i m js|i m t js|i js|i js]; cbn [scan_section] in Hs; try done.
    + injection Hs as <- <-. right; left. apply list_elem_of_In, filter_In.
      split; [by apply list_elem_of_In|done].
    + apply elem_of_cons in Ha as [<-|Ha].
      * rewrite Hsch, Hl, Hd in Hs. injection Hs as <- <-. right; left. by left.
      * right; left. clear Hd. revert Hs.
        destruct (job_schedule i); [destruct (detect_missed_run _ _ _ _)|];
          intros [= <- <-]; [by right|done|done].
    + destruct Ha as [[-> ->]|Ha].
      * right; right. unfold handled in *.
        destruct (Z.leb_spec p (default 0 (sc_missed_handled s !! job_name j))%Z);
          injection Hs as <- <-; cbn; rewrite lookup_insert_eq; cbn; lia.
      * right; left. destruct (_ <=? _)%Z; injection Hs as <- <-; done.
    + injection Hs as <- <-. by right; left.
    + injection Hs as <- <-. by right; left.
    + injection Hs as <- <-. by right; left.
    + injection Hs as <- <-. by right; left.
Qed.

(** A state that agrees on the job. *)
Record agrees (s s' : Scheduler) : Prop := {
  ag_jobs : configured j s -> configured j s';
  ag_running : sc_running s !! job_name j = None -> sc_running s' !! job_name j = None;
  ag_last : sc_last_runs s' !! job_name j = sc_last_runs s !! job_name j;
  ag_handled : handled s' = handled s;
  ag_queued : queued j "missed" s -> queued j "missed" s'
}.

Lemma waiting_agrees y s ph ws :
  agrees (sched y) s -> (ph = phase y \/ loop_scan ph = None /\ loop_scan (phase y) = None) ->
  (forall ls l, ph = PLaunch ls -> l ∈ ls -> job_name (fst l) <> job_name j) ->
  (forall w, w ∈ ws -> w_name w <> job_name j) ->
  waiting y -> waiting {| sched := s; phase := ph; workers := ws; caller := caller y |}.
Proof.
  intros [] Hph Hls Hws [Hc Hr Hw Hl Hla Hst Hq]. split; cbn [sched phase workers caller]; auto; try congruence.
  - apply (ahead_le y); [lia|done| |done]. intros wall c E.
    destruct Hph as [->|[_ Hph]]; [done|by rewrite E in Hph].
  - assert (El : loop_scan ph = loop_scan (phase y)) by (destruct Hph as [->|[-> ->]]; done).
    rewrite ag_handled0, El. intros Hp. destruct (Hq Hp) as [H|H]; [left; auto|by right].
Qed.

Context (sch : CronSchedule).
Context (Hsch : job_schedule j = Some sch) (Hcand : is_candidate j = true).
Context (Hd : detect_missed_run localtime sch
  (match last with Some r => run_started_at r | None => 0%Z end) scan_now = Some p).

Lemma waiting_loop_scan y wall now ts f c c' s' :
  phase y = PScan wall now c -> scan_section localtime now ts f c (sched y) = Some (c', s') ->
  waiting y -> waiting (moved (PScan wall now c') s' [] y).
Proof.
  intros Hp Hs [[Hj Hui] Hr Hw Hl Hla Hst Hq].
  destruct (scan_section_grows _ _ _ _ _ _ _ _ Hs) as (Hf & _ & (extra & Eq & _) & _).
  destruct (scan_section_handled _ _ _ _ _ _ _ Hs) as (Hle & Hh & Hfo).
  split; unfold moved; cbn [sched phase workers caller app loop_scan]; auto.
  - split; [by rewrite (frame_jobs _ _ Hf)|done].
  - by rewrite (frame_running _ _ Hf).
  - by rewrite (frame_last _ _ Hf).
  - destruct Hst as [(c0 & E & Ha)|[(wl & c0 & E & Ha)|Hx]]; [left|right; left|right; right; cbn; lia].
    + exists c0. split; [done|by eapply scan_ahead_le].
    + rewrite Hp in E. injection E as <- -> <-. exists wall, c'. split; [done|].
      eapply scan_ahead_section; [exact Hsch|exact Hd|exact Hj|exact Hcand|exact Hla|exact Hs|exact Ha].
  - intros Hp'. destruct Hh as [E|Hfound]; [|right; exists c'; by split; [left|]].
    rewrite E in Hp'. destruct (Hq Hp') as [H|(c0 & [Hc|Hc] & Hfound)].
    + left. unfold queued in *. rewrite Eq. apply elem_of_app. by left.
    + rewrite Hp in Hc. injection Hc as <-. destruct (Hfo Hfound); [right; exists c'; by split; [left|]|by left].
    + right. exists c0. by split; [right|].
Qed.

Lemma waiting_pick y wall ls z :
  inv y -> phase y = PPick wall -> picks localtime wall (sched y, workers y) ls z ->
  (forall tr, (j, tr) ∉ ls) -> waiting y -> waiting (read_by (PLaunch ls) z y).
Proof.
  intros Hi Hp Hpk Hno [[Hj Hui] Hr Hw Hl Hla Hst Hq]. pose proof (inv_names _ Hi) as Hn.
  assert (Hi0 : inv {| sched := sched y; phase := phase y; workers := workers y; caller := caller y |})
    by (destruct y; exact Hi).
  pose proof (pick_queued localtime j "missed" wall (sched y, workers y) ls z _ _ Hi0 Hpk Hj) as Hdef.
  destruct (picks_spec localtime wall (sched y, workers y) ls z (inv_workers _ Hi) Hn Hpk)
    as (N & d & reqs & fs & nr & [Hrd Els -> Hs Hf _ _]).
  cbn [fst snd] in *. unfold queued in *. cbn [sc_queue with_next_run with_queue] in Hdef.
  split; unfold read_by, finished; cbn [sched phase workers caller loop_scan fst snd]; auto.
  - by split.
  - cbn. by rewrite flagged_lookup, Hr.
  - intros w [Hin _]%still_elem. by apply Hw.
  - intros ls' l [= <-] Hin Hname. destruct l as [i tr]. cbn [fst] in Hname.
    assert (Hij : i ∈ sc_jobs (sched y)).
    { rewrite Els in Hin. apply elem_of_app in Hin as [Hin|Hin].
      - by destruct (sorted_takes _ _ _ _ _ _ Hs Hin) as (_ & ? & _).
      - by destruct (fired_takes _ _ _ _ _ _ _ Hf Hin) as (_ & ? & _). }
    assert (i = j) as ->; [|by apply (Hno tr)].
    pose proof (find_in_unique _ _ Hn Hij) as H1. rewrite Hname in H1.
    rewrite (find_in_unique _ _ Hn Hj) in H1. congruence.
  - apply (ahead_le y); [done|done| |done]. intros wl c Ec. by rewrite Hp in Ec.
  - intros Hp'. destruct (Hq Hp') as [H|(c0 & [Hc|Hc] & Hfound)].
    + destruct (Hdef H) as [Hin|[Hin _]]; [by destruct (Hno "missed")|by left].
    + by rewrite Hp in Hc.
    + right. exists c0. by split; [right|].
Qed.

(** Sections that only end workers, or reap them. *)
Lemma waiting_read y z ph k :
  only_tasks (sched y, workers y) z -> phase y = ph \/ loop_scan ph = None /\ loop_scan (phase y) = None ->
  (forall ls, ph = PLaunch ls -> phase y = PLaunch ls) ->
  k = caller y \/ start_scan k = None /\ start_scan (caller y) = None -> waiting y ->
  waiting {| sched := fst z; phase := ph; workers := snd z; caller := k |}.
Proof.
  intros (r & N & -> & Hr0) Hph Hls Hk [Hc Hr Hw Hl Hla Hst Hq].
  split; cbn [sched phase workers caller fst snd]; [exact Hc| | | |exact Hla| |].
  - cbn. by apply Hr0.
  - intros w [Hin _]%still_elem. by apply Hw.
  - intros ls l E. apply Hl. by apply Hls.
  - apply (ahead_le y); [done| | |done].
    + intros c E. destruct Hk as [->|[_ Hk]]; [done|by rewrite E in Hk].
    + intros wl c E. destruct Hph as [->|[_ Hph]]; [done|by rewrite E in Hph].
  - assert (El : loop_scan ph = loop_scan (phase y)) by (destruct Hph as [->|[-> ->]]; done).
    assert (Ek : start_scan k = start_scan (caller y)) by (destruct Hk as [->|[-> ->]]; done).
    rewrite El, Ek. exact Hq.
Qed.

Lemma waiting_loop y y' :
  inv y -> loop_step localtime y (Running y') ->
  (forall c tr, c ∈ choice_of y y' -> (j, tr) ∉ chosen c) -> waiting y -> waiting y'.
Proof.
  intros Hi Hs Hno Hw. pose proof (inv_workers _ Hi) as Hnw. pose proof (inv_names _ Hi) as Hnj.
  inversion Hs as [ph s ws Hl| |z Hp H|wall ls z Hp H|sts z Hp H]; subst; clear Hs.
  2: { apply (waiting_read y z); [by apply reaps_frame|right; by rewrite Hp|done|by left|done]. }
  2: { apply (waiting_pick y wall); [done..| |done]. intros tr. apply (Hno {| at_wall := wall;
         chosen := ls; before_pick := sched y; after_pick := fst z |} tr).
       unfold choice_of. rewrite Hp. left. }
  2: { apply (waiting_read y z); [by apply (copies_frame _ sts)|right; by rewrite Hp|done|by left|done]. }
  destruct y as [s0 ph0 ws0 k]. cbn [sched phase] in Hl. set (y := {| sched := s0; phase := ph0; workers := ws0; caller := k |}) in *.
  pose proof (fun ls l => wt_launches _ Hw ls l) as Hls. cbn [phase] in Hls.
  inversion Hl as [s1 wall sn|wall sn ts f c s1 c' s2 Hsc|wall sn s1
    |s1 s2 l ls run b evs ts Hla Hwo| |sts s1]; subst; clear Hl.
  - assert (Ha : agrees s0 (wake_flags wall s0)) by (unfold wake_flags; by destruct (_ <? _)%Z).
    destruct (scans_on_wake wall s0).
    + destruct (waiting_agrees y _ PWake ws0 Ha) as [H1 H2 H3 H4 H5 H6 H7];
        [by right|done|exact (wt_workers _ Hw)|done|].
      split; cbn in *; try done.
      { destruct H6 as [H6|[(wl & c & E & _)|H6]]; [by left|discriminate E|by right; right]. }
      intros Hp. destruct (H7 Hp) as [H|(c & [Hc|Hc] & Hf)]; [by left|done|].
      right. exists c. by split; [right|].
    + apply (waiting_agrees y); [done|by right|done|exact (wt_workers _ Hw)|done].
  - by eapply (waiting_loop_scan y).
  - destruct Hw as [H1 H2 H3 H4 H5 H6 H7]. split; unfold moved; cbn in *; try done.
    + destruct H6 as [H6|[(wl & c & E & Ha)|H6]]; [by left| |by right; right].
      injection E as _ _ <-. destruct Ha as [?|[?%not_elem_of_nil|?]]; [done|done|by right; right].
    + intros Hp. destruct (H7 Hp) as [H|(c & [Hc|Hc] & Hf)]; [by left| |right; exists c; by split; [right|]].
      injection Hc as <-. destruct Hf.
  - assert (Hne : job_name (fst l) <> job_name j) by (apply (Hls (l :: ls)); [done|left]).
    rewrite launch_cases in Hla. destruct (blocked _ _); [done|]. injection Hla as <-.
    apply (waiting_agrees y); [|by right| | |done].
    + split; try done. intros H. cbn. by rewrite lookup_insert_ne.
    + intros ls' l' [= <-] Hin. apply (Hls (l :: ls)); [done|by right].
    + cbn. intros w [->|Hin]%elem_of_cons; [exact Hne|by apply (wt_workers _ Hw)].
  - apply (waiting_agrees y); [done|by right|done|exact (wt_workers _ Hw)|done].
Qed.

Lemma waiting_start_scan y now ts f c c' s' :
  caller y = Starting now c -> scan_section localtime now ts f c (sched y) = Some (c', s') ->
  waiting y ->
  waiting {| sched := s'; phase := phase y; workers := workers y; caller := Starting now c' |}.
Proof.
  intros Hk Hs [[Hj Hui] Hr Hw Hl Hla Hst Hq].
  destruct (scan_section_grows _ _ _ _ _ _ _ _ Hs) as (Hf & _ & (extra & Eq & _) & _).
  destruct (scan_section_handled _ _ _ _ _ _ _ Hs) as (Hle & Hh & Hfo).
  split; cbn [sched phase workers caller start_scan]; auto.
  - split; [by rewrite (frame_jobs _ _ Hf)|done].
  - by rewrite (frame_running _ _ Hf).
  - by rewrite (frame_last _ _ Hf).
  - destruct Hst as [(c0 & E & Ha)|[(wl & c0 & E & Ha)|Hx]]; [left|right; left|right; right; cbn [sched]; lia].
    + rewrite Hk in E. injection E as -> <-. exists c'. split; [done|].
      eapply scan_ahead_section; [exact Hsch|exact Hd|exact Hj|exact Hcand|exact Hla|exact Hs|exact Ha].
    + exists wl, c0. split; [done|by eapply scan_ahead_le].
  - intros Hp. destruct Hh as [E|Hfound]; [|right; exists c'; by split; [right|]].
    rewrite E in Hp. rewrite Hk in Hq. destruct (Hq Hp) as [H|(c0 & [Hc0|Hc0] & Hfound)].
    + left. unfold queued in *. rewrite Eq. apply elem_of_app. by left.
    + right. exists c0. by split; [left|].
    + injection Hc0 as <-. destruct (Hfo Hfound); [right; exists c'; by split; [right|]|by left].
Qed.

Lemma waiting_caller y c s :
  inv y -> caller_step localtime (caller y, sched y) (c, s) -> waiting y ->
  waiting {| sched := s; phase := phase y; workers := workers y; caller := c |}.
Proof.
  intros Hi Hs Hw. pose proof (inv_names _ Hi) as Hn.
  assert (Hcfg : configured j s).
  { destruct (wt_configured _ Hw) as [Hj Hui]. split; [|done].
    by apply (caller_same_job localtime j (caller y) (sched y) c s Hn (conj Hj Hui) (inv_caller _ Hi)). }
  pose proof Hw as Hw0. destruct Hw as [Hc Hr Hwk Hl Hla Hst Hq]. destruct y as [s0 ph ws k]; cbn [sched phase workers caller] in *.
  assert (Hquiet : sc_running s = sc_running s0 -> sc_last_runs s !! job_name j = sc_last_runs s0 !! job_name j ->
    handled s = handled s0 -> (queued j "missed" s0 -> queued j "missed" s) ->
    start_scan k = None -> start_scan c = None ->
    waiting {| sched := s; phase := ph; workers := ws; caller := c |}).
  { intros E1 E2 E3 E4 Ek Ec. split; cbn [sched phase workers caller]; rewrite ?E1, ?E2, ?E3; auto.
    - apply (ahead_le {| sched := s0; phase := ph; workers := ws; caller := k |}); [by rewrite E3| |done|done].
      cbn. intros c0 ->. discriminate Ek.
    - intros Hp. destruct (Hq Hp) as [H|(c0 & [Hc0|Hc0] & Hf)]; [left; auto| |congruence].
      right. exists c0. by split; [left|]. }
  assert (Hun : forall n, caller_ok (Removed n) s0 -> n <> job_name j).
  { intros n (i & Hf & Hui) ->. destruct Hc as [Hj Hnui]. unfold find_job in Hf.
    rewrite (find_in_unique _ _ Hn Hj) in Hf. congruence. }
  pose proof (inv_caller _ Hi) as Hok. cbn [caller sched] in Hok.
  inversion Hs as [now ts f sc sc' s1 s2 Hsc|now s1| |n s1| | | | | | | |n s1|]; subst;
    try (by apply Hquiet).
  - by eapply (waiting_start_scan {| sched := s0; phase := ph; workers := ws; caller := Starting now sc |}).
  - split; cbn [sched phase workers caller]; auto.
    { destruct Hst as [(c0 & E & Ha)|Hst]; [|by right].
      cbn in E, Ha. injection E as _ <-.
      destruct Ha as [?|[?%not_elem_of_nil|?]]; [done|done|by right; right]. }
    intros Hp. destruct (Hq Hp) as [H|(c0 & [Hc0|Hc0] & Hf)]; [by left| |injection Hc0 as <-; destruct Hf].
    right. exists c0. by split; [left|].
  - apply Hquiet; try done. intros H. apply elem_of_app. by left.
  - specialize (Hun n Hok). apply Hquiet; try done; cbn.
    + by rewrite lookup_delete_ne.
    + unfold handled. cbn. by rewrite lookup_delete_ne.
Qed.

Lemma waiting_step y y' :
  inv y -> step localtime y (Running y') ->
  (forall c tr, c ∈ choice_of y y' -> (j, tr) ∉ chosen c) -> waiting y -> waiting y'.
Proof.
  intros Hi Hs Hno Hw. inversion Hs as [c Hl|s ws Hwk|c s Hc|sts z Hk Hc|s Ho]; subst; clear Hs.
  - by apply (waiting_loop y y').
  - destruct y as [s0 ph ws0 k]. cbn [sched phase workers caller] in *.
    set (y := {| sched := s0; phase := ph; workers := ws0; caller := k |}) in *.
    inversion Hwk as [s1 ws1 ws2 w sec secs f Hsec]; subst.
    assert (Hne : job_name j <> w_name w).
    { intros E. apply (wt_workers _ Hw w); [apply elem_of_app; right; left|done]. }
    apply (waiting_agrees y); [|by left|exact (wt_launches _ Hw)| |done].
    + destruct (apply_section_keeps f (w_name w) (w_trigger w) sec s0) as (Ej & _ & Eq & _).
      split; [unfold configured; by rewrite Ej| | | |unfold queued; by rewrite Eq]; unfold handled;
        destruct sec; cbn; unfold mark_done, alert_insert, insert_run, insert_alert, run_update;
        try (destruct f; done); try (destruct (reject_nan _ _); done); try done.
      * intros H. destruct (sc_running s0 !! w_name w); cbn; [by rewrite lookup_insert_ne|done].
      * by rewrite lookup_insert_ne.
      * by destruct (sc_running s0 !! w_name w).
      * by destruct (sc_running s0 !! w_name w).
    + intros w' Hw'. destruct secs as [|e secs].
      * apply (wt_workers _ Hw). by apply worker_elem.
      * apply elem_of_app in Hw' as [Hw'|[->|Hw']%elem_of_cons]; [|exact (not_eq_sym Hne)|];
          apply (wt_workers _ Hw), elem_of_app; rewrite ?elem_of_cons; tauto.
  - by apply waiting_caller.
  - apply (waiting_read y z (phase y) (Copied sts)); [|by left|done|right; by rewrite Hk|done].
    apply (copies_frame _ sts); [exact (inv_workers _ Hi)|exact (inv_names _ Hi)|exact Hc].
  - apply waiting_agrees; [|by left|exact (wt_launches _ Hw)|exact (wt_workers _ Hw)|done].
    destruct (outside_step_frame _ _ Ho) as [Ej _ Er El Eq _ _ _].
    split; unfold configured, queued; rewrite ?Ej, ?Er, ?El, ?Eq; try done.
    unfold handled. by inversion Ho; subst.
Qed.

Lemma waiting_trace y cs y' :
  inv y -> waiting y -> traced localtime y cs y' ->
  (exists c tr, c ∈ cs /\ (j, tr) ∈ chosen c) \/ (inv y' /\ waiting y').
Proof.
  intros Hi Hw Ht. induction Ht as [y|y y1 cs y2 Hst _ IH]; [by right|].
  destruct (choice_of y y1) as [|c l] eqn:Ec.
  - apply IH; [by eapply step_inv|]. apply (waiting_step y y1 Hi Hst); [|done].
    intros c tr. rewrite Ec. by intros ?%not_elem_of_nil.
  - destruct (step_choice localtime _ _ _ _ Hst Ec) as (-> & _).
    destruct (decide (Exists (fun l => fst l = j) (chosen c))) as [Hx|Hno].
    + left. apply Exists_exists in Hx as ([i tr] & Hin & <-). exists c, tr. split; [left|exact Hin].
    + destruct IH as [(c' & tr & Hin & Hc)|H]; [by eapply step_inv| |left; exists c', tr; split; [by right|done]|by right].
      apply (waiting_step y y1 Hi Hst); [|done]. intros c' tr. rewrite Ec.
      intros ->%list_elem_of_singleton Hin. apply Hno, Exists_exists. by exists (j, tr).
Qed.

(** Once the scan of [start] is over, the next choice takes the job. *)
Lemma waiting_chosen y cs y' :
  inv y -> waiting y -> start_scan (caller y) = None -> traced localtime y cs y' -> cs <> [] ->
  exists c cs', cs = c :: cs' /\ (j, "missed") ∈ chosen c.
Proof.
  intros Hi Hw Hs Ht. revert Hi Hw Hs.
  induction Ht as [y|y y1 cs y2 Hst _ IH]; intros Hi Hw Hs Hcs; [done|].
  destruct (choice_of y y1) as [|c l] eqn:Ec.
  - apply IH; [by eapply step_inv| | |done].
    + apply (waiting_step y y1 Hi Hst); [|done]. intros c tr. rewrite Ec. by intros ?%not_elem_of_nil.
    + inversion Hst as [c Hl|s ws Hwk|c s Hc|sts z Hk Hc|s Ho]; subst; cbn [caller]; try done.
      * inversion Hl; subst; exact Hs.
      * inversion Hc as [now ts f sc sc' s1 s2 Hsc Ek| | | | | | | | | | | |]; subst; try done.
        rewrite <- Ek in Hs. discriminate.
  - destruct (step_choice localtime _ _ _ _ Hst Ec) as (-> & _ & _ & Hp & Hpk).
    assert (Hh : (p <= handled (sched y))%Z).
    { destruct (wt_ahead _ Hw) as [(c0 & E & _)|[(wl & c0 & E & _)|H]]; [|congruence|done].
      by rewrite E in Hs. }
    destruct (wt_queued _ Hw Hh) as [Hq|(c0 & [Hc|Hc] & _)]; [|by rewrite Hp in Hc|congruence].
    destruct (wt_configured _ Hw) as [Hj _].
    assert (Hi0 : inv {| sched := sched y; phase := phase y; workers := workers y; caller := caller y |})
      by (destruct y; exact Hi).
    exists c, cs. split; [done|].
    destruct (pick_queued localtime j "missed" _ (sched y, workers y) _ _ _ _ Hi0 Hpk Hj Hq) as [Hin|[_ Hr]];
      [exact Hin|]. cbn [fst] in Hr. unfold is_running in Hr. by rewrite (wt_running _ Hw) in Hr.
Qed.
End Recovery.

(** A scheduler about to scan at its start, and a job that missed a run. *)
Definition starting (now scan_now : Z) (s : Scheduler) : System :=
  {| sched := with_last_wall now (with_active true s); phase := PReap; workers := [];
     caller := Starting scan_now Collect |}.

Lemma starting_fresh localtime {sq : Sqlite} cfg db now scan_now st s :
  NoDup (names_of cfg) ->
  make_scheduler localtime cfg (Some db) now NoFault (fun _ => NoFault) st = Ret s ->
  fresh (starting now scan_now s).
Proof.
  intros Hcfg Hs. destruct (made localtime cfg db now st s Hcfg Hs) as (Hn & _ & Hq & Hru & _).
  refine (conj Hru (conj eq_refl (conj eq_refl (conj (or_intror (ex_intro _ scan_now eq_refl)) (conj Hn _))))).
  cbn. by rewrite Hq.
Qed.

Lemma starting_waits localtime {sq : Sqlite} {L : SqliteLaws sq} cfg db now scan_now st s j :
  NoDup (names_of cfg) -> (0 <= scan_now)%Z ->
  make_scheduler localtime cfg (Some db) now NoFault (fun _ => NoFault) st = Ret s ->
  j ∈ sc_jobs s -> job_source j = "config" -> missed_run localtime scan_now db j ->
  fresh (starting now scan_now s) /\
  exists sch p last, job_schedule j = Some sch /\ is_candidate j = true /\
    detect_missed_run localtime sch
      (match last with Some r => run_started_at r | None => 0%Z end) scan_now = Some p /\
    waiting j scan_now p last (starting now scan_now s).
Proof.
  intros Hcfg Hnow Hs Hj Hc (Hpol & sch & p & Hsch & Hprev & Hp0 & Hruns).
  destruct (made localtime cfg db now st s Hcfg Hs) as (Hn & _ & Hq & Hru & Hh & _ & Hl).
  split; [eapply starting_fresh; [exact Hcfg|exact Hs]|].
  apply prev_before_iff in Hprev; [|done].
  pose proof (proj2 (last_run_before (job_name j) db _ p (Hl j Hj)) Hruns) as Hlast.
  exists sch, p, (sc_last_runs s !! job_name j). split_and!; [done| | |].
  - unfold is_candidate. rewrite Hsch. by rewrite !bool_decide_true by eauto.
  - unfold detect_missed_run. rewrite Hprev.
    destruct (sc_last_runs s !! job_name j) as [r|].
    + by destruct (Z.leb_spec p (run_started_at r)); [lia|].
    + by destruct (Z.leb_spec p 0); [lia|].
  - split; cbn [sched phase workers caller starting]; try done.
    + split; [exact Hj|by rewrite Hc].
    + cbn. by rewrite Hru.
    + intros w Hw. by apply not_elem_of_nil in Hw.
    + left. exists Collect. split; [done|by left].
    + unfold handled. cbn. rewrite Hh, lookup_empty. cbn. lia.
Qed.

(** Sections of the calling thread in a row are no choice. *)
Lemma caller_traced localtime {sq : Sqlite} s c s' c' ph ws :
  caller_runs localtime (c, s) (c', s') ->
  traced localtime {| sched := s; phase := ph; workers := ws; caller := c |} []
    {| sched := s'; phase := ph; workers := ws; caller := c' |}.
Proof.
  intros H. remember (c, s) as x eqn:Ex. remember (c', s') as z eqn:Ez. revert c s Ex.
  induction H as [x|x [c1 s1] z Hs _ IH|s1 z _ IH]; intros c s Ex.
  - injection (eq_trans (eq_sym Ex) Ez) as <- <-. apply traced_refl.
  - subst x. assert (Hst : step localtime {| sched := s; phase := ph; workers := ws; caller := c |}
      (Running {| sched := s1; phase := ph; workers := ws; caller := c1 |}))
      by exact (ByCaller localtime {| sched := s; phase := ph; workers := ws; caller := c |} c1 s1 Hs).
    pose proof (traced_next localtime _ _ _ _ Hst (IH Ez c1 s1 eq_refl)) as Ht.
    unfold choice_of in Ht. cbn [phase] in Ht. by destruct ph.
  - injection Ex as <- <-. set (k1 := Copied (map (job_status s1) (sc_jobs s1))) in *.
    assert (Hst : step localtime {| sched := s1; phase := ph; workers := ws; caller := Publishing |}
      (Running {| sched := s1; phase := ph; workers := ws; caller := k1 |}))
      by exact (ByCopy localtime {| sched := s1; phase := ph; workers := ws; caller := Publishing |} _ _
                  eq_refl (copies_now s1 ws)).
    pose proof (traced_next localtime _ _ _ _ Hst (IH Ez k1 s1 eq_refl)) as Ht.
    unfold choice_of in Ht. cbn [phase] in Ht. by destruct ph.
Qed.

Lemma caller_runs_trans localtime {sq : Sqlite} x y z :
  caller_runs localtime x y -> caller_runs localtime y z -> caller_runs localtime x z.
Proof.
  induction 1 as [|x y1 y2 Hs _ IH|s y1 _ IH]; intros Hz; [exact Hz|eapply caller_goes; [exact Hs|auto]|apply caller_copies; auto].
Qed.

Lemma start_scan_runs localtime {sq : Sqlite} now c s c' s' :
  scan_runs localtime now c s c' s' ->
  caller_runs localtime (Starting now c, s) (Starting now c', s').
Proof.
  induction 1 as [|ts f c s c1 s1 c2 s2 Hs _ IH]; [apply caller_stays|].
  eapply caller_goes; [by eapply CallScan|exact IH].
Qed.

Lemma traced_app localtime {sq : Sqlite} y cs1 y1 cs2 y2 :
  traced localtime y cs1 y1 -> traced localtime y1 cs2 y2 -> traced localtime y (cs1 ++ cs2) y2.
Proof.
  induction 1 as [|y y1' cs y2' Hs _ IH]; intros H2; [exact H2|].
  rewrite <- app_assoc. eapply traced_next; [exact Hs|auto].
Qed.

(** ** Properties *)

(** The scan of [start] with nothing in between.  A scheduler constructed on
    the database of an earlier run and on the configuration, and started, is
    in the fresh state its executions begin in, with distinct names; it has
    queued, once each, the jobs with a recovery policy whose latest occurrence
    has no stored run that started at it or since; and over any execution
    that follows each such job of the configuration is started, unless it is
    running at every turn. *)
Theorem restart_recovers_missed localtime {sq : Sqlite} {L : SqliteLaws sq} cfg db now scan_now env st s :
  NoDup (names_of cfg) -> (0 <= scan_now)%Z ->
  make_scheduler localtime cfg (Some db) now NoFault (fun _ => NoFault) st = Ret s ->
  let s' := start localtime now scan_now env s in
  let y := {| sched := s'; phase := PReap; workers := []; caller := Idle |} in
  fresh y /\ NoDup (sc_queue s') /\
  (forall n tr, (n, tr) ∈ sc_queue s' <->
     tr = "missed" /\ exists j, j ∈ sc_jobs s' /\ job_name j = n /\ missed_run localtime scan_now db j) /\
  (forall j cs y', j ∈ sc_jobs s' -> job_source j = "config" -> missed_run localtime scan_now db j ->
     traced localtime y cs y' ->
     (exists c, c ∈ cs /\ (j, "missed") ∈ chosen c) \/
     Forall (fun c => is_running (before_pick c) (job_name j) = true) cs).
Proof.
  intros Hcfg Hnow Hs s' y.
  destruct (made localtime cfg db now st s Hcfg Hs) as (Hn & _ & _ & Hru & _).
  destruct (started_queue localtime cfg db now scan_now env st s Hcfg Hs) as [Hq Hf].
  fold s' in Hq, Hf. pose proof (frame_jobs _ _ Hf) as Hj. cbn in Hj.
  assert (Hfresh : fresh y).
  { refine (conj (eq_trans (frame_running _ _ Hf) Hru) (conj eq_refl (conj eq_refl
      (conj (or_introl eq_refl) (conj _ _))))).
    { change (NoDup (names_of (sc_jobs s'))). by rewrite Hj. }
    change (Forall (fun q => snd q <> "schedule") (sc_queue s')). rewrite Hq. apply Forall_forall. by intros q (j & <- & _)%list_elem_of_In%in_map_iff. }
  assert (Hin : forall n tr, (n, tr) ∈ sc_queue s' <->
     tr = "missed" /\ exists j, j ∈ sc_jobs s' /\ job_name j = n /\ missed_run localtime scan_now db j).
  { intros n tr. rewrite Hq, list_elem_of_In, in_map_iff, Hj. split.
    - intros (j & [= <- <-] & [[Hin Hc]%filter_In Hm]%filter_In).
      apply list_elem_of_In in Hin. split; [done|]. exists j. split_and!; try done.
      by apply (is_missed_run localtime cfg db now scan_now st s Hcfg Hs).
    - intros (-> & j & Hin & <- & Hm). exists j. split; [done|].
      apply (is_missed_run localtime cfg db now scan_now st s Hcfg Hs) in Hm as [Hc Hm]; [|done..].
      rewrite !filter_In, <- list_elem_of_In. by split_and!. }
  split_and!; [exact Hfresh| |exact Hin|].
  - rewrite Hq. pose proof (names_filter (is_missed localtime scan_now s) _ (names_filter is_candidate _ Hn)) as H.
    unfold names_of in H. revert H. generalize (List.filter (is_missed localtime scan_now s)
      (List.filter is_candidate (sc_jobs s))). intros l H. induction l as [|j l IH]; [constructor|].
    cbn [map] in *. apply NoDup_cons in H as [Hx H]. apply NoDup_cons. split; [|by apply IH].
    intros (i & [= E] & Hi)%list_elem_of_In%in_map_iff. apply Hx. rewrite <- E.
    by apply list_elem_of_In, in_map.
  - intros j cs y' Hin' Hc Hm Ht.
    destruct (queued_until_launched localtime j "missed" y cs y' (fresh_inv _ Hfresh)) as [H|[_ H]];
      [split; [exact Hin'|by rewrite Hc]| |exact Ht|by left|by right].
    apply Hin. split; [done|]. by exists j.
Qed.

(** A scheduler restarted after two hours on an empty history. *)
Definition restarted : Scheduler :=
  match make_scheduler utc [hourly_config] (Some empty_tables) 1700046005 NoFault
          (fun _ => NoFault) initial_state with
  | Ret s => s
  | _ => example_scheduler
  end.

Lemma restarted_eq :
  make_scheduler utc [hourly_config] (Some empty_tables) 1700046005 NoFault
    (fun _ => NoFault) initial_state = Ret restarted /\
  sc_jobs (start utc 1700046005 1700046005 no_env restarted) = [hourly_config].
Proof. split; vm_compute; reflexivity. Qed.

Lemma restart_recovers_missed_witness :
  exists s, make_scheduler utc [hourly_config] (Some empty_tables) 1700046005 NoFault
      (fun _ => NoFault) initial_state = Ret s /\
    ("hourly", "missed") ∈ sc_queue (start utc 1700046005 1700046005 no_env s).
Proof.
  destruct restarted_eq as [E Ej]. exists restarted. split; [exact E|].
  destruct (restart_recovers_missed utc [hourly_config] empty_tables 1700046005 1700046005 no_env
    initial_state restarted (NoDup_singleton _) ltac:(lia) E) as (_ & _ & Hq & _).
  apply Hq. split; [reflexivity|]. exists hourly_config. split_and!.
  - rewrite Ej. left.
  - reflexivity.
  - split; [discriminate|]. exists (sched_of "0 * * * *"), 1700046000%Z. split_and!.
    + reflexivity.
    + apply prev_before_iff; [lia|]. vm_compute. reflexivity.
    + lia.
    + intros r Hr. destruct (not_elem_of_nil r Hr).
Defined.

(** C9: a restart recovers what was missed, whatever runs in the meantime.  A
    scheduler constructed on the database of an earlier run and on the
    configuration begins in a fresh state, with the main thread scanning while
    the loop, its workers and the sampler already run.  A job of the
    configuration with a recovery policy whose latest occurrence has no stored
    run that started at it or since is chosen by a turn of the loop: at the
    latest by the first one that chooses after [start] has returned. *)
Theorem restart_recovers_concurrently localtime {sq : Sqlite} {L : SqliteLaws sq}
    cfg db now scan_now st s j :
  NoDup (names_of cfg) -> (0 <= scan_now)%Z ->
  make_scheduler localtime cfg (Some db) now NoFault (fun _ => NoFault) st = Ret s ->
  j ∈ sc_jobs s -> job_source j = "config" -> missed_run localtime scan_now db j ->
  fresh (starting now scan_now s) /\
  forall cs1 y1 cs2 y2,
    traced localtime (starting now scan_now s) cs1 y1 -> start_scan (caller y1) = None ->
    traced localtime y1 cs2 y2 -> cs2 <> [] ->
    exists c tr, c ∈ cs1 ++ cs2 /\ (j, tr) ∈ chosen c.
Proof.
  intros Hcfg Hnow Hs Hj Hc Hm.
  destruct (starting_waits localtime cfg db now scan_now st s j Hcfg Hnow Hs Hj Hc Hm)
    as (Hf & sch & p & last & Hsch & Hcand & Hd & Hw).
  split; [exact Hf|]. intros cs1 y1 cs2 y2 H1 Hst H2 Hne.
  destruct (waiting_trace localtime j scan_now p last sch Hsch Hcand Hd _ _ _ (fresh_inv _ Hf) Hw H1)
    as [(c & tr & Hin & Hch)|[Hi1 Hw1]].
  - exists c, tr. split; [apply elem_of_app; by left|done].
  - destruct (waiting_chosen localtime j scan_now p last sch Hsch Hcand Hd _ _ _ Hi1 Hw1 Hst H2 Hne)
      as (c & cs' & -> & Hch).
    exists c, "missed". split; [apply elem_of_app; right; left|done].
Qed.

Lemma hourly_missed : missed_run utc 1700046005 empty_tables hourly_config.
Proof.
  split; [discriminate|]. exists (sched_of "0 * * * *"), 1700046000%Z. split_and!.
  - reflexivity.
  - apply prev_before_iff; [lia|]. vm_compute. reflexivity.
  - lia.
  - intros r Hr. destruct (not_elem_of_nil r Hr).
Qed.

Lemma restarted_jobs : sc_jobs restarted = [hourly_config].
Proof. vm_compute. reflexivity. Qed.

(** The scan of [start] runs before the first turn chooses. *)
Lemma restarted_trace :
  exists y1 cs2 y2, traced utc (starting 1700046005 1700046005 restarted) [] y1 /\
    start_scan (caller y1) = None /\ traced utc y1 cs2 y2 /\ cs2 <> [].
Proof.
  set (s1 := start utc 1700046005 1700046005 no_env restarted).
  exists {| sched := s1; phase := PReap; workers := []; caller := Idle |}.
  do 2 eexists. split_and!; [|reflexivity|apply (quiet_turn utc s1 1700046005)|discriminate].
  - assert (E : s1 = scan_missed utc 1700046005 no_env
      (with_last_wall 1700046005 (with_active true restarted))) by (vm_compute; reflexivity).
    rewrite E. unfold starting.
    generalize (with_last_wall 1700046005 (with_active true restarted)). intros s0.
    apply caller_traced.
    eapply caller_runs_trans; [apply start_scan_runs, scan_missed_sections|].
    eapply caller_goes; [apply CallScanned|apply caller_stays].
  - vm_compute. reflexivity.
Qed.

Lemma restart_recovers_concurrently_witness :
  exists cs tr c, c ∈ cs /\ (hourly_config, tr) ∈ chosen c /\
    exists y2, traced utc (starting 1700046005 1700046005 restarted) cs y2.
Proof.
  destruct restarted_trace as (y1 & cs2 & y2 & H1 & Hs & H2 & Hne).
  destruct (restart_recovers_concurrently utc [hourly_config] empty_tables 1700046005 1700046005
    initial_state restarted hourly_config (NoDup_singleton _) ltac:(lia) (proj1 restarted_eq))
    as [_ H].
  - rewrite restarted_jobs. left.
  - reflexivity.
  - exact hourly_missed.
  - destruct (H [] y1 cs2 y2 H1 Hs H2 Hne) as (c & tr & Hin & Hc).
    exists cs2, tr, c. split; [exact Hin|]. split; [exact Hc|]. exists y2.
    exact (traced_app utc _ _ _ _ _ H1 H2).
Defined.

(** The schedule of the job has an occurrence before [now] that its last run
    does not cover and that no scan has handled. *)
Definition missed_now (localtime : Z -> tm) (now : Z) (s : Scheduler) (j : Job) : Prop :=
  job_missed_run_policy j <> NoPolicy /\
  exists sched p, job_schedule j = Some sched /\ is_prev localtime sched now p /\ (0 < p)%Z /\
    (forall r, sc_last_runs s !! job_name j = Some r -> run_started_at r < p)%Z /\
    (handled j s < p)%Z.

Lemma wake_waits localtime {sq : Sqlite} y wall scan_now j :
  inv y -> phase y = PScan wall scan_now Collect -> (0 <= scan_now)%Z ->
  configured j (sched y) -> sc_running (sched y) !! job_name j = None ->
  missed_now localtime scan_now (sched y) j ->
  exists sch p last, job_schedule j = Some sch /\ is_candidate j = true /\
    detect_missed_run localtime sch
      (match last with Some r => run_started_at r | None => 0%Z end) scan_now = Some p /\
    waiting j scan_now p last y.
Proof.
  intros Hi Hp Hnow Hc Hr (Hpol & sch & p & Hsch & Hprev & Hp0 & Hl & Hh).
  apply prev_before_iff in Hprev; [|done].
  exists sch, p, (sc_last_runs (sched y) !! job_name j). split_and!; [done| | |].
  - unfold is_candidate. rewrite Hsch. by rewrite !bool_decide_true by eauto.
  - unfold detect_missed_run. rewrite Hprev. destruct (sc_last_runs (sched y) !! job_name j) as [r|].
    + specialize (Hl r eq_refl). by destruct (Z.leb_spec p (run_started_at r)); [lia|].
    + by destruct (Z.leb_spec p 0); [lia|].
  - split; try done.
    + intros w Hw E. pose proof (inv_live _ Hi w Hw) as H. congruence.
    + intros ls l E. congruence.
    + right; left. exists wall, Collect. split; [done|by left].
    + lia.
Qed.

(** C10: a wake-up recovers what the sleep missed, whatever runs in the
    meantime.  In any state the program reaches where the loop begins the scan
    of a wake-up (a notification of the system, or a jump of the clock) and
    the scan of [start] is over, a job of the configuration with a recovery
    policy that has no task (no run of it is in progress, or ended and not
    reaped), and whose latest occurrence neither its last run nor an earlier
    scan covers, is chosen as missed by the very next turn that chooses,
    however the workers, the clients and the sampler interleave with the scan.
    (While the scan of [start] still goes on it may have marked the occurrence
    as handled and not yet queued the job; then this scan passes it over.) *)
Theorem wake_recovers_missed localtime {sq : Sqlite} {L : SqliteLaws sq} y0 y wall scan_now j cs y' :
  fresh y0 -> steps localtime (Running y0) (Running y) ->
  phase y = PScan wall scan_now Collect -> start_scan (caller y) = None -> (0 <= scan_now)%Z ->
  j ∈ sc_jobs (sched y) -> job_source j = "config" ->
  sc_running (sched y) !! job_name j = None -> missed_now localtime scan_now (sched y) j ->
  traced localtime y cs y' -> cs <> [] ->
  exists c cs', cs = c :: cs' /\ (j, "missed") ∈ chosen c.
Proof.
  intros Hf Hs Hp Hst Hnow Hj Hc Hr Hm Ht Hne.
  pose proof (steps_inv localtime _ _ (fresh_inv _ Hf) Hs) as Hi.
  destruct (wake_waits localtime y wall scan_now j Hi Hp Hnow) as (sch & p & last & Hsch & Hcand & Hd & Hw);
    [split; [exact Hj|by rewrite Hc]|exact Hr|exact Hm|].
  exact (waiting_chosen localtime j scan_now p last sch Hsch Hcand Hd y cs y' Hi Hw Hst Ht Hne).
Qed.

(** The computer slept from 09:00 to 11:00: the loop's clock jumps by two
    hours. *)
Definition asleep : Scheduler := with_last_wall 1700038800 (with_jobs [hourly_config] calm).

Definition woken : System :=
  {| sched := wake_flags 1700046005 (reap_finished asleep);
     phase := PScan 1700046005 1700046005 Collect; workers := []; caller := Idle |}.

Lemma woken_reached :
  steps utc (Running {| sched := asleep; phase := PReap; workers := []; caller := Idle |}) (Running woken).
Proof.
  eapply loop_then; [apply reap_step|].
  eapply loop_goes; [apply (StepWake utc _ 1700046005 1700046005)|].
  assert (E : scans_on_wake 1700046005 (reap_finished asleep) = true) by (vm_compute; reflexivity).
  rewrite E. apply steps_refl.
Qed.

(** A scan of the loop in a row is no choice. *)
Lemma traced_scan localtime {sq : Sqlite} wall now c s c' s' cs y :
  scan_runs localtime now c s c' s' ->
  traced localtime {| sched := s'; phase := PScan wall now c'; workers := []; caller := Idle |} cs y ->
  traced localtime {| sched := s; phase := PScan wall now c; workers := []; caller := Idle |} cs y.
Proof.
  induction 1 as [|ts f c s c1 s1 c2 s2 Hs _ IH]; intros Ht; [exact Ht|].
  eapply (traced_loop localtime _ s _ s1); [apply (section_step _ _ [] Idle _ _ _ []); by eapply StepScan|exact I|]. by apply IH.
Qed.

Lemma woken_trace : exists c y', traced utc woken [c] y'.
Proof.
  set (s1 := scan_missed utc 1700046005 no_env (sched woken)).
  do 2 eexists. unfold woken. eapply traced_scan; [apply (scan_missed_sections utc 1700046005 no_env)|].
  eapply traced_loop; [apply (section_step _ _ [] Idle _ _ _ []), StepScanned|exact I|apply traced_pick].
Qed.

Lemma woken_state :
  sc_jobs (sched woken) = [hourly_config] /\ sc_running (sched woken) !! job_name hourly_config = None /\
  sc_last_runs (sched woken) !! job_name hourly_config = None /\ handled hourly_config (sched woken) = 0%Z.
Proof. split_and!; vm_compute; reflexivity. Qed.

Lemma wake_recovers_missed_witness :
  exists c y', traced utc woken [c] y' /\ (hourly_config, "missed") ∈ chosen c.
Proof.
  destruct woken_trace as (c & y' & Ht). exists c, y'. split; [exact Ht|].
  destruct woken_state as (Ej & Er & El & Eh).
  destruct (wake_recovers_missed utc {| sched := asleep; phase := PReap; workers := []; caller := Idle |}
    woken 1700046005 1700046005 hourly_config [c] y') as (c' & cs' & [= <- _] & H).
  - apply configured_fresh; vm_compute; reflexivity.
  - exact woken_reached.
  - reflexivity.
  - reflexivity.
  - lia.
  - rewrite Ej. left.
  - reflexivity.
  - exact Er.
  - split; [discriminate|]. exists (sched_of "0 * * * *"), 1700046000%Z. split_and!.
    + reflexivity.
    + apply prev_before_iff; [lia|]. vm_compute. reflexivity.
    + lia.
    + intros r. rewrite El. discriminate.
    + rewrite Eh. lia.
  - exact Ht.
  - discriminate.
  - exact H.
Defined.
