(* ===== verification/Consistency.v ===== *)
(** * What other threads see of the scheduler

    Over the interleaved executions of SchedulerSteps: the jobs in memory
    against their definitions on disk, and the job statuses in the snapshot
    against the scheduler's state.  Both are of the kind a lock gives: they
    hold between calls, and inside a call they are off by what the call has
    still to do. *)

From stdpp Require Import base option list strings gmap.
From Stdlib Require Import Ascii ZArith Lia.
From S2P Require Import Prelude CppLib Double Cron SharedState Config Database ProcessRunner.
From S2P Require Import Scheduler Sections Locked SchedulerSteps.

Open Scope string_scope.
Open Scope list_scope.

#[local] Opaque Cron.next_after Cron.prev_before.

(** ** Sections and what they leave alone *)

(** The jobs and their definitions. *)
Definition same_store (s s' : Scheduler) : Prop :=
  sc_jobs s' = sc_jobs s /\ job_defs_tbl (sc_db s') = job_defs_tbl (sc_db s).

Section Interleaved.
Context (localtime : Z -> tm) {sq : Sqlite}.

Lemma only_tasks_frame x z :
  only_tasks x z -> same_store (fst x) (fst z) /\ sc_state (fst z) = sc_state (fst x).
Proof. by intros (r & N & -> & _). Qed.

Lemma picks_frame wall x ls z :
  NoDup (map w_name (snd x)) -> NoDup (names_of (sc_jobs (fst x))) -> picks localtime wall x ls z ->
  same_store (fst x) (fst z) /\ sc_state (fst z) = sc_state (fst x).
Proof.
  intros Hw Hn H. by destruct (picks_spec localtime wall _ _ _ Hw Hn H) as (N & d & reqs & fs & nr & [_ _ -> _ _ _ _]).
Qed.

(** What the loop does to the jobs and to the statuses: these change only when
    a copy of them is stored, and the next copy to store is the one made. *)
Lemma loop_section_status ph s ph' s' ws :
  loop_section localtime ph s (Some (ph', s', ws)) ->
  same_store s s' /\ (forall sts, ph' <> PStore sts) /\
  match ph with PStore sts => jobs_ (sc_state s') = sts | _ => jobs_ (sc_state s') = jobs_ (sc_state s) end.
Proof.
  intros H. pose proof (loop_section_cases _ _ _ _ _ _ H) as (Ej & _).
  inversion H as [s0 wall sn|wall sn ts f c s0 c' s1 Hsc| |s0 s1 l ls run b evs ts Hla Hwo| |];
    subst; try done.
  - unfold wake_flags. by destruct (_ <? _)%Z, (scans_on_wake _ _).
  - destruct (scan_section_grows _ _ _ _ _ _ _ _ Hsc) as (Hf & -> & _).
    split_and!; [split; [done|apply (frame_defs _ _ Hf)]|done|done].
  - rewrite launch_cases in Hla. destruct (blocked s _); [done|]. by injection Hla as <-.
Qed.

Lemma loop_step_status y y' :
  inv y -> loop_step localtime y (Running y') ->
  same_store (sched y) (sched y') /\
  match phase y with
  | PStore sts => jobs_ (sc_state (sched y')) = sts
  | _ => jobs_ (sc_state (sched y')) = jobs_ (sc_state (sched y))
  end /\
  forall sts, phase y' = PStore sts ->
    phase y = PLaunch [] /\ copies (sched y, workers y) sts (sched y', workers y') /\ caller y' = caller y.
Proof.
  intros Hi Hs. pose proof (inv_workers _ Hi) as Hw. pose proof (inv_names _ Hi) as Hn.
  inversion Hs as [ph s ws Hl| |z Hp H|wall ls z Hp H|sts z Hp H]; subst; clear Hs;
    unfold moved, read_by; cbn [sched phase workers caller].
  - destruct (loop_section_status _ _ _ _ _ Hl) as (H1 & H2 & H3). split_and!; [done|done|].
    intros sts E. by destruct (H2 sts).
  - destruct (only_tasks_frame _ _ (reaps_frame (sched y, workers y) z Hw H)) as [H1 H2]. rewrite Hp. cbn [fst] in *. by rewrite H2.
  - destruct (picks_frame wall (sched y, workers y) ls z Hw Hn H) as [H1 H2]. rewrite Hp. cbn [fst] in *. by rewrite H2.
  - destruct (only_tasks_frame _ _ (copies_frame (sched y, workers y) sts z Hw Hn H)) as [H1 H2]. rewrite Hp. cbn [fst] in *. rewrite H2.
    split_and!; [done|done|]. intros sts' [= <-]. by destruct z.
Qed.

Lemma caller_step_status c s c' s' :
  caller_step localtime (c, s) (c', s') ->
  match c with Copied sts => jobs_ (sc_state s') = sts | _ => jobs_ (sc_state s') = jobs_ (sc_state s) end /\
  forall sts, c' <> Copied sts.
Proof.
  intros H. inversion H as [now ts f sc sc' s0 s1 Hsc| | | | | | | | | | | |]; subst; try done.
  by destruct (scan_section_grows _ _ _ _ _ _ _ _ Hsc) as (_ & -> & _).
Qed.

(** ** Memory and disk *)

(** The state with the call under way carried through: a definition that is
    stored already has its job, one that is deleted has not. *)
Definition settled (y : System) : Scheduler :=
  match caller y with
  | Added j => with_jobs (sc_jobs (sched y) ++ [j]) (sched y)
  | Removed n => with_jobs (without_job n (sc_jobs (sched y))) (sched y)
  | _ => sched y
  end.

(** The job a client adds is determined by its stored form, and the name it
    removes can be bound as a text. *)
Definition well_called (y : System) : Prop :=
  match caller y with
  | Adding j => restorable j
  | Removing n => c_str n = n
  | _ => True
  end.

(** Executions through states of a kind. *)
Inductive steps_through (P : System -> Prop) : System -> System -> Prop :=
| through_refl y : steps_through P y y
| through_next y y1 y2 :
    P y -> step localtime y (Running y1) -> steps_through P y1 y2 -> steps_through P y y2.

Lemma settled_ext y s :
  same_store (sched y) s -> forall c, caller y = c ->
  synced (settled y) ->
  synced (settled {| sched := s; phase := phase y; workers := workers y; caller := c |}).
Proof.
  intros [Ej Ed] c <-. unfold settled. cbn [caller sched].
  destruct (caller y); apply synced_ext; cbn; congruence.
Qed.

Lemma caller_step_synced s ph ws c c' s' :
  caller_ok c s -> well_called {| sched := s; phase := ph; workers := ws; caller := c |} ->
  caller_step localtime (c, s) (c', s') ->
  synced (settled {| sched := s; phase := ph; workers := ws; caller := c |}) ->
  synced (settled {| sched := s'; phase := ph; workers := ws; caller := c' |}).
Proof.
  intros Hok Hw H. unfold settled, well_called in *. cbn [caller sched] in *.
  inversion H as [now ts f sc sc' s0 s1 Hsc| | | | |f j db s0 Hu| |now j s0| |f n db s0 Hd| |n s0|];
    subst; try done.
  - destruct (scan_section_grows _ _ _ _ _ _ _ _ Hsc) as (Hf & _).
    apply synced_ext; [apply (frame_jobs _ _ Hf)|apply (frame_defs _ _ Hf)].
  - by apply synced_ext.
  - destruct Hok as [Hf _]. unfold upsert_job_def, run_update in Hu. destruct f; try discriminate.
    injection Hu as <-. intros Hs. by apply (upsert_synced j s).
  - by apply synced_ext.
  - unfold delete_job_def, run_update in Hd. destruct f; try discriminate.
    injection Hd as <-. intros Hs. apply (delete_synced n s); [done|done|]. cbn. by rewrite Hw.
  - by apply synced_ext.
  - by apply synced_ext.
Qed.

Lemma step_synced y y' :
  inv y -> well_called y -> step localtime y (Running y') -> synced (settled y) -> synced (settled y').
Proof.
  intros Hi Hw Hs. inversion Hs as [c Hl|s ws Hwk|c s Hr|sts z Hk Hc|s Ho]; subst; clear Hs.
  - destruct (loop_step_status _ _ Hi Hl) as ([Ej Ed] & _).
    assert (Ek : caller y' = caller y) by (by inversion Hl).
    unfold settled. rewrite Ek. destruct (caller y); apply synced_ext; cbn; congruence.
  - inversion Hwk as [s0 ws1 ws2 w sec secs f Hsec]; subst.
    destruct (apply_section_keeps f (w_name w) (w_trigger w) sec (sched y)) as (Ej & _ & _ & _ & Ed & _).
    unfold settled. cbn [caller sched]. destruct (caller y); apply synced_ext; cbn; congruence.
  - destruct y as [s0 ph ws c0]. cbn in *.
    by apply (caller_step_synced s0 ph ws c0 c s (inv_caller _ Hi)).
  - destruct (only_tasks_frame _ _ (copies_frame (sched y, workers y) sts z (inv_workers _ Hi) (inv_names _ Hi) Hc)) as [[Ej Ed] _].
    unfold settled. rewrite Hk. cbn [caller sched]. by apply synced_ext.
  - destruct (outside_step_frame _ _ Ho) as [Ej _ _ _ _ _ Ed _].
    by apply (settled_ext y s (conj Ej Ed) _ eq_refl).
Qed.

(** Jobs of the configuration are neither added nor removed. *)
Lemma step_config_jobs y y' j :
  inv y -> step localtime y (Running y') -> job_source j <> "ui" ->
  j ∈ sc_jobs (sched y') <-> j ∈ sc_jobs (sched y).
Proof.
  intros Hi Hs Hc. pose proof (inv_names _ Hi) as Hn.
  inversion Hs as [c Hl|s ws Hwk|c s Hr|sts z Hk Hco|s Ho]; subst; clear Hs; cbn [sched].
  - destruct (loop_step_status _ _ Hi Hl) as ([Ej _] & _). by rewrite Ej.
  - inversion Hwk as [s0 ws1 ws2 w sec secs f Hsec]; subst.
    by destruct (apply_section_keeps f (w_name w) (w_trigger w) sec (sched y)) as (-> & _).
  - destruct (caller_step_cases localtime _ _ _ _ Hr (inv_caller _ Hi)) as (_ & _ &
      [(-> & _)|[(now & i & _ & _ & Hui & -> & _)|(n & i & _ & Hf & Hui & -> & _)]]); [done| |].
    + rewrite elem_of_app, list_elem_of_singleton. split; [intros [?| ->]; done|by left].
    + rewrite without_job_elem. split; [tauto|]. intros Hin. split; [done|]. intros E.
      apply (find_in_unique _ _ Hn) in Hin. unfold find_job in Hf. rewrite <- E in Hf. congruence.
  - destruct (only_tasks_frame _ _ (copies_frame (sched y, workers y) sts z (inv_workers _ Hi) Hn Hco)) as [[-> _] _]. done.
  - by destruct (outside_step_frame _ _ Ho) as [-> _].
Qed.

(** Over an execution in which the calls are of that kind. *)
Lemma through_synced y y' :
  fresh y -> synced (sched y) -> steps_through well_called y y' ->
  inv y' /\ synced (settled y') /\
  forall j, job_source j <> "ui" -> (j ∈ sc_jobs (sched y') <-> j ∈ sc_jobs (sched y)).
Proof.
  intros Hf Hs Ht. pose proof (fresh_inv _ Hf) as Hi.
  assert (H0 : synced (settled y)).
  { unfold settled. destruct Hf as (_ & _ & _ & [->|[now ->]] & _); exact Hs. }
  clear Hf Hs. induction Ht as [y|y y1 y2 Hw Hst _ IH]; [done|].
  destruct IH as (I1 & I2 & I3); [by eapply step_inv|by eapply step_synced|].
  split_and!; [done|done|]. intros j Hj. rewrite I3 by done. by eapply step_config_jobs.
Qed.

(** ** Published statuses *)

Definition statuses (s : Scheduler) : list JobStatus := map (job_status s) (sc_jobs s).

(** The statuses were those of a state on the way. *)
Definition once (y0 y : System) (sts : list JobStatus) : Prop :=
  exists y1, steps localtime (Running y0) (Running y1) /\
    steps localtime (Running y1) (Running y) /\ sts = statuses (sched y1).

(** So for those that are published and those that are about to be. *)
Record published (y0 y : System) : Prop := {
  pub_reached : steps localtime (Running y0) (Running y);
  pub_state : once y0 y (jobs_ (sc_state (sched y)));
  pub_loop sts : phase y = PStore sts -> once y0 y sts;
  pub_caller sts : caller y = Copied sts -> once y0 y sts
}.

Lemma one_step y y' : step localtime y (Running y') -> steps localtime (Running y) (Running y').
Proof. intros Hs. eapply steps_next; [exact Hs|apply steps_refl]. Qed.

Lemma once_step y0 y y' sts : step localtime y (Running y') -> once y0 y sts -> once y0 y' sts.
Proof.
  intros Hs (y1 & H1 & H2 & E). exists y1. split_and!; [done| |done].
  eapply steps_trans; [exact H2|by apply one_step].
Qed.

(** A copy read flag by flag, while workers end, is that of a state on the
    way: one in which those that it saw ended have, and the others not yet. *)
Lemma copied_once y0 y ph k sts z :
  inv y -> steps localtime (Running y0) (Running y) -> copies (sched y, workers y) sts z ->
  (forall x, step localtime
     {| sched := fst x; phase := phase y; workers := snd x; caller := caller y |}
     (Running {| sched := fst x; phase := ph (statuses (fst x)); workers := snd x;
                 caller := k (statuses (fst x)) |})) ->
  once y0 {| sched := fst z; phase := ph sts; workers := snd z; caller := k sts |} sts.
Proof.
  intros Hi H Hc Hcopy.
  destruct (copies_spec (sched y, workers y) sts z (inv_workers _ Hi) (inv_names _ Hi) Hc) as (x1 & H1 & H2 & E).
  exists {| sched := fst x1; phase := phase y; workers := snd x1; caller := caller y |}.
  split_and!; [| |exact E].
  - eapply steps_trans; [exact H|]. destruct y. exact (finish_steps localtime (_, _) x1 _ _ H1).
  - eapply steps_next; [apply Hcopy|]. change (map (job_status (fst x1)) (sc_jobs (fst x1)))
      with (statuses (fst x1)) in E. rewrite E. by apply finish_steps.
Qed.

Lemma published_step y0 y y' :
  inv y -> step localtime y (Running y') -> published y0 y -> published y0 y'.
Proof.
  intros Hi Hs [Hr Hp Hl Hc]. pose proof (fun sts => once_step y0 y y' sts Hs) as Hstep.
  assert (Hr' : steps localtime (Running y0) (Running y')).
  { eapply steps_trans; [exact Hr|by apply one_step]. }
  inversion Hs as [c Hls|s ws Hwk|c s Hcs|sts z Hk Hco|s Ho]; subst; clear Hs; cbn [sched phase caller] in *.
  - destruct (loop_step_status _ _ Hi Hls) as (_ & E1 & E2).
    assert (Ek : caller y' = caller y) by (by inversion Hls).
    split; [done| | |intros sts; rewrite Ek; auto].
    + destruct (phase y) eqn:Eph; rewrite E1; auto.
    + intros sts Eph. destruct (E2 sts Eph) as (Hph & Hco & _).
      pose proof (copied_once y0 y PStore (fun _ => caller y) sts (sched y', workers y') Hi Hr Hco) as Ho.
      destruct y' as [s' ph' ws' k']. cbn [sched phase workers caller fst snd] in *. subst ph' k'. apply Ho.
      intros x. rewrite Hph. apply ByLoop, copy_step.
  - destruct (worker_step_keeps _ _ _ _ Hwk) as (_ & _ & _ & _ & _ & E).
    split; cbn [sched phase caller]; [done|rewrite E|..]; auto.
  - destruct (caller_step_status _ _ _ _ Hcs) as [E1 E2].
    split; cbn [sched phase caller]; [done| |by auto|intros sts Ek; by destruct (E2 sts)].
    destruct (caller y) eqn:Ek; rewrite E1; auto.
  - destruct (only_tasks_frame _ _ (copies_frame (sched y, workers y) sts z (inv_workers _ Hi) (inv_names _ Hi) Hco)) as [_ E].
    cbn [fst] in E. split; cbn [sched phase caller]; [done|rewrite E; auto|auto|].
    intros sts' [= <-]. apply (copied_once y0 y (fun _ => phase y) Copied sts z Hi Hr Hco).
    intros x. rewrite Hk.
    exact (ByCopy localtime {| sched := fst x; phase := phase y; workers := snd x; caller := Publishing |} _ _
             eq_refl (copies_now (fst x) (snd x))).
  - destruct (outside_step_frame _ _ Ho) as [_ _ _ _ _ _ _ E].
    split; cbn [sched phase caller]; [done|rewrite E|..]; auto.
Qed.

Lemma published_start y : fresh y -> jobs_ (sc_state (sched y)) = statuses (sched y) -> published y y.
Proof.
  intros (_ & _ & Hph & Hk & _) Hp. split; [apply steps_refl|exists y; split_and!; [apply steps_refl..|done]|..].
  - intros sts E. by rewrite Hph in E.
  - intros sts E. destruct Hk as [Hk|[now Hk]]; by rewrite Hk in E.
Qed.

Lemma published_reached y y' :
  fresh y -> jobs_ (sc_state (sched y)) = statuses (sched y) ->
  steps localtime (Running y) (Running y') -> published y y'.
Proof.
  intros Hf Hp Hs. pose proof (published_start y Hf Hp) as H0. pose proof (fresh_inv _ Hf) as Hi. clear Hf Hp.
  remember (Running y) as c1 eqn:E1. remember (Running y') as c2 eqn:E2.
  assert (Hgo : forall z, c1 = Running z -> published y z -> inv z -> published y y').
  { clear H0 Hi E1. induction Hs as [c|z0 c c' Hz Hrest IH]; intros z E1 H1 Hi1; simplify_eq.
    - exact H1.
    - destruct c as [y3|]; [|inversion Hrest].
      apply (IH eq_refl y3 eq_refl); [by eapply published_step|by eapply step_inv]. }
  by apply (Hgo y).
Qed.
End Interleaved.

(** ** Properties *)

(** C13: memory and disk agree, under every interleaving of the loop, the
    workers and the clients and whichever SQLite calls fail, as long as the
    jobs that clients add are determined by their stored form (their texts
    hold no NUL) and the names they remove hold no NUL: whenever no
    client is between storing a definition and entering its job, or between
    deleting and erasing one, the jobs whose source is the UI are exactly the
    stored definitions ([synced]); inside such a call they are so once it is
    carried through.  Names stay distinct, and jobs of config.yaml are neither
    added nor removed.  (The API lets a NUL through, and then they do not
    agree: [nul_name_diverges].) *)
Theorem memory_disk_always_agree localtime {sq : Sqlite} y y' :
  fresh y -> synced (sched y) -> steps_through localtime well_called y y' ->
  synced (settled y') /\ (caller y' = Idle -> synced (sched y')) /\
  NoDup (names_of (sc_jobs (sched y'))) /\
  forall j, job_source j <> "ui" -> (j ∈ sc_jobs (sched y') <-> j ∈ sc_jobs (sched y)).
Proof.
  intros Hf Hs Ht. destruct (through_synced localtime y y' Hf Hs Ht) as (Hi & Hsy & Hcfg).
  split_and!; [done| |apply (inv_names _ Hi)|done]. intros E. unfold settled in Hsy. by rewrite E in Hsy.
Qed.


(** But it may be an earlier state than one published before: the loop copies
    the statuses under the mutex and stores them after it is released.  A job
    whose addition was answered with success in between is in the scheduler
    and not in the list, until the loop publishes again. *)
Theorem stale_statuses_hide_job localtime {sq : Sqlite} s ws now j :
  str_empty (job_name j) = false -> str_empty (job_command j) = false ->
  find_job (job_name j) s = None ->
  exists s', steps localtime
      (Running {| sched := s; phase := PLaunch []; workers := ws; caller := Idle |})
      (Running {| sched := s'; phase := PReap; workers := ws; caller := Idle |}) /\
    fst (add_job localtime NoFault now j s) = "" /\
    with_source "ui" j ∈ sc_jobs s' /\ job_name j ∉ map js_name (jobs_ (sc_state s')).
Proof.
  intros Hn Hc Hf. pose proof (add_job_outcomes localtime NoFault now j s) as Ho.
  pose proof (add_job_sections localtime NoFault now j s) as Hs.
  pose proof (add_job_accepted localtime now j s Hn Hc Hf) as Ha.
  destruct (add_job localtime NoFault now j s) as [msg s1]. cbn [fst snd] in *.
  destruct Ho as [(_ & _ & _ & _ & _ & Ej & _)|[Hm _]]; [|done].
  exists (with_state (set_jobs (map (job_status s) (sc_jobs s)) (sc_state s1)) s1). split_and!.
  - eapply loop_then; [apply copy_step|].
    eapply steps_trans.
    { apply (call_steps localtime {| sched := s; phase := PStore (map (job_status s) (sc_jobs s));
        workers := ws; caller := Idle |} s Idle s1 eq_refl Hs). }
    cbn [phase workers]. eapply loop_goes; [apply StepStore|apply steps_refl].
  - exact Ha.
  - cbn [sc_jobs with_state]. rewrite Ej. apply elem_of_app. right. left.
  - cbn [sc_state with_state jobs_ set_jobs]. rewrite map_map. intros Hin.
    apply find_in_None in Hf. apply Hf. unfold names_of.
    rewrite list_elem_of_In, in_map_iff in *. destruct Hin as (i & E & Hi). exists i. split; [|done].
    rewrite <- E. unfold job_status. by destruct (sc_last_runs s !! job_name i).
Qed.

(** A job whose name holds a NUL, which JSON can write and [add_job] accepts:
    the scheduler knows it by its whole name, and the database by what comes
    before the NUL, so the definition it loads at its next start is of another
    job, and deleting the one does not delete the other. *)
Theorem nul_name_diverges localtime {sq : Sqlite} now j s :
  str_empty (job_name j) = false -> str_empty (job_command j) = false ->
  find_job (job_name j) s = None -> c_str (job_name j) <> job_name j ->
  let (message, s') := add_job localtime NoFault now j s in
  message = "" /\ with_source "ui" j ∈ sc_jobs s' /\
  defs_map (job_defs_tbl (sc_db s')) !! c_str (job_name j) =
    Some (stored_def (def_from_job (with_source "ui" j))) /\
  ~ synced s'.
Proof.
  intros Hn Hc Hf Hz. pose proof (add_job_outcomes localtime NoFault now j s) as Ho.
  pose proof (add_job_accepted localtime now j s Hn Hc Hf) as Ha.
  destruct (add_job localtime NoFault now j s) as [msg s'] eqn:E. cbn [fst snd] in *.
  destruct Ho as [(_ & _ & _ & _ & _ & Ej & _)|[Hm _]]; [|done].
  assert (Hj : with_source "ui" j ∈ sc_jobs s') by (rewrite Ej; apply elem_of_app; right; left).
  split_and!; [exact Ha|exact Hj| |].
  - unfold add_job in E. rewrite Hn, Hc, Hf, bool_decide_false in E by (by intros [? [=]]).
    unfold upsert_job_def, run_update in E. injection E as _ <-.
    change (defs_map (upsert_rows (stored_def (def_from_job (with_source "ui" j)))
      (job_defs_tbl (sc_db s))) !! c_str (job_name j) = Some (stored_def (def_from_job (with_source "ui" j)))).
    rewrite upsert_rows_map. by rewrite lookup_insert_eq.
  - intros Hs. destruct (sync_jobs _ Hs _ Hj eq_refl) as [Hr _]. by destruct Hr.
Qed.

(** The scheduler with no job stored, and a client that adds one. *)
Definition unsaved_start : System :=
  {| sched := publish_status unsaved; phase := PReap; workers := []; caller := Idle |}.

Lemma unsaved_fresh : fresh unsaved_start.
Proof.
  refine (conj eq_refl (conj eq_refl (conj eq_refl (conj (or_introl eq_refl) (conj _ _))))); constructor.
Qed.

Definition adding_hourly : System :=
  {| sched := publish_status unsaved; phase := PReap; workers := []; caller := Adding hourly |}.

Definition stored_db : Tables :=
  match upsert_job_def NoFault (def_from_job hourly) (sc_db (sched adding_hourly)) with
  | Ret db => db
  | _ => empty_tables
  end.

Definition added_hourly : System :=
  {| sched := with_db stored_db (sched adding_hourly); phase := PReap; workers := [];
     caller := Added hourly |}.

Lemma adding_through : steps_through utc well_called unsaved_start added_hourly.
Proof.
  eapply (through_next utc _ _ adding_hourly); [exact I| |].
  - apply (ByCaller utc unsaved_start (Adding hourly)), (CallAdd utc hourly); reflexivity.
  - eapply (through_next utc _ _ added_hourly); [exact hourly_restorable| |apply through_refl].
    apply (ByCaller utc adding_hourly (Added hourly)), (CallUpsert utc NoFault). reflexivity.
Qed.

Lemma memory_disk_always_agree_witness :
  sc_jobs (sched added_hourly) = [] /\ synced (with_jobs [hourly] (sched added_hourly)).
Proof.
  split; [reflexivity|].
  exact (proj1 (memory_disk_always_agree utc unsaved_start added_hourly unsaved_fresh
    unsaved_synced adding_through)).
Defined.

(** After the whole call. *)
Definition saved_hourly : Scheduler := snd (add_job utc NoFault 1700035200 hourly (sched unsaved_start)).

Lemma saved_steps :
  steps utc (Running unsaved_start)
    (Running {| sched := saved_hourly; phase := PReap; workers := []; caller := Idle |}).
Proof. apply (call_steps utc unsaved_start _ Idle _ eq_refl), add_job_sections. Qed.


Lemma stale_statuses_hide_job_witness :
  exists s', (hourly ∈ sc_jobs s') /\ ("hourly" ∉ map js_name (jobs_ (sc_state s'))) /\
    steps utc (Running {| sched := unsaved; phase := PLaunch []; workers := []; caller := Idle |})
              (Running {| sched := s'; phase := PReap; workers := []; caller := Idle |}).
Proof.
  destruct (stale_statuses_hide_job utc unsaved [] 1700035200 hourly eq_refl eq_refl eq_refl)
    as (s' & Hs & _ & Hj & Hn).
  exists s'. split; [exact Hj|]. split; [exact Hn|exact Hs].
Defined.
