(* ===== verification/Durability.v ===== *)
(** * The daemon killed at any moment

    Lives of the daemon on one database: each begins with the construction of
    a scheduler, runs under any interleaving, and ends wherever the process
    is killed (a statement of SQLite takes effect whole or not at all).  What
    the next life finds: the jobs the clients added, and an addition or a
    removal that was under way either done or not done. *)

From stdpp Require Import base option list strings gmap.
From Stdlib Require Import Ascii ZArith Lia.
From S2P Require Import Prelude CppLib Double Cron SharedState Config Database ProcessRunner.
From S2P Require Import Scheduler Sections Locked SchedulerSteps Restart Consistency.

Open Scope string_scope.
Open Scope list_scope.

#[local] Opaque Cron.next_after Cron.prev_before.

(** config.yaml's jobs, as load_config returns them. *)
Definition config_jobs (cfg : list Job) : Prop :=
  NoDup (names_of cfg) /\ Forall (fun j => job_source j = "config") cfg.

Section Lives.
Context (localtime : Z -> tm) {sq : Sqlite}.

(** The databases a daemon leaves behind over any number of lives, in which
    every state is of the kind [P] and every configuration of the kind [Q]. *)
Inductive lived (P : System -> Prop) (Q : list Job -> Prop) : Tables -> Tables -> Prop :=
| lived_none db : lived P Q db db
| lived_more db cfg now scan_now st s y db' :
    config_jobs cfg -> Q cfg ->
    make_scheduler localtime cfg (Some db) now NoFault (fun _ => NoFault) st = Ret s ->
    steps_through localtime P (starting now scan_now s) y ->
    lived P Q (sc_db (sched y)) db' ->
    lived P Q db db'.

Lemma steps_through_weaken (P P' : System -> Prop) y y' :
  (forall z, P z -> P' z) -> steps_through localtime P y y' -> steps_through localtime P' y y'.
Proof.
  intros H. induction 1 as [y|y y1 y2 Hy Hs _ IH]; [constructor|].
  econstructor; [by apply H|exact Hs|exact IH].
Qed.

Lemma steps_through_trans P y1 y2 y3 :
  steps_through localtime P y1 y2 -> steps_through localtime P y2 y3 -> steps_through localtime P y1 y3.
Proof.
  induction 1 as [y|y y1 y2 Hy Hs _ IH]; intros H3; [exact H3|].
  econstructor; [exact Hy|exact Hs|auto].
Qed.

(** ** What is on disk *)

(** The jobs of a settled state are those on disk. *)
Lemma settled_db y : sc_db (settled y) = sc_db (sched y).
Proof. unfold settled. by destruct (caller y). Qed.

Lemma settled_sound y : synced (settled y) -> sound_defs (sc_db (sched y)).
Proof. intros H. rewrite <- settled_db. by apply synced_sound. Qed.

(** A restarted scheduler agrees with its database. *)
Lemma restart_synced {L : SqliteLaws sq} cfg now scan_now st db :
  sound_defs db -> config_jobs cfg ->
  exists s, make_scheduler localtime cfg (Some db) now NoFault (fun _ => NoFault) st = Ret s /\
    (forall n, find_job n s = match find_in n cfg with Some j => Some j | None => stored_job db n end) /\
    fresh (starting now scan_now s) /\ synced (sched (starting now scan_now s)).
Proof.
  intros Hd [Hn Hc]. destruct (restart_spec localtime cfg now st db Hd) as (s & E & Edb & Hf).
  exists s. split_and!; [done|done|eapply starting_fresh; [exact Hn|exact E]|].
  apply (synced_ext s); [done|done|]. destruct (made localtime cfg db now st s Hn E) as (Hns & _).
  split; rewrite Edb.
  - apply (sd_distinct _ Hd).
  - intros j Hj Hui. pose proof (find_in_unique _ _ Hns Hj) as Hfj. change (find_job (job_name j) s = Some j) in Hfj.
    rewrite Hf in Hfj. destruct (find_in (job_name j) cfg) as [i|] eqn:Ei.
    + injection Hfj as ->. apply find_in_Some in Ei as [Hi _].
      rewrite Forall_forall in Hc. by rewrite (Hc j Hi) in Hui.
    + by destruct (stored_job_Some db _ j Hd Hfj) as (? & _ & ?).
  - intros n d Hl. destruct (sd_restorable _ Hd n d Hl) as (j & Hr & -> & <-). split; [|eauto].
    rewrite Hf. destruct (find_in (job_name j) cfg); [eauto|].
    rewrite (stored_job_def db j Hr Hl). eauto.
Qed.

(** Soundness survives any number of lives. *)
Lemma lived_sound {L : SqliteLaws sq} Q db db' :
  sound_defs db -> lived well_called Q db db' -> sound_defs db'.
Proof.
  intros Hd Hl. induction Hl as [db|db cfg now scan_now st s y db' Hc _ E Ht _ IH]; [done|].
  destruct (restart_synced cfg now scan_now st db Hd Hc) as (s' & E' & _ & Hf & Hs).
  rewrite E in E'. injection E' as <-. apply IH, settled_sound.
  by destruct (through_synced localtime _ _ Hf Hs Ht) as (_ & ? & _).
Qed.

(** ** A definition nobody removes *)

(** Calls as before, none of which removes the job [n]. *)
Definition kept (n : string) (y : System) : Prop := well_called y /\ caller y <> Removing n.

Lemma kept_called n y : kept n y -> well_called y.
Proof. by intros [? _]. Qed.

Lemma step_keeps_def n d y y' :
  inv y -> synced (settled y) -> kept n y -> step localtime y (Running y') ->
  defs_map (job_defs_tbl (sc_db (sched y))) !! n = Some d ->
  defs_map (job_defs_tbl (sc_db (sched y'))) !! n = Some d.
Proof.
  intros Hi Hsy [Hw Hr] Hs Hd. inversion Hs as [c Hl|s ws Hwk|c s Hc|sts z Hk Hco|s Ho]; subst; clear Hs; cbn [sched].
  - by destruct (loop_step_status _ _ _ Hi Hl) as ([_ ->] & _).
  - inversion Hwk as [s0 ws1 ws2 w sec secs f Hsec]; subst.
    by destruct (apply_section_keeps f (w_name w) (w_trigger w) sec (sched y)) as (_ & _ & _ & _ & -> & _).
  - destruct y as [s0 ph ws k]. pose proof (inv_caller _ Hi) as Hok. unfold well_called, settled in *.
    cbn [caller sched] in *.
    inversion Hc as [now ts f sc sc' s1 s2 Hsc| | | | |f j db s1 Hu| |now j s1| |f m db s1 Hdel| |m s1|];
      subst; try exact Hd.
    + destruct (scan_section_grows _ _ _ _ _ _ _ _ Hsc) as (Hf & _). by rewrite (frame_defs _ _ Hf).
    + destruct Hok as [Hf _]. destruct (sync_defs _ Hsy n d Hd) as [[i Hn] _].
      unfold upsert_job_def, run_update in Hu. destruct f; try discriminate. injection Hu as <-.
      change (defs_map (upsert_rows (stored_def (def_from_job j)) (job_defs_tbl (sc_db s0))) !! n = Some d).
      rewrite upsert_rows_map, stored_name by done. rewrite lookup_insert_ne; [done|]. congruence.
    + unfold delete_job_def, run_update in Hdel. destruct f; try discriminate. injection Hdel as <-.
      change (defs_map (without (c_str m) (job_defs_tbl (sc_db s0))) !! n = Some d). rewrite Hw.
      rewrite without_map, lookup_delete_ne; [done|]. congruence.
  - by destruct (only_tasks_frame _ _ (copies_frame (sched y, workers y) sts z (inv_workers _ Hi)
      (inv_names _ Hi) Hco)) as [[_ ->] _].
  - by destruct (outside_step_frame _ _ Ho) as [_ _ _ _ _ _ -> _].
Qed.

Lemma through_keeps_def n d y y' :
  inv y -> synced (settled y) -> steps_through localtime (kept n) y y' ->
  defs_map (job_defs_tbl (sc_db (sched y))) !! n = Some d ->
  defs_map (job_defs_tbl (sc_db (sched y'))) !! n = Some d.
Proof.
  intros Hi Hs Ht. induction Ht as [y|y y1 y2 Hk Hst _ IH]; [done|]. intros Hd.
  pose proof (kept_called _ _ Hk). apply IH; [by eapply step_inv|by eapply step_synced|by eapply step_keeps_def].
Qed.

Lemma lived_weaken (P P' : System -> Prop) (Q Q' : list Job -> Prop) db db' :
  (forall y, P y -> P' y) -> (forall cfg, Q cfg -> Q' cfg) -> lived P Q db db' -> lived P' Q' db db'.
Proof.
  intros HP HQ. induction 1 as [db|db cfg now scan_now st s y db' Hc Hq E Ht _ IH]; [constructor|].
  eapply lived_more; [exact Hc|by apply HQ|exact E|by eapply steps_through_weaken|exact IH].
Qed.

Lemma lived_keeps_def {L : SqliteLaws sq} Q n d db db' :
  sound_defs db -> lived (kept n) Q db db' ->
  defs_map (job_defs_tbl db) !! n = Some d -> defs_map (job_defs_tbl db') !! n = Some d.
Proof.
  intros Hd Hl. induction Hl as [db|db cfg now scan_now st s y db' Hc _ E Ht _ IH]; [done|]. intros Hn.
  destruct (restart_synced cfg now scan_now st db Hd Hc) as (s' & E' & _ & Hf & Hs).
  rewrite E in E'. injection E' as <-.
  assert (Edb : sc_db (sched (starting now scan_now s)) = db).
  { destruct (made localtime cfg db now st s (proj1 Hc) E) as (_ & Edb & _). exact Edb. }
  apply IH.
  - apply settled_sound.
    by destruct (through_synced localtime _ _ Hf Hs (steps_through_weaken _ _ _ _ (kept_called n) Ht))
      as (_ & ? & _).
  - eapply through_keeps_def; [exact (fresh_inv _ Hf)|exact Hs|exact Ht|by rewrite Edb].
Qed.

(** A job stored once and never removed is there after any number of lives in
    which config.yaml does not take its name. *)
Lemma stored_outlives {L : SqliteLaws sq} Q j db db' cfg now scan_now st :
  sound_defs db -> stored_job db (job_name j) = Some j ->
  lived (kept (job_name j)) Q db db' -> config_jobs cfg -> find_in (job_name j) cfg = None ->
  exists s, make_scheduler localtime cfg (Some db') now NoFault (fun _ => NoFault) st = Ret s /\
    fresh (starting now scan_now s) /\ find_job (job_name j) s = Some j.
Proof.
  intros Hd Hj Hl Hc Hn. destruct (stored_job_Some _ _ _ Hd Hj) as (Hr & _ & Hdef).
  pose proof (lived_keeps_def _ _ _ _ _ Hd Hl Hdef) as Hdef'.
  assert (Hd' : sound_defs db').
  { eapply lived_sound; [exact Hd|]. eapply lived_weaken; [apply kept_called| |exact Hl]. exact (fun _ H => H). }
  destruct (restart_synced cfg now scan_now st db' Hd' Hc) as (s & E & Hf & Hfr & _).
  exists s. split_and!; [done|done|]. rewrite Hf, Hn. by apply stored_job_def.
Qed.
End Lives.

(** ** Properties *)

(** C15: a kill loses nothing and tears nothing.  Whatever number of times the
    daemon has been killed on a database, at whatever moments, under whatever
    interleaving and with whichever SQLite calls of its threads failing, if
    the queries of its constructor succeed it starts again: it
    has the jobs of config.yaml and, under every other name, the job the
    database holds.  And at every moment of the new life the database holds
    exactly what the next one must find: the jobs the clients added, field by
    field, with a call under way counted whole once its statement has taken
    effect ([settled]), and not at all before.  (The queries of the
    constructors of the lives before succeeded too; the jobs that clients add
    are determined by their stored form, and the names they remove hold no
    NUL.) *)
Theorem crash_restart_atomic localtime {sq : Sqlite} {L : SqliteLaws sq} db0 db cfg now scan_now st :
  sound_defs db0 -> lived localtime well_called (fun _ => True) db0 db -> config_jobs cfg ->
  exists s, make_scheduler localtime cfg (Some db) now NoFault (fun _ => NoFault) st = Ret s /\
    fresh (starting now scan_now s) /\
    (forall n, find_job n s = match find_in n cfg with Some j => Some j | None => stored_job db n end) /\
    forall y, steps_through localtime well_called (starting now scan_now s) y ->
      (forall j, j ∈ sc_jobs (settled y) -> job_source j = "ui" ->
         stored_job (sc_db (sched y)) (job_name j) = Some j) /\
      (forall n j, stored_job (sc_db (sched y)) n = Some j ->
         exists i, find_job n (settled y) = Some i /\ (job_source i = "ui" -> i = j)).
Proof.
  intros Hd Hl Hc.
  destruct (restart_synced localtime cfg now scan_now st db (lived_sound localtime _ _ _ Hd Hl) Hc)
    as (s & E & Hf & Hfr & Hs).
  exists s. split_and!; [done..|]. intros y Ht.
  destruct (through_synced localtime _ _ Hfr Hs Ht) as (Hi & Hsy & _).
  assert (Hui : forall j, j ∈ sc_jobs (settled y) -> job_source j = "ui" ->
    stored_job (sc_db (sched y)) (job_name j) = Some j).
  { intros j Hj Hu. destruct (sync_jobs _ Hsy j Hj Hu) as [Hr Hdef]. rewrite settled_db in Hdef.
    by apply stored_job_def. }
  split; [exact Hui|]. intros n j Hn.
  destruct (stored_job_Some _ _ _ (settled_sound y Hsy) Hn) as (_ & _ & Hdef).
  rewrite <- settled_db in Hdef. destruct (sync_defs _ Hsy n _ Hdef) as [[i Hfi] _].
  exists i. split; [done|]. intros Hu. apply find_in_Some in Hfi as [Hin <-].
  specialize (Hui i Hin Hu). congruence.
Qed.

Definition daily : Job := example_sched_job "daily" "30 8 * * *" NoPolicy.

(** Killed after the statement of an addition and before its job is entered. *)
Definition first_life : Scheduler :=
  match make_scheduler utc [] (Some empty_tables) 1700035200 NoFault (fun _ => NoFault) initial_state with
  | Ret s => s
  | _ => unsaved
  end.

Definition hourly_db : Tables :=
  match upsert_job_def NoFault (def_from_job hourly) empty_tables with
  | Ret db => db
  | _ => empty_tables
  end.

Lemma empty_sound : sound_defs empty_tables.
Proof.
  split; [constructor|]. intros n d Hd. change (defs_map _) with (∅ : gmap string JobDef) in Hd.
  by rewrite lookup_empty in Hd.
Qed.

Definition before_upsert : System :=
  {| sched := with_last_wall 1700035200 (with_active true first_life); phase := PReap; workers := [];
     caller := Adding hourly |}.

Definition killed : System :=
  {| sched := with_db hourly_db (sched before_upsert); phase := PReap; workers := [];
     caller := Added hourly |}.

Lemma first_life_adds :
  steps_through utc well_called (starting 1700035200 1700035200 first_life) killed.
Proof.
  set (s := with_last_wall 1700035200 (with_active true first_life)).
  eapply (through_next utc _ _ {| sched := s; phase := PReap; workers := [];
                                  caller := Starting 1700035200 (Look []) |}); [exact I| |].
  { apply (ByCaller utc (starting 1700035200 1700035200 first_life)), (CallScan utc 1700035200 0 NoFault).
    vm_compute. reflexivity. }
  eapply (through_next utc _ _ {| sched := s; phase := PReap; workers := []; caller := Idle |}); [exact I| |].
  { apply (ByCaller utc {| sched := s; phase := PReap; workers := [];
                           caller := Starting 1700035200 (Look []) |}), CallScanned. }
  eapply (through_next utc _ _ before_upsert); [exact I| |].
  { apply (ByCaller utc {| sched := s; phase := PReap; workers := []; caller := Idle |} (Adding hourly)),
      (CallAdd utc hourly); vm_compute; reflexivity. }
  eapply (through_next utc _ _ killed); [exact hourly_restorable| |apply through_refl].
  apply (ByCaller utc before_upsert (Added hourly)), (CallUpsert utc NoFault). vm_compute. reflexivity.
Qed.

Lemma first_life_lived : lived utc well_called (fun _ => True) empty_tables hourly_db.
Proof.
  eapply (lived_more utc _ _ _ [] 1700035200 1700035200 initial_state first_life killed).
  - split; constructor.
  - exact I.
  - vm_compute. reflexivity.
  - exact first_life_adds.
  - apply lived_none.
Qed.

Lemma hourly_stored : stored_job hourly_db "hourly" = Some hourly.
Proof. vm_compute. reflexivity. Qed.

Lemma crash_restart_atomic_witness :
  exists s, make_scheduler utc [with_source "config" daily] (Some hourly_db) 1700038800 NoFault
      (fun _ => NoFault) initial_state = Ret s /\ find_job "hourly" s = Some hourly.
Proof.
  destruct (crash_restart_atomic utc empty_tables hourly_db [with_source "config" daily] 1700038800 1700038800
    initial_state empty_sound first_life_lived) as (s & E & _ & Hf & _).
  - split; [apply NoDup_singleton|apply Forall_singleton; reflexivity].
  - exists s. split; [exact E|]. rewrite Hf, hourly_stored. reflexivity.
Defined.
