(* ===== verification/Shutdown.v ===== *)
(** * Stopping the scheduler (daemon/src/jobs/scheduler.cpp, stop)

    [stop] clears [active_], joins the loop thread, takes the running tasks
    over and joins their threads, while the loop finishes its turn and the
    workers go on.  The thread that serves the clients, the sampler and the
    sleep monitor have ended: main stops them before. *)

From stdpp Require Import base option list strings gmap relations.
From Stdlib Require Import Ascii ZArith Lia Relation_Operators Wellfounded.Lexicographic_Product
  Wf_nat Inverse_Image.
From S2P Require Import Prelude CppLib Double Cron SharedState Config Database ProcessRunner.
From S2P Require Import Scheduler Sections Locked SchedulerSteps.

Open Scope string_scope.
Open Scope list_scope.

#[local] Opaque Cron.next_after Cron.prev_before.

(** Where [stop] is: joining the loop thread, which may have [entered] one
    more turn by reading [active_] before it was cleared; joining the workers;
    returned; or the process has terminated meanwhile. *)
Inductive Stopping :=
| JoinLoop (entered : bool) (y : System)
| JoinWorkers (s : Scheduler) (ws : list Worker)
| Stopped (s : Scheduler)
| StopCrashed.

(** [active_.exchange(false)] with the loop and the workers as in [y]. *)
Definition stop_begin (entered : bool) (y : System) : Stopping :=
  JoinLoop entered {| sched := with_active false (sched y); phase := phase y;
                      workers := workers y; caller := caller y |}.

Section Stop.
Context (localtime : Z -> tm) {sq : Sqlite}.

Inductive stop_step : Stopping -> Stopping -> Prop :=
| StopTurn entered y y' :
    loop_step localtime y (Running y') -> (phase y = PReap -> entered = true) ->
    stop_step (JoinLoop entered y) (JoinLoop false y')
| StopTurnCrash entered y :
    loop_step localtime y Crashed -> stop_step (JoinLoop entered y) StopCrashed
| StopLoopWorker entered y s ws :
    worker_step (sched y, workers y) (s, ws) ->
    stop_step (JoinLoop entered y)
              (JoinLoop entered {| sched := s; phase := phase y; workers := ws; caller := caller y |})
| StopTake y :
    phase y = PReap ->
    stop_step (JoinLoop false y) (JoinWorkers (with_running ∅ (sched y)) (workers y))
| StopWorker s s' ws ws' :
    worker_step (s, ws) (s', ws') -> stop_step (JoinWorkers s ws) (JoinWorkers s' ws')
| StopDone s : stop_step (JoinWorkers s []) (Stopped s).

(** ** Every execution of [stop] is finite *)

Definition events_left (ws : list Worker) : nat :=
  list_sum (map (fun w => length (w_sections w)) ws).

(** How far the loop is from being joined, the launches or the sections of a
    scan it has left, and the sections the workers have left. *)
Definition stop_measure (c : Stopping) : nat * (nat * nat) :=
  match c with
  | JoinLoop entered y =>
      let left := events_left (workers y) in
      match phase y with
      | PReap => (if entered then 9 else 2, (0, left))
      | PWake => (8, (0, left))
      | PScan _ _ Collect => (7, (0, left))
      | PScan _ _ c => (6, (scan_size c, left))
      | PPick _ => (5, (0, left))
      | PLaunch ls => (4, (length ls, left))
      | PStore _ => (3, (0, left))
      end
  | JoinWorkers _ ws => (1, (0, events_left ws))
  | _ => (0, (0, 0))
  end.

Definition below : nat * (nat * nat) -> nat * (nat * nat) -> Prop :=
  slexprod _ _ lt (slexprod _ _ lt lt).

Lemma below_wf : well_founded below.
Proof. apply wf_slexprod; [exact lt_wf|]. apply wf_slexprod; exact lt_wf. Qed.

Lemma worker_step_left s s' ws ws' :
  worker_step (s, ws) (s', ws') -> events_left ws' < events_left ws.
Proof.
  intros Hs. inversion Hs as [s0 ws1 ws2 w sec secs f Hsec]; subst.
  unfold events_left. destruct secs as [|e secs]; rewrite !map_app, !list_sum_app;
    unfold list_sum; cbn; rewrite Hsec; cbn; lia.
Qed.

(** A section of the loop comes nearer to the end of the turn. *)
Lemma loop_section_below entered y ph s ws :
  loop_section localtime (phase y) (sched y) (Some (ph, s, ws)) ->
  below (stop_measure (JoinLoop false (moved ph s ws y))) (stop_measure (JoinLoop entered y)).
Proof.
  destruct y as [s0 ph0 ws0 k]. cbn [phase sched]. intros Hl.
  inversion Hl as [s1 wall sn|wall sn ts f c s1 c' s2 Hsc| |s1 s2 l ls run b evs ts Hla Hwo| |];
    subst; unfold moved; cbn [stop_measure phase workers].
  - destruct (scans_on_wake _ _); constructor 1; lia.
  - assert (c = Collect \/ c <> Collect) as [->|Hc] by (destruct c; auto).
    { injection Hsc as <- <-. constructor 1. lia. }
    destruct (scan_section_shrinks _ _ _ _ _ _ _ _ Hsc Hc) as [Hc' Hlt].
    destruct c; try done; destruct c'; try done; constructor 2; constructor 1; exact Hlt.
  - constructor 1. lia.
  - constructor 2. constructor 1. cbn. lia.
  - constructor 1. lia.
Qed.

Lemma loop_step_below entered y y' :
  loop_step localtime y (Running y') -> (phase y = PReap -> entered = true) ->
  below (stop_measure (JoinLoop false y')) (stop_measure (JoinLoop entered y)).
Proof.
  intros Hl He. inversion Hl as [ph s ws Hs| |z Hp H|wall ls z Hp H|sts z Hp H]; subst;
    [by apply loop_section_below|unfold read_by; cbn [stop_measure phase workers]; rewrite Hp..].
  - rewrite He by done. constructor 1. lia.
  - constructor 1. lia.
  - constructor 1. lia.
Qed.

Lemma stop_step_below c c' : stop_step c c' -> below (stop_measure c') (stop_measure c).
Proof.
  destruct 1 as [entered y y' Hl He|entered y Hl|entered y s ws Hw|y Hp
    |s s' ws ws' Hw|s].
  - by apply loop_step_below.
  - cbn. destruct (phase y) as [| |? ? []| | |]; destruct entered; constructor 1; lia.
  - apply worker_step_left in Hw. destruct y as [s0 ph ws0 k]. cbn [stop_measure phase workers] in *.
    destruct ph as [| |? ? []| | |]; constructor 2; constructor 2; exact Hw.
  - cbn [stop_measure]. rewrite Hp. constructor 1. lia.
  - apply worker_step_left in Hw. constructor 2. constructor 2. exact Hw.
  - constructor 1. lia.
Qed.

Lemma stop_sn c : sn stop_step c.
Proof.
  pose proof (below_wf (stop_measure c)) as Ha.
  remember (stop_measure c) as m eqn:E. revert c E.
  induction Ha as [m _ IH]. intros c ->. constructor. intros c' Hs.
  by eapply IH; [apply stop_step_below|].
Qed.

(** ** And it only ends when the threads have *)

(** The retries of a job leave room for the first attempt. *)
Definition countable (j : Job) : Prop := (int_min <= job_retries j < int_max)%Z.

Definition launches_of (ph : Phase) : list (Job * string) :=
  match ph with PLaunch ls => ls | _ => [] end.

(** What every state of a stop satisfies. *)
Definition stop_inv (c : Stopping) : Prop :=
  match c with
  | JoinLoop _ y =>
      inv y /\ sc_active (sched y) = false /\ Forall countable (sc_jobs (sched y)) /\
      Forall (fun l => countable (fst l)) (launches_of (phase y))
  | JoinWorkers s ws =>
      sc_active s = false /\ sc_running s = ∅ /\ Forall (fun w => closing (w_sections w)) ws
  | Stopped s => sc_active s = false /\ sc_running s = ∅
  | StopCrashed => True
  end.

Lemma picks_countable wall x ls z :
  NoDup (map w_name (snd x)) -> NoDup (names_of (sc_jobs (fst x))) -> picks localtime wall x ls z ->
  Forall countable (sc_jobs (fst x)) ->
  sc_active (fst z) = sc_active (fst x) /\ sc_jobs (fst z) = sc_jobs (fst x) /\
  Forall (fun l => countable (fst l)) ls.
Proof.
  intros Hw Hn H Hc.
  destruct (picks_spec localtime wall _ _ _ Hw Hn H) as (N & d & reqs & fs & nr & [_ -> -> Hs Hf _ _]).
  rewrite Forall_forall in Hc. split_and!; [done|done|]. apply Forall_app. split; apply Forall_forall.
  - intros l Hl. apply Hc. by destruct (sorted_takes _ _ _ _ _ _ Hs Hl) as (_ & ? & _).
  - intros l Hl. apply Hc. by destruct (fired_takes _ _ _ _ _ _ _ Hf Hl) as (_ & ? & _).
Qed.

Lemma loop_step_keeps y y' :
  inv y -> loop_step localtime y (Running y') -> Forall countable (sc_jobs (sched y)) ->
  Forall (fun l => countable (fst l)) (launches_of (phase y)) ->
  sc_active (sched y') = sc_active (sched y) /\ sc_jobs (sched y') = sc_jobs (sched y) /\
  Forall (fun l => countable (fst l)) (launches_of (phase y')).
Proof.
  intros Hi Hs Hc Hls. pose proof (inv_workers _ Hi) as Hw. pose proof (inv_names _ Hi) as Hn.
  inversion Hs as [ph s ws Hl| |z Hp H|wall ls z Hp H|sts z Hp H]; subst; clear Hs;
    unfold moved, read_by; cbn [sched phase].
  - destruct (loop_section_cases _ _ _ _ _ _ Hl) as (Ej & Ea & _ &
      [(_ & _ & Hno & _)|(l & ls & run & b & evs & ts & Hp & -> & _)]); (split_and!; [done|done|]).
    + destruct ph as [| | | |ls|]; try constructor. by destruct (Hno ls).
    + rewrite Hp in Hls. by apply Forall_inv_tail in Hls.
  - by destruct (reaps_frame (sched y, workers y) z Hw H) as (r & N & -> & _).
  - exact (picks_countable wall (sched y, workers y) ls z Hw Hn H Hc).
  - by destruct (copies_frame (sched y, workers y) sts z Hw Hn H) as (r & N & -> & _).
Qed.

Lemma worker_step_running s s' ws ws' :
  worker_step (s, ws) (s', ws') -> sc_running s = ∅ -> sc_running s' = ∅.
Proof.
  intros Hs. inversion Hs as [s0 ws1 ws2 w sec secs f Hsec]; subst. intros E.
  assert (sec = MarkDone \/ sec <> MarkDone) as [->|Hne] by (destruct sec; auto).
  - cbn. unfold mark_done. by rewrite E, lookup_empty.
  - destruct (apply_section_keeps f (w_name w) (w_trigger w) sec s) as (_ & _ & _ & _ & _ & _ & Er).
    by rewrite Er.
Qed.

Lemma worker_step_closing s s' ws ws' :
  worker_step (s, ws) (s', ws') ->
  Forall (fun w => closing (w_sections w)) ws -> Forall (fun w => closing (w_sections w)) ws'.
Proof.
  intros Hs. inversion Hs as [s0 ws1 ws2 w sec secs f Hsec]; subst.
  intros [H1 [Hw H2]%Forall_cons]%Forall_app. apply Forall_app. split; [done|].
  destruct secs as [|e secs]; [done|]. apply Forall_cons. split; [|done]. cbn.
  destruct Hw as (pre & E & Hp). rewrite Hsec in E. destruct pre as [|e' pre]; [by destruct secs|].
  injection E as _ E. exists pre. split; [done|]. by apply not_elem_of_cons in Hp as [_ Hp].
Qed.

Lemma worker_step_active s s' ws ws' :
  worker_step (s, ws) (s', ws') -> sc_active s' = sc_active s /\ sc_jobs s' = sc_jobs s.
Proof.
  intros Hs. inversion Hs as [s0 ws1 ws2 w sec secs f Hsec]; subst.
  by destruct (apply_section_keeps f (w_name w) (w_trigger w) sec s) as (? & _ & _ & ? & _).
Qed.

Lemma stop_step_inv c c' : stop_inv c -> stop_step c c' -> stop_inv c'.
Proof.
  intros Hi. destruct 1 as [entered y y' Hl He|entered y Hl|entered y s ws Hw|y Hp
    |s s' ws ws' Hw|s]; cbn in *.
  - destruct Hi as (Hi & Ha & Hc & Hls).
    destruct (loop_step_keeps y y' Hi Hl Hc Hls) as (Ea & Ej & Hk). rewrite Ea, Ej.
    split_and!; [exact (loop_step_inv localtime _ _ Hi Hl)|done|done|exact Hk].
  - done.
  - destruct Hi as (Hi & Ha & Hc & Hls).
    destruct (worker_step_active _ _ _ _ Hw) as [-> ->]. split_and!; try done.
    apply (step_inv localtime _ _ Hi). by apply ByWorker.
  - destruct Hi as (Hi & Ha & _). split_and!; [done|done|].
    apply Forall_forall. apply (inv_sections _ Hi).
  - destruct Hi as (Ha & Hr & Hc). destruct (worker_step_active _ _ _ _ Hw) as [-> _].
    split_and!; [done|by eapply worker_step_running|by eapply worker_step_closing].
  - tauto.
Qed.

Lemma worker_returns job : countable job -> exists evs, worker job (fun _ => no_result) (Some 0) = Ret evs.
Proof.
  intros Hc. unfold worker, countable in *.
  rewrite int_add_Ret by (apply in_int_spec; unfold int_min, int_max in *; lia).
  cbn [mbind outcome_mbind].
  destruct (Z.to_nat _); cbn; eauto.
Qed.

(** The turn under way can go on. *)
Lemma loop_progress y :
  Forall (fun l => countable (fst l)) (launches_of (phase y)) -> exists c, loop_step localtime y c.
Proof.
  intros Hls. destruct y as [s ph ws k]. cbn [phase] in Hls.
  assert (Hsec : forall r, loop_section localtime ph s r ->
    exists c, loop_step localtime {| sched := s; phase := ph; workers := ws; caller := k |} c).
  { intros [[[ph' s'] ws']|] H; [eexists; by apply section_step|]. exists Crashed. by apply LoopCrashes. }
  destruct ph as [| |wall now c|wall|[|l ls]|sts].
  - eexists. apply reap_step.
  - eapply Hsec, (StepWake localtime s 0 0).
  - destruct (scan_section localtime now 0 NoFault c s) as [[c' s']|] eqn:E.
    + eapply Hsec. by eapply StepScan.
    + apply scan_section_over in E as ->. eapply Hsec, StepScanned.
  - eexists. apply pick_step.
  - eexists. apply copy_step.
  - pose proof (launch_cases l s) as El. destruct (blocked s (job_name (fst l))).
    { eapply Hsec. by apply StepCrash. }
    apply Forall_inv in Hls. destruct (worker_returns (fst l) Hls) as [evs Hw].
    eapply Hsec. exact (StepLaunch localtime s _ l ls (fun _ => no_result) (Some 0) evs 0%Z El Hw).
  - eapply Hsec, StepStore.
Qed.

(** A stop that has not ended can go on. *)
Lemma stop_progress c :
  stop_inv c -> (exists c', stop_step c c') \/ c = StopCrashed \/ exists s, c = Stopped s.
Proof.
  destruct c as [entered y|s ws|s|]; cbn; [| |eauto|eauto].
  - intros (Hi & Ha & Hc & Hls). left.
    assert (phase y = PReap /\ entered = false \/ (phase y = PReap -> entered = true))
      as [[Hp ->]|Hno] by (destruct (phase y), entered; auto; right; discriminate).
    { eexists. by apply StopTake. }
    destruct (loop_progress y Hls) as [[y'|] Hl].
    + eexists. eapply StopTurn; [exact Hl|exact Hno].
    + eexists. by apply StopTurnCrash.
  - intros (Ha & Hr & Hc). left. destruct Hc as [|w ws (pre & E & _) _].
    { eexists. apply StopDone. }
    destruct pre as [|e pre]; cbn in E;
      eexists; eapply (StopWorker s _ _ _ (StepWorker s [] ws w _ _ NoFault E)).
Qed.
End Stop.

Lemma stop_comes_to_rest localtime {sq : Sqlite} y0 y entered :
  fresh y0 -> steps localtime (Running y0) (Running y) ->
  Forall countable (sc_jobs (sched y)) ->
  Forall (fun l => countable (fst l)) (launches_of (phase y)) ->
  forall c, rtc (stop_step localtime) (stop_begin entered y) c ->
    nf (stop_step localtime) c ->
    c = StopCrashed \/ exists s, c = Stopped s /\ sc_active s = false /\ sc_running s = ∅.
Proof.
  intros Hf Hs Hc Hl. intros c Hr Hn.
  assert (H0 : stop_inv (stop_begin entered y)).
  { pose proof (steps_inv localtime _ _ (fresh_inv _ Hf) Hs) as Hi.
    refine (conj _ (conj eq_refl (conj Hc Hl))). destruct y as [s ph ws k].
    exact (inv_same_running s (with_active false s) ph ph ws k k Hi eq_refl
             (inv_names _ Hi) (inv_triggers _ Hi) (caller_ok_ext k s _ eq_refl (inv_caller _ Hi))). }
  assert (Hi : stop_inv c).
  { clear Hn. induction Hr as [|c1 c2 c3 H12 _ IH]; [done|].
    apply IH. by eapply stop_step_inv. }
  destruct (stop_progress localtime c Hi) as [[c' Hc']|[->|[s ->]]].
  - destruct Hn. by exists c'.
  - by left.
  - right. exists s. destruct Hi. done.
Qed.

(** ** Properties *)

(** C19: [stop] returns.  From any state the running scheduler can reach,
    however the loop and the workers interleave from then on, the stop cannot
    go on for ever, and it only comes to rest when it has returned, with the
    loop and every worker joined and no task left, unless the turn under way
    ends the process.  (A command that runs is taken to return; the retries
    of the jobs are below [INT_MAX].) *)
Theorem stop_returns localtime {sq : Sqlite} y0 y entered :
  fresh y0 -> steps localtime (Running y0) (Running y) ->
  Forall countable (sc_jobs (sched y)) ->
  Forall (fun l => countable (fst l)) (launches_of (phase y)) ->
  sn (stop_step localtime) (stop_begin entered y) /\
  forall c, rtc (stop_step localtime) (stop_begin entered y) c ->
    nf (stop_step localtime) c ->
    c = StopCrashed \/ exists s, c = Stopped s /\ sc_active s = false /\ sc_running s = ∅.
Proof.
  intros Hf Hs Hc Hl. split; [apply stop_sn|]. by eapply stop_comes_to_rest.
Qed.

Lemma stop_returns_witness :
  sn (stop_step utc) (stop_begin false calm_launched).
Proof.
  apply (stop_returns utc calm_start calm_launched false calm_fresh calm_steps).
  - repeat constructor; discriminate.
  - constructor.
Defined.
