(* ===== verification/Json.v ===== *)
(** * JSON values (nlohmann::json, as daemon/src/ipc/api.cpp uses it)

    The values the API builds and reads, with the conversions [get] performs.
    Parsing and printing text are the interface [JsonApi]; what the daemon
    relies on of them is [JsonLaws]. *)

From stdpp Require Import base option list strings.
From Stdlib Require Import Ascii ZArith NArith Lia SpecFloat.
From S2P Require Import Prelude CppLib Double.

Open Scope string_scope.
Open Scope list_scope.

(** Objects are maps: their entries have distinct keys, in key order. *)
Inductive json :=
| JNull
| JBool (b : bool)
| JInt (z : Z)        (* number_integer, int64_t *)
| JUInt (z : Z)       (* number_unsigned, uint64_t *)
| JFloat (d : double)
| JString (s : string)
| JArray (items : list json)
| JObject (entries : list (string * json)).

(** ** Objects *)

Fixpoint lookup_key (key : string) (l : list (string * json)) : option json :=
  match l with
  | [] => None
  | (k, v) :: l' => if String.eqb k key then Some v else lookup_key key l'
  end.

Fixpoint insert_sorted (k : string) (v : json) (l : list (string * json))
    : list (string * json) :=
  match l with
  | [] => [(k, v)]
  | (k', v') :: l' => if String.leb k k' then (k, v) :: l else (k', v') :: insert_sorted k v l'
  end.

(** [std::map::emplace]: an existing key is kept. *)
Definition emplace (l : list (string * json)) (kv : string * json) : list (string * json) :=
  match lookup_key (fst kv) l with
  | Some _ => l
  | None => insert_sorted (fst kv) (snd kv) l
  end.

(** An initializer list of pairs. *)
Definition obj (kvs : list (string * json)) : json := JObject (fold_left emplace kvs []).

(** [contains] and [operator[]]: the value of a key of an object. *)
Definition member (key : string) (j : json) : option json :=
  match j with JObject l => lookup_key key l | _ => None end.

Definition is_object (j : json) : bool := match j with JObject _ => true | _ => false end.

Definition string_of (j : json) : option string :=
  match j with JString s => Some s | _ => None end.

Definition is_number (j : json) : bool :=
  match j with JInt _ | JUInt _ | JFloat _ => true | _ => false end.

(** ** UTF-8 *)

Definition byte (c : ascii) : N := N_of_ascii c.
Definition byte_in (lo hi : N) (c : ascii) : bool := (lo <=? byte c)%N && (byte c <=? hi)%N.
Definition cont (c : ascii) : bool := byte_in 128 191 c.

(** Well-formed UTF-8: no overlong forms, no surrogates, at most U+10FFFF. *)
Fixpoint utf8 (s : string) : bool :=
  match s with
  | "" => true
  | String c s1 =>
      if byte_in 0 127 c then utf8 s1
      else match s1 with
      | "" => false
      | String c1 s2 =>
          if byte_in 194 223 c then cont c1 && utf8 s2
          else match s2 with
          | "" => false
          | String c2 s3 =>
              if byte_in 224 224 c then byte_in 160 191 c1 && cont c2 && utf8 s3
              else if byte_in 237 237 c then byte_in 128 159 c1 && cont c2 && utf8 s3
              else if byte_in 225 239 c then cont c1 && cont c2 && utf8 s3
              else match s3 with
              | "" => false
              | String c3 s4 =>
                  (if byte_in 240 240 c then byte_in 144 191 c1
                   else if byte_in 241 243 c then cont c1
                   else if byte_in 244 244 c then byte_in 128 143 c1
                   else false) && cont c2 && cont c3 && utf8 s4
              end
          end
      end
  end.

(** Every string of a value, keys included, is UTF-8. *)
Fixpoint strings_ok (j : json) : bool :=
  match j with
  | JString s => utf8 s
  | JArray l => forallb strings_ok l
  | JObject l => forallb (fun kv => utf8 (fst kv) && strings_ok (snd kv)) l
  | _ => true
  end.

(** ** Text *)

Class JsonApi := {
  json_parse : string -> option json;   (* without exceptions: [None] is discarded *)
  json_dump : json -> outcome string;   (* dump() *)
  json_dump_indent : nat -> json -> outcome string;   (* dump(indent) *)
  get_llong : json -> outcome Z;        (* get<long long>() *)
  get_int : json -> outcome Z           (* get<int>() *)
}.

(** Documented behaviour: parsing accepts UTF-8 only; [dump()] writes one
    line, and throws [type_error] exactly on a string that is not UTF-8; the
    conversions yield values of their type, and the value itself where it fits. *)
Class JsonLaws (J : JsonApi) := {
  parse_utf8 s j : json_parse s = Some j -> strings_ok j = true;
  dump_ok j : strings_ok j = true ->
    exists s, json_dump j = Ret s /\ one_line s = true;
  dump_indent_ok n j : strings_ok j = true -> exists s, json_dump_indent n j = Ret s;
  dump_bad j : strings_ok j = false -> exists w, json_dump j = Throw (JsonException w);
  get_llong_unsigned z : (0 <= z <= int64_max)%Z -> get_llong (JUInt z) = Ret z;
  get_int_range j z : get_int j = Ret z -> in_int z = true
}.

(** ** Lemmas *)

Lemma lookup_insert_sorted key k v l :
  lookup_key k l = None ->
  lookup_key key (insert_sorted k v l) =
    if String.eqb k key then Some v else lookup_key key l.
Proof.
  induction l as [|[k' v'] l IH]; simpl; [done|].
  destruct (String.eqb_spec k' k) as [|Hne]; [done|]. intros Hk.
  destruct (String.leb k k'); simpl; [done|]. rewrite IH by done.
  destruct (String.eqb_spec k' key), (String.eqb_spec k key); congruence.
Qed.

Lemma lookup_emplace key kv l :
  lookup_key key (emplace l kv) =
    match lookup_key key l with
    | Some v => Some v
    | None => if String.eqb (fst kv) key then Some (snd kv) else None
    end.
Proof.
  unfold emplace. destruct (lookup_key (fst kv) l) as [v|] eqn:E.
  - destruct (lookup_key key l) eqn:Ek; [done|].
    destruct (String.eqb_spec (fst kv) key); congruence.
  - rewrite lookup_insert_sorted by done.
    destruct (String.eqb_spec (fst kv) key) as [<-|]; [by rewrite E|].
    by destruct (lookup_key key l).
Qed.

Lemma lookup_fold key kvs l :
  lookup_key key (fold_left emplace kvs l) =
    match lookup_key key l with
    | Some v => Some v
    | None => lookup_key key kvs
    end.
Proof.
  revert l. induction kvs as [|[k v] kvs IH]; intros l; simpl.
  - by destruct (lookup_key key l).
  - rewrite IH, lookup_emplace. simpl.
    destruct (lookup_key key l); [done|]. by destruct (String.eqb k key).
Qed.

(** An object literal has exactly the first value given for each key. *)
Lemma member_obj key kvs : member key (obj kvs) = lookup_key key kvs.
Proof. unfold obj, member. by rewrite lookup_fold. Qed.

Definition entry_ok (kv : string * json) : bool := utf8 (fst kv) && strings_ok (snd kv).

Lemma entries_insert kv l :
  forallb entry_ok (insert_sorted (fst kv) (snd kv) l) = entry_ok kv && forallb entry_ok l.
Proof.
  destruct kv as [k v]. simpl. induction l as [|[k' v'] l IH]; simpl; [done|].
  destruct (String.leb k k'); simpl; [done|]. rewrite IH.
  destruct (entry_ok (k, v)), (entry_ok (k', v')); done.
Qed.

Lemma strings_ok_obj kvs : forallb entry_ok kvs = true -> strings_ok (obj kvs) = true.
Proof.
  intros H. unfold obj. change (forallb entry_ok (fold_left emplace kvs []) = true).
  assert (Hl : forallb entry_ok [] = true) by done. revert Hl H.
  generalize ([] : list (string * json)). induction kvs as [|kv kvs IH]; intros l Hl; simpl; [done|].
  intros [Hkv H]%andb_true_iff. apply IH; [|done]. unfold emplace.
  destruct (lookup_key (fst kv) l); [done|]. by rewrite entries_insert, Hkv, Hl.
Qed.

Lemma strings_ok_member key v j :
  member key j = Some v -> strings_ok v = false -> strings_ok j = false.
Proof.
  destruct j as [| | | | | | |l]; simpl; try done. intros Hm Hv.
  induction l as [|[k v'] l IH]; simpl in *; [done|].
  destruct (String.eqb k key).
  - injection Hm as ->. rewrite Hv. by rewrite andb_false_r.
  - rewrite IH by done. apply andb_false_r.
Qed.

Lemma member_strings_ok key v j :
  strings_ok j = true -> member key j = Some v -> strings_ok v = true.
Proof.
  intros Hj Hm. destruct (strings_ok v) eqn:E; [done|].
  by rewrite (strings_ok_member _ _ _ Hm E) in Hj.
Qed.

#[export] Hint Rewrite member_obj : cpp.

(** ** A printer *)

Section JsonInd.
Variable P : json -> Prop.
Hypothesis P_null : P JNull.
Hypothesis P_bool : forall b, P (JBool b).
Hypothesis P_int : forall z, P (JInt z).
Hypothesis P_uint : forall z, P (JUInt z).
Hypothesis P_float : forall d, P (JFloat d).
Hypothesis P_string : forall s, P (JString s).
Hypothesis P_array : forall l, Forall P l -> P (JArray l).
Hypothesis P_object : forall l, Forall (fun kv => P (snd kv)) l -> P (JObject l).

(** Induction with hypotheses on the items and the entries. *)
Fixpoint json_nested_ind (j : json) : P j :=
  match j with
  | JNull => P_null
  | JBool b => P_bool b
  | JInt z => P_int z
  | JUInt z => P_uint z
  | JFloat d => P_float d
  | JString s => P_string s
  | JArray l =>
      P_array l ((fix go l := match l return Forall P l with
                              | [] => Forall_nil_2 P
                              | x :: l' => Forall_cons_2 P x l' (json_nested_ind x) (go l')
                              end) l)
  | JObject l =>
      P_object l ((fix go l := match l return Forall (fun kv => P (snd kv)) l with
                               | [] => Forall_nil_2 _
                               | x :: l' => Forall_cons_2 _ x l' (json_nested_ind (snd x)) (go l')
                               end) l)
  end.
End JsonInd.

Definition hex (n : N) : ascii := ascii_of_N (if (n <? 10)%N then 48 + n else 87 + n).

Definition escape_char (c : ascii) : string :=
  if Ascii.eqb c quote then String "\" (String quote "")
  else if Ascii.eqb c "\" then "\\"
  else if Ascii.eqb c "010" then "\n"
  else if byte_in 0 31 c then
    "\u00" +:+ String (hex (byte c / 16)) (String (hex (byte c mod 16)) "")
  else String c "".

Fixpoint escape (s : string) : string :=
  match s with
  | "" => ""
  | String c s' => escape_char c +:+ escape s'
  end.

Definition quoted (s : string) : string := String quote (escape s +:+ String quote "").

Definition line_or_null (s : string) : string := if one_line s then s else "null".

(** A compact [dump], doubles to six digits. *)
Fixpoint print_json (j : json) : string :=
  match j with
  | JNull => "null"
  | JBool b => if b then "true" else "false"
  | JInt z | JUInt z => line_or_null (to_string_Z z)
  | JFloat d => line_or_null (format_double d)
  | JString s => quoted s
  | JArray l => "[" +:+ join "," (map print_json l) +:+ "]"
  | JObject l =>
      "{" +:+ join "," (map (fun kv => quoted (fst kv) +:+ ":" +:+ print_json (snd kv)) l)
      +:+ "}"
  end.

(** *** Its conversions *)

(** Truncation towards zero; [None] for infinities and NaN. *)
Definition dbl_trunc (d : double) : option Z :=
  match d with
  | S754_zero _ => Some 0%Z
  | S754_finite s m e =>
      let a := if (0 <=? e)%Z then (Zpos m * 2 ^ e)%Z else (Zpos m / 2 ^ (- e))%Z in
      Some (if s then (- a)%Z else a)
  | _ => None
  end.

Definition wrap_int64 (z : Z) : Z := ((z + 2 ^ 63) mod 2 ^ 64 - 2 ^ 63)%Z.

(** A floating value outside the target type has no defined conversion. *)
Definition float_to (in_range : Z -> bool) (d : double) : outcome Z :=
  match dbl_trunc d with
  | Some z => if in_range z then Ret z else Undef
  | None => Undef
  end.

(** [get<long long>()] and [get<int>()] of a number. *)
Definition to_llong (j : json) : outcome Z :=
  match j with
  | JInt z | JUInt z => Ret (wrap_int64 z)
  | JFloat d => float_to in_int64 d
  | _ => Throw (JsonException "type must be number")
  end.

Definition to_int (j : json) : outcome Z :=
  match j with
  | JInt z | JUInt z => Ret (wrap_int z)
  | JFloat d => float_to in_int d
  | _ => Throw (JsonException "type must be number")
  end.

(** The API's library in the examples: it prints, and reads the texts of a
    given table. *)
Definition model_json (table : string -> option json) : JsonApi := {|
  json_parse := fun s => match table s with
                         | Some j => if strings_ok j then Some j else None
                         | None => None
                         end;
  json_dump := fun j => if strings_ok j then Ret (print_json j)
                        else Throw (JsonException "[json.exception.type_error.316]");
  json_dump_indent := fun _ j => if strings_ok j then Ret (print_json j)
                                 else Throw (JsonException "[json.exception.type_error.316]");
  get_llong := to_llong;
  get_int := to_int
|}.

Lemma to_int_range j z : to_int j = Ret z -> in_int z = true.
Proof.
  unfold to_int, float_to.
  destruct j as [| |z1|z1|d| | |]; try done; try (intros [= <-]; apply wrap_int_range).
  destruct (dbl_trunc d) as [t|]; [|done]. destruct (in_int t) eqn:E; [by intros [= <-]|done].
Qed.

Lemma one_line_join c ws :
  Ascii.eqb nl c = false -> forallb one_line ws = true -> one_line (join c ws) = true.
Proof.
  intros Hc. induction ws as [|w [|w' ws] IH]; simpl; [done| |].
  - by intros [? _]%andb_true_iff.
  - intros [Hw H]%andb_true_iff. rewrite one_line_app, Hw.
    specialize (IH H). unfold one_line in IH |- *. cbn [all_chars andb] in IH |- *.
    by rewrite Hc.
Qed.

Lemma one_line_escape s : one_line (escape s) = true.
Proof.
  induction s as [|c s IH]; [done|]. simpl. rewrite one_line_app, IH, andb_true_r.
  destruct c as [b0 b1 b2 b3 b4 b5 b6 b7].
  destruct b0, b1, b2, b3, b4, b5, b6, b7; vm_compute; reflexivity.
Qed.

Lemma one_line_quoted s : one_line (quoted s) = true.
Proof.
  unfold quoted. change (one_line (String quote (escape s +:+ String quote "")))
    with (one_line (escape s +:+ String quote "")).
  by rewrite one_line_app, one_line_escape.
Qed.

Lemma one_line_or_null s : one_line (line_or_null s) = true.
Proof. unfold line_or_null. by destruct (one_line s) eqn:E. Qed.

Lemma print_json_line j : one_line (print_json j) = true.
Proof.
  induction j as [|[]| | | | |l IH|l IH] using json_nested_ind;
    cbn [print_json]; try reflexivity; try apply one_line_or_null; try apply one_line_quoted.
  - rewrite !one_line_app, one_line_join; [done|done|].
    induction IH as [|x l Hx _ IH']; cbn [map forallb]; [done|]. by rewrite Hx.
  - rewrite !one_line_app, one_line_join; [done|done|].
    induction IH as [|x l Hx _ IH']; cbn [map forallb]; [done|].
    by rewrite !one_line_app, one_line_quoted, Hx.
Qed.

#[export] Instance model_json_laws table : JsonLaws (model_json table).
Proof.
  split; cbn.
  - intros s j. destruct (table s); [|done]. destruct (strings_ok _) eqn:E; congruence.
  - intros j H. rewrite H. eexists. split; [done|]. apply print_json_line.
  - intros n j H. rewrite H. eauto.
  - intros j H. rewrite H. eauto.
  - intros z Hz. f_equal. unfold wrap_int64, int64_max in *. rewrite Z.mod_small by lia. lia.
  - apply to_int_range.
Qed.
