(* ===== verification/Api.v ===== *)
(** * Requests and responses (daemon/src/ipc/api.{hpp,cpp})

    A request line is parsed, the command dispatched, and the response built
    as a JSON value and printed.  The job handlers main installs are a record
    of functions on the state they act on; the published snapshot and the
    database are read from that state. *)

From stdpp Require Import base option list strings gmap.
From Stdlib Require Import Ascii ZArith Lia.
From S2P Require Import Prelude CppLib Double Cron SharedState Config Database Json.
From S2P Require Import ProcessRunner Scheduler.

Open Scope string_scope.
Open Scope list_scope.

#[local] Opaque Cron.next_after Cron.prev_before.

(** The handlers set by main, acting on a state [St]. *)
Record Handlers (St : Type) := {
  run_handler : option (string -> St -> bool * St);
  add_job_handler : option (Job -> St -> string * St);
  remove_job_handler : option (string -> St -> string * St)
}.
Arguments run_handler {St}. Arguments add_job_handler {St}. Arguments remove_job_handler {St}.

(** The constructor: whether the API has a connection, given the outcome of
    opening the database at the path. *)
Definition api_connected (db_path : string) (opened : outcome unit) : outcome bool :=
  if str_empty db_path then Ret false
  else try_catch_db (_ ← opened; Ret true) (fun _ => Ret false).

(** ** Parsing *)

Record Request := { cmd : string; arg : string; arg2 : string }.

Definition nth_word (n : nat) (line : string) : string := List.nth n (stream_words line) "".

Section Requests.
Context {J : JsonApi}.

(** The value of the last of the keys that holds a string. *)
Definition string_arg (body : json) (keys : list string) : string :=
  fold_left (fun acc k => match member k body with
                          | Some (JString s) => s
                          | _ => acc
                          end) keys "".

(** Likewise of the keys that hold a number, as text. *)
Definition number_arg (body : json) (keys : list string) : outcome string :=
  for_each (fun k acc => match member k body with
                         | Some v => if is_number v then n ← get_llong v; Ret (to_string_Z n)
                                     else Ret acc
                         | None => Ret acc
                         end) keys "".

Definition parse_request (line : string) : outcome Request :=
  let words := {| cmd := nth_word 0 line; arg := nth_word 1 line; arg2 := nth_word 2 line |} in
  match json_parse line with
  | Some body =>
      match member "cmd" body with
      | Some (JString c) =>
          n ← number_arg body ["seconds"; "limit"];
          Ret {| cmd := c; arg := string_arg body ["job"; "metric"]; arg2 := n |}
      | _ => Ret words
      end
  | None => Ret words
  end.

(** ** Snapshots as JSON *)

Definition job_to_json (s : JobStatus) : json :=
  obj [("name", JString (js_name s)); ("schedule", JString (js_schedule_expr s));
       ("source", JString (js_source s)); ("next_run", JInt (js_next_run s));
       ("running", JBool (js_running s));
       ("last_run",
        if js_has_last_run s then
          obj [("status", JString (js_last_status s));
               ("started_at", JInt (js_last_started_at s));
               ("exit_code", JInt (js_last_exit_code s));
               ("duration_ms", JInt (js_last_duration_ms s));
               ("trigger", JString (js_last_trigger s))]
        else JNull)].

Definition jobs_array (st : SharedState) : json := JArray (map job_to_json (jobs_ st)).

Definition process_to_json (p : ProcInfo) : json :=
  obj [("pid", JInt (pid p)); ("name", JString (proc_name p));
       ("cpu_percent", JFloat (cpu_percent p)); ("rss_bytes", JUInt (rss_bytes p))].

Definition system_to_json (s : SystemSnapshot) : json :=
  obj [("valid", JBool (sys_valid s)); ("sampled_at", JInt (sys_sampled_at s));
       ("memory", obj [("total_bytes", JUInt (mem_total_bytes s));
                       ("used_bytes", JUInt (mem_used_bytes s));
                       ("used_percent", JFloat (mem_used_percent s))]);
       ("disk", obj [("total_bytes", JUInt (disk_total_bytes s));
                     ("available_bytes", JUInt (disk_available_bytes s));
                     ("used_percent", JFloat (disk_used_percent s))]);
       ("thermal_state", JString (thermal_state s));
       ("top_processes", JArray (map process_to_json (top_processes s)))].

Definition alert_to_json (a : AlertInfo) : json :=
  obj [("ts", JInt (ai_ts a)); ("rule", JString (ai_rule_name a));
       ("severity", JString (ai_severity a)); ("metric", JString (ai_metric a));
       ("kind", JString (ai_kind a)); ("value", JFloat (ai_value a));
       ("threshold", JFloat (ai_threshold a)); ("message", JString (ai_message a));
       ("attribution", JString (ai_attribution a)); ("notified", JBool (ai_notify a))].

Definition alerts_array (st : SharedState) : json := JArray (map alert_to_json (alerts_ st)).

Definition status_json (started_at : Z) (st : SharedState) : json :=
  obj [("ok", JBool true); ("cmd", JString "status");
       ("daemon", obj [("started_at", JInt started_at);
                       ("rss_bytes", JUInt (self_rss_bytes (self_ st)));
                       ("cpu_percent", JFloat (self_cpu_percent (self_ st)))]);
       ("cpu", obj [("valid", JBool (cpu_valid (cpu_ st)));
                    ("percent", JFloat (cpu_pct (cpu_ st)));
                    ("sampled_at", JInt (cpu_sampled_at (cpu_ st)))]);
       ("system", system_to_json (system_ st)); ("jobs", jobs_array st);
       ("alerts", alerts_array st)].

Definition point_to_json (p : Z * double) : json :=
  obj [("t", JInt (fst p)); ("v", JFloat (snd p))].

Definition run_to_json (r : RunRecord) : json :=
  obj [("started_at", JInt (run_started_at r)); ("ended_at", JInt (run_ended_at r));
       ("status", JString (run_status r)); ("exit_code", JInt (run_exit_code r));
       ("duration_ms", JInt (run_duration_ms r)); ("trigger", JString (run_trigger r))].

Definition error_json (msg : string) : json := obj [("ok", JBool false); ("error", JString msg)].

(** ** Dispatch *)

Section Handle.
Context {sq : Sqlite} {St : Type} (h : Handlers St).
Context (published : St -> SharedState) (connection : St -> option Tables).

(** [strtol], with a default when it is absent or not positive. *)
Definition history_window (arg2 : string) : Z :=
  let window := if str_empty arg2 then 3600%Z else strtol arg2 in
  if (window <=? 0)%Z then 3600%Z else window.

(** The [long] is cast to [int]. *)
Definition runs_limit (arg2 : string) : Z :=
  let limit := if str_empty arg2 then 20%Z else wrap_int (strtol arg2) in
  if (limit <=? 0)%Z then 20%Z else limit.

(** [catch (const DbError& e)]. *)
Definition or_db_error (m : outcome json) : outcome json :=
  try_catch_db m (fun w => Ret (error_json w)).

Definition handle_history (f : fault) (now : Z) (r : Request) (s : St) : outcome json :=
  match connection s with
  | None => Ret (error_json "history unavailable")
  | Some db =>
      if str_empty (arg r) then Ret (error_json "missing metric")
      else
        since ← int64_sub now (history_window (arg2 r));
        or_db_error
          (points ← metric_history f (arg r) since db;
           Ret (obj [("ok", JBool true); ("cmd", JString "history");
                     ("metric", JString (arg r));
                     ("points", JArray (map point_to_json points))]))
  end.

Definition handle_runs (f : fault) (r : Request) (s : St) : outcome json :=
  match connection s with
  | None => Ret (error_json "runs unavailable")
  | Some db =>
      if str_empty (arg r) then Ret (error_json "missing job name")
      else
        or_db_error
          (runs ← recent_runs f (arg r) (runs_limit (arg2 r)) db;
           Ret (obj [("ok", JBool true); ("cmd", JString "runs"); ("job", JString (arg r));
                     ("runs", JArray (map run_to_json runs))]))
  end.

Definition str_field (k : string) (body : json) : string :=
  match member k body with Some (JString s) => s | _ => "" end.

Definition num_field (k : string) (body : json) : outcome Z :=
  match member k body with
  | Some v => if is_number v then get_int v else Ret 0%Z
  | None => Ret 0%Z
  end.

(** The job an [add_job] body describes; [inr] is an error message.  Its
    source is the one a default [Job] has. *)
Definition job_of_body (body : json) : outcome (Job + string) :=
  timeout ← num_field "timeout_seconds" body;
  retries ← num_field "retries" body;
  let name := str_field "name" body in
  let command := str_field "command" body in
  let expr := str_field "schedule" body in
  let policy := match member "missed_run_policy" body with
                | Some _ => missed_run_policy_from_string (str_field "missed_run_policy" body)
                | None => NoPolicy
                end in
  let job schedule :=
    {| job_name := name; job_command := command; job_schedule := schedule;
       job_schedule_expr := expr; job_missed_run_policy := policy;
       job_timeout_seconds := timeout; job_retries := retries; job_source := "config" |} in
  if str_empty name || str_empty command then Ret (inr "name and command are required")
  else if str_empty expr then Ret (inl (job None))
  else
    cron ← Cron.parse expr;
    match cron with
    | None => Ret (inr ("invalid cron schedule: '" +:+ expr +:+ "'"))
    | Some c => Ret (inl (job (Some c)))
    end.

Definition handle_add_job (request : string) (s : St) : outcome (json * St) :=
  match add_job_handler h with
  | None => Ret (error_json "job control unavailable", s)
  | Some add =>
      match json_parse request with
      | Some body =>
          if negb (is_object body) then Ret (error_json "add_job requires a JSON body", s)
          else
            j ← job_of_body body;
            match j with
            | inr msg => Ret (error_json msg, s)
            | inl job =>
                let '(err, s') := add job s in
                Ret (if str_empty err then
                       obj [("ok", JBool true); ("cmd", JString "add_job");
                            ("job", JString (job_name job))]
                     else error_json err, s')
            end
      | None => Ret (error_json "add_job requires a JSON body", s)
      end
  end.

Definition handle_remove_job (r : Request) (s : St) : json * St :=
  match remove_job_handler h with
  | None => (error_json "job control unavailable", s)
  | Some remove =>
      if str_empty (arg r) then (error_json "missing job name", s)
      else
        let '(err, s') := remove (arg r) s in
        (if str_empty err then
           obj [("ok", JBool true); ("cmd", JString "remove_job"); ("job", JString (arg r))]
         else error_json err, s')
  end.

Definition handle_run (r : Request) (s : St) : json * St :=
  match run_handler h with
  | None => (error_json "job control unavailable", s)
  | Some run =>
      if str_empty (arg r) then (error_json "missing job name", s)
      else
        let '(queued, s') := run (arg r) s in
        (if queued then
           obj [("ok", JBool true); ("cmd", JString "run"); ("job", JString (arg r));
                ("queued", JBool true)]
         else
           obj [("ok", JBool false); ("error", JString "no such job");
                ("job", JString (arg r))], s')
  end.

(** The response to a request line, before it is printed; [f] is how a query
    fails and [now] the clock. *)
Definition respond (started_at now : Z) (f : fault) (request : string) (s : St)
    : outcome (json * St) :=
  r ← parse_request request;
  if String.eqb (cmd r) "ping" then
    Ret (obj [("ok", JBool true); ("cmd", JString "ping"); ("reply", JString "pong")], s)
  else if String.eqb (cmd r) "status" then Ret (status_json started_at (published s), s)
  else if String.eqb (cmd r) "jobs" then
    Ret (obj [("ok", JBool true); ("cmd", JString "jobs");
              ("jobs", jobs_array (published s))], s)
  else if String.eqb (cmd r) "alerts" then
    Ret (obj [("ok", JBool true); ("cmd", JString "alerts");
              ("alerts", alerts_array (published s))], s)
  else if String.eqb (cmd r) "history" then
    j ← handle_history f now r s; Ret (j, s)
  else if String.eqb (cmd r) "runs" then
    j ← handle_runs f r s; Ret (j, s)
  else if String.eqb (cmd r) "add_job" then handle_add_job request s
  else if String.eqb (cmd r) "remove_job" then Ret (handle_remove_job r s)
  else if String.eqb (cmd r) "run" then Ret (handle_run r s)
  else
    Ret (obj [("ok", JBool false); ("error", JString "unknown command");
              ("cmd", JString (cmd r))], s).

Definition handle (started_at now : Z) (f : fault) (request : string) (s : St)
    : outcome (string * St) :=
  r ← respond started_at now f request s;
  line ← json_dump (fst r);
  Ret (line, snd r).

End Handle.
End Requests.

(** ** What a response looks like *)

(** An object with a Boolean "ok"; the command's name if it is true, an error
    text if it is false. *)
Definition follows_protocol (c : string) (j : json) : Prop :=
  exists b, member "ok" j = Some (JBool b) /\
            (b = true -> member "cmd" j = Some (JString c)) /\
            (b = false -> exists e, member "error" j = Some (JString e)).

Lemma protocol_ok c kvs :
  lookup_key "ok" kvs = Some (JBool true) -> lookup_key "cmd" kvs = Some (JString c) ->
  follows_protocol c (obj kvs).
Proof. intros H1 H2. exists true. by rewrite !member_obj. Qed.

Lemma protocol_error c kvs e :
  lookup_key "ok" kvs = Some (JBool false) -> lookup_key "error" kvs = Some (JString e) ->
  follows_protocol c (obj kvs).
Proof. intros H1 H2. exists false. rewrite !member_obj. split_and!; [done|done|eauto]. Qed.

Lemma protocol_error_json c msg : follows_protocol c (error_json msg).
Proof. by eapply protocol_error. Qed.

#[export] Hint Resolve protocol_ok protocol_error protocol_error_json : cpp.

Ltac protocol := first [apply protocol_error_json | by apply protocol_ok
                       | by eapply protocol_error].

Lemma window_range a : (1 <= history_window a <= int64_max)%Z.
Proof.
  unfold history_window. pose proof (strtol_range a) as Hr. apply in_int64_spec in Hr.
  assert (int64_max = 9223372036854775807)%Z by done.
  destruct (str_empty a); [by cbn|]. destruct (Z.leb_spec (strtol a) 0); lia.
Qed.

Lemma limit_range a : (1 <= runs_limit a <= int_max)%Z.
Proof.
  unfold runs_limit. assert (int_max = 2147483647)%Z by done.
  pose proof (wrap_int_range (strtol a)) as Hr. apply in_int_spec in Hr.
  destruct (str_empty a); [by cbn|]. destruct (Z.leb_spec (wrap_int (strtol a)) 0); lia.
Qed.

Section HandleLemmas.
Context {J : JsonApi} {sq : Sqlite} {St : Type} (h : Handlers St).
Context (published : St -> SharedState) (connection : St -> option Tables).

(** A query followed by a pure construction ends in a value. *)
Lemma or_db_error_query {A} op f (rows : list A) (k : list A -> json) c :
  (forall l, follows_protocol c (k l)) ->
  exists j, or_db_error (l ← run_query op f rows; Ret (k l)) = Ret j /\ follows_protocol c j.
Proof.
  intros Hk. destruct f; cbn; eexists; (split; [reflexivity|]); auto using protocol_error_json.
Qed.

Lemma handle_history_protocol f now r s :
  (0 <= now <= int64_max)%Z ->
  exists j, handle_history connection f now r s = Ret j /\ follows_protocol "history" j.
Proof.
  intros Hn. unfold handle_history.
  destruct (connection s) as [db|]; [|eexists; split; [done|protocol]].
  destruct (str_empty (arg r)); [eexists; split; [done|protocol]|].
  rewrite int64_sub_Ret.
  - cbn [mbind outcome_mbind]. unfold metric_history.
    destruct f; cbn; eexists; (split; [reflexivity|protocol]).
  - pose proof (window_range (arg2 r)). apply in_int64_spec.
    unfold int64_min, int64_max in *. lia.
Qed.

Lemma handle_runs_protocol f r s :
  exists j, handle_runs connection f r s = Ret j /\ follows_protocol "runs" j.
Proof.
  unfold handle_runs. destruct (connection s) as [db|]; [|eexists; split; [done|protocol]].
  destruct (str_empty (arg r)); [eexists; split; [done|protocol]|].
  apply (or_db_error_query "recent_runs" f _ (fun runs => obj _)). intros l. protocol.
Qed.

Lemma handle_add_job_protocol request s j s' :
  handle_add_job h request s = Ret (j, s') -> follows_protocol "add_job" j.
Proof.
  unfold handle_add_job. destruct (add_job_handler h) as [add|]; [|intros [= <- _]; protocol].
  destruct (json_parse request) as [body|]; [|intros [= <- _]; protocol].
  destruct (negb (is_object body)); [intros [= <- _]; protocol|].
  destruct (job_of_body body) as [[job|msg]| | |]; simpl; try discriminate;
    [|intros [= <- _]; protocol].
  destruct (add job s) as [err s1]. intros [= <- _]. destruct (str_empty err); protocol.
Qed.

Lemma handle_remove_job_protocol r s : follows_protocol "remove_job" (fst (handle_remove_job h r s)).
Proof.
  unfold handle_remove_job. destruct (remove_job_handler h) as [remove|]; [|protocol].
  destruct (str_empty (arg r)); [protocol|]. destruct (remove (arg r) s) as [err s'].
  destruct (str_empty err); protocol.
Qed.

Lemma handle_run_protocol r s : follows_protocol "run" (fst (handle_run h r s)).
Proof.
  unfold handle_run. destruct (run_handler h) as [run|]; [|protocol].
  destruct (str_empty (arg r)); [protocol|]. destruct (run (arg r) s) as [[] s']; protocol.
Qed.

(** The commands that may change the state. *)
Definition mutating (c : string) : bool :=
  String.eqb c "add_job" || String.eqb c "remove_job" || String.eqb c "run".

(** How a parsed request is answered. *)
Lemma respond_parsed started now f request s r :
  parse_request request = Ret r -> (0 <= now <= int64_max)%Z ->
  (String.eqb (cmd r) "add_job" = true /\
     respond h published connection started now f request s = handle_add_job h request s) \/
  (String.eqb (cmd r) "add_job" = false /\ exists j s',
     respond h published connection started now f request s = Ret (j, s') /\
     follows_protocol (cmd r) j /\ (mutating (cmd r) = false -> s' = s)).
Proof.
  intros Hr Hn. unfold respond. rewrite Hr. cbn [mbind outcome_mbind]. unfold mutating.
  destruct (handle_history_protocol f now r s Hn) as (jh & -> & Hh).
  destruct (handle_runs_protocol f r s) as (jr & -> & Hru).
  pose proof (handle_remove_job_protocol r s) as Hrm.
  pose proof (handle_run_protocol r s) as Hrn.
  destruct (handle_remove_job h r s) as [jm sm], (handle_run h r s) as [jn sn]. cbn in Hrm, Hrn.
  destruct (String.eqb_spec (cmd r) "add_job") as [E|]; [left; by rewrite E|right; split; [done|]].
  destruct (String.eqb_spec (cmd r) "ping") as [E|];
    [rewrite ?E; do 2 eexists; split_and!; [done|protocol|done]|].
  destruct (String.eqb_spec (cmd r) "status") as [E|];
    [rewrite ?E; do 2 eexists; split_and!; [done|protocol|done]|].
  destruct (String.eqb_spec (cmd r) "jobs") as [E|];
    [rewrite ?E; do 2 eexists; split_and!; [done|protocol|done]|].
  destruct (String.eqb_spec (cmd r) "alerts") as [E|];
    [rewrite ?E; do 2 eexists; split_and!; [done|protocol|done]|].
  destruct (String.eqb_spec (cmd r) "history") as [E|];
    [rewrite ?E; by do 2 eexists|].
  destruct (String.eqb_spec (cmd r) "runs") as [E|];
    [rewrite ?E; by do 2 eexists|].
  destruct (String.eqb_spec (cmd r) "remove_job") as [E|];
    [rewrite ?E; by do 2 eexists|].
  destruct (String.eqb_spec (cmd r) "run") as [E|];
    [rewrite ?E; by do 2 eexists|].
  do 2 eexists; split_and!; [done|protocol|done].
Qed.

Lemma parse_bare line :
  json_parse line = None ->
  parse_request line = Ret {| cmd := nth_word 0 line; arg := nth_word 1 line;
                              arg2 := nth_word 2 line |}.
Proof. intros E. unfold parse_request. by rewrite E. Qed.
End HandleLemmas.

(** ** The daemon's handlers *)

(** What main installs: the scheduler's own calls; [now] and [f] are the
    clock and the way SQLite fails in them. *)
Definition scheduler_handlers (localtime : Z -> tm) {sq : Sqlite} (now : Z) (f : fault)
    : Handlers Scheduler := {|
  run_handler := Some request_run;
  add_job_handler := Some (fun j s => add_job localtime f now j s);
  remove_job_handler := Some (fun n s => remove_job f n s)
|}.

(** A parser that knows two requests. *)
Definition run_line : string := "{'cmd':'run','job':'hourly'}".
Definition history_line : string := "{'cmd':'history','metric':'cpu','seconds':600}".

Definition example_table (s : string) : option json :=
  if String.eqb s run_line then
    Some (obj [("cmd", JString "run"); ("job", JString "hourly")])
  else if String.eqb s history_line then
    Some (obj [("cmd", JString "history"); ("metric", JString "cpu"); ("seconds", JUInt 600)])
  else None.

Definition example_respond (line : string) (s : Scheduler) : outcome (string * Scheduler) :=
  handle (J := model_json example_table) (scheduler_handlers utc 1700035200 NoFault)
    sc_state (fun s => Some (sc_db s)) 1700000000 1700035300 NoFault line s.

Example respond_run :
  match example_respond "run hourly" example_scheduler with
  | Ret (line, s) => sc_queue s = [("hourly", "manual")] /\
      line = "{" +:+ join "," (map (fun kv => quoted (fst kv) +:+ ":" +:+ snd kv)
        [("cmd", quoted "run"); ("job", quoted "hourly"); ("ok", "true"); ("queued", "true")])
        +:+ "}"
  | _ => False
  end.
Proof. vm_compute. split; reflexivity. Qed.

(** ** Properties *)

(** Every response is an object with "ok", with the request's command
    when that is true and an "error" text when it is false; a request that is not JSON is always answered; and only the
    commands "run", "add_job" and "remove_job" change anything. *)
Theorem responses_follow_protocol `{J : JsonApi} `{sq : Sqlite} {St} (h : Handlers St)
    published connection started now f line s :
  (0 <= now <= int64_max)%Z ->
  (json_parse line = None ->
     is_Ret (respond h published connection started now f line s)) /\
  forall j s', respond h published connection started now f line s = Ret (j, s') ->
    forall r, parse_request line = Ret r ->
      follows_protocol (cmd r) j /\ (mutating (cmd r) = false -> s' = s).
Proof.
  intros Hn. split.
  - intros Hp. pose proof (parse_bare line Hp) as Hr.
    destruct (respond_parsed h published connection started now f line s _ Hr Hn)
      as [[_ ->]|(_ & j & s' & -> & _)]; [|by eexists].
    unfold handle_add_job. destruct (add_job_handler h); rewrite ?Hp; by eexists.
  - intros j s' H r Hr. destruct (respond_parsed h published connection started now f line s _ Hr Hn)
      as [[Ha E]|(_ & j1 & s1 & E & Hf & Hm)].
    + rewrite E in H. split.
      * apply String.eqb_eq in Ha. rewrite Ha. by eapply handle_add_job_protocol.
      * unfold mutating. by rewrite Ha.
    + rewrite E in H. by injection H as <- <-.
Qed.

Lemma responses_follow_protocol_witness :
  is_Ret (respond (J := model_json example_table) (scheduler_handlers utc 1700035200 NoFault)
    sc_state (fun s => Some (sc_db s)) 1700000000 1700035300 NoFault "bogus" example_scheduler).
Proof.
  apply (responses_follow_protocol (J := model_json example_table)
    (scheduler_handlers utc 1700035200 NoFault) sc_state (fun s => Some (sc_db s))
    1700000000 1700035300 NoFault "bogus" example_scheduler); [|reflexivity].
  unfold int64_max. lia.
Defined.

Lemma alerts_array_bad st a :
  a ∈ alerts_ st -> utf8 (ai_attribution a) = false -> strings_ok (alerts_array st) = false.
Proof.
  intros Ha Hu. unfold alerts_array. cbn [strings_ok].
  assert (Hj : strings_ok (alert_to_json a) = false).
  { apply (strings_ok_member "attribution" (JString (ai_attribution a))); [|done].
    unfold alert_to_json. by rewrite member_obj. }
  induction (alerts_ st) as [|b l IH]; [by apply not_elem_of_nil in Ha|].
  cbn [map forallb]. apply elem_of_cons in Ha as [<-|Ha]; [by rewrite Hj|].
  rewrite IH by done. apply andb_false_r.
Qed.

Lemma known_commands_utf8 c :
  utf8 c = false ->
  forallb (fun k => negb (String.eqb c k))
    ["ping"; "status"; "jobs"; "alerts"; "history"; "runs"; "add_job"; "remove_job"; "run"] = true.
Proof.
  intros H. apply forallb_forall. intros k Hk. apply negb_true_iff, String.eqb_neq.
  intros ->. repeat (destruct Hk as [<-|Hk]; [discriminate H|]). destruct Hk.
Qed.

Lemma respond_unknown `{J : JsonApi} `{sq : Sqlite} {St} (h : Handlers St)
    published connection started now f line s r :
  parse_request line = Ret r -> utf8 (cmd r) = false ->
  respond h published connection started now f line s =
    Ret (obj [("ok", JBool false); ("error", JString "unknown command");
              ("cmd", JString (cmd r))], s).
Proof.
  intros Hr Hu. unfold respond. rewrite Hr. cbn [mbind outcome_mbind].
  apply known_commands_utf8 in Hu. cbn [forallb] in Hu.
  repeat (apply andb_true_iff in Hu as [?%negb_true_iff Hu]).
  by repeat match goal with E : String.eqb (cmd r) _ = false |- _ => rewrite E; clear E end.
Qed.

Lemma handle_of_respond `{J : JsonApi} {L : JsonLaws J} `{sq : Sqlite} {St} (h : Handlers St)
    published connection started now f line s j s' :
  respond h published connection started now f line s = Ret (j, s') ->
  if strings_ok j then
    exists l, handle h published connection started now f line s = Ret (l, s') /\
              one_line l = true
  else exists w, handle h published connection started now f line s = Throw (JsonException w).
Proof.
  intros E. unfold handle. rewrite E. cbn [mbind outcome_mbind fst snd].
  destruct (strings_ok j) eqn:Eo.
  - destruct (dump_ok j Eo) as (l & -> & Hl). by exists l.
  - destruct (dump_bad j Eo) as (w & ->). by exists w.
Qed.

(** Text that is not UTF-8 makes [handle] throw where nothing catches it
    (the handler runs on the accept thread): a bare request whose first word
    is not UTF-8, and every "status" and "alerts" request while an alert with
    such an attribution is published.  A response whose texts are UTF-8 is
    printed as one line. *)
Theorem invalid_utf8_throws `{J : JsonApi} {L : JsonLaws J} `{sq : Sqlite} {St}
    (h : Handlers St) published connection started now f line s r :
  parse_request line = Ret r ->
  utf8 (cmd r) = false \/
  ((cmd r = "status" \/ cmd r = "alerts") /\
   exists a, a ∈ alerts_ (published s) /\ utf8 (ai_attribution a) = false) ->
  exists w, handle h published connection started now f line s = Throw (JsonException w).
Proof.
  intros Hr Hbad.
  assert (exists j, respond h published connection started now f line s = Ret (j, s) /\
                    strings_ok j = false) as (j & E & Hj).
  { destruct Hbad as [Hu|[Hc (a & Ha & Hu)]].
    - eexists. split; [by apply respond_unknown|].
      by apply (strings_ok_member "cmd" (JString (cmd r))); [rewrite member_obj|].
    - pose proof (alerts_array_bad _ _ Ha Hu) as Harr.
      unfold respond. rewrite Hr. cbn [mbind outcome_mbind].
      destruct Hc as [-> | ->]; cbn [String.eqb Ascii.eqb Bool.eqb];
        (eexists; split; [reflexivity|]);
        apply (strings_ok_member "alerts" (alerts_array (published s))); try done;
        unfold status_json; by rewrite member_obj. }
  pose proof (handle_of_respond h published connection started now f line s j s E) as H.
  by rewrite Hj in H.
Qed.

Lemma invalid_utf8_throws_witness :
  exists w, example_respond (String "255" "") example_scheduler = Throw (JsonException w).
Proof.
  apply (invalid_utf8_throws (J := model_json example_table)
    (scheduler_handlers utc 1700035200 NoFault) sc_state (fun s => Some (sc_db s))
    1700000000 1700035300 NoFault (String "255" "") example_scheduler
    {| cmd := String "255" ""; arg := ""; arg2 := "" |}); [reflexivity|left; reflexivity].
Defined.

(** A failure alert can carry such an attribution: a long last line is cut at
    a byte, not at a character. *)
Lemma cut_detail_not_utf8 :
  exists err, utf8 err = true /\ utf8 (failure_detail err) = false.
Proof.
  exists (zeros 156 +:+ String "195" (String "169" (zeros 10))). vm_compute. split; reflexivity.
Qed.



Lemma num_field_int {J : JsonApi} {L : JsonLaws J} k body z :
  num_field k body = Ret z -> in_int z = true.
Proof.
  unfold num_field. destruct (member k body) as [v|]; [|by intros [= <-]].
  destruct (is_number v); [|by intros [= <-]]. apply get_int_range.
Qed.

Lemma job_of_body_spec {J : JsonApi} {L : JsonLaws J} body job :
  job_of_body body = Ret (inl job) ->
  str_empty (job_name job) = false /\ str_empty (job_command job) = false /\
  in_int (job_timeout_seconds job) = true /\ in_int (job_retries job) = true /\
  (if str_empty (job_schedule_expr job) then Ret None
   else Cron.parse (job_schedule_expr job)) = Ret (job_schedule job).
Proof.
  unfold job_of_body. intros H. inv_bind H. inv_bind H.
  apply num_field_int in E, E0.
  destruct (str_empty (str_field "name" body)) eqn:En; [done|].
  destruct (str_empty (str_field "command" body)) eqn:Ec; [done|]. cbn [orb] in H.
  destruct (str_empty (str_field "schedule" body)) eqn:Es.
  - injection H as <-. cbn. by rewrite Es.
  - inv_bind H. destruct r1 as [c|]; [|done]. injection H as <-. cbn. by rewrite Es.
Qed.

(** A body that describes a job is an object, and the job has its name. *)
Lemma job_of_body_name {J : JsonApi} body job :
  job_of_body body = Ret (inl job) -> is_object body = true /\ job_name job = str_field "name" body.
Proof.
  unfold job_of_body. intros H. inv_bind H. inv_bind H. split.
  - destruct body; try done; cbn in H; discriminate.
  - destruct (_ || _); [done|]. destruct (str_empty (str_field "schedule" body)).
    + by injection H as <-.
    + inv_bind H. destruct r1 as [c|]; [|done]. by injection H as <-.
Qed.

Lemma str_field_utf8 k body : strings_ok body = true -> utf8 (str_field k body) = true.
Proof.
  intros Hok. unfold str_field. destruct (member k body) as [[]|] eqn:E; try done.
  exact (member_strings_ok _ _ _ Hok E).
Qed.

(** An add_job request adds exactly the job its body describes, or
    nothing: on success the job found under the new name is the one built from
    the body, marked as the UI's; it has a name, a command, numbers in the
    range of [int], and the schedule
    its expression parses to, so that (texts without NUL) its stored form
    restores it; every failure leaves the scheduler unchanged. *)
Theorem add_job_request localtime {J : JsonApi} {L : JsonLaws J} {sq : Sqlite} now f line s j s' :
  handle_add_job (scheduler_handlers localtime now f) line s = Ret (j, s') ->
  (member "ok" j = Some (JBool false) /\ s' = s) \/
  (member "ok" j = Some (JBool true) /\ f = NoFault /\
   exists body job, json_parse line = Some body /\ job_of_body body = Ret (inl job) /\
     find_job (job_name job) s = None /\
     find_job (job_name job) s' = Some (with_source "ui" job) /\
     (forall n, n <> job_name job -> find_job n s' = find_job n s) /\
     str_empty (job_name job) = false /\ str_empty (job_command job) = false /\
     in_int (job_timeout_seconds job) = true /\ in_int (job_retries job) = true /\
     (c_str (job_name job) = job_name job -> c_str (job_command job) = job_command job ->
      c_str (job_schedule_expr job) = job_schedule_expr job ->
      restorable (with_source "ui" job))).
Proof.
  unfold handle_add_job. cbn [add_job_handler scheduler_handlers].
  assert (Herr : forall msg, member "ok" (error_json msg) = Some (JBool false))
    by (intros; unfold error_json; by rewrite member_obj).
  destruct (json_parse line) as [body|]; [|intros [= <- <-]; by left].
  destruct (negb (is_object body)); [intros [= <- <-]; by left|].
  destruct (job_of_body body) as [[job|msg]| | |] eqn:Eb; simpl; try discriminate;
    [|intros [= <- <-]; by left].
  pose proof (add_job_outcomes localtime f now job s) as Ho.
  destruct (add_job localtime f now job s) as [err s1]. intros [= <- <-].
  destruct Ho as [(-> & _ & _ & Hf & Hnone & Hj & _)|[Herr' ->]].
  - right. cbn [str_empty]. rewrite member_obj. split_and!; [done|done|].
    exists body, job. destruct (job_of_body_spec _ _ Eb) as (Hn & Hc & Ht & Hr & Hs).
    unfold find_job in *. rewrite Hj.
    refine (conj eq_refl (conj Eb (conj Hnone (conj _ (conj _ (conj Hn (conj Hc (conj Ht (conj Hr _))))))))).
    + rewrite find_in_app, Hnone. unfold find_in. simpl. by rewrite String.eqb_refl.
    + intros n Hne. rewrite find_in_app. destruct (find_in n (sc_jobs s)); [done|].
      unfold find_in. simpl. destruct (String.eqb_spec (job_name job) n); [congruence|done].
    + intros. by split.
  - left. by destruct err.
Qed.

Definition add_line : string := "{'cmd':'add_job','name':'n','command':'c','retries':-1}".

Definition add_table (s : string) : option json :=
  if String.eqb s add_line then
    Some (obj [("cmd", JString "add_job"); ("name", JString "n"); ("command", JString "c");
               ("retries", JInt (-1))])
  else None.

Lemma added :
  exists j s', handle_add_job (J := model_json add_table)
      (scheduler_handlers utc 1700035200 NoFault) add_line example_scheduler = Ret (j, s') /\
    member "ok" j = Some (JBool true).
Proof. do 2 eexists. split; vm_compute; reflexivity. Qed.

Lemma added_job body job :
  json_parse (JsonApi := model_json add_table) add_line = Some body ->
  job_of_body (J := model_json add_table) body = Ret (inl job) ->
  job_name job = "n" /\ job_retries job = (-1)%Z.
Proof.
  intros Hp Hb. vm_compute in Hp. injection Hp as <-. vm_compute in Hb. injection Hb as <-.
  split; reflexivity.
Qed.

(** The negative count is accepted. *)
Lemma add_job_request_witness :
  exists j s', handle_add_job (J := model_json add_table)
      (scheduler_handlers utc 1700035200 NoFault) add_line example_scheduler = Ret (j, s') /\
    exists job, find_job "n" s' = Some (with_source "ui" job) /\ job_retries job = (-1)%Z.
Proof.
  destruct added as (j & s' & E & Ho). exists j, s'. split; [exact E|].
  destruct (add_job_request utc (J := model_json add_table) 1700035200 NoFault add_line
    example_scheduler _ _ E) as [[H _]|(_ & _ & body & job & Hp & Hb & _ & Hf & _)].
  - rewrite Ho in H. discriminate H.
  - destruct (added_job body job Hp Hb) as [Hn Hr]. exists job. rewrite Hn in Hf. by split.
Defined.

(** A runs request returns the newest runs of the job, never more than
    its limit, which is between 1 and [INT_MAX] whatever the argument; a
    history request reads a window that is between one second and
    [INT64_MAX], and the start of the window does not overflow. *)
Theorem queries_bounded {sq : Sqlite} {L : SqliteLaws sq} r now db :
  (0 <= now <= int64_max)%Z ->
  (exists runs, recent_runs NoFault (arg r) (runs_limit (arg2 r)) db = Ret runs /\
     (Z.of_nat (length runs) <= runs_limit (arg2 r))%Z /\
     newest run_started_at run_id (Z.to_nat (runs_limit (arg2 r))) (runs_of (arg r) db) runs) /\
  (1 <= runs_limit (arg2 r) <= int_max)%Z /\
  (1 <= history_window (arg2 r) <= int64_max)%Z /\
  int64_sub now (history_window (arg2 r)) = Ret (now - history_window (arg2 r))%Z.
Proof.
  intros Hn. pose proof (limit_range (arg2 r)) as Hl. pose proof (window_range (arg2 r)) as Hw.
  destruct (recent_runs_newest (arg r) (runs_limit (arg2 r)) db) as (out & E & Hout); [lia|].
  split_and!; try lia.
  - exists out. split_and!; try done. rewrite (newest_length _ _ _ _ _ Hout). lia.
  - apply int64_sub_Ret, in_int64_spec. unfold int64_min, int64_max in *. lia.
Qed.

Lemma queries_bounded_witness :
  int64_sub 1700035300 (history_window "99999999999999999999") =
    Ret (1700035300 - 9223372036854775807)%Z.
Proof.
  destruct (queries_bounded {| cmd := "history"; arg := "cpu"; arg2 := "99999999999999999999" |}
    1700035300 empty_tables) as (_ & _ & _ & E); [unfold int64_max; lia|].
  exact E.
Defined.

(** The limit is cast to [int] after [strtol]: a larger one wraps. *)
Example limit_wraps : runs_limit "4294967297" = 1%Z.
Proof. vm_compute. reflexivity. Qed.
