(* ===== verification/Protocol.v ===== *)
(** * The types of the responses (docs/PROTOCOL.md, daemon/src/ipc/api.cpp)

    A schema language for JSON values, the schema of the response of each
    command, and that what the API builds has the schema of the command it
    answers. *)

From stdpp Require Import base option list strings gmap.
From Stdlib Require Import Ascii ZArith Lia.
From S2P Require Import Prelude CppLib Double Cron SharedState Config Database Json.
From S2P Require Import ProcessRunner Scheduler Api.

Open Scope string_scope.
Open Scope list_scope.

#[local] Opaque Cron.next_after Cron.prev_before.

(** ** Schemas *)

Inductive jtype :=
| TBool | TInt | TUInt | TFloat | TString
| TIs (b : bool)                   (* that Boolean *)
| TText (s : string)               (* that string *)
| TNullable (t : jtype)
| TArray (t : jtype)
| TObject (fields : list (string * jtype)).   (* these keys and no other *)

Fixpoint has_type (t : jtype) (j : json) : bool :=
  match t, j with
  | TBool, JBool _ | TInt, JInt _ | TUInt, JUInt _ | TFloat, JFloat _ | TString, JString _ => true
  | TIs b, JBool b' => Bool.eqb b b'
  | TText s, JString s' => String.eqb s s'
  | TNullable _, JNull => true
  | TNullable t, _ => has_type t j
  | TArray t, JArray l => forallb (has_type t) l
  | TObject fields, JObject l =>
      Nat.eqb (length l) (length fields) &&
      forallb (fun f => match lookup_key (fst f) l with
                        | Some v => has_type (snd f) v
                        | None => false
                        end) fields
  | _, _ => false
  end.

(** ** The schemas of the protocol *)

Definition last_run_type : jtype :=
  TObject [("status", TString); ("started_at", TInt); ("exit_code", TInt);
           ("duration_ms", TInt); ("trigger", TString)].

Definition job_type : jtype :=
  TObject [("name", TString); ("schedule", TString); ("source", TString);
           ("next_run", TInt); ("running", TBool); ("last_run", TNullable last_run_type)].

Definition process_type : jtype :=
  TObject [("pid", TInt); ("name", TString); ("cpu_percent", TFloat); ("rss_bytes", TUInt)].

Definition system_type : jtype :=
  TObject [("valid", TBool); ("sampled_at", TInt);
           ("memory", TObject [("total_bytes", TUInt); ("used_bytes", TUInt);
                               ("used_percent", TFloat)]);
           ("disk", TObject [("total_bytes", TUInt); ("available_bytes", TUInt);
                             ("used_percent", TFloat)]);
           ("thermal_state", TString); ("top_processes", TArray process_type)].

Definition alert_type : jtype :=
  TObject [("ts", TInt); ("rule", TString); ("severity", TString); ("metric", TString);
           ("kind", TString); ("value", TFloat); ("threshold", TFloat); ("message", TString);
           ("attribution", TString); ("notified", TBool)].

Definition point_type : jtype := TObject [("t", TInt); ("v", TFloat)].

Definition run_type : jtype :=
  TObject [("started_at", TInt); ("ended_at", TInt); ("status", TString); ("exit_code", TInt);
           ("duration_ms", TInt); ("trigger", TString)].

(** The name an add_job request gives. *)
Definition named {J : JsonApi} (line : string) : string :=
  match json_parse line with Some body => str_field "name" body | None => "" end.

(** What a command answers besides "ok" and "cmd" when it succeeds; [r] is
    the request, read from [line]. *)
Definition payload_types {J : JsonApi} (line : string) (r : Request) : list (string * list (string * jtype)) :=
  [("ping", [("reply", TText "pong")]);
   ("status",
     [("daemon", TObject [("started_at", TInt); ("rss_bytes", TUInt); ("cpu_percent", TFloat)]);
            ("cpu", TObject [("valid", TBool); ("percent", TFloat); ("sampled_at", TInt)]);
            ("system", system_type); ("jobs", TArray job_type); ("alerts", TArray alert_type)]);
   ("jobs", [("jobs", TArray job_type)]);
   ("alerts", [("alerts", TArray alert_type)]);
   ("history", [("metric", TText (arg r)); ("points", TArray point_type)]);
   ("runs", [("job", TText (arg r)); ("runs", TArray run_type)]);
   ("run", [("job", TText (arg r)); ("queued", TIs true)]);
   ("add_job", [("job", TText (named line))]);
   ("remove_job", [("job", TText (arg r))])].

Definition payload_type {J : JsonApi} (line : string) (r : Request) : option (list (string * jtype)) :=
  snd <$> List.find (fun p => String.eqb (cmd r) (fst p)) (payload_types line r).

(** The schema of a success and those of the errors. *)
Definition success_type {J : JsonApi} (line : string) (r : Request) : option jtype :=
  match payload_type line r with
  | Some fields => Some (TObject ([("ok", TIs true); ("cmd", TText (cmd r))] ++ fields))
  | None => None
  end.

Definition error_types {J : JsonApi} (line : string) (r : Request) : list jtype :=
  match payload_type line r with
  | None => [TObject [("ok", TIs false); ("error", TText "unknown command"); ("cmd", TText (cmd r))]]
  | Some _ =>
      TObject [("ok", TIs false); ("error", TString)] ::
      (if String.eqb (cmd r) "run"
       then [TObject [("ok", TIs false); ("error", TText "no such job"); ("job", TText (arg r))]]
       else [])
  end.

Definition response_types {J : JsonApi} (line : string) (r : Request) : list jtype :=
  option_list (success_type line r) ++ error_types line r.

Definition well_typed {J : JsonApi} (line : string) (r : Request) (j : json) : Prop := existsb (fun t => has_type t j) (response_types line r) = true.

(** ** Typing the builders *)

Lemma insert_sorted_length k v l : length (insert_sorted k v l) = S (length l).
Proof. induction l as [|[k' v'] l IH]; cbn; [done|]. destruct (String.leb k k'); cbn; by rewrite ?IH. Qed.

Lemma emplaced_length kvs l :
  NoDup (map fst kvs) -> Forall (fun k => lookup_key k l = None) (map fst kvs) ->
  length (fold_left emplace kvs l) = length kvs + length l.
Proof.
  revert l. induction kvs as [|[k v] kvs IH]; intros l Hn Hl; [done|].
  cbn [fold_left map fst] in *. apply NoDup_cons in Hn as [Hk Hn].
  apply Forall_cons in Hl as [Hkl Hl]. rewrite IH; [|done|].
  - unfold emplace. cbn. rewrite Hkl, insert_sorted_length. lia.
  - apply Forall_forall. intros k' Hk'. rewrite lookup_emplace.
    rewrite Forall_forall in Hl. rewrite (Hl k' Hk'). cbn.
    destruct (String.eqb_spec k k') as [->|]; [done|done].
Qed.

(** An object literal has the object type that lists the types of its
    values. *)
Lemma has_type_obj fields kvs :
  bool_decide (NoDup (map fst kvs)) = true ->
  Forall2 (fun f kv => fst f = fst kv /\ has_type (snd f) (snd kv) = true) fields kvs ->
  has_type (TObject fields) (obj kvs) = true.
Proof.
  intros Hn%bool_decide_eq_true Hf. unfold obj. cbn [has_type].
  rewrite emplaced_length by (try done; by apply Forall_forall).
  rewrite (Forall2_length _ _ _ Hf), Nat.add_0_r, Nat.eqb_refl. cbn [andb].
  apply forallb_forall. intros [k t] Hin%list_elem_of_In.
  rewrite lookup_fold. cbn [lookup_key fst snd].
  assert (Hg : forall fs, Forall2 (fun f kv => fst f = fst kv /\ has_type (snd f) (snd kv) = true) fs kvs ->
    (k, t) ∈ fs -> exists v, lookup_key k kvs = Some v /\ has_type t v = true).
  { clear Hin Hf fields. induction kvs as [|[k' v'] kvs IH]; intros fs Hf Hin.
    { inversion Hf; subst. by apply elem_of_nil in Hin. }
    inversion Hf as [|[k'' t''] ? fs' ? [E1 E2] Hf']; subst. cbn in E1, E2. subst k''.
    cbn in Hn. apply NoDup_cons in Hn as [Hk Hn]. cbn [lookup_key].
    apply elem_of_cons in Hin as [[= -> ->]|Hin].
    - rewrite String.eqb_refl. by eexists.
    - destruct (String.eqb_spec k' k) as [->|]; [|by apply (IH Hn fs')].
      destruct Hk. destruct (IH Hn fs' Hf' Hin) as (v & Hv & _).
      clear -Hv. induction kvs as [|[k1 v1] kvs IH]; cbn in *; [done|].
      destruct (String.eqb_spec k1 k) as [->|]; [left|right; auto]. }
  by destruct (Hg fields Hf Hin) as (v & -> & ->).
Qed.

Lemma has_type_array {A} t (f : A -> json) l :
  (forall x, has_type t (f x) = true) -> has_type (TArray t) (JArray (map f l)) = true.
Proof. intros H. cbn. induction l as [|x l IH]; cbn; by rewrite ?H, ?IH. Qed.

Create HintDb typing.
#[export] Hint Resolve has_type_array : typing.

(** An object literal against its type, field by field. *)
Ltac typed := apply has_type_obj; [reflexivity|];
  repeat (constructor; [split; [reflexivity|]|]); try constructor;
  cbn [fst snd]; auto with typing.
#[export] Hint Extern 2 (has_type (TObject _) (obj _) = true) => typed : typing.
#[export] Hint Extern 3 (has_type (TText ?s) (JString ?s) = true) => apply String.eqb_refl : typing.

Lemma job_typed s : has_type job_type (job_to_json s) = true.
Proof.
  unfold job_type, job_to_json. typed. destruct (js_has_last_run s); [|reflexivity].
  change (has_type (TNullable last_run_type) (obj ?kvs)) with (has_type last_run_type (obj kvs)).
  unfold last_run_type. typed.
Qed.

Lemma process_typed p : has_type process_type (process_to_json p) = true.
Proof. unfold process_type, process_to_json. typed. Qed.
#[export] Hint Resolve job_typed process_typed : typing.

Lemma system_typed s : has_type system_type (system_to_json s) = true.
Proof. unfold system_type, system_to_json. typed. Qed.

Lemma alert_typed a : has_type alert_type (alert_to_json a) = true.
Proof. unfold alert_type, alert_to_json. typed. Qed.

Lemma point_typed p : has_type point_type (point_to_json p) = true.
Proof. unfold point_type, point_to_json. typed. Qed.

Lemma run_typed r : has_type run_type (run_to_json r) = true.
Proof. unfold run_type, run_to_json. typed. Qed.

Lemma jobs_typed st : has_type (TArray job_type) (jobs_array st) = true.
Proof. apply has_type_array, job_typed. Qed.

Lemma alerts_typed st : has_type (TArray alert_type) (alerts_array st) = true.
Proof. apply has_type_array, alert_typed. Qed.
#[export] Hint Resolve jobs_typed alerts_typed : typing.
#[export] Hint Resolve system_typed alert_typed point_typed run_typed : typing.

(** ** Typing the responses *)

Section Responses.
Context {J : JsonApi} {sq : Sqlite} {St : Type} (h : Handlers St).
Context (published : St -> SharedState) (connection : St -> option Tables) (line : string).

Lemma typed_as r t j : In t (response_types line r) -> has_type t j = true -> well_typed line r j.
Proof. intros Hin Ht. apply existsb_exists. by exists t. Qed.

Lemma success_typed r fields j :
  payload_type line r = Some fields ->
  has_type (TObject ([("ok", TIs true); ("cmd", TText (cmd r))] ++ fields)) j = true ->
  well_typed line r j.
Proof. intros Hp. apply typed_as. unfold response_types, success_type. rewrite Hp. by left. Qed.

Lemma error_typed r msg : is_Some (payload_type line r) -> well_typed line r (error_json msg).
Proof.
  intros [fields Hp]. apply (typed_as r (TObject [("ok", TIs false); ("error", TString)])).
  - unfold response_types, success_type, error_types. rewrite Hp. right. by left.
  - unfold error_json. typed.
Qed.

(** A successful response against the schema of its command. *)
Ltac succeeds E := eapply success_typed; [by unfold payload_type; rewrite E|];
  rewrite ?E; cbn [app]; typed.

Lemma history_typed f now r s j :
  cmd r = "history" -> handle_history connection f now r s = Ret j -> well_typed line r j.
Proof.
  intros E. assert (Hp : is_Some (payload_type line r)) by (unfold payload_type; rewrite E; eauto).
  unfold handle_history. destruct (connection s) as [db|]; [|intros [= <-]; by apply error_typed].
  destruct (str_empty (arg r)); [intros [= <-]; by apply error_typed|].
  destruct (int64_sub _ _); cbn [mbind outcome_mbind]; try discriminate.
  unfold metric_history. destruct f; cbn; intros [= <-]; try by apply error_typed.
  all: succeeds E.
Qed.

Lemma runs_typed f r s j :
  cmd r = "runs" -> handle_runs connection f r s = Ret j -> well_typed line r j.
Proof.
  intros E. assert (Hp : is_Some (payload_type line r)) by (unfold payload_type; rewrite E; eauto).
  unfold handle_runs. destruct (connection s) as [db|]; [|intros [= <-]; by apply error_typed].
  destruct (str_empty (arg r)); [intros [= <-]; by apply error_typed|].
  unfold recent_runs. destruct f; cbn; intros [= <-]; try by apply error_typed.
  all: succeeds E.
Qed.

Lemma add_job_typed r s j s' :
  cmd r = "add_job" -> handle_add_job h line s = Ret (j, s') -> well_typed line r j.
Proof.
  intros E. assert (Hp : is_Some (payload_type line r)) by (unfold payload_type; rewrite E; eauto).
  unfold handle_add_job. destruct (add_job_handler h) as [add|]; [|intros [= <- _]; by apply error_typed].
  destruct (json_parse line) as [body|] eqn:El; [|intros [= <- _]; by apply error_typed].
  destruct (negb (is_object body)); [intros [= <- _]; by apply error_typed|].
  destruct (job_of_body body) as [[job|msg]| | |] eqn:Eb; cbn [mbind outcome_mbind]; try discriminate;
    [|intros [= <- _]; by apply error_typed].
  destruct (add job s) as [err s1]. intros [= <- _]. destruct (str_empty err); [|by apply error_typed].
  apply job_of_body_name in Eb as [_ En].
  assert (Enm : named line = job_name job) by (unfold named; by rewrite El).
  succeeds E. rewrite Enm. apply String.eqb_refl.
Qed.

Lemma remove_job_typed r s : cmd r = "remove_job" -> well_typed line r (fst (handle_remove_job h r s)).
Proof.
  intros E. assert (Hp : is_Some (payload_type line r)) by (unfold payload_type; rewrite E; eauto).
  unfold handle_remove_job. destruct (remove_job_handler h) as [remove|]; [|by apply error_typed].
  destruct (str_empty (arg r)); [by apply error_typed|]. destruct (remove (arg r) s) as [err s'].
  destruct (str_empty err); [|by apply error_typed]. cbn [fst]. succeeds E.
Qed.

Lemma run_request_typed r s : cmd r = "run" -> well_typed line r (fst (handle_run h r s)).
Proof.
  intros E. assert (Hp : is_Some (payload_type line r)) by (unfold payload_type; rewrite E; eauto).
  unfold handle_run. destruct (run_handler h) as [run|]; [|by apply error_typed].
  destruct (str_empty (arg r)); [by apply error_typed|].
  destruct (run (arg r) s) as [[] s']; cbn [fst]; [succeeds E|].
  apply (typed_as r (TObject [("ok", TIs false); ("error", TText "no such job");
                              ("job", TText (arg r))])); [|typed].
  destruct Hp as [fields Hp]. unfold response_types, success_type, error_types. rewrite Hp, E.
  do 2 right. by left.
Qed.
End Responses.

Lemma respond_typed {J : JsonApi} {sq : Sqlite} {St} (h : Handlers St)
    published connection started now f line s r j s' :
  parse_request line = Ret r ->
  respond h published connection started now f line s = Ret (j, s') ->
  existsb (fun t => has_type t j) (response_types line r) = true.
Proof.
  intros Hr. unfold respond. rewrite Hr. cbn [mbind outcome_mbind].
  change (existsb _ _ = true) with (well_typed line r j).
  destruct (String.eqb_spec (cmd r) "ping") as [E1|N1].
  { intros [= <- <-]. eapply success_typed; [by unfold payload_type; rewrite E1|].
    rewrite E1. cbn [app]. typed. }
  destruct (String.eqb_spec (cmd r) "status") as [E2|N2].
  { intros [= <- <-]. eapply success_typed; [by unfold payload_type; rewrite E2|].
    rewrite E2. unfold status_json. cbn [app]. typed. }
  destruct (String.eqb_spec (cmd r) "jobs") as [E3|N3].
  { intros [= <- <-]. eapply success_typed; [by unfold payload_type; rewrite E3|].
    rewrite E3. cbn [app]. typed. }
  destruct (String.eqb_spec (cmd r) "alerts") as [E4|N4].
  { intros [= <- <-]. eapply success_typed; [by unfold payload_type; rewrite E4|].
    rewrite E4. cbn [app]. typed. }
  destruct (String.eqb_spec (cmd r) "history") as [E5|N5].
  { destruct (handle_history _ _ _ _ _) eqn:Eh; cbn; try discriminate.
    intros [= <- <-]. by eapply history_typed. }
  destruct (String.eqb_spec (cmd r) "runs") as [E6|N6].
  { destruct (handle_runs _ _ _ _) eqn:Eh; cbn; try discriminate.
    intros [= <- <-]. by eapply runs_typed. }
  destruct (String.eqb_spec (cmd r) "add_job") as [E7|N7]; [by apply add_job_typed|].
  destruct (String.eqb_spec (cmd r) "remove_job") as [E8|N8].
  { intros [= E]. apply (f_equal fst) in E. cbn in E. subst j. by apply remove_job_typed. }
  destruct (String.eqb_spec (cmd r) "run") as [E9|N9].
  { intros [= E]. apply (f_equal fst) in E. cbn in E. subst j. by apply run_request_typed. }
  intros [= <- <-].
  assert (Hp : payload_type line r = None).
  { unfold payload_type, payload_types. cbn [List.find fst].
    repeat (rewrite (proj2 (String.eqb_neq _ _)) by done). reflexivity. }
  apply (typed_as line r (TObject [("ok", TIs false); ("error", TText "unknown command");
                              ("cmd", TText (cmd r))])); [|typed].
  unfold response_types, success_type, error_types. rewrite Hp. by left.
Qed.

(** ** Properties *)

(** C21: every response is of a type of the protocol: what the API answers to
    a request, whatever the state, the handlers and the failures, is an
    object of exactly the keys and value types of the command's response,
    echoing the command and the job or metric asked for (for "add_job" the name
    in its body), or of one of the error types of that command; and only "run", "add_job" and "remove_job"
    change the state. *)
Theorem responses_well_typed {J : JsonApi} {sq : Sqlite} {St} (h : Handlers St)
    published connection started now f line s r j s' :
  (0 <= now <= int64_max)%Z -> parse_request line = Ret r ->
  respond h published connection started now f line s = Ret (j, s') ->
  existsb (fun t => has_type t j) (response_types line r) = true /\
  (mutating (cmd r) = false -> s' = s).
Proof.
  intros Hn Hr Hj. split; [by eapply respond_typed|].
  destruct (responses_follow_protocol h published connection started now f line s Hn) as [_ H].
  by destruct (H j s' Hj r Hr).
Qed.

Lemma responses_well_typed_witness :
  let r := {| cmd := "status"; arg := ""; arg2 := "" |} in
  exists j s', respond (J := model_json example_table) (scheduler_handlers utc 1700035200 NoFault)
      sc_state (fun s => Some (sc_db s)) 1700000000 1700035300 NoFault "status" example_scheduler
    = Ret (j, s') /\ existsb (fun t => has_type t j) (response_types (J := model_json example_table) "status" r) = true.
Proof.
  intros r. do 2 eexists. split; [reflexivity|].
  refine (proj1 (responses_well_typed (J := model_json example_table)
    (scheduler_handlers utc 1700035200 NoFault) sc_state (fun s => Some (sc_db s)) 1700000000
    1700035300 NoFault "status" example_scheduler r _ _ _ eq_refl eq_refl)).
  unfold int64_max. lia.
Defined.
