(* ===== verification/SocketServer.v ===== *)
(** * The socket server (daemon/src/ipc/socket_server.{hpp,cpp})

    One request line in, one response line out, per connection; the accept
    loop serves connections one after the other on its own thread.  Each
    system call's results are a script; a loop that reaches the end of its
    script is still waiting. *)

From stdpp Require Import base option list strings.
From Stdlib Require Import Ascii ZArith Lia.
From S2P Require Import Prelude CppLib.

Open Scope string_scope.
Open Scope list_scope.

(** ** Reading a line *)

Inductive io_read := RError (eintr : bool) | REnd | RBytes (bytes : string).

Inductive line_result :=
| LineRead (line : string)
| LineClosed (buf : string)   (* end of file before a newline *)
| LineTooLong
| LineFailed
| LineWaiting.

Definition full (max : option nat) (buf : string) : bool :=
  match max with Some m => Nat.leb m (String.length buf) | None => false end.

(** Appends chunks until a newline, which ends the line; [max] is the size at
    which reading stops. *)
Fixpoint read_line (max : option nat) (rs : list io_read) (buf : string) : line_result :=
  if full max buf then LineTooLong
  else
    match rs with
    | [] => LineWaiting
    | RError true :: rs' => read_line max rs' buf
    | RError false :: _ => LineFailed
    | REnd :: _ => LineClosed buf
    | RBytes d :: rs' =>
        let buf := buf +:+ d in
        match find_char nl buf with
        | Some pos => LineRead (str_take pos buf)
        | None => read_line max rs' buf
        end
    end.

(** ** Writing a text *)

Inductive io_write := WError (eintr : bool) | WCount (n : nat).

Inductive write_result := Written | WriteFailed | WriteWaiting.

(** What is left to write, and what was sent. *)
Fixpoint write_all (ws : list io_write) (rest sent : string) : string * write_result :=
  if str_empty rest then (sent, Written)
  else
    match ws with
    | [] => (sent, WriteWaiting)
    | WError true :: ws' => write_all ws' rest sent
    | WError false :: _ => (sent, WriteFailed)
    | WCount n :: ws' => write_all ws' (str_drop n rest) (sent +:+ str_take n rest)
    end.

(** ** One connection *)

Definition kMaxRequestBytes : nat := 64 * 1024.
#[global] Opaque kMaxRequestBytes.

Section Serve.
Context {St : Type} (handler : string -> St -> outcome (string * St)).

(** What was sent, whether the connection is done with, and the state. *)
Definition serve_connection (rs : list io_read) (ws : list io_write) (s : St)
    : outcome (string * bool * St) :=
  match read_line (Some kMaxRequestBytes) rs "" with
  | LineRead request =>
      r ← handler request s;
      let '(sent, w) := write_all ws (fst r +:+ NL) "" in
      Ret (sent, match w with WriteWaiting => false | _ => true end, snd r)
  | LineWaiting => Ret ("", false, s)
  | _ => Ret ("", true, s)
  end.

(** ** The accept loop *)

Inductive accept_event :=
| PollFailed (eintr : bool)
| NothingReady                                       (* timed out *)
| AcceptFailed
| Accepted (rs : list io_read) (ws : list io_write).

(** How the loop ends: [running_] was read as false, [poll] failed, or it is
    waiting, for an event or inside a connection. *)
Inductive loop_end := LoopStopped | LoopBroken | LoopWaiting | LoopBlocked.

(** Each iteration with the value of [running_] it reads; the texts sent to
    the connections.  An exception leaves the thread function. *)
Fixpoint accept_loop (evs : list (bool * accept_event)) (s : St)
    : outcome (list string * loop_end * St) :=
  match evs with
  | [] => Ret ([], LoopWaiting, s)
  | (false, _) :: _ => Ret ([], LoopStopped, s)
  | (true, e) :: evs' =>
      match e with
      | PollFailed true | NothingReady | AcceptFailed => accept_loop evs' s
      | PollFailed false => Ret ([], LoopBroken, s)
      | Accepted rs ws =>
          match serve_connection rs ws s with
          | Ret (sent, true, s') =>
              r ← accept_loop evs' s';
              Ret (sent :: fst (fst r), snd (fst r), snd r)
          | Ret (sent, false, s') => Ret ([sent], LoopBlocked, s')
          | Throw _ => Terminate
          | Terminate => Terminate
          | Undef => Undef
          end
      end
  end.
End Serve.

(** ** Starting and stopping *)

Record Server := {
  srv_path : string;
  srv_open : bool;              (* listen_fd_ >= 0 *)
  srv_running : bool;
  srv_joinable : bool
}.

Definition new_server : Server :=
  {| srv_path := ""; srv_open := false; srv_running := false; srv_joinable := false |}.

Inductive server_call := CallUnlink | CallBind | CallChmod | CallListen | CallClose.

(** [start]: the outcomes of socket, bind and listen are given as error
    texts; [sun_path_size] is [sizeof(sockaddr_un::sun_path)]. *)
Definition start (sun_path_size : nat) (socket_err bind_err listen_err : option string)
    (path : string) (v : Server) : outcome unit * Server * list server_call :=
  if Nat.leb sun_path_size (String.length path) then
    (Throw (RuntimeError ("socket path too long: " +:+ path)), v, [])
  else
    let at_ open running joinable :=
      {| srv_path := path; srv_open := open; srv_running := running;
         srv_joinable := joinable |} in
    match socket_err with
    | Some e => (Throw (RuntimeError ("socket(): " +:+ e)),
                 at_ false (srv_running v) (srv_joinable v), [])
    | None =>
        match bind_err with
        | Some e => (Throw (RuntimeError ("bind(): " +:+ e)),
                     at_ false (srv_running v) (srv_joinable v),
                     [CallUnlink; CallBind; CallClose])
        | None =>
            match listen_err with
            | Some e => (Throw (RuntimeError ("listen(): " +:+ e)),
                         at_ false (srv_running v) (srv_joinable v),
                         [CallUnlink; CallBind; CallChmod; CallListen; CallClose; CallUnlink])
            | None =>
                if srv_joinable v then
                  (Terminate, at_ true true true,
                   [CallUnlink; CallBind; CallChmod; CallListen])
                else (Ret tt, at_ true true true,
                      [CallUnlink; CallBind; CallChmod; CallListen])
            end
        end
    end.

(** [stop], once the accept thread it joins has returned. *)
Definition stop (v : Server) : Server * list server_call :=
  if srv_running v then
    ({| srv_path := srv_path v; srv_open := false; srv_running := false;
        srv_joinable := false |},
     (if srv_open v then [CallClose] else []) ++
     (if str_empty (srv_path v) then [] else [CallUnlink]))
  else (v, []).

(** ** Chunks *)

Fixpoint data_of (rs : list io_read) : string :=
  match rs with
  | [] => ""
  | RBytes d :: rs' => d +:+ data_of rs'
  | _ :: rs' => data_of rs'
  end.

(** The results of reads that deliver [data], split anywhere, with
    interrupted calls in between. *)
Definition delivers_text (rs : list io_read) (data : string) : Prop :=
  Forall (fun r => match r with RError true | RBytes _ => True | _ => False end) rs /\
  data_of rs = data.

Lemma read_line_chunks max rs buf line rest :
  one_line buf = true -> one_line line = true -> full max line = false ->
  delivers_text rs (data_of rs) -> buf +:+ data_of rs = line +:+ NL +:+ rest ->
  read_line max rs buf = LineRead line.
Proof.
  intros Hb Hl Hm [Hf _]. revert buf Hb. induction Hf as [|r rs Hr _ IH]; intros buf Hb E.
  - exfalso. cbn [data_of] in E. rewrite str_app_nil_r in E.
    pose proof (find_line line rest Hl) as H. rewrite <- E in H.
    apply one_line_find in Hb. congruence.
  - assert (Hfull : full max buf = false).
    { destruct max as [m|]; [|done]. cbn [full] in Hm |- *. apply Nat.leb_gt in Hm. apply Nat.leb_gt.
      destruct (Nat.le_gt_cases (String.length buf) (String.length line)); [lia|exfalso].
      assert (Hp : find_char nl (buf +:+ data_of (r :: rs)) = Some (String.length line))
        by (rewrite E; by apply find_line).
      assert (Ht : str_take (String.length buf) (line +:+ NL +:+ rest) = buf).
      { rewrite <- E. apply str_take_app_length. }
      rewrite str_take_app_ge in Ht by lia.
      apply one_line_find in Hb. rewrite <- Ht in Hb.
      destruct (String.length buf - String.length line) as [|k] eqn:Ek; [lia|].
      cbn [str_take NL String.append] in Hb.
      rewrite find_char_app_sep in Hb; [done|].
      by apply find_char_None, one_line_find. }
    cbn [read_line]. rewrite Hfull. destruct r as [[]| |d]; try done.
    + apply IH; done.
    + cbn [data_of] in E. rewrite str_app_assoc in E.
      destruct (find_char nl (buf +:+ d)) as [pos|] eqn:Ef.
      * destruct (find_char_app_l _ _ (data_of rs) _ Ef) as [Ep Hlt].
        rewrite E, find_line in Ep by done. injection Ep as <-. f_equal.
        rewrite <- (str_take_app_le _ (buf +:+ d) (data_of rs)) by lia.
        rewrite E. apply str_take_app_length.
      * apply IH; [by apply one_line_find|done].
Qed.

(** Complete writes send the whole text. *)
Lemma write_all_prefix ws rest sent out w :
  write_all ws rest sent = (out, w) ->
  exists k, out = sent +:+ str_take k rest /\ (w = Written -> out = sent +:+ rest).
Proof.
  revert rest sent. induction ws as [|[[]|n] ws IH]; intros rest sent; cbn [write_all];
    destruct (str_empty rest) eqn:Ee; intros H.
  1, 3, 5, 7: injection H as <- <-; exists 0; destruct rest; [|done];
    by rewrite !str_app_nil_r.
  - injection H as <- <-. exists 0. split; [|done]. destruct rest; by rewrite str_app_nil_r.
  - by apply IH.
  - injection H as <- <-. exists 0. split; [|done]. destruct rest; by rewrite str_app_nil_r.
  - apply IH in H as (k & Ek & Hw). exists (n + k).
    rewrite <- str_app_assoc, str_take_drop in Hw. split; [|done].
    rewrite Ek, <- str_app_assoc. f_equal. clear. revert n.
    induction rest as [|c rest IH]; intros [|n]; cbn; try done.
    + by destruct k.
    + by rewrite <- IH.
Qed.

(** Writes that make progress finish. *)
Lemma write_all_finishes ws rest sent :
  Forall (fun w => match w with WError e => e = true | WCount n => 0 < n end) ws ->
  String.length rest <= length (List.filter (fun w => match w with WCount _ => true | _ => false end) ws) ->
  snd (write_all ws rest sent) = Written.
Proof.
  intros Hf. revert rest sent. induction Hf as [|w ws Hw _ IH]; intros rest sent Hl; cbn [write_all].
  - destruct rest; [done|simpl in Hl; lia].
  - destruct rest as [|c rest]; [done|]. cbn [str_empty]. destruct w as [e|n].
    + subst e. by apply IH.
    + apply IH. destruct n as [|n]; [lia|]. simpl in Hl |- *.
      assert (String.length (str_drop n rest) <= String.length rest).
      { clear. revert n. induction rest as [|c rest IH]; intros [|n]; simpl; try lia.
        specialize (IH n). lia. }
      lia.
Qed.
