(* ===== verification/Cli.v ===== *)
(** * The command-line client (cli/src/main.cpp)

    Argument parsing, the exchange of one request and one response with the
    daemon's socket server, and what the client prints and exits with. *)

From stdpp Require Import base option list strings.
From Stdlib Require Import Ascii ZArith Lia.
From S2P Require Import Prelude CppLib Double Json SocketServer.

Open Scope string_scope.
Open Scope list_scope.

(** ** Arguments *)

Record Options := { socket_path : string; command : string; watch : bool; watch_seconds : Z }.

(** Print the usage and exit with a status, or proceed. *)
Inductive action := Usage (status : Z) | Proceed (o : Options).

(** [getenv("HOME")]. *)
Definition default_socket_path (home : option string) : string :=
  default "." home +:+ "/Library/Application Support/AgentPulse/agentpulse.sock".

Definition default_options (home : option string) : Options :=
  {| socket_path := default_socket_path home; command := "status"; watch := false;
     watch_seconds := 2 |}.

Definition starts_with_dash (s : string) : bool :=
  match s with String "-" _ => true | _ => false end.

(** The loop over [argv[i..]]. *)
Fixpoint parse_args (argv : list string) (o : Options) : outcome action :=
  match argv with
  | [] => Ret (Proceed o)
  | arg :: argv' =>
      if String.eqb arg "--help" || String.eqb arg "-h" then Ret (Usage 0)
      else if String.eqb arg "--socket" then
        match argv' with
        | [] => Ret (Usage 2)
        | path :: argv'' =>
            parse_args argv'' {| socket_path := path; command := command o; watch := watch o;
                                 watch_seconds := watch_seconds o |}
        end
      else if String.eqb arg "--watch" then
        match argv' with
        | next :: argv'' =>
            if starts_with_digit next then
              n ← atoi next;
              parse_args argv'' {| socket_path := socket_path o; command := command o;
                                   watch := true;
                                   watch_seconds := if (n <=? 0)%Z then 2%Z else n |}
            else
              parse_args argv' {| socket_path := socket_path o; command := command o;
                                  watch := true; watch_seconds := watch_seconds o |}
        | [] =>
            parse_args argv' {| socket_path := socket_path o; command := command o;
                                watch := true; watch_seconds := watch_seconds o |}
        end
      else if starts_with_dash arg then Ret (Usage 2)
      else
        parse_args argv' {| socket_path := socket_path o; command := arg; watch := watch o;
                            watch_seconds := watch_seconds o |}
  end.

(** The request line that is sent, in both modes. *)
Definition request_of (o : Options) : string := if watch o then "status" else command o.

(** ** The exchange *)

Definition throw {A} (msg : string) : option (outcome A) := Some (Throw (RuntimeError msg)).

(** [send_request] with the outcomes of its system calls ([errmsg] is
    [strerror]); [None] while it waits. *)
Definition send_request (sun_path_size : nat) (errmsg : string) (socket_ok connect_ok : bool)
    (ws : list io_write) (rs : list io_read) (path command : string)
    : option (outcome string) :=
  if negb socket_ok then throw ("socket(): " +:+ errmsg)
  else if Nat.leb sun_path_size (String.length path) then throw "socket path too long"
  else if negb connect_ok then throw ("connect(" +:+ path +:+ "): " +:+ errmsg)
  else
    match write_all ws (command +:+ NL) "" with
    | (_, WriteFailed) => throw ("write(): " +:+ errmsg)
    | (_, WriteWaiting) => None
    | (_, Written) =>
        match read_line None rs "" with
        | LineRead line => Some (Ret line)
        | LineClosed buf => Some (Ret buf)
        | LineFailed => throw ("read(): " +:+ errmsg)
        | _ => None
        end
    end.

(** ** Output and exit status *)

(** What the client does, in order. *)
Inductive cli_event := Out (text : string) | Err (text : string) | Sleep (seconds : Z).

Inductive cli_end :=
| Exit (status : Z)
| Waiting              (* in a system call, or in the next round *)
| Undefined.

Definition usage_text : string :=
  "Usage: apctl [--socket PATH] [--watch [SECONDS]] [COMMAND]" +:+ NL +:+
  "  COMMAND   command to send (default: status). e.g. ping, status" +:+ NL +:+
  "  --socket  path to the daemon socket" +:+ NL +:+
  "  --watch   repeat a status request every SECONDS (default 2)" +:+ NL.

Definition ESC : ascii := "027".

(** Clear the screen, home the cursor. *)
Definition clear_screen : string := String ESC ("[2J" +:+ String ESC "[H").

(** What [print_response] writes. *)
Definition print_response {J : JsonApi} (response : string) : outcome string :=
  match json_parse response with
  | None => Ret (response +:+ NL)
  | Some j => text ← json_dump_indent 2 j; Ret (text +:+ NL)
  end.

(** The system calls of one exchange. *)
Record Exchange := {
  x_sun_path_size : nat;
  x_errmsg : string;
  x_socket_ok : bool;
  x_connect_ok : bool;
  x_writes : list io_write;
  x_reads : list io_read
}.

Definition perform (x : Exchange) (o : Options) : option (outcome string) :=
  send_request (x_sun_path_size x) (x_errmsg x) (x_socket_ok x) (x_connect_ok x)
    (x_writes x) (x_reads x) (socket_path o) (request_of o).

(** The handler of the [try] block. *)
Definition report (e : exn) : list cli_event * cli_end :=
  ([Err ("apctl: " +:+ what e +:+ NL)], Exit 1).

(** An outcome inside the [try] block: the events and the end of the value's
    continuation, the handler for an exception. *)
Definition tried {A} (r : outcome A) (k : A -> list cli_event * cli_end) : list cli_event * cli_end :=
  match r with
  | Ret a => k a
  | Throw e => report e
  | Terminate | Undef => ([], Undefined)
  end.

(** The endless loop of [--watch], a round per exchange. *)
Fixpoint watch_loop {J : JsonApi} (o : Options) (xs : list Exchange) : list cli_event * cli_end :=
  match xs with
  | [] => ([], Waiting)
  | x :: xs' =>
      match perform x o with
      | None => ([], Waiting)
      | Some r =>
          tried r (fun response =>
            let '(evs, e) :=
              tried (print_response response) (fun text =>
                let '(evs, e) := watch_loop o xs' in
                (Out text :: Sleep (watch_seconds o) :: evs, e)) in
            (Out clear_screen :: evs, e))
      end
  end.

(** [main] on [argv[1..]]. *)
Definition cli_main {J : JsonApi} (home : option string) (argv : list string) (xs : list Exchange)
    : list cli_event * cli_end :=
  match parse_args argv (default_options home) with
  | Ret (Usage status) => ([Err usage_text], Exit status)
  | Ret (Proceed o) =>
      if watch o then watch_loop o xs
      else
        match xs with
        | [] => ([], Waiting)
        | x :: _ =>
            match perform x o with
            | None => ([], Waiting)
            | Some r =>
                tried r (fun response =>
                  tried (print_response response) (fun text => ([Out text], Exit 0)))
            end
        end
  | _ => ([], Undefined)
  end.

(** ** Lemmas *)

(** Whatever the daemon answers can be printed: a text that parses has
    strings in UTF-8 only, which [dump] accepts. *)
Lemma print_response_prints {J : JsonApi} {L : JsonLaws J} response :
  exists text, print_response response = Ret (text +:+ NL) /\
    match json_parse response with
    | Some j => json_dump_indent 2 j = Ret text
    | None => text = response
    end.
Proof.
  unfold print_response. destruct (json_parse response) as [j|] eqn:E; [|eauto].
  destruct (dump_indent_ok 2 j (parse_utf8 _ _ E)) as [text Et].
  rewrite Et. eexists. split; reflexivity.
Qed.

Lemma send_request_cases n msg sk cn ws rs path cmd :
  match send_request n msg sk cn ws rs path cmd with
  | None | Some (Ret _) => True
  | Some (Throw e) => exists w, e = RuntimeError w
  | _ => False
  end.
Proof.
  unfold send_request, throw. repeat case_match; simplify_eq; eauto.
Qed.

Lemma atoi_cases s : (exists n, atoi s = Ret n) \/ atoi s = Undef.
Proof. unfold atoi. destruct (read_decimal _); [|eauto]. destruct (in_int _); eauto. Qed.

Lemma perform_cases x o r :
  perform x o = Some r -> (exists resp, r = Ret resp) \/ exists msg, r = Throw (RuntimeError msg).
Proof.
  intros E. pose proof (send_request_cases (x_sun_path_size x) (x_errmsg x) (x_socket_ok x)
    (x_connect_ok x) (x_writes x) (x_reads x) (socket_path o) (request_of o)) as Hc.
  fold (perform x o) in Hc. rewrite E in Hc.
  destruct r; [eauto|destruct Hc as [msg ->]; eauto|done|done].
Qed.

(** Parsing keeps the interval positive; a usage message exits with 0 on
    request and with 2 otherwise. *)
Lemma parse_args_spec argv o :
  (0 < watch_seconds o)%Z ->
  match parse_args argv o with
  | Ret (Proceed o') => (0 < watch_seconds o')%Z
  | Ret (Usage status) => status = 2%Z \/ status = 0%Z /\ ("--help" ∈ argv \/ "-h" ∈ argv)
  | Throw _ | Terminate => False
  | Undef => True
  end.
Proof.
  revert o. induction argv as [argv IH] using (well_founded_induction (well_founded_ltof _ (@length string))).
  intros o Ho. destruct argv as [|arg argv]; cbn [parse_args]; [exact Ho|].
  assert (Hl : forall pre argv' o1, pre ++ argv' = argv -> (0 < watch_seconds o1)%Z ->
    match parse_args argv' o1 with
    | Ret (Proceed o') => (0 < watch_seconds o')%Z
    | Ret (Usage status) =>
        status = 2%Z \/ status = 0%Z /\ ("--help" ∈ arg :: argv \/ "-h" ∈ arg :: argv)
    | Throw _ | Terminate => False
    | Undef => True
    end).
  { intros pre argv' o1 <- H1. specialize (IH argv'). unfold ltof in IH. cbn in IH.
    rewrite length_app in IH. specialize (IH ltac:(lia) o1 H1).
    destruct (parse_args argv' o1) as [[status|o']| | |]; try exact IH.
    destruct IH as [->|[-> IH]]; [by left|right; split; [done|]].
    rewrite !elem_of_cons, !elem_of_app. tauto. }
  destruct (String.eqb_spec arg "--help") as [->|]; [right; split; [done|left; left]|].
  destruct (String.eqb_spec arg "-h") as [->|]; [right; split; [done|right; left]|]. cbn [orb].
  destruct (String.eqb arg "--socket").
  { destruct argv as [|path argv]; [by left|]. by apply (Hl [path]). }
  destruct (String.eqb arg "--watch").
  { destruct argv as [|next argv]; [by apply (Hl [])|].
    destruct (starts_with_digit next); [|by apply (Hl [])].
    destruct (atoi_cases next) as [[secs ->]| ->]; cbn [mbind outcome_mbind]; [|done].
    apply (Hl [next]); [done|]. cbn. destruct (Z.leb_spec secs 0); lia. }
  destruct (starts_with_dash arg); [by left|]. by apply (Hl []).
Qed.

(** The exit status of a failing watch, and what it did before. *)
Lemma watch_loop_spec {J : JsonApi} {L : JsonLaws J} o xs evs e :
  watch_loop o xs = (evs, e) ->
  Forall (fun ev => match ev with Sleep n => n = watch_seconds o | _ => True end) evs /\
  (e = Waiting \/
   exists answered x rest msg, xs = answered ++ x :: rest /\ e = Exit 1 /\
     Forall (fun x => exists r, perform x o = Some (Ret r)) answered /\
     perform x o = Some (Throw (RuntimeError msg)) /\
     exists before, evs = before ++ [Err ("apctl: " +:+ msg +:+ NL)]).
Proof.
  revert evs e. induction xs as [|x xs IH]; intros evs e; cbn [watch_loop].
  { intros [= <- <-]. split; [constructor|by left]. }
  destruct (perform x o) as [r|] eqn:Ex; [|intros [= <- <-]; split; [constructor|by left]].
  destruct (perform_cases x o r Ex) as [[resp ->]|[msg ->]]; cbn [tried].
  - destruct (print_response_prints resp) as (text & -> & _). cbn [tried].
    destruct (watch_loop o xs) as [evs' e']. intros [= <- <-].
    destruct (IH evs' e' eq_refl) as [Hs He]. split; [by repeat constructor|].
    destruct He as [->|(answered & x' & rest & msg & -> & -> & Hf & Hx & before & ->)]; [by left|right].
    exists (x :: answered), x', rest, msg. split_and!; try done; [by constructor; eauto|].
    exists (Out clear_screen :: Out (text +:+ NL) :: Sleep (watch_seconds o) :: before). done.
  - intros [= <- <-]. split; [repeat constructor|right].
    exists [], x, xs, msg. split_and!; try done. by exists [].
Qed.

(** Complete writes and delivering reads carry a line across. *)
Lemma send_request_answers sun_path_size errmsg ws rs path cmd resp :
  String.length path < sun_path_size -> one_line resp = true ->
  snd (write_all ws (cmd +:+ NL) "") = Written -> delivers_text rs (resp +:+ NL) ->
  send_request sun_path_size errmsg true true ws rs path cmd = Some (Ret resp).
Proof.
  intros Hp Hr Hw Hd. unfold send_request. cbn [negb]. rewrite (proj2 (Nat.leb_gt _ _)) by done.
  destruct (write_all ws (cmd +:+ NL) "") as [sent w] eqn:E. cbn [snd] in Hw. subst w.
  rewrite (read_line_chunks None rs "" resp "");
    [done|done|done|done|by split; [apply Hd|]|by rewrite (proj2 Hd)].
Qed.

Lemma serve_connection_answers {St} (handler : string -> St -> outcome (string * St)) rs ws cmd resp s s' :
  one_line cmd = true -> String.length cmd < kMaxRequestBytes ->
  handler cmd s = Ret (resp, s') -> snd (write_all ws (resp +:+ NL) "") = Written ->
  delivers_text rs (cmd +:+ NL) ->
  serve_connection handler rs ws s = Ret (resp +:+ NL, true, s').
Proof.
  intros Hc Hlen Hh Hw Hd. unfold serve_connection.
  rewrite (read_line_chunks _ rs "" cmd "");
    [|done|done|by apply Nat.leb_gt|by split; [apply Hd|]|by rewrite (proj2 Hd)].
  rewrite Hh. cbn [mbind outcome_mbind fst snd].
  destruct (write_all ws (resp +:+ NL) "") as [sent w] eqn:E. cbn [snd] in Hw. subst w.
  destruct (write_all_prefix _ _ _ _ _ E) as (_ & _ & Hs). by rewrite (Hs eq_refl).
Qed.

(** ** Properties *)

(** C33: one exchange: a command line shorter than 64 KiB reaches the handler
    whole, and its response reaches the client whole, however the bytes are
    split over writes and reads on either side and whichever calls are
    interrupted. *)
Theorem request_roundtrip {St} (handler : string -> St -> outcome (string * St))
    sun_path_size errmsg ws1 rs1 ws2 rs2 path cmd resp s s' :
  String.length path < sun_path_size ->
  one_line cmd = true -> String.length cmd < kMaxRequestBytes ->
  handler cmd s = Ret (resp, s') -> one_line resp = true ->
  snd (write_all ws1 (cmd +:+ NL) "") = Written ->
  delivers_text rs1 (fst (write_all ws1 (cmd +:+ NL) "")) ->
  snd (write_all ws2 (resp +:+ NL) "") = Written ->
  delivers_text rs2 (fst (write_all ws2 (resp +:+ NL) "")) ->
  serve_connection handler rs1 ws2 s = Ret (resp +:+ NL, true, s') /\
  send_request sun_path_size errmsg true true ws1 rs2 path cmd = Some (Ret resp).
Proof.
  intros Hp Hc Hlen Hh Hr Hw1 Hr1 Hw2 Hr2.
  destruct (write_all ws1 (cmd +:+ NL) "") as [sent1 w1] eqn:E1. simpl in Hw1, Hr1. subst w1.
  destruct (write_all ws2 (resp +:+ NL) "") as [sent2 w2] eqn:E2. simpl in Hw2, Hr2. subst w2.
  destruct (write_all_prefix _ _ _ _ _ E1) as (_ & _ & Hs1). specialize (Hs1 eq_refl).
  destruct (write_all_prefix _ _ _ _ _ E2) as (_ & _ & Hs2). specialize (Hs2 eq_refl).
  cbn [String.append] in Hs1, Hs2. subst sent1 sent2. split.
  - apply (serve_connection_answers _ _ _ cmd); auto. by rewrite E2.
  - apply send_request_answers; auto. by rewrite E1.
Qed.

Definition echo (line : string) (n : nat) : outcome (string * nat) := Ret ("<" +:+ line, S n).

Lemma request_roundtrip_witness :
  send_request 104 "" true true [WCount 3; WError true; WCount 2]
    [RBytes "<pi"; RError true; RBytes ("ng" +:+ NL)] "/tmp/a.sock" "ping" = Some (Ret "<ping").
Proof.
  apply (request_roundtrip echo 104 "" [WCount 3; WError true; WCount 2]
    [RBytes "p"; RError true; RBytes ("ing" +:+ NL)] [WCount 10]
    [RBytes "<pi"; RError true; RBytes ("ng" +:+ NL)] "/tmp/a.sock" "ping" "<ping" 0 1);
    try reflexivity.
  - apply Nat.ltb_lt. vm_compute. reflexivity.
  - apply Nat.ltb_lt. vm_compute. reflexivity.
  - split; [repeat constructor|reflexivity].
  - split; [repeat constructor|reflexivity].
Defined.

(** C32: what the client's status tells.  It exits with 0 only after the usage
    was asked for, or when the exchange of a one-shot request went through to
    the end of a line or of the connection: then it has printed what arrived
    (nothing, if the daemon closed the connection unanswered), pretty if it is
    JSON and as it is otherwise; with 2 only after a usage error, no exchange
    having been made; with 1 only when the exchange failed, having said so,
    never because an answer could not be printed; a watch ends in no other
    way, and sleeps a positive time between two rounds. *)
Theorem cli_exit_status {J : JsonApi} {L : JsonLaws J} home argv xs evs e :
  cli_main home argv xs = (evs, e) ->
  Forall (fun ev => match ev with Sleep n => (0 < n)%Z | _ => True end) evs /\
  match e with
  | Exit 0 => evs = [Err usage_text] /\ ("--help" ∈ argv \/ "-h" ∈ argv) \/
      exists o x xs' resp text, parse_args argv (default_options home) = Ret (Proceed o) /\
        watch o = false /\ xs = x :: xs' /\ perform x o = Some (Ret resp) /\
        evs = [Out (text +:+ NL)] /\
        match json_parse resp with
        | Some j => json_dump_indent 2 j = Ret text
        | None => text = resp
        end
  | Exit 1 => exists o answered x rest msg before,
      parse_args argv (default_options home) = Ret (Proceed o) /\ xs = answered ++ x :: rest /\
      Forall (fun x => exists resp, perform x o = Some (Ret resp)) answered /\
      perform x o = Some (Throw (RuntimeError msg)) /\
      evs = before ++ [Err ("apctl: " +:+ msg +:+ NL)]
  | Exit status => status = 2%Z /\ evs = [Err usage_text] /\
      forall xs', cli_main home argv xs' = (evs, Exit 2)
  | Waiting => exists o, parse_args argv (default_options home) = Ret (Proceed o)
  | Undefined => parse_args argv (default_options home) = Undef
  end.
Proof.
  unfold cli_main at 1. pose proof (parse_args_spec argv (default_options home) eq_refl) as Hp.
  destruct (parse_args argv _) as [[status|o]| | |] eqn:Ea; try done; cbn [tried].
  - intros [= <- <-]. split; [repeat constructor|].
    destruct Hp as [->|[-> Hh]]; [|by left].
    split_and!; [done..|]. intros xs'. unfold cli_main. by rewrite Ea.
  - destruct (watch o) eqn:Ew.
    + intros Hw. apply watch_loop_spec in Hw as [Hs He].
      split; [by eapply Forall_impl; [exact Hs|intros []; [done..|intros ->]]|].
      destruct He as [->|(answered & x & rest & msg & -> & -> & Hf & Hx & before & ->)];
        [by exists o|]. by exists o, answered, x, rest, msg, before.
    + destruct xs as [|x xs]; [intros [= <- <-]; split; [constructor|by exists o]|].
      destruct (perform x o) as [r|] eqn:Ex; [|intros [= <- <-]; split; [constructor|by exists o]].
      destruct (perform_cases x o r Ex) as [[resp ->]|[msg ->]]; cbn [tried].
      * destruct (print_response_prints resp) as (text & -> & Ht). cbn [tried].
        intros [= <- <-]. split; [repeat constructor|]. right. by exists o, x, xs, resp, text.
      * intros [= <- <-]. split; [repeat constructor|].
        exists o, [], x, xs, msg, []. by split_and!.
  - intros [= <- <-]. split; [constructor|done].
Qed.

Definition refused : Exchange :=
  {| x_sun_path_size := 104; x_errmsg := "Connection refused"; x_socket_ok := true;
     x_connect_ok := false; x_writes := []; x_reads := [] |}.

Definition answered_with (text : string) : Exchange :=
  {| x_sun_path_size := 104; x_errmsg := ""; x_socket_ok := true; x_connect_ok := true;
     x_writes := [WCount 100]; x_reads := [RBytes (text +:+ NL)] |}.

(** A one-shot request answered with a text that is not JSON, and a watch
    whose second round is refused. *)
Lemma cli_exit_status_witness :
  (exists text, cli_main (J := model_json (fun _ => None)) (Some "/u") ["ping"] [answered_with "pong"]
     = ([Out text], Exit 0)) /\
  Forall (fun ev => match ev with Sleep n => (0 < n)%Z | _ => True end)
    (fst (cli_main (J := model_json (fun _ => None)) (Some "/u") ["--watch"; "0"]
            [answered_with "pong"; refused])).
Proof.
  destruct (cli_main (J := model_json (fun _ => None)) (Some "/u") ["ping"] [answered_with "pong"])
    as [evs1 e1] eqn:E1.
  destruct (cli_main (J := model_json (fun _ => None)) (Some "/u") ["--watch"; "0"]
    [answered_with "pong"; refused]) as [evs2 e2] eqn:E2.
  destruct (cli_exit_status _ _ _ _ _ E1) as [_ H1].
  destruct (cli_exit_status _ _ _ _ _ E2) as [H2 _]. split; [|exact H2].
  assert (e1 = Exit 0) as -> by (vm_compute in E1; congruence).
  destruct H1 as [[_ [Hh|Hh]]|(o & x & xs & resp & text & _ & _ & _ & _ & -> & _)].
  - apply list_elem_of_singleton in Hh. discriminate.
  - apply list_elem_of_singleton in Hh. discriminate.
  - by eexists.
Defined.

(** A daemon that closes the connection without an answer is not told from
    one that answers with an empty line: the client prints an empty line and
    exits with 0. *)
Theorem unanswered_exits_zero {J : JsonApi} home argv o n msg ws xs :
  parse_args argv (default_options home) = Ret (Proceed o) -> watch o = false ->
  String.length (socket_path o) < n -> json_parse "" = None ->
  snd (write_all ws (request_of o +:+ NL) "") = Written ->
  cli_main home argv ({| x_sun_path_size := n; x_errmsg := msg; x_socket_ok := true;
    x_connect_ok := true; x_writes := ws; x_reads := [REnd] |} :: xs) = ([Out NL], Exit 0).
Proof.
  intros Ha Hw Hn Hj Hs. unfold cli_main. rewrite Ha, Hw. unfold perform, send_request. cbn [negb].
  cbn [x_sun_path_size x_errmsg x_socket_ok x_connect_ok x_writes x_reads negb].
  rewrite (proj2 (Nat.leb_gt _ _)) by done.
  destruct (write_all ws (request_of o +:+ NL) "") as [sent w]. cbn [snd] in Hs. subst w.
  change (read_line None [REnd] "") with (LineClosed ""). cbn [tried].
  unfold print_response. by rewrite Hj.
Qed.

(** The arguments that are neither options nor option values are not
    joined: only the last of them is the command.  "apctl history
    system.cpu.percent 600" sends "600". *)
Theorem last_word_is_the_command home words w :
  Forall (fun a => starts_with_dash a = false) (words ++ [w]) ->
  exists o, parse_args (words ++ [w]) (default_options home) = Ret (Proceed o) /\
    request_of o = w /\ socket_path o = default_socket_path home.
Proof.
  assert (Hplain : forall a argv o, starts_with_dash a = false ->
    parse_args (a :: argv) o =
    parse_args argv {| socket_path := socket_path o; command := a; watch := watch o;
                       watch_seconds := watch_seconds o |}).
  { intros a argv o Ha. cbn [parse_args].
    destruct (String.eqb_spec a "--help") as [->|]; [done|].
    destruct (String.eqb_spec a "-h") as [->|]; [done|]. cbn [orb].
    destruct (String.eqb_spec a "--socket") as [->|]; [done|].
    destruct (String.eqb_spec a "--watch") as [->|]; [done|]. by rewrite Ha. }
  assert (Hgen : forall words o, watch o = false -> Forall (fun a => starts_with_dash a = false) (words ++ [w]) ->
    exists o', parse_args (words ++ [w]) o = Ret (Proceed o') /\
      request_of o' = w /\ socket_path o' = socket_path o).
  { clear words. intros words. induction words as [|a words IH]; intros o Hw Hf.
    - simpl app in *. inversion Hf; subst. rewrite Hplain by done.
      eexists. split; [reflexivity|]. unfold request_of. cbn. by rewrite Hw.
    - simpl app in *. inversion Hf as [|? ? Ha Hws]; subst. rewrite Hplain by done.
      exact (IH {| socket_path := socket_path o; command := a; watch := watch o;
                   watch_seconds := watch_seconds o |} Hw Hws). }
  intros Hf. by apply (Hgen words (default_options home)).
Qed.

Lemma last_word_is_the_command_witness :
  exists o, parse_args ["history"; "system.cpu.percent"; "600"] (default_options (Some "/Users/a"))
      = Ret (Proceed o) /\ request_of o = "600".
Proof.
  destruct (last_word_is_the_command (Some "/Users/a") ["history"; "system.cpu.percent"] "600")
    as (o & E & Hr & _); [repeat constructor|].
  exists o. split; [exact E|exact Hr].
Defined.
