(* ===== verification/Metrics.v ===== *)
(** * The samplers (daemon/src/metrics/)

    What each sampler computes from the counters the system reports, on
    64-bit words and binary64 values.  The counters are arguments. *)

From stdpp Require Import base option list strings gmap sorting.
From Stdlib Require Import ZArith Lia SpecFloat.
From S2P Require Import Prelude CppLib Double SharedState.

Open Scope string_scope.
Open Scope list_scope.

(** [(x / y) * 100.0] of two 64-bit counts. *)
Definition percent_of (x y : Z) : double :=
  dbl_mul (dbl_div (dbl_of_Z x) (dbl_of_Z y)) (dbl_of_Z 100).

(** Unsigned 64-bit subtraction, addition and multiplication. *)
Definition u64_sub (a b : Z) : Z := wrap_u64 (a - b).
Definition u64_add (a b : Z) : Z := wrap_u64 (a + b).
Definition u64_mul (a b : Z) : Z := wrap_u64 (a * b).

(** ** CPU (cpu_sampler) *)

(** The tick counters of [host_cpu_load_info]. *)
Record Ticks := { user : Z; system : Z; idle : Z; nice : Z }.

(** [None]: no previous sample. *)
Definition CpuSampler : Type := option Ticks.

Definition busy_ticks (prev cur : Ticks) : Z :=
  u64_add (u64_add (u64_sub (user cur) (user prev)) (u64_sub (system cur) (system prev)))
          (u64_sub (nice cur) (nice prev)).

Definition total_ticks (prev cur : Ticks) : Z :=
  u64_add (busy_ticks prev cur) (u64_sub (idle cur) (idle prev)).

(** [sample]; [None] is a failing [host_statistics]. *)
Definition cpu_sample (info : option Ticks) (s : CpuSampler) : double * CpuSampler :=
  match info with
  | None => (dbl_zero, s)
  | Some cur =>
      match s with
      | None => (dbl_zero, Some cur)
      | Some prev =>
          if (total_ticks prev cur =? 0)%Z then (dbl_zero, Some cur)
          else (percent_of (busy_ticks prev cur) (total_ticks prev cur), Some cur)
      end
  end.

(** ** Memory (memory_sampler) *)

Record MemorySample := {
  mem_valid : bool; mem_total : Z; mem_used : Z; mem_percent : double
}.

Definition no_memory : MemorySample :=
  {| mem_valid := false; mem_total := 0; mem_used := 0; mem_percent := dbl_zero |}.

(** [hw.memsize], the page size, and the active, wired and compressed pages. *)
Definition sample_memory (memsize : option Z) (page_size : option Z) (vm : option (Z * Z * Z))
    : MemorySample :=
  match memsize with
  | None => no_memory
  | Some total =>
      if (total =? 0)%Z then no_memory
      else
        match page_size, vm with
        | Some page, Some (active, wired, compressed) =>
            let used := u64_mul (u64_add (u64_add active wired) compressed) page in
            let used := if (total <? used)%Z then total else used in
            {| mem_valid := true; mem_total := total; mem_used := used;
               mem_percent := percent_of used total |}
        | _, _ => no_memory
        end
  end.

(** ** Disk (disk_sampler) *)

Record DiskSample := {
  disk_valid : bool; disk_total : Z; disk_available : Z; disk_percent : double
}.

Definition no_disk : DiskSample :=
  {| disk_valid := false; disk_total := 0; disk_available := 0; disk_percent := dbl_zero |}.

(** [statfs]: block size, blocks, blocks available. *)
Definition sample_disk (st : option (Z * Z * Z)) : DiskSample :=
  match st with
  | None => no_disk
  | Some (bsize, blocks, bavail) =>
      let total := u64_mul blocks bsize in
      let available := u64_mul bavail bsize in
      let used := if (available <=? total)%Z then (total - available)%Z else 0%Z in
      {| disk_valid := true; disk_total := total; disk_available := available;
         disk_percent := if (0 <? total)%Z then percent_of used total else dbl_zero |}
  end.

(** ** The daemon itself (self_sampler) *)

Record SelfStats := { stats_valid : bool; stats_rss : Z; stats_cpu : double }.

Record SelfSampler := { self_have_prev : bool; self_prev_time : Z; self_prev_wall : Z }.

Definition new_self_sampler : SelfSampler :=
  {| self_have_prev := false; self_prev_time := 0; self_prev_wall := 0 |}.

(** [ti] is user time, system time and resident size, if [proc_pidinfo]
    succeeds; [wall] the steady clock in nanoseconds. *)
Definition self_sample (ti : option (Z * Z * Z)) (wall : Z) (s : SelfSampler)
    : SelfStats * SelfSampler :=
  match ti with
  | None => ({| stats_valid := false; stats_rss := 0; stats_cpu := dbl_zero |}, s)
  | Some (utime, stime, rss) =>
      let total := u64_add utime stime in
      let cpu :=
        if self_have_prev s && (self_prev_wall s <? wall)%Z && (self_prev_time s <=? total)%Z
        then percent_of (total - self_prev_time s) (wall - self_prev_wall s)
        else dbl_zero in
      ({| stats_valid := true; stats_rss := rss; stats_cpu := cpu |},
       {| self_have_prev := true; self_prev_time := total; self_prev_wall := wall |})
  end.

(** ** Processes (process_sampler) *)

(** A pid as enumerated: its task info (user time, system time, resident
    size) and its name, when the system tells them. *)
Record PidInfo := { pi_pid : Z; pi_task : option (Z * Z * Z); pi_name : option string }.

Record ProcessSampler := {
  prev_time_ns : gmap Z Z;       (* pid -> task time *)
  prev_sample : option Z         (* steady clock, ns *)
}.

Definition new_process_sampler : ProcessSampler :=
  {| prev_time_ns := ∅; prev_sample := None |}.

(** One pid of the enumeration. *)
Definition proc_one (s : ProcessSampler) (now : Z) (p : PidInfo)
    (acc : gmap Z Z * list ProcInfo) : gmap Z Z * list ProcInfo :=
  let '(cur, procs) := acc in
  if (pi_pid p <=? 0)%Z then acc
  else
    match pi_task p with
    | None => acc
    | Some (utime, stime, rss) =>
        let total := u64_add utime stime in
        let cpu :=
          match prev_sample s, prev_time_ns s !! pi_pid p with
          | Some prev, Some t =>
              if (prev <? now)%Z && (t <=? total)%Z then percent_of (total - t) (now - prev)
              else dbl_zero
          | _, _ => dbl_zero
          end in
        (<[pi_pid p := total]> cur,
         procs ++ [{| pid := pi_pid p;
                      proc_name := default ("pid " +:+ to_string_Z (pi_pid p)) (pi_name p);
                      cpu_percent := cpu; rss_bytes := rss |}])
    end.

(** The comparator of the sort. *)
Definition before (a b : ProcInfo) : bool :=
  if negb (dbl_eq (cpu_percent a) (cpu_percent b))
  then dbl_gt (cpu_percent a) (cpu_percent b)
  else (rss_bytes b <? rss_bytes a)%Z.

Definition not_after (a b : ProcInfo) : Prop := before b a = false.

#[export] Instance not_after_dec a b : Decision (not_after a b).
Proof. unfold not_after. apply bool_eq_dec. Defined.

(** [top]; [None] is a failing enumeration.  [std::partial_sort] may order
    equivalent elements in any way; here they keep their order. *)
Definition top (n : Z) (pids : option (list PidInfo)) (now : Z) (s : ProcessSampler)
    : list ProcInfo * ProcessSampler :=
  match pids with
  | None => ([], s)
  | Some l =>
      let '(cur, procs) := fold_left (fun acc p => proc_one s now p acc) l (∅, []) in
      (take (Z.to_nat n) (merge_sort not_after procs),
       {| prev_time_ns := cur; prev_sample := Some now |})
  end.

(** ** Lemmas *)

Lemma before_asym a b : before a b = true -> before b a = false.
Proof.
  unfold before, dbl_eq, dbl_gt, SFeqb, SFltb.
  rewrite (dbl_compare_swap (cpu_percent a) (cpu_percent b)).
  destruct (SFcompare (cpu_percent a) (cpu_percent b)) as [[]|]; simpl; try done; lia.
Qed.

#[export] Instance not_after_total : Total not_after.
Proof.
  intros a b. unfold not_after. destruct (before b a) eqn:E; [|by left].
  right. by apply before_asym.
Qed.

Lemma proc_one_pids s now p acc :
  map pid (snd (proc_one s now p acc)) =
    map pid (snd acc) ++ (if (0 <? pi_pid p)%Z && bool_decide (is_Some (pi_task p))
                          then [pi_pid p] else []).
Proof.
  destruct acc as [cur procs]. unfold proc_one. rewrite Z.leb_antisym.
  destruct (0 <? pi_pid p)%Z; simpl; [|by rewrite app_nil_r].
  destruct (pi_task p) as [[[ut st] rss]|]; simpl; [by rewrite map_app|by rewrite app_nil_r].
Qed.

Lemma fold_pids s now l acc :
  map pid (snd (fold_left (fun acc p => proc_one s now p acc) l acc)) =
    map pid (snd acc) ++
    map pi_pid (List.filter (fun p => (0 <? pi_pid p)%Z && bool_decide (is_Some (pi_task p))) l).
Proof.
  revert acc. induction l as [|p l IH]; intros acc; simpl; [by rewrite app_nil_r|].
  rewrite IH, proc_one_pids, <- app_assoc. f_equal.
  by destruct ((0 <? pi_pid p)%Z && _).
Qed.

(** [e] is what the sampler must report of [p]: its CPU use is the share of
    the task time since the last sample in the elapsed time, and 0 for a
    process it had not seen. *)
Definition measures (s : ProcessSampler) (now : Z) (p : PidInfo) (e : ProcInfo) : Prop :=
  exists ut st rss, pi_task p = Some (ut, st, rss) /\ pid e = pi_pid p /\ rss_bytes e = rss /\
    (forall name, pi_name p = Some name -> proc_name e = name) /\
    (prev_sample s = None \/ prev_time_ns s !! pi_pid p = None -> cpu_percent e = dbl_zero) /\
    (forall prev t, prev_sample s = Some prev -> prev_time_ns s !! pi_pid p = Some t ->
       (prev < now)%Z -> (0 <= t <= ut + st)%Z -> (ut + st < 2 ^ 64)%Z ->
       cpu_percent e = percent_of (ut + st - t) (now - prev)).

Lemma proc_one_measures s now p acc :
  Forall (fun e => e ∈ snd acc \/ measures s now p e) (snd (proc_one s now p acc)).
Proof.
  destruct acc as [cur procs]. unfold proc_one.
  assert (Hp : Forall (fun e => e ∈ procs \/ measures s now p e) procs)
    by (apply Forall_forall; auto).
  destruct (pi_pid p <=? 0)%Z; [exact Hp|].
  destruct (pi_task p) as [[[ut st] rss]|] eqn:Et; [|exact Hp].
  cbn [snd]. apply Forall_app. split; [exact Hp|]. apply Forall_singleton. right.
  exists ut, st, rss. cbn. split_and!; try done.
  - by intros name ->.
  - intros [-> | ->]; [done|]. by destruct (prev_sample s).
  - intros prev t -> -> Hw Ht Hb. unfold u64_add. rewrite wrap_u64_id by lia.
    by rewrite (proj2 (Z.ltb_lt _ _) Hw), (proj2 (Z.leb_le _ _) (proj2 Ht)).
Qed.

Lemma fold_measures s now l acc :
  Forall (fun e => e ∈ snd acc \/ exists p, p ∈ l /\ measures s now p e)
    (snd (fold_left (fun acc p => proc_one s now p acc) l acc)).
Proof.
  revert acc. induction l as [|p l IH]; intros acc; cbn [fold_left].
  { apply Forall_forall. auto. }
  eapply Forall_impl; [apply IH|]. cbn. intros e [He|(q & Hq & Hm)].
  - pose proof (proc_one_measures s now p acc) as H. rewrite Forall_forall in H.
    destruct (H e He); [auto|]. right. exists p. split; [apply list_elem_of_here|done].
  - right. exists q. split; [by apply list_elem_of_further|done].
Qed.

(** ** Properties *)

(** While the counters do not decrease, the CPU sampler computes the
    busy share of the elapsed ticks: its word arithmetic does not wrap, and
    the busy ticks are at most the total. *)
Theorem cpu_sample_exact prev cur :
  (0 <= user prev <= user cur)%Z -> (0 <= system prev <= system cur)%Z ->
  (0 <= idle prev <= idle cur)%Z -> (0 <= nice prev <= nice cur)%Z ->
  (user cur + system cur + idle cur + nice cur < 2 ^ 64)%Z ->
  let busy := (user cur - user prev + (system cur - system prev) +
               (nice cur - nice prev))%Z in
  let total := (busy + (idle cur - idle prev))%Z in
  cpu_sample (Some cur) (Some prev) =
    (if (total =? 0)%Z then dbl_zero else percent_of busy total, Some cur) /\
  (0 <= busy <= total)%Z.
Proof.
  intros Hu Hs Hi Hn Hb. cbn zeta.
  assert (E1 : busy_ticks prev cur = (user cur - user prev + (system cur - system prev) +
               (nice cur - nice prev))%Z).
  { unfold busy_ticks, u64_add, u64_sub. rewrite !wrap_u64_id; lia || idtac.
    all: rewrite ?wrap_u64_id; lia || (rewrite !wrap_u64_id; lia). }
  assert (E2 : total_ticks prev cur = (user cur - user prev + (system cur - system prev) +
               (nice cur - nice prev) + (idle cur - idle prev))%Z).
  { unfold total_ticks, u64_add, u64_sub. rewrite E1, !wrap_u64_id; rewrite ?wrap_u64_id; lia. }
  split; [|lia]. unfold cpu_sample. rewrite E1, E2. by destruct (_ =? 0)%Z.
Qed.

Lemma cpu_sample_exact_witness :
  cpu_sample (Some {| user := 150; system := 20; idle := 130; nice := 0 |})
             (Some {| user := 100; system := 20; idle := 80; nice := 0 |}) =
    (dbl_of_Z 50, Some {| user := 150; system := 20; idle := 130; nice := 0 |}).
Proof.
  destruct (cpu_sample_exact {| user := 100; system := 20; idle := 80; nice := 0 |}
    {| user := 150; system := 20; idle := 130; nice := 0 |}) as [E _]; [cbn; lia..|].
  rewrite E. vm_compute. reflexivity.
Defined.

(** The Mach counters are 32 bits wide and are differenced as 64-bit words:
    in the interval in which the user counter wraps, three busy ticks among a
    thousand read as 100 %. *)
Lemma tick_wrap_reads_full :
  fst (cpu_sample (Some {| user := 2; system := 0; idle := 1997; nice := 0 |})
                  (Some {| user := 4294967295; system := 0; idle := 1000; nice := 0 |})) =
  dbl_of_Z 100.
Proof. vm_compute. reflexivity. Qed.

(** The process list is the [n] first of the live processes in the order
    of their CPU use, then memory: no more than [n], as many as there are
    otherwise, sorted, and a prefix of a sorted permutation of the measured
    processes, one entry per readable pid, each with its memory and its share
    of the time elapsed since the last sample. *)
Theorem top_is_sorted_prefix n l now s :
  (0 <= n)%Z ->
  let procs := snd (fold_left (fun acc p => proc_one s now p acc) l (∅, [])) in
  map pid procs =
    map pi_pid (List.filter (fun p => (0 <? pi_pid p)%Z && bool_decide (is_Some (pi_task p))) l) /\
  Forall (fun e => exists p, p ∈ l /\ measures s now p e) procs /\
  exists rest, fst (top n (Some l) now s) ++ rest ≡ₚ procs /\
    Sorted not_after (fst (top n (Some l) now s) ++ rest) /\
    length (fst (top n (Some l) now s)) = Nat.min (Z.to_nat n) (length procs).
Proof.
  intros Hn. cbn zeta. split; [apply (fold_pids s now l (∅, []))|]. split.
  { eapply Forall_impl; [apply (fold_measures s now l (∅, []))|].
    cbn. intros e [He%not_elem_of_nil|He]; done. }
  unfold top. destruct (fold_left _ l (∅, [])) as [cur procs]. cbn [fst snd].
  exists (drop (Z.to_nat n) (merge_sort not_after procs)).
  rewrite take_drop, length_take. split_and!.
  - apply merge_sort_Permutation.
  - apply Sorted_merge_sort. apply _.
  - f_equal. apply Permutation_length, merge_sort_Permutation.
Qed.

Definition example_pids : list PidInfo :=
  [{| pi_pid := 1; pi_task := Some (10, 0, 100)%Z; pi_name := Some "launchd" |};
   {| pi_pid := 2; pi_task := None; pi_name := Some "hidden" |};
   {| pi_pid := 3; pi_task := Some (70, 20, 50)%Z; pi_name := None |};
   {| pi_pid := 4; pi_task := Some (10, 0, 900)%Z; pi_name := Some "big" |}].

Lemma top_is_sorted_prefix_witness :
  map proc_name (fst (top 2 (Some example_pids) 100
     {| prev_time_ns := {[3%Z := 40%Z]}; prev_sample := Some 0%Z |})) = ["pid 3"; "big"] /\
  length (fst (top 2 (Some example_pids) 100
     {| prev_time_ns := {[3%Z := 40%Z]}; prev_sample := Some 0%Z |})) = 2.
Proof.
  split; [vm_compute; reflexivity|].
  destruct (top_is_sorted_prefix 2 example_pids 100
    {| prev_time_ns := {[3%Z := 40%Z]}; prev_sample := Some 0%Z |} ltac:(lia))
    as (_ & _ & rest & _ & _ & E).
  rewrite E. vm_compute. reflexivity.
Defined.

(** The memory and disk samples are consistent: the used part never
    exceeds the whole, a valid memory sample has a whole, and the sizes fit
    64 bits whatever the system reports. *)
Theorem samples_consistent memsize page vm st :
  (forall t, memsize = Some t -> 0 <= t < 2 ^ 64)%Z ->
  let m := sample_memory memsize page vm in
  let d := sample_disk st in
  (0 <= mem_used m <= mem_total m /\ mem_total m < 2 ^ 64)%Z /\
  (mem_valid m = true -> (0 < mem_total m)%Z) /\
  (0 <= disk_total d < 2 ^ 64 /\ 0 <= disk_available d < 2 ^ 64)%Z.
Proof.
  intros Ht m d. split; [|split].
  - subst m. unfold sample_memory, u64_mul.
    destruct memsize as [t|]; [specialize (Ht t eq_refl)|cbn; lia].
    destruct (Z.eqb_spec t 0); [cbn; lia|].
    destruct page as [pg|]; [|cbn; lia]. destruct vm as [[[a w] c]|]; [|cbn; lia]. cbn.
    pose proof (wrap_u64_range (u64_add (u64_add a w) c * pg)).
    destruct (Z.ltb_spec t (wrap_u64 (u64_add (u64_add a w) c * pg))); lia.
  - subst m. unfold sample_memory.
    destruct memsize as [t|]; [specialize (Ht t eq_refl)|done].
    destruct (Z.eqb_spec t 0); [done|].
    destruct page as [pg|]; [|done]. destruct vm as [[[a w] c]|]; [|done]. cbn. lia.
  - subst d. unfold sample_disk, u64_mul. destruct st as [[[b bl] ba]|]; cbn; [|lia].
    pose proof (wrap_u64_range (bl * b)). pose proof (wrap_u64_range (ba * b)). done.
Qed.

Lemma samples_consistent_witness :
  mem_used (sample_memory (Some 1000%Z) (Some 10%Z) (Some (90, 20, 5)%Z)) = 1000%Z /\
  (0 < mem_total (sample_memory (Some 1000%Z) (Some 10%Z) (Some (90, 20, 5)%Z)))%Z.
Proof.
  split; [vm_compute; reflexivity|].
  destruct (samples_consistent (Some 1000%Z) (Some 10%Z) (Some (90, 20, 5)%Z) None)
    as (_ & Hv & _); [intros t [= <-]; lia|].
  apply Hv. reflexivity.
Defined.
