(* ===== verification/Support.v ===== *)
(** * Notifications, paths and logging (daemon/src/alerts/notifier.cpp,
      daemon/src/paths.cpp, daemon/src/log.{hpp,cpp}) *)

From stdpp Require Import base option list strings.
From Stdlib Require Import Ascii ZArith Lia.
From S2P Require Import Prelude CppLib.

Open Scope string_scope.
Open Scope list_scope.

(** ** Notifications *)

Definition backslash : ascii := "092".

(** One character inside an AppleScript literal. *)
Definition escape_char (c : ascii) : string :=
  if Ascii.eqb c nl then String backslash "n"
  else if Ascii.eqb c backslash || Ascii.eqb c quote then String backslash (String c "")
  else String c "".

Fixpoint escape_applescript (s : string) : string :=
  match s with
  | "" => ""
  | String c s' => escape_char c +:+ escape_applescript s'
  end.

Definition QUOTE : string := String quote "".

Definition notification_script (title message : string) : string :=
  "display notification " +:+ (QUOTE +:+ (escape_applescript message +:+ (QUOTE +:+
  (" with title " +:+ (QUOTE +:+ (escape_applescript title +:+ QUOTE)))))).

(** [send_notification]: the argument vector of the spawned process. *)
Definition send_notification (title message : string) : list string :=
  ["osascript"; "-e"; c_str (notification_script title message)].

(** ** How AppleScript reads a literal *)

(** The literal after its opening quote: its text and what follows the
    closing one. *)
Fixpoint read_literal (s : string) : option (string * string) :=
  match s with
  | "" => None
  | String c s' =>
      if Ascii.eqb c quote then Some ("", s')
      else if Ascii.eqb c backslash then
        match s' with
        | "" => None
        | String d s'' =>
            match read_literal s'' with
            | Some (t, rest) =>
                Some (String (if Ascii.eqb d "n" then nl else d) t, rest)
            | None => None
            end
        end
      else
        match read_literal s' with
        | Some (t, rest) => Some (String c t, rest)
        | None => None
        end
  end.

Lemma read_escaped_char c s t rest :
  read_literal s = Some (t, rest) ->
  read_literal (escape_char c +:+ s) = Some (String c t, rest).
Proof.
  intros H. destruct c as [b0 b1 b2 b3 b4 b5 b6 b7].
  destruct b0, b1, b2, b3, b4, b5, b6, b7; cbn; by rewrite H.
Qed.

Lemma escaped_one_line s : one_line (escape_applescript s) = true.
Proof.
  induction s as [|c s IH]; [done|]. cbn [escape_applescript].
  rewrite one_line_app, IH. destruct c as [b0 b1 b2 b3 b4 b5 b6 b7].
  by destruct b0, b1, b2, b3, b4, b5, b6, b7.
Qed.

Lemma read_escaped s rest :
  read_literal (escape_applescript s +:+ (QUOTE +:+ rest)) = Some (s, rest).
Proof.
  induction s as [|c s IH]; [done|]. cbn [escape_applescript].
  rewrite <- str_app_assoc. by apply read_escaped_char.
Qed.

(** Without its closing quote a literal has no end. *)
Lemma read_unclosed s : read_literal (escape_applescript s) = None.
Proof.
  induction s as [|c s IH]; [done|]. cbn [escape_applescript].
  destruct c as [b0 b1 b2 b3 b4 b5 b6 b7].
  destruct b0, b1, b2, b3, b4, b5, b6, b7; cbn; by rewrite IH.
Qed.

(** Where a NUL cuts an escaped text. *)
Lemma c_str_escaped s t :
  c_str (escape_applescript s +:+ t) =
    if String.eqb (c_str s) s then escape_applescript s +:+ c_str t
    else escape_applescript (c_str s).
Proof.
  induction s as [|c s IH]; [done|]. cbn [escape_applescript c_str].
  rewrite <- str_app_assoc.
  assert (E : forall b, String.eqb (String b (c_str s)) (String b s) = String.eqb (c_str s) s).
  { intros b. cbn. by rewrite Ascii.eqb_refl. }
  destruct c as [b0 b1 b2 b3 b4 b5 b6 b7].
  destruct b0, b1, b2, b3, b4, b5, b6, b7; cbn [Ascii.eqb Bool.eqb escape_char]; cbn -[String.eqb];
    rewrite ?IH, ?E; try done; by destruct (String.eqb (c_str s) s).
Qed.

(** What a script asks AppleScript to show. *)
Inductive shown :=
| Shows (message title : string)
| NoTitle (message : string)         (* the title's literal has no end *)
| NoMessage.                         (* nor has the message's *)

(** A script of that form and no other statement. *)
Definition script_reads (script : string) (x : shown) : Prop :=
  exists rest, script = "display notification " +:+ (QUOTE +:+ rest) /\
    match x with
    | Shows message title => exists t,
        read_literal rest = Some (message, " with title " +:+ (QUOTE +:+ t)) /\
        read_literal t = Some (title, "")
    | NoTitle message => exists t,
        read_literal rest = Some (message, " with title " +:+ (QUOTE +:+ t)) /\ read_literal t = None
    | NoMessage => read_literal rest = None
    end.

Lemma one_line_c_str s : one_line s = true -> one_line (c_str s) = true.
Proof.
  induction s as [|c s IH]; [done|]. cbn [c_str]. unfold one_line in *.
  change (String c s) with (String c "" +:+ s). rewrite one_line_app.
  intros [Hc Hs]%andb_true_iff. destruct (Ascii.eqb c _); [done|].
  change (String c (c_str s)) with (String c "" +:+ c_str s). rewrite one_line_app, Hc. by apply IH.
Qed.

(** C39: the script a notification runs is one line, and shows exactly its
    message and its title, whatever characters other than NUL they contain:
    each literal ends at the quote the daemon wrote.  A NUL ends the argument:
    then the literal it is in has no end, so that the script is no statement
    at all, and still nothing of the texts is read outside their literals. *)
Theorem notification_not_injectable title message :
  exists script, send_notification title message = ["osascript"; "-e"; script] /\
    one_line script = true /\
    script_reads script
      (if String.eqb (c_str message) message then
         if String.eqb (c_str title) title then Shows message title else NoTitle message
       else NoMessage).
Proof.
  eexists. split; [reflexivity|]. split.
  { apply one_line_c_str. unfold notification_script. by rewrite !one_line_app, !escaped_one_line. }
  unfold notification_script, script_reads.
  change (c_str ("display notification " +:+ (QUOTE +:+ ?x)))
    with ("display notification " +:+ (QUOTE +:+ c_str x)).
  rewrite c_str_escaped. destruct (String.eqb (c_str message) message).
  - change (c_str (QUOTE +:+ (" with title " +:+ (QUOTE +:+ ?x))))
      with (QUOTE +:+ (" with title " +:+ (QUOTE +:+ c_str x))).
    rewrite c_str_escaped. eexists. split; [reflexivity|].
    destruct (String.eqb (c_str title) title); eexists; (split; [apply read_escaped|]).
    + apply (read_escaped title "").
    + apply read_unclosed.
  - eexists. split; [reflexivity|]. apply read_unclosed.
Qed.

(** ** Paths *)

Record Paths := { data_dir : string; config_dir : string; log_dir : string }.

Definition ends_with_slash (s : string) : bool :=
  match find_last (fun _ => true) 0 s with
  | Some i => Ascii.eqb (default "000"%char (String.get i s)) "/"
  | None => true
  end.

(** [fs::path::operator/] with a relative right operand. *)
Definition path_append (a b : string) : string :=
  if ends_with_slash a then a +:+ b else a +:+ "/" +:+ b.

Definition database (p : Paths) : string := path_append (data_dir p) "agentpulse.db".
Definition socket (p : Paths) : string := path_append (data_dir p) "agentpulse.sock".
Definition config_file (p : Paths) : string := path_append (config_dir p) "config.yaml".

(** [home] is [getenv("HOME")]; [create] the error of creating a directory. *)
Definition ensure_dir (create : string -> option string) (dir : string) : outcome unit :=
  match create dir with
  | Some e => Throw (RuntimeError ("failed to create directory " +:+ dir +:+ ": " +:+ e))
  | None => Ret tt
  end.

Definition resolve_paths (home : option string) (create : string -> option string)
    : outcome Paths :=
  match home with
  | None | Some "" => Throw (RuntimeError "HOME environment variable is not set")
  | Some h =>
      let p := {| data_dir := path_append (path_append (path_append h "Library")
                                "Application Support") "AgentPulse";
                  config_dir := path_append (path_append h ".config") "agentpulse";
                  log_dir := path_append (path_append (path_append h "Library") "Logs")
                               "AgentPulse" |} in
      _ ← ensure_dir create (data_dir p);
      _ ← ensure_dir create (config_dir p);
      _ ← ensure_dir create (log_dir p);
      Ret p
  end.

(** ** Logging *)

Inductive LogLevel := Debug_ | Info_ | Warn_ | Error_.

Definition level_rank (l : LogLevel) : nat :=
  match l with Debug_ => 0 | Info_ => 1 | Warn_ => 2 | Error_ => 3 end.

Definition level_tag (l : LogLevel) : string :=
  match l with Debug_ => "DEBUG" | Info_ => "INFO " | Warn_ => "WARN " | Error_ => "ERROR" end.

(** [g_min_level]: its initial value, and its assignment. *)
Definition initial_level : LogLevel := Info_.
Definition set_log_level (level g_min_level : LogLevel) : LogLevel := level.

(** The line written, if the level is enabled; [stamp] is the formatted time
    and [millis] its milliseconds, printed with three digits.  [%.*s] stops at
    a NUL. *)
Definition log_write (g_min_level level : LogLevel) (stamp millis message : string)
    : option string :=
  if Nat.ltb (level_rank level) (level_rank g_min_level) then None
  else Some (stamp +:+ "." +:+ millis +:+ " [" +:+ level_tag level +:+ "] " +:+ c_str message +:+ NL).

Example resolved_paths :
  (p ← resolve_paths (Some "/Users/a") (fun _ => None);
   Ret (database p, config_file p)) =
  Ret ("/Users/a/Library/Application Support/AgentPulse/agentpulse.db",
       "/Users/a/.config/agentpulse/config.yaml").
Proof. vm_compute. reflexivity. Qed.
