(* ===== verification/SleepMonitor.v ===== *)
(** * The sleep monitor (daemon/src/power/sleep_monitor.{hpp,cpp})

    A thread running a CFRunLoop that receives power messages, and the main
    thread that starts, stops and destroys it, interleaved.  Whether the
    registration succeeds is a choice of the thread's steps. *)

From stdpp Require Import base option list relations.
From Stdlib Require Import ZArith Lia.
From S2P Require Import Prelude.

Open Scope list_scope.

Inductive PowerMessage := CanSystemSleep | SystemWillSleep | SystemHasPoweredOn | OtherMessage.

(** What the callback does: acknowledge the change, call [on_wake]. *)
Inductive power_action := AllowChange | OnWake.

Definition power_callback (has_callback : bool) (m : PowerMessage) : list power_action :=
  match m with
  | CanSystemSleep | SystemWillSleep => [AllowChange]
  | SystemHasPoweredOn => if has_callback then [OnWake] else []
  | OtherMessage => []
  end.

(** Where the monitor's thread is. *)
Inductive thread_at :=
| NoThread
| Registering            (* before or in [IORegisterForSystemPower] *)
| Registered             (* before [run_loop_.store(loop)] *)
| Entering               (* before [CFRunLoopRun()] *)
| InLoop
| Returned.

#[export] Instance thread_at_eq_dec : EqDecision thread_at.
Proof. solve_decision. Defined.

Record SleepMonitor := {
  running : bool;        (* running_ *)
  joinable : bool;       (* thread_.joinable() *)
  run_loop : bool;       (* run_loop_ is set *)
  thread : thread_at
}.

Definition new_monitor : SleepMonitor :=
  {| running := false; joinable := false; run_loop := false; thread := NoThread |}.

(** [start]: [exchange(true)], then the thread is assigned, which terminates
    if the member still holds one. *)
Definition start (m : SleepMonitor) : outcome SleepMonitor :=
  if running m then Ret m
  else if joinable m then Terminate
  else Ret {| running := true; joinable := true; run_loop := run_loop m; thread := Registering |}.

(** The thread up to its run loop, which only [stop] ends. *)
Inductive thread_step : SleepMonitor -> SleepMonitor -> Prop :=
| Refused m : thread m = Registering ->
    thread_step m {| running := false; joinable := joinable m; run_loop := run_loop m; thread := Returned |}
| Accepted m : thread m = Registering ->
    thread_step m {| running := running m; joinable := joinable m; run_loop := run_loop m;
                     thread := Registered |}
| Known m : thread m = Registered ->
    thread_step m {| running := running m; joinable := joinable m; run_loop := true; thread := Entering |}
| Enters m : thread m = Entering ->
    thread_step m {| running := running m; joinable := joinable m; run_loop := run_loop m;
                     thread := InLoop |}.

(** The main thread: serving, and in [stop]. *)
Inductive stop_at :=
| Serving
| Waiting (polls : nat)      (* for the run loop to come up *)
| Stopping
| Joining
| Stopped.

Definition kPolls : nat := 50.

(** [CFRunLoopStop] ends a run loop that is running; before [CFRunLoopRun]
    there is nothing it could end. *)
Definition run_loop_stop (m : SleepMonitor) : SleepMonitor :=
  match thread m with
  | InLoop => {| running := running m; joinable := joinable m; run_loop := run_loop m; thread := Returned |}
  | _ => m
  end.

(** [stop], a step per access to what it shares with the thread; [None] while
    it waits in [join], and at its end. *)
Definition stop_step (p : stop_at) (m : SleepMonitor) : option (stop_at * SleepMonitor) :=
  match p with
  | Serving =>
      if running m then
        Some (Waiting kPolls, {| running := false; joinable := joinable m; run_loop := run_loop m;
                                 thread := thread m |})
      else Some (Stopped, m)
  | Waiting 0 => Some (Stopping, m)
  | Waiting (S i) => Some (if run_loop m then Stopping else Waiting i, m)
  | Stopping => Some (Joining, if run_loop m then run_loop_stop m else m)
  | Joining =>
      match joinable m, thread m with
      | false, _ | true, Returned =>
          Some (Stopped, {| running := running m; joinable := false; run_loop := false;
                            thread := thread m |})
      | true, _ => None
      end
  | Stopped => None
  end.

(** The two threads interleaved. *)
Inductive monitor_step : stop_at * SleepMonitor -> stop_at * SleepMonitor -> Prop :=
| ByThread p m m' : thread_step m m' -> monitor_step (p, m) (p, m')
| ByMain p m c : stop_step p m = Some c -> monitor_step (p, m) c.

(** The destructor of a monitor that was stopped: [stop] returns at once, and
    a joinable member thread terminates the process. *)
Definition destroy (m : SleepMonitor) : option (outcome unit) :=
  match stop_step Serving m with
  | Some (Stopped, m') => Some (if joinable m' then Terminate else Ret tt)
  | _ => None
  end.

(** ** What a monitor comes to *)

Definition started : SleepMonitor :=
  {| running := true; joinable := true; run_loop := false; thread := Registering |}.

Lemma start_new : start new_monitor = Ret started.
Proof. reflexivity. Qed.

(** The flag is cleared by a refused registration or by [stop], which joins
    the thread; [stop] passes by a run loop it has not seen running. *)
Definition sound (c : stop_at * SleepMonitor) : Prop :=
  let '(p, m) := c in
  (thread m = Entering \/ thread m = InLoop -> run_loop m = true) /\ thread m <> NoThread /\
  match p with
  | Serving => joinable m = true /\ (running m = true <-> thread m <> Returned)
  | Waiting _ | Stopping | Joining => joinable m = true /\ running m = false
  | Stopped => running m = false /\ thread m = Returned
  end.

Lemma started_sound : sound (Serving, started).
Proof. split_and!; try done. by intros [|]. Qed.

Lemma step_sound c c' : monitor_step c c' -> sound c -> sound c'.
Proof.
  destruct 1 as [p m m' Ht|p m c Hs]; intros (Hl & Hn & Hp).
  - destruct Ht as [m E|m E|m E|m E]; rewrite E in *; cbn; split_and!; try done;
      assert (Registering <> Returned /\ Registered <> Returned /\ Entering <> Returned /\
        InLoop <> Returned) by done; destruct p; cbn in *; intuition congruence.
  - destruct p as [|[|i]| | |]; cbn in Hs.
    + destruct Hp as [Hj Hr]. destruct (running m) eqn:Er; injection Hs as <-; cbn; [done|].
      split_and!; [done|done|exact Er|]. destruct (decide (thread m = Returned)) as [|H]; [done|].
      apply Hr in H. discriminate.
    + by injection Hs as <-.
    + injection Hs as <-. by destruct (run_loop m) eqn:Er; cbn; rewrite ?Er.
    + injection Hs as <-. unfold run_loop_stop. destruct (run_loop m) eqn:Er; [|by cbn; rewrite Er].
      destruct (thread m) eqn:Et; cbn; rewrite ?Et, ?Er; done.
    + destruct Hp as [Hj Hr]. rewrite Hj in Hs. destruct (thread m) eqn:Et; try done.
      injection Hs as <-. cbn. rewrite ?Et. split_and!; try done. by intros [|].
    + done.
Qed.

Lemma steps_sound c c' : rtc monitor_step c c' -> sound c -> sound c'.
Proof. induction 1; eauto using step_sound. Qed.

(** Every execution ends. *)
Definition thread_rank (t : thread_at) : nat :=
  match t with Registering => 3 | Registered => 2 | Entering => 1 | _ => 0 end.

Definition stop_rank (p : stop_at) : nat :=
  match p with Serving => 3 + S kPolls | Waiting i => 3 + i | Stopping => 2 | Joining => 1 | Stopped => 0 end.

Definition rank (c : stop_at * SleepMonitor) : nat := thread_rank (thread (snd c)) + stop_rank (fst c).

Lemma step_rank c c' : monitor_step c c' -> rank c' < rank c.
Proof.
  unfold rank. destruct 1 as [p m m' Ht|p m c Hs]; cbn [fst snd].
  - destruct Ht as [m E|m E|m E|m E]; rewrite E; cbn [thread thread_rank]; lia.
  - destruct p as [|[|i]| | |]; cbn in Hs.
    + destruct (running m); injection Hs as <-; cbn [fst snd thread stop_rank]; lia.
    + injection Hs as <-. cbn [fst snd stop_rank]. lia.
    + injection Hs as <-. destruct (run_loop m); cbn [fst snd stop_rank]; lia.
    + injection Hs as <-. unfold run_loop_stop.
      destruct (run_loop m), (thread m) eqn:Et; cbn [fst snd stop_rank thread thread_rank]; rewrite ?Et; cbn; lia.
    + destruct (joinable m), (thread m) eqn:Et; simplify_eq; cbn [fst snd stop_rank thread thread_rank]; rewrite ?Et; cbn; lia.
    + done.
Qed.

Lemma monitor_terminates c : sn monitor_step c.
Proof.
  induction (well_founded_ltof _ rank c) as [c _ IH]. constructor. intros c' Hs.
  apply IH. by apply step_rank.
Qed.

(** Where it comes to rest: stopped, its thread joined or, after a refused
    registration, not; or in a join that never returns, since the run loop
    was entered after [stop] had passed by. *)
Lemma monitor_rests c :
  sound c -> nf monitor_step c ->
  (exists m, c = (Stopped, m) /\ running m = false) \/ (exists m, c = (Joining, m) /\ thread m = InLoop).
Proof.
  destruct c as [p m]. intros (Hl & Hn & Hp) Hnf.
  assert (Hm : stop_step p m = None).
  { destruct (stop_step p m) as [c|] eqn:E; [|done]. destruct Hnf. exists c. by constructor. }
  destruct p as [|[|i]| | |]; cbn in Hm; try done.
  - by destruct (running m).
  - destruct Hp as [Hj _]. rewrite Hj in Hm. right. exists m. split; [done|].
    destruct (thread m) eqn:E; try done; destruct Hnf.
    + eexists. by apply ByThread, Refused.
    + eexists. by apply ByThread, Known.
    + eexists. by apply ByThread, Enters.
  - left. exists m. split; [done|apply Hp].
Qed.

(** Once the thread is in its run loop, or was refused, what [stop] comes to
    is decided. *)
Definition ends_clean (c : stop_at * SleepMonitor) : Prop :=
  let '(p, m) := c in
  match p with
  | Serving => running m = true /\ joinable m = true /\ run_loop m = true /\ thread m = InLoop
  | Waiting _ | Stopping => running m = false /\ joinable m = true /\ run_loop m = true /\ thread m = InLoop
  | Joining => running m = false /\ thread m = Returned
  | Stopped => joinable m = false /\ running m = false
  end.

Definition ends_unjoined (c : stop_at * SleepMonitor) : Prop :=
  let '(p, m) := c in
  (p = Serving \/ p = Stopped) /\ running m = false /\ joinable m = true /\ thread m = Returned.

Lemma clean_step c c' : monitor_step c c' -> ends_clean c -> ends_clean c'.
Proof.
  destruct 1 as [p m m' Ht|p m c Hs]; intros Hc.
  - destruct Ht; destruct p; cbn in *; intuition congruence.
  - destruct p as [|[|i]| | |]; cbn in *.
    + destruct Hc as (Er & Hj & Hr & Ht). rewrite Er in Hs. injection Hs as <-. done.
    + injection Hs as <-. done.
    + destruct Hc as (Hr & Hj & Hl & Ht). rewrite Hl in Hs. injection Hs as <-. done.
    + destruct Hc as (Hr & Hj & Hl & Ht). rewrite Hl in Hs. unfold run_loop_stop in Hs. rewrite Ht in Hs.
      injection Hs as <-. done.
    + destruct Hc as [Hr Ht]. rewrite Ht in Hs. destruct (joinable m); injection Hs as <-; done.
    + done.
Qed.

Lemma unjoined_step c c' : monitor_step c c' -> ends_unjoined c -> ends_unjoined c'.
Proof.
  destruct 1 as [p m m' Ht|p m c Hs]; intros ([-> | ->] & Hr & Hj & Et); cbn in *.
  1, 2: destruct Ht; cbn in *; congruence.
  - rewrite Hr in Hs. injection Hs as <-. cbn. split_and!; auto.
  - done.
Qed.

Lemma invariant_steps (P : stop_at * SleepMonitor -> Prop) c c' :
  (forall x y, monitor_step x y -> P x -> P y) -> rtc monitor_step c c' -> P c -> P c'.
Proof. intros HP. induction 1; eauto. Qed.

Lemma thread_steps_main p m m' : rtc thread_step m m' -> rtc monitor_step (p, m) (p, m').
Proof. induction 1; [constructor|]. eapply rtc_l; [by constructor|done]. Qed.

(** The thread is in its run loop before [stop]: the monitor is stopped and
    its thread joined. *)
Lemma in_loop_stops m1 c :
  rtc thread_step started m1 -> thread m1 = InLoop ->
  rtc monitor_step (Serving, m1) c -> nf monitor_step c ->
  exists m, c = (Stopped, m) /\ joinable m = false.
Proof.
  intros H1 Ht H2 Hnf.
  pose proof (steps_sound _ _ (thread_steps_main Serving _ _ H1) started_sound) as Hs.
  pose proof (steps_sound _ _ H2 Hs) as Hs2.
  assert (Hc : ends_clean c).
  { apply (invariant_steps ends_clean (Serving, m1) c clean_step H2).
    destruct Hs as (Hl & _ & Hj & Hr). cbn. split_and!; auto. apply Hr. congruence. }
  destruct (monitor_rests c Hs2 Hnf) as [(m & -> & Hr)|(m & -> & Hi)]; cbn in Hc.
  - exists m. split; [done|apply Hc].
  - destruct Hc. congruence.
Qed.

(** Its registration was refused before [stop]: [stop] does nothing, and
    destroying the monitor terminates the process. *)
Lemma refused_unjoined m1 c :
  rtc thread_step started m1 -> thread m1 = Returned ->
  rtc monitor_step (Serving, m1) c -> nf monitor_step c ->
  exists m, c = (Stopped, m) /\ joinable m = true.
Proof.
  intros H1 Ht H2 Hnf.
  pose proof (steps_sound _ _ (thread_steps_main Serving _ _ H1) started_sound) as Hs.
  pose proof (steps_sound _ _ H2 Hs) as Hs2.
  assert (Hc : ends_unjoined c).
  { apply (invariant_steps ends_unjoined (Serving, m1) c unjoined_step H2).
    destruct Hs as (_ & _ & Hj & Hr). cbn. split_and!; auto.
    destruct (running m1); [|done]. by destruct (proj1 Hr eq_refl). }
  destruct (monitor_rests c Hs2 Hnf) as [(m & -> & Hr)|(m & -> & Hi)]; cbn in Hc.
  - exists m. split; [done|apply Hc].
  - by destruct Hc as [[?|?] _].
Qed.

(** ** Properties *)

(** A monitor whose registration was refused terminates the process when it
    is destroyed: its thread has returned and was never joined, because it
    cleared the flag that [stop] tests. *)
Theorem failed_registration_terminates :
  exists m m', thread_step started m /\ rtc monitor_step (Serving, m) (Stopped, m') /\
    destroy m' = Some Terminate.
Proof.
  set (m := {| running := false; joinable := true; run_loop := false; thread := Returned |}).
  exists m, m. split; [by apply (Refused started)|]. split; [|reflexivity].
  eapply rtc_l; [by apply ByMain|]. constructor.
Qed.

Lemma polls_run_out m i :
  run_loop m = false -> rtc monitor_step (Waiting i, m) (Stopping, m).
Proof.
  intros Hr. induction i as [|i IH]; (eapply rtc_l; [apply ByMain; cbn; rewrite ?Hr; reflexivity|]);
    [constructor|exact IH].
Qed.

(** A stop that comes before the thread has entered its run loop can wait for
    ever: [stop] gives up waiting for the run loop after half a second, or
    stops a run loop that is known but not running yet, and then joins a thread
    that nothing ends any more. *)
Theorem early_stop_hangs :
  (exists m, rtc monitor_step (Serving, started) (Joining, m) /\ nf monitor_step (Joining, m)) /\
  (exists m1 m, rtc thread_step started m1 /\ run_loop m1 = true /\
     rtc monitor_step (Serving, m1) (Joining, m) /\ nf monitor_step (Joining, m)).
Proof.
  assert (Hnf : forall m, joinable m = true -> thread m = InLoop -> nf monitor_step (Joining, m)).
  { intros m Hj Ht [c Hc]. inversion Hc as [? ? ? Hs|? ? ? Hs]; subst.
    - inversion Hs; congruence.
    - cbn in Hs. by rewrite Hj, Ht in Hs. }
  split.
  - eexists. split; [|apply Hnf].
    + eapply rtc_l; [by apply ByMain|]. cbn [started joinable run_loop thread].
      etransitivity; [by apply polls_run_out|].
      eapply rtc_l; [by apply ByMain|]. cbn [run_loop].
      eapply rtc_l; [by apply ByThread, Accepted|]. eapply rtc_l; [by apply ByThread, Known|].
      eapply rtc_l; [by apply ByThread, Enters|]. constructor.
    + done.
    + done.
  - do 2 eexists. split_and!.
    + eapply rtc_l; [by apply Accepted|]. eapply rtc_l; [by apply Known|]. constructor.
    + done.
    + eapply rtc_l; [by apply ByMain|]. eapply rtc_l; [by apply ByMain|]. eapply rtc_l; [by apply ByMain|].
      eapply rtc_l; [by apply ByThread, Enters|]. constructor.
    + by apply Hnf.
Qed.
