(* ===== verification/Daemon.v ===== *)
(** * The daemon process (daemon/src/main.cpp)

    One turn of the sampler (sampling, publishing, storing, evaluating the
    rules), its timing and the hot reload of the configuration, the start-up
    sequence, and the socket server serving the API on the scheduler. *)

From stdpp Require Import base option list strings gmap sorting.
From Stdlib Require Import Ascii ZArith Lia SpecFloat.
From S2P Require Import Prelude CppLib Double Cron SharedState Thermal Config AlertEngine.
From S2P Require Import Connection Database Json ProcessRunner Scheduler Api SocketServer Metrics Support.

Open Scope string_scope.
Open Scope list_scope.

(** ** Signals *)

Inductive Signal := SIGTERM | SIGINT | SIGHUP.

Record Flags := { g_stop : Z; g_reload : bool }.

Definition signal_number (s : Signal) : Z :=
  match s with SIGTERM => 15 | SIGINT => 2 | SIGHUP => 1 end.

Definition handle_signal (s : Signal) (f : Flags) : Flags :=
  match s with
  | SIGHUP => {| g_stop := g_stop f; g_reload := true |}
  | _ => {| g_stop := signal_number s; g_reload := g_reload f |}
  end.

(** ** One sampling turn *)

(** What the system reports in a turn. *)
Record Readings := {
  rd_ts : Z;
  rd_cpu : option Ticks;
  rd_memsize : option Z;
  rd_page : option Z;
  rd_vm : option (Z * Z * Z);
  rd_disk : option (Z * Z * Z);
  rd_ns_thermal : ns_thermal;
  rd_pids : option (list PidInfo);
  rd_self : option (Z * Z * Z);
  rd_steady : Z                      (* steady clock, ns *)
}.

Definition rd_thermal (r : Readings) : ThermalState := sample_thermal_state (rd_ns_thermal r).

Record Sampler := {
  sm_cpu : CpuSampler;
  sm_procs : ProcessSampler;
  sm_self : SelfSampler;
  sm_engine : AlertEngine
}.

(** The store, the snapshot and the notifications (title, body), newest
    first. *)
Record Outputs := {
  out_db : Tables;
  out_state : SharedState;
  out_notified : list (string * string)
}.

Definition system_snapshot (ts : Z) (mem : MemorySample) (disk : DiskSample)
    (thermal : ThermalState) (top : list ProcInfo) : SystemSnapshot :=
  {| sys_valid := true; sys_sampled_at := ts;
     mem_total_bytes := if mem_valid mem then mem_total mem else 0;
     mem_used_bytes := if mem_valid mem then mem_used mem else 0;
     mem_used_percent := if mem_valid mem then mem_percent mem else dbl_zero;
     disk_total_bytes := if disk_valid disk then disk_total disk else 0;
     disk_available_bytes := if disk_valid disk then disk_available disk else 0;
     disk_used_percent := if disk_valid disk then disk_percent disk else dbl_zero;
     thermal_state := thermal_to_string thermal; top_processes := top |}.

(** The metrics a turn stores, in order. *)
Definition stored_metrics (cpu_pct : double) (mem : MemorySample) (disk : DiskSample)
    (thermal : ThermalState) (self : SelfStats) : list (string * double) :=
  [("system.cpu.percent", cpu_pct)] ++
  (if mem_valid mem then [("system.memory.percent", mem_percent mem)] else []) ++
  (if disk_valid disk then
     [("system.disk.percent", disk_percent disk);
      ("system.disk.available_bytes", dbl_of_Z (disk_available disk))] else []) ++
  [("system.thermal.level", thermal_level thermal)] ++
  (if stats_valid self then
     [("daemon.rss_bytes", dbl_of_Z (stats_rss self)); ("daemon.cpu.percent", stats_cpu self)]
   else []).

(** The values the rules see. *)
Definition metric_map (cpu_pct : double) (mem : MemorySample) (disk : DiskSample)
    (thermal : ThermalState) : MetricMap :=
  let m := <["system.cpu.percent" := cpu_pct]> (∅ : MetricMap) in
  let m := if mem_valid mem then <["system.memory.percent" := mem_percent mem]> m else m in
  let m := if disk_valid disk then
             <["system.disk.available_gb" :=
                 dbl_div (dbl_of_Z (disk_available disk)) (dbl_of_Z 1000000000)]>
             (<["system.disk.percent" := disk_percent disk]> m)
           else m in
  <["system.thermal_state" := thermal_level thermal]> m.

(** [snprintf] into 128 bytes. *)
Definition attribution_of (top : list ProcInfo) : string :=
  match top with
  | [] => ""
  | p :: _ =>
      str_take 127 (c_str (proc_name p) +:+ " — " +:+ format_f0 (cpu_percent p) +:+ "% CPU")
  end.

Definition alert_record (e : AlertEvent) : AlertRecord :=
  {| al_id := 0; al_ts := ev_ts e; al_rule_name := ev_rule_name e;
     al_severity := ev_severity e; al_metric := ev_metric e; al_kind := ev_kind e;
     al_value := ev_value e; al_threshold := ev_threshold e; al_message := ev_message e;
     al_attribution := ev_attribution e |}.

Definition alert_info (e : AlertEvent) : AlertInfo :=
  {| ai_ts := ev_ts e; ai_rule_name := ev_rule_name e; ai_severity := ev_severity e;
     ai_metric := ev_metric e; ai_kind := ev_kind e; ai_value := ev_value e;
     ai_threshold := ev_threshold e; ai_message := ev_message e;
     ai_attribution := ev_attribution e; ai_notify := ev_notify e |}.

Definition kRecentAlerts : nat := 25.

Section Turn.
Context (localtime : Z -> tm) {sq : Sqlite}.

(** The inserts of one [try] block: the first that throws ends it, and the
    ones before it stay. *)
Fixpoint insert_metrics (fault_of : string -> fault) (ts : Z) (l : list (string * double))
    (db : Tables) : Tables :=
  match l with
  | [] => db
  | (name, v) :: l' =>
      match insert_metric (fault_of name) ts name v db with
      | Ret db' => insert_metrics fault_of ts l' db'
      | _ => db
      end
  end.

(** Delivery of one event: stored, notified, published. *)
Definition deliver (fault_of : string -> fault) (o : Outputs) (e : AlertEvent) : Outputs :=
  let db := match insert_alert (fault_of (ev_rule_name e)) (alert_record e) (out_db o) with
            | Ret (db, _) => db
            | _ => out_db o
            end in
  let body := if str_empty (ev_attribution e) then ev_message e
              else ev_message e +:+ NL +:+ ev_attribution e in
  {| out_db := db;
     out_state := add_alert (alert_info e) kRecentAlerts (out_state o);
     out_notified := if ev_notify e
                     then ("AgentPulse: " +:+ ev_rule_name e, body) :: out_notified o
                     else out_notified o |}.

(** The body of [if (now >= next)]. *)
Definition sampler_turn (fault_of : string -> fault) (r : Readings) (s : Sampler) (o : Outputs)
    : Sampler * Outputs :=
  let '(cpu_pct, cpu) := cpu_sample (rd_cpu r) (sm_cpu s) in
  let mem := sample_memory (rd_memsize r) (rd_page r) (rd_vm r) in
  let disk := sample_disk (rd_disk r) in
  let '(tops, procs) := top 5 (rd_pids r) (rd_steady r) (sm_procs s) in
  let '(stats, self) := self_sample (rd_self r) (rd_steady r) (sm_self s) in
  let st := set_cpu cpu_pct (rd_ts r) (out_state o) in
  let st := if stats_valid stats then set_self (stats_rss stats) (stats_cpu stats) st else st in
  let st := set_system (system_snapshot (rd_ts r) mem disk (rd_thermal r) tops) st in
  let db := insert_metrics fault_of (rd_ts r)
              (stored_metrics cpu_pct mem disk (rd_thermal r) stats) (out_db o) in
  let '(engine, events) :=
    evaluate localtime (metric_map cpu_pct mem disk (rd_thermal r)) (rd_ts r)
      (attribution_of tops) (sm_engine s) in
  ({| sm_cpu := cpu; sm_procs := procs; sm_self := self; sm_engine := engine |},
   fold_left (deliver fault_of) events
     {| out_db := db; out_state := st; out_notified := out_notified o |}).

(** Hot reload: the engine is rebuilt from a configuration that loads and
    kept otherwise; [catch (const std::exception&)]. *)
Definition reload (cfg : outcome Config) (s : Sampler) : outcome Sampler :=
  match cfg with
  | Ret c => Ret {| sm_cpu := sm_cpu s; sm_procs := sm_procs s; sm_self := sm_self s;
                    sm_engine := new_engine (cfg_rules c) (cfg_quiet_hours c) |}
  | Throw _ => Ret s
  | Terminate => Terminate
  | Undef => Undef
  end.

(** ** The loop's timing *)

Definition interval_ms : Z := 5000.

(** One iteration at steady time [now]: whether it samples, and [next]. *)
Definition due_sample (now next : Z) : bool * Z :=
  if (next <=? now)%Z then (true, (now + interval_ms)%Z) else (false, next).

(** The times at which the iterations at [nows] sample. *)
Fixpoint sample_times (nows : list Z) (next : Z) : list Z :=
  match nows with
  | [] => []
  | now :: nows' =>
      let '(due, next) := due_sample now next in
      (if due then [now] else []) ++ sample_times nows' next
  end.
End Turn.

(** ** Start-up *)

(** The exit code of a start-up that fails, or the running daemon's parts:
    the scheduler, the rules and quiet hours, whether the API has a database
    and whether the socket serves. *)
Inductive startup_result :=
| Exits (code : Z)
| Serving (s : Scheduler) (rules : list Rule) (qh : QuietHours)
    (api_database socket_serves : bool).

(** The three connections start-up opens to the one file. *)
Record Openings := {
  main_database : Opening;
  api_opening : Opening;
  scheduler_database : Opening
}.

(** main after its arguments; [file] is what the database file holds. *)
Definition startup (localtime : Z -> tm) {sq : Sqlite} (paths : outcome Paths)
    (dbs : Openings) (file : option Tables) (config : outcome Config) (now scan_now : Z)
    (load_fault : fault) (last_fault : string -> fault) (env : string -> Z * fault)
    (server_start : outcome unit) : outcome startup_result :=
  match paths with
  | Throw _ => Ret (Exits 1)
  | Terminate => Terminate
  | Undef => Undef
  | Ret paths =>
      match open_store (main_database dbs) with
      | Throw (DbError _) => Ret (Exits 1)
      | Throw e => Throw e
      | Terminate => Terminate
      | Undef => Undef
      | Ret _ =>
          api ← api_connected (database paths) (open_database (api_opening dbs));
          scheduler ← try_catch
            (cfg ← config;
             _ ← open_store (scheduler_database dbs);
             s ← make_scheduler localtime (cfg_jobs cfg) file now load_fault last_fault
                   initial_state;
             Ret (Some (Scheduler.start localtime now scan_now env s, cfg)))
            (fun _ => Ret None);
          match scheduler with
          | None => Ret (Exits 1)
          | Some (s, cfg) =>
              match server_start with
              | Ret _ => Ret (Serving s (cfg_rules cfg) (cfg_quiet_hours cfg) api true)
              | Throw _ => Ret (Serving s (cfg_rules cfg) (cfg_quiet_hours cfg) api false)
              | Terminate => Terminate
              | Undef => Undef
              end
          end
      end
  end.

(** The accept thread of the running daemon: [Api::handle] on the scheduler's
    handlers, its snapshot and, if [connected], its database. *)
Definition daemon_handler (localtime : Z -> tm) {J : JsonApi} {sq : Sqlite}
    (connected : bool) (started_at now : Z) (f : fault) (line : string) (s : Scheduler)
    : outcome (string * Scheduler) :=
  handle (scheduler_handlers localtime now f) sc_state
    (fun s => if connected then Some (sc_db s) else None) started_at now f line s.

(** ** Lemmas *)

(** What an event says, as the ring and the database should have it ([f] is
    what becomes of a text). *)
Definition event_fields (f : string -> string) (e : AlertEvent) :=
  (ev_ts e, f (ev_rule_name e), f (ev_severity e), f (ev_metric e), f (ev_kind e),
   ev_value e, ev_threshold e, f (ev_message e), f (ev_attribution e)).
Definition info_fields (a : AlertInfo) :=
  (ai_ts a, ai_rule_name a, ai_severity a, ai_metric a, ai_kind a,
   ai_value a, ai_threshold a, ai_message a, ai_attribution a).
Definition record_fields (a : AlertRecord) :=
  (al_ts a, al_rule_name a, al_severity a, al_metric a, al_kind a,
   al_value a, al_threshold a, al_message a, al_attribution a).

(** SQLite stores the event: it does not fail and no number is NaN. *)
Definition storable (fault_of : string -> fault) (e : AlertEvent) : bool :=
  match fault_of (ev_rule_name e) with
  | NoFault => bool_decide (ev_value e <> S754_nan /\ ev_threshold e <> S754_nan)
  | _ => false
  end.

(** The notification of an event: its title and its text. *)
Definition notification_of (e : AlertEvent) : string * string :=
  ("AgentPulse: " +:+ ev_rule_name e,
   match ev_attribution e with
   | "" => ev_message e
   | a => ev_message e +:+ NL +:+ a
   end).

Lemma deliver_stores {sq : Sqlite} fault_of o e :
  map record_fields (alerts_tbl (out_db (deliver fault_of o e))) =
    map record_fields (alerts_tbl (out_db o)) ++
    (if storable fault_of e then [event_fields c_str e] else []).
Proof.
  unfold deliver, insert_alert, run_update, reject_nan, storable. cbn.
  destruct (fault_of (ev_rule_name e)); cbn; try by rewrite app_nil_r.
  destruct (decide (ev_value e = S754_nan)), (decide (ev_threshold e = S754_nan));
    case_bool_decide; cbn; try tauto; rewrite ?app_nil_r, ?map_app; done.
Qed.

Lemma deliver_all {sq : Sqlite} fault_of events o :
  let o' := fold_left (deliver fault_of) events o in
  out_state o' =
    fold_left (fun st e => add_alert (alert_info e) kRecentAlerts st) events (out_state o) /\
  out_notified o' = reverse (map notification_of (List.filter ev_notify events)) ++
    out_notified o /\
  map record_fields (alerts_tbl (out_db o')) = map record_fields (alerts_tbl (out_db o)) ++
    map (event_fields c_str) (List.filter (storable fault_of) events) /\
  metrics_tbl (out_db o') = metrics_tbl (out_db o) /\
  runs_tbl (out_db o') = runs_tbl (out_db o) /\
  job_defs_tbl (out_db o') = job_defs_tbl (out_db o).
Proof.
  cbn zeta. revert o. induction events as [|e events IH]; intros o.
  { cbn. by rewrite app_nil_r. }
  cbn [fold_left]. destruct (IH (deliver fault_of o e)) as (-> & -> & -> & -> & -> & ->).
  rewrite deliver_stores. cbn [List.filter].
  unfold deliver. cbn [out_state out_notified out_db]. split_and!; [done| | | | |].
  - destruct (ev_notify e); [|done]. cbn [map]. rewrite reverse_cons, <- app_assoc.
    unfold notification_of. by destruct (ev_attribution e).
  - destruct (storable fault_of e); cbn [map]; by rewrite <- app_assoc.
  - unfold insert_alert, run_update. by destruct (reject_nan _ _).
  - unfold insert_alert, run_update. by destruct (reject_nan _ _).
  - unfold insert_alert, run_update. by destruct (reject_nan _ _).
Qed.

Lemma add_alerts_ring events st :
  length (alerts_ st) <= kRecentAlerts ->
  alerts_ (fold_left (fun st e => add_alert (alert_info e) kRecentAlerts st) events st) =
    take kRecentAlerts (reverse (map alert_info events) ++ alerts_ st).
Proof.
  intros Hl. rewrite <- (add_alerts_take (map alert_info events) kRecentAlerts st Hl).
  clear Hl. revert st. induction events as [|e events IH]; intros st; [done|].
  cbn [fold_left map foldl]. apply IH.
Qed.

Lemma sample_times_ge nows next t : t ∈ sample_times nows next -> (next <= t)%Z.
Proof.
  revert next. induction nows as [|now nows IH]; intros next; simpl.
  { intros H. by apply not_elem_of_nil in H. }
  unfold due_sample, interval_ms. destruct (Z.leb_spec next now); simpl.
  - intros [->|Ht%IH]%elem_of_cons; lia.
  - apply IH.
Qed.

Lemma add_alerts_system events st :
  let st' := fold_left (fun st e => add_alert (alert_info e) kRecentAlerts st) events st in
  system_ st' = system_ st /\ cpu_ st' = cpu_ st.
Proof.
  cbn zeta. revert st. induction events as [|e events IH]; intros st; [done|].
  cbn [fold_left]. by destruct (IH (add_alert (alert_info e) kRecentAlerts st)) as [-> ->].
Qed.

Lemma insert_metrics_frame {sq : Sqlite} fault_of ts l db :
  runs_tbl (insert_metrics fault_of ts l db) = runs_tbl db /\
  job_defs_tbl (insert_metrics fault_of ts l db) = job_defs_tbl db /\
  alerts_tbl (insert_metrics fault_of ts l db) = alerts_tbl db.
Proof.
  revert db. induction l as [|[n v] l IH]; intros db; cbn [insert_metrics]; [done|].
  unfold insert_metric, run_update. destruct (reject_nan v (fault_of n)); [|done..].
  by destruct (IH {| metrics_tbl := metrics_tbl db ++
         [{| m_id := new_rowid (map m_id (metrics_tbl db)); m_ts := ts;
             m_metric := c_str n; m_value := v |}];
       runs_tbl := runs_tbl db; alerts_tbl := alerts_tbl db;
       job_defs_tbl := job_defs_tbl db |}) as (-> & -> & ->).
Qed.

(** ** Properties *)

(** C27: a sampling turn delivers every alert event of the engine: the ring
    holds the newest 25 of the new and old alerts, newest first; each event
    that notifies is notified once, with its message and attribution, and no
    other is; the database gets each event SQLite accepts; and whatever SQLite
    does, the snapshot is that of the turn. *)
Theorem turn_delivers_events localtime {sq : Sqlite} fault_of r s o :
  length (alerts_ (out_state o)) <= kRecentAlerts ->
  exists s' o' events, sampler_turn localtime fault_of r s o = (s', o') /\
    snd (evaluate localtime
           (metric_map (fst (cpu_sample (rd_cpu r) (sm_cpu s)))
              (sample_memory (rd_memsize r) (rd_page r) (rd_vm r)) (sample_disk (rd_disk r))
              (rd_thermal r))
           (rd_ts r) (attribution_of (fst (top 5 (rd_pids r) (rd_steady r) (sm_procs s))))
           (sm_engine s)) = events /\
    map info_fields (alerts_ (out_state o')) =
      take 25 (reverse (map (event_fields id) events) ++
               map info_fields (alerts_ (out_state o))) /\
    out_notified o' =
      reverse (map notification_of (List.filter ev_notify events)) ++ out_notified o /\
    map record_fields (alerts_tbl (out_db o')) = map record_fields (alerts_tbl (out_db o)) ++
      map (event_fields c_str) (List.filter (storable fault_of) events) /\
    sys_sampled_at (system_ (out_state o')) = rd_ts r /\
    cpu_sampled_at (cpu_ (out_state o')) = rd_ts r /\
    runs_tbl (out_db o') = runs_tbl (out_db o) /\
    job_defs_tbl (out_db o') = job_defs_tbl (out_db o).
Proof.
  intros Hl. unfold sampler_turn.
  destruct (cpu_sample (rd_cpu r) (sm_cpu s)) as [cpu_pct cpu].
  destruct (top 5 (rd_pids r) (rd_steady r) (sm_procs s)) as [tops procs].
  destruct (self_sample (rd_self r) (rd_steady r) (sm_self s)) as [stats self]. cbn [fst].
  destruct (evaluate _ _ _ _ (sm_engine s)) as [engine events].
  set (o1 := {| out_db := _; out_state := _; out_notified := _ |}).
  destruct (deliver_all fault_of events o1) as (Est & Ent & Eal & _ & Er & Ed).
  eexists _, _, events. split; [reflexivity|]. split; [done|].
  assert (Ealerts : alerts_ (out_state o1) = alerts_ (out_state o))
    by (unfold o1; cbn; by destruct (stats_valid stats)).
  rewrite Est, Ent, Eal, Er, Ed, (proj1 (add_alerts_system _ _)), (proj2 (add_alerts_system _ _)).
  rewrite add_alerts_ring by (by rewrite Ealerts). rewrite Ealerts.
  destruct (insert_metrics_frame fault_of (rd_ts r) (stored_metrics cpu_pct
    (sample_memory (rd_memsize r) (rd_page r) (rd_vm r)) (sample_disk (rd_disk r))
    (rd_thermal r) stats) (out_db o)) as (Hr & Hd & Ha).
  split_and!; try done.
  - change (map info_fields (take ?n ?l)) with (info_fields <$> take n l).
    rewrite fmap_take, fmap_app, fmap_reverse. do 3 f_equal. apply map_map.
  - unfold o1; cbn [out_db]; by rewrite Ha.
  - unfold o1; cbn. by destruct (stats_valid stats).
Qed.

Definition example_engine : Sampler :=
  {| sm_cpu := Some {| user := 0; system := 0; idle := 0; nice := 0 |};
     sm_procs := new_process_sampler; sm_self := new_self_sampler;
     sm_engine := new_engine
       [{| rule_name := "hot"; rule_metric := "system.cpu.percent";
           rule_condition := GreaterThan; rule_threshold := dbl_of_Z 90;
           rule_duration_seconds := 0; rule_cooldown_seconds := 0;
           rule_severity := "warning" |}] no_quiet_hours |}.

Definition example_readings : Readings :=
  {| rd_ts := 1700035200; rd_cpu := Some {| user := 95; system := 0; idle := 5; nice := 0 |};
     rd_memsize := None; rd_page := None; rd_vm := None; rd_disk := Some (4096, 1000, 250)%Z;
     rd_ns_thermal := NSNominal; rd_pids := Some example_pids; rd_self := None; rd_steady := 1 |}.

Definition example_outputs : Outputs :=
  {| out_db := empty_tables; out_state := initial_state; out_notified := [] |}.

Lemma turn_delivers_events_witness :
  let o' := snd (sampler_turn utc (fun _ => NoFault) example_readings example_engine example_outputs) in
  map info_fields (alerts_ (out_state o')) =
    [(1700035200%Z, "hot", "warning", "system.cpu.percent", "firing", dbl_of_Z 95, dbl_of_Z 90,
      "hot: system.cpu.percent = 95 (greater_than 90)", "big — 0% CPU")] /\
  map fst (out_notified o') = ["AgentPulse: hot"] /\
  sys_sampled_at (system_ (out_state o')) = 1700035200%Z.
Proof.
  destruct (turn_delivers_events utc (fun _ => NoFault) example_readings example_engine
    example_outputs) as (s' & o' & events & E & Ee & Ea & En & _ & Hs & _); [cbn; lia|].
  cbv zeta. rewrite E. cbn [snd]. rewrite Ea, En, <- Ee. split; [|split; [|exact Hs]];
    vm_compute; reflexivity.
Defined.

(** C40: samples are at least five seconds apart, however often the loop
    turns, and never lag: after the first deadline every iteration has a
    sample no more than five seconds old, possibly its own. *)
Theorem sampling_interval nows next :
  Sorted Z.le nows ->
  StronglySorted (fun a b => a + interval_ms <= b)%Z (sample_times nows next) /\
  forall now, now ∈ nows -> (next <= now)%Z ->
    exists t, t ∈ sample_times nows next /\ (now - interval_ms < t <= now)%Z.
Proof.
  intros Hs. apply Sorted_StronglySorted in Hs; [|intros x y z; lia].
  revert next. induction Hs as [|a nows _ IH Ha]; intros next; simpl.
  { split; [constructor|]. intros now H. by apply not_elem_of_nil in H. }
  rewrite Forall_forall in Ha. unfold due_sample, interval_ms in *.
  destruct (Z.leb_spec next a).
  - destruct (IH (a + 5000)%Z) as [Hst Hc]. split.
    + simpl. constructor; [done|]. apply Forall_forall. intros t Ht.
      by apply sample_times_ge in Ht.
    + intros now [->|Hin]%elem_of_cons Hn; simpl.
      * exists a. split; [left|lia].
      * specialize (Ha now Hin). destruct (Z.le_gt_cases (a + 5000) now).
        -- destruct (Hc now Hin) as (t & Ht & ?); [done|]. exists t. split; [by right|done].
        -- exists a. split; [left|lia].
  - destruct (IH next) as [Hst Hc]. split; [done|].
    intros now [->|Hin]%elem_of_cons Hn; [lia|]. simpl. by apply Hc.
Qed.

Lemma sampling_interval_witness :
  StronglySorted (fun a b => a + interval_ms <= b)%Z (sample_times [0; 200; 5100; 5300; 10300]%Z 0)
  /\ sample_times [0; 200; 5100; 5300; 10300]%Z 0 = [0; 5100; 10300]%Z.
Proof.
  split; [|vm_compute; reflexivity].
  apply (sampling_interval [0; 200; 5100; 5300; 10300]%Z 0). repeat constructor; lia.
Defined.

(** A client can stop the daemon with one line: a request whose first
    word is not UTF-8 (and that is not JSON) makes the handler throw on the
    accept thread, whose exceptions nobody catches, however the line arrives. *)
Theorem bad_byte_terminates_daemon localtime {J : JsonApi} {L : JsonLaws J} {sq : Sqlite}
    connected started now f line rs ws evs s :
  json_parse line = None -> utf8 (nth_word 0 line) = false ->
  one_line line = true -> String.length line < kMaxRequestBytes ->
  delivers_text rs (line +:+ NL) ->
  accept_loop (daemon_handler localtime connected started now f)
    ((true, Accepted rs ws) :: evs) s = Terminate.
Proof.
  intros Hp Hu Hl Hlen Hrs. cbn [accept_loop]. unfold serve_connection.
  rewrite (read_line_chunks _ rs "" line "");
    [|done|done|by apply Nat.leb_gt|by split; [apply Hrs|]|by rewrite (proj2 Hrs)].
  pose proof (respond_unknown (scheduler_handlers localtime now f) sc_state
    (fun s => if connected then Some (sc_db s) else None) started now f line s _
    (parse_bare line Hp) Hu) as E.
  pose proof (handle_of_respond (scheduler_handlers localtime now f) sc_state
    (fun s => if connected then Some (sc_db s) else None) started now f line s _ _ E) as H.
  rewrite (strings_ok_member "cmd" (JString (nth_word 0 line))) in H;
    [|by rewrite member_obj|done].
  unfold daemon_handler. destruct H as [w ->]. done.
Qed.

Lemma bad_byte_terminates_daemon_witness :
  accept_loop (daemon_handler (J := model_json example_table) utc true 1700000000 1700035300 NoFault)
    [(true, Accepted [RBytes (String "255" NL)] [])] example_scheduler = Terminate.
Proof.
  apply (bad_byte_terminates_daemon utc (J := model_json example_table) true 1700000000 1700035300
    NoFault (String "255" "") [RBytes (String "255" NL)] [] [] example_scheduler);
    try reflexivity.
  - apply Nat.ltb_lt. vm_compute. reflexivity.
  - split; [repeat constructor|reflexivity].
Defined.

(** A client that connects and sends nothing holds the accept thread: no
    other connection is served, and [stop] joins a thread that does not
    return. *)
Lemma silent_client_blocks {St} (handler : string -> St -> outcome (string * St)) ws evs s :
  accept_loop handler ((true, Accepted [] ws) :: evs) s = Ret ([""], LoopBlocked, s).
Proof. reflexivity. Qed.
