(* ===== verification/SamplerLoop.v ===== *)
(** * The sampler loop (daemon/src/main.cpp, sampler_loop)

    What a turn stores agrees with what it publishes; and the loop around the
    turns: the stop flag, the hot reload and the timing. *)

From stdpp Require Import base option list strings gmap.
From Stdlib Require Import Ascii ZArith Lia SpecFloat.
From S2P Require Import Prelude CppLib Double Cron SharedState Thermal Config AlertEngine.
From S2P Require Import Database Metrics Support Daemon.

Open Scope string_scope.
Open Scope list_scope.

(** ** The loop *)

(** The baseline: the samplers called once before the loop. *)
Definition baseline (r : Readings) (rules : list Rule) (qh : QuietHours) : Sampler :=
  {| sm_cpu := snd (cpu_sample (rd_cpu r) None);
     sm_procs := snd (top 5 (rd_pids r) (rd_steady r) new_process_sampler);
     sm_self := snd (self_sample (rd_self r) (rd_steady r) new_self_sampler);
     sm_engine := new_engine rules qh |}.

Definition handle_signals (l : list Signal) (f : Flags) : Flags :=
  fold_left (fun f s => handle_signal s f) l f.

(** An iteration: the signals that arrive before it tests [g_stop], those
    that arrive until it tests [g_reload], what loading the configuration
    would give, the steady clock in milliseconds, and what a turn reads. *)
Record Iteration := {
  it_before : list Signal;
  it_between : list Signal;
  it_config : outcome Config;
  it_now : Z;
  it_readings : Readings;
  it_fault : string -> fault
}.

Record Loop := { lp_flags : Flags; lp_next : Z; lp_sampler : Sampler; lp_outputs : Outputs }.

Section Loop.
Context (localtime : Z -> tm) {sq : Sqlite}.

(** The reload at the top of the body. *)
Definition reload_step (it : Iteration) (f : Flags) (s : Sampler) : outcome (Flags * Sampler) :=
  if g_reload f then
    s ← reload (it_config it) s;
    Ret ({| g_stop := g_stop f; g_reload := false |}, s)
  else Ret (f, s).

(** The body of the loop, [g_stop] having been read as zero. *)
Definition iteration (it : Iteration) (l : Loop) : outcome Loop :=
  '(f, s) ← reload_step it (handle_signals (it_between it) (lp_flags l)) (lp_sampler l);
  let '(due, next) := due_sample (it_now it) (lp_next l) in
  if due then
    let '(s, o) := sampler_turn localtime (it_fault it) (it_readings it) s (lp_outputs l) in
    Ret {| lp_flags := f; lp_next := next; lp_sampler := s; lp_outputs := o |}
  else Ret {| lp_flags := f; lp_next := next; lp_sampler := s; lp_outputs := lp_outputs l |}.

(** Whether the loop has returned, and its state. *)
Fixpoint sampler_loop (its : list Iteration) (l : Loop) : outcome (bool * Loop) :=
  match its with
  | [] => Ret (false, l)
  | it :: its' =>
      let l := {| lp_flags := handle_signals (it_before it) (lp_flags l); lp_next := lp_next l;
                  lp_sampler := lp_sampler l; lp_outputs := lp_outputs l |} in
      if (g_stop (lp_flags l) =? 0)%Z then
        l' ← iteration it l;
        sampler_loop its' l'
      else Ret (true, l)
  end.
End Loop.

(** ** What a turn stores and what it publishes *)

(** The value of a metric in the published snapshot. *)
Definition published (name : string) (st : SharedState) : option double :=
  let sys := system_ st in
  if String.eqb name "system.cpu.percent" then Some (cpu_pct (cpu_ st))
  else if String.eqb name "system.memory.percent" then Some (mem_used_percent sys)
  else if String.eqb name "system.disk.percent" then Some (disk_used_percent sys)
  else if String.eqb name "system.disk.available_bytes" then
    Some (dbl_of_Z (disk_available_bytes sys))
  else if String.eqb name "system.disk.available_gb" then
    Some (dbl_div (dbl_of_Z (disk_available_bytes sys)) (dbl_of_Z 1000000000))
  else if String.eqb name "system.thermal.level" || String.eqb name "system.thermal_state" then
    Some (thermal_level (thermal_state_from_string (thermal_state sys)))
  else if String.eqb name "daemon.rss_bytes" then Some (dbl_of_Z (self_rss_bytes (self_ st)))
  else if String.eqb name "daemon.cpu.percent" then Some (self_cpu_percent (self_ st))
  else None.

(** The inserts of a turn up to the first that fails. *)
Fixpoint stored_prefix (fault_of : string -> fault) (l : list (string * double))
    : list (string * double) :=
  match l with
  | [] => []
  | (n, v) :: l' =>
      match fault_of n with
      | NoFault => if decide (v = S754_nan) then [] else (n, v) :: stored_prefix fault_of l'
      | _ => []
      end
  end.

Definition metric_fields (m : MetricRow) : Z * string * double := (m_ts m, m_metric m, m_value m).

Lemma insert_metrics_rows {sq : Sqlite} fault_of ts l db :
  map metric_fields (metrics_tbl (insert_metrics fault_of ts l db)) =
    map metric_fields (metrics_tbl db) ++
    map (fun p => (ts, c_str (fst p), snd p)) (stored_prefix fault_of l).
Proof.
  revert db. induction l as [|[n v] l IH]; intros db; cbn [insert_metrics stored_prefix].
  { by rewrite app_nil_r. }
  unfold insert_metric, run_update, reject_nan.
  destruct (fault_of n); [|by rewrite app_nil_r..].
  destruct (decide (v = S754_nan)); [by rewrite app_nil_r|].
  rewrite IH. cbn. by rewrite map_app, <- app_assoc.
Qed.

Lemma stored_prefix_incl fault_of l p : p ∈ stored_prefix fault_of l -> p ∈ l.
Proof.
  induction l as [|[n v] l IH]; cbn; [done|].
  destruct (fault_of n); [|by intros ?%not_elem_of_nil..].
  case_decide; [by intros ?%not_elem_of_nil|].
  intros [->|Hp]%elem_of_cons; [left|right; auto].
Qed.

(** The names of the metrics a turn may store. *)
Definition metric_names : list string :=
  ["system.cpu.percent"; "system.memory.percent"; "system.disk.percent";
   "system.disk.available_bytes"; "system.thermal.level"; "daemon.rss_bytes";
   "daemon.cpu.percent"].

Lemma stored_metrics_names cpu mem disk th self :
  map fst (stored_metrics cpu mem disk th self) `sublist_of` metric_names.
Proof.
  unfold stored_metrics.
  destruct (mem_valid mem), (disk_valid disk), (stats_valid self); cbn;
    repeat first [apply sublist_skip | apply sublist_nil_l | apply sublist_cons].
Qed.

(** The metrics of a turn: each sampler's, if its sample is valid. *)
Definition sampled_names (mem_ok disk_ok self_ok : bool) : list string :=
  List.filter (fun n =>
    (mem_ok || negb (String.eqb n "system.memory.percent")) &&
    (disk_ok || negb (String.eqb n "system.disk.percent" || String.eqb n "system.disk.available_bytes")) &&
    (self_ok || negb (String.eqb n "daemon.rss_bytes" || String.eqb n "daemon.cpu.percent")))
    metric_names.

(** And those the rules see. *)
Definition ruled_names (mem_ok disk_ok : bool) : list string :=
  ["system.cpu.percent"; "system.thermal_state"] ++
  (if mem_ok then ["system.memory.percent"] else []) ++
  (if disk_ok then ["system.disk.percent"; "system.disk.available_gb"] else []).

Lemma stored_metrics_all cpu mem disk th self :
  map fst (stored_metrics cpu mem disk th self) =
    sampled_names (mem_valid mem) (disk_valid disk) (stats_valid self).
Proof. unfold stored_metrics. by destruct (mem_valid mem), (disk_valid disk), (stats_valid self). Qed.

Lemma metric_map_all cpu mem disk th n :
  is_Some (metric_map cpu mem disk th !! n) <-> n ∈ ruled_names (mem_valid mem) (disk_valid disk).
Proof.
  unfold metric_map, ruled_names. rewrite <- elem_of_dom.
  destruct (mem_valid mem), (disk_valid disk); rewrite ?dom_insert_L, dom_empty_L; set_solver.
Qed.

Lemma add_alerts_self events st :
  self_ (fold_left (fun st e => add_alert (alert_info e) kRecentAlerts st) events st) = self_ st.
Proof.
  revert st. induction events as [|e events IH]; intros st; [done|].
  cbn [fold_left]. by rewrite IH.
Qed.

(** The snapshot part of a turn, whatever events follow. *)
Lemma published_turn cpu ts mem disk th self tops st n v :
  let st' := set_system (system_snapshot ts mem disk th tops)
    (let st := set_cpu cpu ts st in
     if stats_valid self then set_self (stats_rss self) (stats_cpu self) st else st) in
  (n, v) ∈ stored_metrics cpu mem disk th self \/ metric_map cpu mem disk th !! n = Some v ->
  published n st' = Some v.
Proof.
  cbn zeta. intros [Hin|Hm].
  - unfold stored_metrics in Hin.
    destruct (mem_valid mem) eqn:Em, (disk_valid disk) eqn:Ed, (stats_valid self) eqn:Es;
      cbn in Hin; rewrite ?elem_of_cons, ?elem_of_nil in Hin; destruct_or?; simplify_eq;
      unfold published; cbn; rewrite ?Em, ?Ed, ?thermal_roundtrip; done.
  - unfold metric_map in Hm.
    destruct (mem_valid mem) eqn:Em, (disk_valid disk) eqn:Ed;
      repeat (apply lookup_insert_Some in Hm as [[<- <-]|[_ Hm]];
              [unfold published; cbn; rewrite ?Em, ?Ed, ?thermal_roundtrip;
               by destruct (stats_valid self)|]);
      by rewrite lookup_empty in Hm.
Qed.

(** ** Signals *)

Definition is_hup (s : Signal) : bool := match s with SIGHUP => true | _ => false end.

(** The signals that stop the daemon. *)
Definition stops (l : list Signal) : list Signal := List.filter (fun s => negb (is_hup s)) l.

Lemma stops_idem l : stops (stops l) = stops l.
Proof. unfold stops. induction l as [|[] l IH]; cbn; by rewrite ?IH. Qed.

Lemma stops_no_hup l : existsb is_hup (stops l) = false.
Proof. unfold stops. by induction l as [|[] l IH]. Qed.

(** Only the last stop signal counts, and any reload request. *)
Lemma handle_signals_spec l f :
  handle_signals l f =
    {| g_stop := match last (stops l) with Some s => signal_number s | None => g_stop f end;
       g_reload := g_reload f || existsb is_hup l |}.
Proof.
  revert f. induction l as [|s l IH]; intros f; [by destruct f; cbn; rewrite orb_false_r|].
  unfold handle_signals in *. cbn [fold_left]. rewrite IH. unfold stops. cbn [List.filter].
  fold (stops l). destruct s; cbn [negb is_hup existsb handle_signal g_stop g_reload];
    rewrite ?orb_true_r, ?orb_true_l; try done.
  all: rewrite last_cons; by destruct (last (stops l)).
Qed.

Lemma signal_number_pos s : signal_number s <> 0%Z.
Proof. by destruct s. Qed.

(** A stop signal is what the loop's test sees. *)
Lemma stop_flag_ends l f :
  stops l <> [] -> (g_stop (handle_signals l f) =? 0)%Z = false.
Proof.
  rewrite handle_signals_spec. cbn. destruct (last (stops l)) as [s|] eqn:El.
  - intros _. by destruct s.
  - by apply last_None in El.
Qed.

Section LoopLemmas.
Context (localtime : Z -> tm) {sq : Sqlite}.

(** The outcome of [load_config] is a configuration or an exception. *)
Definition loads (it : Iteration) : Prop :=
  match it_config it with Ret _ | Throw _ => True | _ => False end.

(** No stop signal arrives during the iteration. *)
Definition undisturbed (it : Iteration) : Prop :=
  stops (it_before it) = [] /\ stops (it_between it) = [] /\ loads it.

Lemma iteration_returns it l :
  loads it -> exists l', iteration localtime it l = Ret l' /\
    g_stop (lp_flags l') = g_stop (handle_signals (it_between it) (lp_flags l)).
Proof.
  intros Hl. unfold iteration, reload_step, loads in *.
  destruct (g_reload _); [destruct (it_config it); try done|];
    cbn; destruct (due_sample (it_now it) (lp_next l)) as [[] next];
    try destruct (sampler_turn _ _ _ _ _); eexists; split; reflexivity.
Qed.

Lemma sampler_loop_undisturbed its l :
  Forall undisturbed its -> g_stop (lp_flags l) = 0%Z ->
  exists l', sampler_loop localtime its l = Ret (false, l') /\ g_stop (lp_flags l') = 0%Z.
Proof.
  intros Hu. revert l. induction Hu as [|it its (H1 & H2 & Hl) _ IH]; intros l Hs; [by exists l|].
  cbn [sampler_loop lp_flags]. rewrite handle_signals_spec, H1. cbn. rewrite Hs. cbn.
  match goal with |- context [iteration _ _ ?l0] =>
    destruct (iteration_returns it l0 Hl) as (l1 & -> & Hs1) end.
  cbn. apply IH. rewrite Hs1, handle_signals_spec, H2. reflexivity.
Qed.

Lemma sampler_loop_app its1 its2 l l1 :
  sampler_loop localtime its1 l = Ret (false, l1) ->
  sampler_loop localtime (its1 ++ its2) l = sampler_loop localtime its2 l1.
Proof.
  revert l. induction its1 as [|it its1 IH]; intros l; cbn [sampler_loop app].
  { by intros [= ->]. }
  destruct (g_stop _ =? 0)%Z; [|done].
  destruct (iteration _ _ _); cbn; try done. apply IH.
Qed.
End LoopLemmas.

(** ** Properties *)

(** C26: one sample, three readers.  The metrics a turn has to store are those
    of the samplers whose sample is valid, each once; it appends them to the
    metrics table with the turn's time, in order, up to the first insertion
    that fails.  The rules are evaluated on the cpu load, the thermal state and
    what the valid memory and disk samples give.  Every value stored, and every
    value the rules see, is the one the published snapshot shows for that
    metric. *)
Theorem turn_stores_what_it_publishes localtime {sq : Sqlite} fault_of r s o s' o' :
  sampler_turn localtime fault_of r s o = (s', o') ->
  let mem_ok := mem_valid (sample_memory (rd_memsize r) (rd_page r) (rd_vm r)) in
  let disk_ok := disk_valid (sample_disk (rd_disk r)) in
  let self_ok := stats_valid (fst (self_sample (rd_self r) (rd_steady r) (sm_self s))) in
  exists stored rule_values events,
    map metric_fields (metrics_tbl (out_db o')) =
      map metric_fields (metrics_tbl (out_db o)) ++
      map (fun p => (rd_ts r, fst p, snd p)) (stored_prefix fault_of stored) /\
    map fst stored = sampled_names mem_ok disk_ok self_ok /\
    evaluate localtime rule_values (rd_ts r)
      (attribution_of (top_processes (system_ (out_state o')))) (sm_engine s) =
      (sm_engine s', events) /\
    (forall n, is_Some (rule_values !! n) <-> n ∈ ruled_names mem_ok disk_ok) /\
    (forall n v, (n, v) ∈ stored \/ rule_values !! n = Some v ->
       published n (out_state o') = Some v) /\
    sys_sampled_at (system_ (out_state o')) = rd_ts r.
Proof.
  unfold sampler_turn.
  destruct (cpu_sample (rd_cpu r) (sm_cpu s)) as [cpu cpu'].
  destruct (top 5 (rd_pids r) (rd_steady r) (sm_procs s)) as [tops procs].
  destruct (self_sample (rd_self r) (rd_steady r) (sm_self s)) as [stats self].
  cbn [fst]. set (mem := sample_memory _ _ _). set (disk := sample_disk _).
  destruct (evaluate _ _ _ _ (sm_engine s)) as [engine events] eqn:Ee.
  set (o1 := {| out_db := _; out_state := _; out_notified := _ |}). intros [= <- <-].
  destruct (deliver_all fault_of events o1) as (Est & _ & _ & Em & _).
  exists (stored_metrics cpu mem disk (rd_thermal r) stats),
    (metric_map cpu mem disk (rd_thermal r)), events.
  rewrite Est, Em, (proj1 (add_alerts_system _ _)). unfold o1. cbn [out_db out_state sm_engine].
  split_and!.
  - rewrite insert_metrics_rows. f_equal. apply map_ext_in.
    intros [n v] Hp%list_elem_of_In%stored_prefix_incl. cbn. do 2 f_equal.
    pose proof (stored_metrics_names cpu mem disk (rd_thermal r) stats) as Hsub.
    assert (Hn : n ∈ metric_names).
    { eapply elem_of_sublist; [|exact Hsub]. by apply (list_elem_of_fmap_2 fst _ (n, v)). }
    unfold metric_names in Hn. rewrite !elem_of_cons, elem_of_nil in Hn.
    destruct_or?; simplify_eq; done.
  - apply stored_metrics_all.
  - exact Ee.
  - intros n. apply metric_map_all.
  - intros n v Hv.
    pose proof (published_turn cpu (rd_ts r) mem disk (rd_thermal r) stats tops
      (out_state o) n v Hv) as Hp.
    unfold published in *. by rewrite (proj1 (add_alerts_system _ _)),
      (proj2 (add_alerts_system _ _)), add_alerts_self.
  - done.
Qed.

Definition with_signals (sigs : list Signal) (l : Loop) : Loop :=
  {| lp_flags := handle_signals sigs (lp_flags l); lp_next := lp_next l;
     lp_sampler := lp_sampler l; lp_outputs := lp_outputs l |}.

(** C29: the loop runs for exactly as long as no SIGTERM or SIGINT arrives:
    undisturbed it performs every iteration; a stop signal that arrives
    before an iteration's test ends the loop there, with nothing sampled,
    stored or published after the previous iteration, whatever would have
    followed, and one that arrives during an iteration ends it before the
    next; the number reported is that of the last stop signal. *)
Theorem sampler_loop_stops localtime {sq : Sqlite} its1 it its2 l :
  Forall undisturbed its1 -> g_stop (lp_flags l) = 0%Z ->
  exists l1, sampler_loop localtime its1 l = Ret (false, l1) /\
  (forall s, last (stops (it_before it)) = Some s ->
     sampler_loop localtime (its1 ++ it :: its2) l = Ret (true, with_signals (it_before it) l1) /\
     g_stop (lp_flags (with_signals (it_before it) l1)) = signal_number s) /\
  (forall s it' its', stops (it_before it) = [] -> loads it ->
     last (stops (it_between it)) = Some s -> stops (it_before it') = [] -> its2 = it' :: its' ->
     exists l2, iteration localtime it (with_signals (it_before it) l1) = Ret l2 /\
       sampler_loop localtime (its1 ++ it :: its2) l = Ret (true, with_signals (it_before it') l2) /\
       g_stop (lp_flags (with_signals (it_before it') l2)) = signal_number s).
Proof.
  intros Hu Hs. destruct (sampler_loop_undisturbed localtime its1 l Hu Hs) as (l1 & E & Hs1).
  exists l1. split; [exact E|]. split.
  - intros s Hl. rewrite (sampler_loop_app localtime _ _ _ _ E). cbn [sampler_loop].
    assert (Hg : g_stop (lp_flags (with_signals (it_before it) l1)) = signal_number s)
      by (cbn; rewrite handle_signals_spec, Hl; reflexivity).
    split; [|exact Hg]. cbn in *. rewrite Hg.
    by destruct (Z.eqb_spec (signal_number s) 0) as [H0|]; [destruct (signal_number_pos s)|].
  - intros s it' its' Hb Hl Hst Hb' ->. rewrite (sampler_loop_app localtime _ _ _ _ E).
    destruct (iteration_returns localtime it (with_signals (it_before it) l1) Hl)
      as (l2 & E2 & Hg). exists l2. split; [exact E2|].
    assert (Hg2 : g_stop (lp_flags (with_signals (it_before it') l2)) = signal_number s).
    { cbn. rewrite handle_signals_spec, Hb'. cbn.
      by rewrite Hg, handle_signals_spec, Hst. }
    split; [|exact Hg2]. cbn [sampler_loop].
    assert (Hg1 : g_stop (lp_flags (with_signals (it_before it) l1)) = 0%Z)
      by (cbn; rewrite handle_signals_spec, Hb; exact Hs1).
    fold (with_signals (it_before it) l1). rewrite Hg1. cbn [Z.eqb]. rewrite E2.
    cbn [mbind outcome_mbind]. fold (with_signals (it_before it') l2). rewrite Hg2.
    by destruct (Z.eqb_spec (signal_number s) 0) as [H0|]; [destruct (signal_number_pos s)|].
Qed.

(** An iteration's worth of signals for the examples: SIGHUP, then SIGTERM. *)
Definition example_iteration (before : list Signal) (now : Z) (r : Readings) : Iteration :=
  {| it_before := before; it_between := []; it_config := Ret empty_config; it_now := now;
     it_readings := r; it_fault := fun _ => NoFault |}.

Definition example_loop : Loop :=
  {| lp_flags := {| g_stop := 0; g_reload := false |}; lp_next := 0;
     lp_sampler := example_engine; lp_outputs := example_outputs |}.

Lemma sampler_loop_stops_witness :
  match sampler_loop utc ([example_iteration [] 0 example_readings; example_iteration [] 200 example_readings]
    ++ [example_iteration [SIGHUP; SIGTERM] 5200 example_readings]) example_loop with
  | Ret (ended, l) => ended = true /\ g_stop (lp_flags l) = 15%Z /\
      length (metrics_tbl (out_db (lp_outputs l))) = 4
  | _ => False
  end.
Proof.
  destruct (sampler_loop_stops utc
    [example_iteration [] 0 example_readings; example_iteration [] 200 example_readings]
    (example_iteration [SIGHUP; SIGTERM] 5200 example_readings) [] example_loop)
    as (l1 & E & Hb & _); [repeat constructor|reflexivity|].
  destruct (Hb SIGTERM eq_refl) as [-> Hg]. split; [reflexivity|]. split; [exact Hg|].
  change (lp_outputs (with_signals (it_before (example_iteration [SIGHUP; SIGTERM] 5200
    example_readings)) l1)) with (lp_outputs l1).
  assert (Ho : match sampler_loop utc [example_iteration [] 0 example_readings;
      example_iteration [] 200 example_readings] example_loop with
    | Ret (_, l) => length (metrics_tbl (out_db (lp_outputs l))) = 4 | _ => False end)
    by (vm_compute; reflexivity).
  by rewrite E in Ho.
Defined.

Lemma turn_stores_what_it_publishes_witness :
  let o' := snd (sampler_turn utc (fun _ => NoFault) example_readings example_engine
                   example_outputs) in
  exists stored, map metric_fields (metrics_tbl (out_db o')) =
      map (fun p => (1700035200%Z, fst p, snd p)) (stored_prefix (fun _ => NoFault) stored) /\
    forall n v, (n, v) ∈ stored -> published n (out_state o') = Some v.
Proof.
  destruct (sampler_turn utc (fun _ => NoFault) example_readings example_engine
    example_outputs) as [s' o'] eqn:E.
  destruct (turn_stores_what_it_publishes utc _ _ _ _ _ _ E)
    as (stored & rules & events & Hm & _ & _ & _ & Hp & _).
  exists stored. split; [exact Hm|]. intros n v H. apply Hp. by left.
Defined.

(** A configuration in place of the engine, and an iteration with the reload
    request taken out of it. *)
Definition with_rules (c : Config) (s : Sampler) : Sampler :=
  {| sm_cpu := sm_cpu s; sm_procs := sm_procs s; sm_self := sm_self s;
     sm_engine := new_engine (cfg_rules c) (cfg_quiet_hours c) |}.

Definition no_hup (it : Iteration) : Iteration :=
  {| it_before := it_before it; it_between := stops (it_between it);
     it_config := it_config it; it_now := it_now it; it_readings := it_readings it;
     it_fault := it_fault it |}.

Definition without_reload (s : Sampler) (l : Loop) : Loop :=
  {| lp_flags := {| g_stop := g_stop (lp_flags l); g_reload := false |}; lp_next := lp_next l;
     lp_sampler := s; lp_outputs := lp_outputs l |}.

(** C28: a hot reload is the replacement of the alert engine and nothing
    else: an iteration that finds a reload requested, once or many times, is
    the iteration without the request on a sampler whose engine is fresh for
    the rules and quiet hours of the configuration, or, when the
    configuration does not load, on the sampler as it was; the request is
    consumed. *)
Theorem reload_replaces_engine localtime {sq : Sqlite} it l :
  g_reload (handle_signals (it_between it) (lp_flags l)) = true ->
  match it_config it with
  | Ret c => iteration localtime it l =
               iteration localtime (no_hup it) (without_reload (with_rules c (lp_sampler l)) l)
  | Throw _ => iteration localtime it l =
               iteration localtime (no_hup it) (without_reload (lp_sampler l) l)
  | _ => is_Ret (iteration localtime it l) -> False
  end /\
  forall l', iteration localtime it l = Ret l' -> g_reload (lp_flags l') = false.
Proof.
  intros Hr.
  assert (Hn : forall s, reload_step (no_hup it)
      (handle_signals (it_between (no_hup it)) (lp_flags (without_reload s l))) s =
    Ret ({| g_stop := g_stop (handle_signals (it_between it) (lp_flags l));
            g_reload := false |}, s)).
  { intros s. unfold reload_step. cbn [no_hup it_between without_reload lp_flags].
    rewrite !handle_signals_spec, stops_idem, stops_no_hup. reflexivity. }
  assert (Hy : forall s, reload (it_config it) (lp_sampler l) = Ret s ->
    iteration localtime it l = iteration localtime (no_hup it) (without_reload s l)).
  { intros s Hc. unfold iteration. rewrite Hn. unfold reload_step. rewrite Hr, Hc. reflexivity. }
  split.
  - destruct (it_config it) eqn:Ec; [by apply Hy|by apply Hy| |];
      unfold iteration, reload_step; rewrite Hr, Ec; cbn; by intros [? [=]].
  - intros l' E. unfold iteration, reload_step in E. rewrite Hr in E.
    destruct (reload _ _); cbn in E; try discriminate.
    destruct (due_sample _ _) as [[] next]; [destruct (sampler_turn _ _ _ _ _)|];
      by simplify_eq/=.
Qed.

Lemma reload_replaces_engine_witness :
  iteration utc {| it_before := []; it_between := [SIGHUP; SIGHUP]; it_config := Ret empty_config;
                   it_now := 0; it_readings := example_readings; it_fault := fun _ => NoFault |}
    example_loop =
  iteration utc (example_iteration [] 0 example_readings)
    (without_reload (with_rules empty_config example_engine) example_loop).
Proof.
  exact (proj1 (reload_replaces_engine utc
    {| it_before := []; it_between := [SIGHUP; SIGHUP]; it_config := Ret empty_config;
       it_now := 0; it_readings := example_readings; it_fault := fun _ => NoFault |}
    example_loop eq_refl)).
Defined.
