(* ===== verification/StatusReads.v ===== *)
(** * A status request among the writers of the snapshot
    (daemon/src/ipc/api.cpp, main.cpp, shared_state.hpp)

    The socket thread answers "status" by five reads of the snapshot, each
    under its own lock, while the sampler publishes a turn by several writes
    and the scheduler its jobs and alerts.  The writes of an execution are
    recorded; what the answer can be is said in terms of the sampler's turns. *)

From stdpp Require Import base option list strings gmap.
From Stdlib Require Import Ascii ZArith Lia.
From S2P Require Import Prelude CppLib Double Cron SharedState Thermal Config AlertEngine Database.
From S2P Require Import ProcessRunner Scheduler Sections Locked SchedulerSteps Restart Consistency.
From S2P Require Import Json Api Metrics Support Daemon.

Open Scope string_scope.
Open Scope list_scope.

#[local] Opaque Cron.next_after Cron.prev_before.

(** ** Writes *)

(** The writes of the snapshot, each under the mutex. *)
Inductive write :=
| SetCpu (percent : double) (sampled_at : Z)
| SetSelf (rss : Z) (cpu : double)
| SetSystem (sys : SystemSnapshot)
| SetJobs (jobs : list JobStatus)
| AddAlert (alert : AlertInfo).

Definition apply_write (st : SharedState) (w : write) : SharedState :=
  match w with
  | SetCpu percent ts => set_cpu percent ts st
  | SetSelf rss cpu => set_self rss cpu st
  | SetSystem sys => set_system sys st
  | SetJobs jobs => set_jobs jobs st
  | AddAlert alert => add_alert alert default_cap st
  end.

Definition apply_writes (ws : list write) (st : SharedState) : SharedState :=
  fold_left apply_write ws st.

(** What a turn of the sampler publishes. *)
Record Turn := {
  tn_cpu : double;
  tn_ts : Z;
  tn_self : option (Z * double);
  tn_system : SystemSnapshot;
  tn_alerts : list AlertInfo
}.

(** The order of the writes in the body of [if (now >= next)]. *)
Definition turn_writes (t : Turn) : list write :=
  SetCpu (tn_cpu t) (tn_ts t) ::
  match tn_self t with Some (rss, cpu) => [SetSelf rss cpu] | None => [] end ++
  SetSystem (tn_system t) :: map AddAlert (tn_alerts t).

Section Turns.
Context (localtime : Z -> tm) {sq : Sqlite}.

(** The turn a sampler performs on some readings. *)
Definition turn_of (r : Readings) (s : Sampler) : Turn :=
  let cpu_pct := fst (cpu_sample (rd_cpu r) (sm_cpu s)) in
  let mem := sample_memory (rd_memsize r) (rd_page r) (rd_vm r) in
  let disk := sample_disk (rd_disk r) in
  let tops := fst (top 5 (rd_pids r) (rd_steady r) (sm_procs s)) in
  let stats := fst (self_sample (rd_self r) (rd_steady r) (sm_self s)) in
  {| tn_cpu := cpu_pct; tn_ts := rd_ts r;
     tn_self := if stats_valid stats then Some (stats_rss stats, stats_cpu stats) else None;
     tn_system := system_snapshot (rd_ts r) mem disk (rd_thermal r) tops;
     tn_alerts := map alert_info
       (snd (evaluate localtime (metric_map cpu_pct mem disk (rd_thermal r)) (rd_ts r)
               (attribution_of tops) (sm_engine s))) |}.

(** A turn's effect on the snapshot is its writes in a row. *)
Lemma sampler_turn_writes fault_of r s o :
  out_state (snd (sampler_turn localtime fault_of r s o)) =
    apply_writes (turn_writes (turn_of r s)) (out_state o).
Proof.
  unfold sampler_turn, turn_of.
  destruct (cpu_sample (rd_cpu r) (sm_cpu s)) as [cpu_pct cpu].
  destruct (top 5 (rd_pids r) (rd_steady r) (sm_procs s)) as [tops procs].
  destruct (self_sample (rd_self r) (rd_steady r) (sm_self s)) as [stats self]. cbn [fst].
  destruct (evaluate _ _ _ _ (sm_engine s)) as [engine events]. cbn [fst snd].
  set (o1 := {| out_db := _; out_state := _; out_notified := _ |}).
  destruct (deliver_all fault_of events o1) as (-> & _).
  unfold turn_writes, apply_writes. cbn [tn_cpu tn_ts tn_self tn_system tn_alerts fold_left].
  rewrite fold_left_app. cbn [fold_left]. rewrite map_map.
  assert (E : forall st, fold_left apply_write (map (fun e => AddAlert (alert_info e)) events) st =
    fold_left (fun st e => add_alert (alert_info e) kRecentAlerts st) events st).
  { clear. induction events as [|e events IH]; intros st; [done|]. cbn [map fold_left]. apply IH. }
  rewrite E. unfold o1. cbn [out_state]. by destruct (stats_valid stats).
Qed.
End Turns.

(** ** Prefixes of the turns *)

Definition is_cpu (w : write) : bool := match w with SetCpu _ _ => true | _ => false end.
Definition is_system (w : write) : bool := match w with SetSystem _ => true | _ => false end.
Definition alert_of (w : write) : option AlertInfo := match w with AddAlert a => Some a | _ => None end.

(** Turns begun, and turns whose system is published, in some writes. *)
Definition begun (ws : list write) : nat := length (List.filter is_cpu ws).
Definition shown (ws : list write) : nat := length (List.filter is_system ws).
Definition alerts_in (ws : list write) : list AlertInfo := omap alert_of ws.

(** The snapshot after the first [k] turns. *)
Definition after (turns : list Turn) (k : nat) (st : SharedState) : SharedState :=
  apply_writes (flat_map turn_writes (take k turns)) st.

Lemma after_cons t turns k st : after (t :: turns) (S k) st = after turns k (apply_writes (turn_writes t) st).
Proof. unfold after, apply_writes. cbn [take flat_map]. by rewrite fold_left_app. Qed.

Lemma apply_writes_app ws1 ws2 st : apply_writes (ws1 ++ ws2) st = apply_writes ws2 (apply_writes ws1 st).
Proof. apply fold_left_app. Qed.

Lemma begun_app ws1 ws2 : begun (ws1 ++ ws2) = begun ws1 + begun ws2.
Proof. unfold begun. by rewrite List.filter_app, length_app. Qed.

Lemma shown_app ws1 ws2 : shown (ws1 ++ ws2) = shown ws1 + shown ws2.
Proof. unfold shown. by rewrite List.filter_app, length_app. Qed.

Lemma alerts_in_app ws1 ws2 : alerts_in (ws1 ++ ws2) = alerts_in ws1 ++ alerts_in ws2.
Proof. apply omap_app. Qed.

(** Alerts touch neither counts nor measurements. *)
Lemma add_alerts_only alerts st :
  let st' := apply_writes (map AddAlert alerts) st in
  begun (map AddAlert alerts) = 0 /\ shown (map AddAlert alerts) = 0 /\
  cpu_ st' = cpu_ st /\ self_ st' = self_ st /\ system_ st' = system_ st.
Proof.
  cbn zeta. revert st. induction alerts as [|a alerts IH]; intros st; [done|].
  destruct (IH (add_alert a default_cap st)) as (H1 & H2 & H3 & H4 & H5). done.
Qed.

Lemma prefix_of_map {A B} (f : A -> B) l l1 l2 :
  map f l = l1 ++ l2 -> exists k1, l1 = map f k1.
Proof.
  revert l1. induction l as [|x l IH]; intros [|y l1] E; cbn in E; try discriminate; try by exists [].
  injection E as <- E. destruct (IH l1 E) as (k1 & ->). by exists (x :: k1).
Qed.

(** What the prefix of the writes of a turn has done. *)
Record progress (turns : list Turn) (st : SharedState) (ws : list write) : Prop := {
  pg_order : shown ws <= begun ws <= S (shown ws);
  pg_cpu : cpu_ (apply_writes ws st) = cpu_ (after turns (begun ws) st);
  pg_self : exists s, shown ws <= s <= begun ws /\ self_ (apply_writes ws st) = self_ (after turns s st);
  pg_system : system_ (apply_writes ws st) = system_ (after turns (shown ws) st);
  pg_alerts : flat_map tn_alerts (take (pred (begun ws)) turns) `prefix_of` alerts_in ws
}.

(** The end of a turn's writes. *)
Lemma system_prefix t st ws rest :
  SetSystem (tn_system t) :: map AddAlert (tn_alerts t) = ws ++ rest ->
  begun ws = 0 /\ cpu_ (apply_writes ws st) = cpu_ st /\ self_ (apply_writes ws st) = self_ st /\
  (shown ws = 0 /\ system_ (apply_writes ws st) = system_ st \/
   shown ws = 1 /\ system_ (apply_writes ws st) = tn_system t).
Proof.
  destruct ws as [|w ws]; intros E; [split_and!; try done; by left|].
  injection E as <- E. destruct (prefix_of_map _ _ _ _ E) as (l & ->).
  destruct (add_alerts_only l (set_system (tn_system t) st)) as (H1 & H2 & H3 & H4 & H5).
  split_and!; [exact H1|exact H3|exact H4|right]. split; [|exact H5].
  change (S (shown (map AddAlert l)) = 1). by rewrite H2.
Qed.

(** The whole of them. *)
Lemma turn_done t turns st :
  let st' := after (t :: turns) 1 st in
  cpu_ st' = cpu_ (set_cpu (tn_cpu t) (tn_ts t) st) /\
  self_ st' = match tn_self t with Some (rss, cpu) => self_ (set_self rss cpu st) | None => self_ st end /\
  system_ st' = tn_system t.
Proof.
  cbn zeta. unfold after. cbn [take flat_map]. rewrite app_nil_r. unfold turn_writes.
  change (SetCpu ?c ?n :: ?l) with ([SetCpu c n] ++ l). rewrite !apply_writes_app.
  change (SetSystem ?y :: ?l) with ([SetSystem y] ++ l). rewrite !apply_writes_app.
  match goal with |- context [apply_writes (map AddAlert _) ?st0] =>
    destruct (add_alerts_only (tn_alerts t) st0) as (_ & _ & -> & -> & ->) end.
  by destruct (tn_self t) as [[rss cpu]|].
Qed.

Lemma turn_prefix_end t turns st pre ws rest :
  let st1 := apply_writes pre (set_cpu (tn_cpu t) (tn_ts t) st) in
  begun pre = 0 -> shown pre = 0 ->
  cpu_ st1 = cpu_ (set_cpu (tn_cpu t) (tn_ts t) st) -> system_ st1 = system_ st ->
  (self_ st1 = self_ (after (t :: turns) 1 st) \/ ws = [] /\ self_ st1 = self_ st) ->
  SetSystem (tn_system t) :: map AddAlert (tn_alerts t) = ws ++ rest \/ ws = [] ->
  progress (t :: turns) st (SetCpu (tn_cpu t) (tn_ts t) :: pre ++ ws).
Proof.
  cbn zeta. destruct (turn_done t turns st) as (Dc & _ & Dy).
  set (st1 := apply_writes pre (set_cpu (tn_cpu t) (tn_ts t) st)). intros Hb Hs Hc Hy Hf Hw.
  assert (Hp : begun ws = 0 /\ cpu_ (apply_writes ws st1) = cpu_ st1 /\
    self_ (apply_writes ws st1) = self_ st1 /\
    (shown ws = 0 /\ system_ (apply_writes ws st1) = system_ st1 \/
     shown ws = 1 /\ system_ (apply_writes ws st1) = tn_system t)).
  { destruct Hw as [Hw| ->]; [by eapply system_prefix|]. split_and!; try done. by left. }
  destruct Hp as (P1 & P2 & P3 & P4).
  assert (Eb : begun (SetCpu (tn_cpu t) (tn_ts t) :: pre ++ ws) = 1).
  { change (S (begun (pre ++ ws)) = 1). by rewrite begun_app, Hb, P1. }
  assert (Es : shown (SetCpu (tn_cpu t) (tn_ts t) :: pre ++ ws) = shown ws).
  { change (shown (pre ++ ws) = shown ws). by rewrite shown_app, Hs. }
  assert (Ea : apply_writes (SetCpu (tn_cpu t) (tn_ts t) :: pre ++ ws) st = apply_writes ws st1).
  { unfold st1. rewrite <- apply_writes_app. reflexivity. }
  split; rewrite ?Eb, ?Es, ?Ea, ?P2, ?P3.
  - destruct P4 as [[-> _]|[-> _]]; lia.
  - by rewrite Hc, Dc.
  - destruct Hf as [Hf|[-> Hf]].
    + exists 1. split; [destruct P4 as [[-> _]|[-> _]]; lia|exact Hf].
    + exists 0. split; [cbn; lia|exact Hf].
  - destruct P4 as [[-> ->]|[-> ->]]; [exact Hy|by rewrite Dy].
  - apply prefix_nil.
Qed.

Lemma turn_prefix t turns st ws rest :
  turn_writes t = ws ++ rest -> progress (t :: turns) st ws.
Proof.
  destruct (turn_done t turns st) as (_ & Ds & _). unfold turn_writes. intros E.
  destruct ws as [|w ws].
  { split; cbn; [lia|done|by exists 0|done|apply prefix_nil]. }
  injection E as <- E. destruct (tn_self t) as [[rss cpu]|] eqn:Eself; cbn [app] in E.
  - destruct ws as [|w ws].
    + apply (turn_prefix_end t turns st [] [] rest); try done; by right.
    + injection E as <- E. apply (turn_prefix_end t turns st [SetSelf rss cpu] ws rest); try done.
      * left. by rewrite Ds.
      * by left.
  - apply (turn_prefix_end t turns st [] ws rest); try done; left; [by rewrite Ds|done].
Qed.

Lemma alerts_in_map alerts : alerts_in (map AddAlert alerts) = alerts.
Proof. induction alerts as [|a l IH]; [done|]. exact (f_equal (cons a) IH). Qed.

(** A whole turn. *)
Lemma turn_writes_whole t :
  begun (turn_writes t) = 1 /\ shown (turn_writes t) = 1 /\ alerts_in (turn_writes t) = tn_alerts t.
Proof.
  unfold turn_writes. change (SetCpu ?x ?n :: ?k) with ([SetCpu x n] ++ k).
  change (SetSystem ?y :: ?k) with ([SetSystem y] ++ k).
  rewrite !begun_app, !shown_app, !alerts_in_app, alerts_in_map.
  destruct (add_alerts_only (tn_alerts t) initial_state) as (-> & -> & _).
  by destruct (tn_self t) as [[]|].
Qed.

(** Every prefix of the writes of the turns makes progress through them. *)
Lemma turns_progress turns st ws rest :
  flat_map turn_writes turns = ws ++ rest -> progress turns st ws.
Proof.
  revert st ws. induction turns as [|t turns IH]; intros st ws E.
  { symmetry in E. apply app_eq_nil in E as [-> _]. split; cbn; [lia|done|by exists 0|done|apply prefix_nil]. }
  cbn [flat_map] in E. apply app_eq_inv in E as [(l & Et & _)|(l & -> & El)]; [exact (turn_prefix t turns st ws l Et)|].
  destruct (IH (apply_writes (turn_writes t) st) l El) as [H1 H2 (s & Hs & H3) H4 H5].
  destruct (turn_writes_whole t) as (Wb & Ws & Wa).
  assert (Eb : begun (turn_writes t ++ l) = S (begun l)) by (by rewrite begun_app, Wb).
  assert (Es : shown (turn_writes t ++ l) = S (shown l)) by (by rewrite shown_app, Ws).
  split; rewrite ?Eb, ?Es, ?apply_writes_app, ?after_cons; try done; [lia| |].
  - exists (S s). split; [lia|]. by rewrite after_cons.
  - cbn [pred]. rewrite alerts_in_app.
    rewrite Wa. destruct (begun l) as [|b]; cbn [take flat_map pred] in *; [apply prefix_nil|].
    by apply prefix_app.
Qed.

(** ** The writes of an execution *)

Inductive origin := FromSampler | FromScheduler.

(** Who writes what. *)
Definition entry_ok (e : origin * write) : Prop :=
  match e with
  | (FromSampler, SetJobs _) => False
  | (FromScheduler, (SetCpu _ _ | SetSelf _ _ | SetSystem _)) => False
  | _ => True
  end.

Definition by_sampler (tr : list (origin * write)) : list write :=
  omap (fun e => match fst e with FromSampler => Some (snd e) | FromScheduler => None end) tr.

Section Recorded.
Context (localtime : Z -> tm) {sq : Sqlite}.

(** An execution with the writes of the snapshot in it, in order. *)
Inductive recorded : System -> list (origin * write) -> System -> Prop :=
| recorded_none y : recorded y [] y
| recorded_silent y y1 tr y2 :
    step localtime y (Running y1) -> sc_state (sched y1) = sc_state (sched y) ->
    recorded y1 tr y2 -> recorded y tr y2
| recorded_write y y1 e tr y2 :
    step localtime y (Running y1) -> entry_ok e ->
    sc_state (sched y1) = apply_write (sc_state (sched y)) (snd e) ->
    recorded y1 tr y2 -> recorded y (e :: tr) y2.

(** A step writes the snapshot at most once, as its thread may. *)
Definition writes_once (s s' : Scheduler) : Prop :=
  sc_state s' = sc_state s \/
  exists e, entry_ok e /\ sc_state s' = apply_write (sc_state s) (snd e).

Lemma scan_section_writes now ts f c s c' s' :
  scan_section localtime now ts f c s = Some (c', s') -> writes_once s s'.
Proof.
  unfold writes_once. destruct c as [|[|j js]|j m js|j m js|j m ts' js|j js|j js]; cbn; intros H; simplify_eq; try by left.
  - destruct (job_schedule j); [|by simplify_eq; left].
    destruct (detect_missed_run _ _ _ _); simplify_eq; by left.
  - destruct (m <=? _)%Z; simplify_eq; by left.
  - left. unfold alert_insert. by destruct (insert_alert _ _ _) as [[]| | |].
  - right. eexists (FromScheduler, AddAlert _). split; [exact I|reflexivity].
Qed.

Lemma step_writes y y1 :
  inv y -> step localtime y (Running y1) -> writes_once (sched y) (sched y1).
Proof.
  intros Hi Hs. pose proof (inv_workers _ Hi) as Hw. pose proof (inv_names _ Hi) as Hn.
  inversion Hs as [c Hl|s ws Hwk|c s Hc|sts z Hk Hco|s Ho]; subst; clear Hs; cbn [sched].
  - inversion Hl as [ph s ws Hl'| |z Hp H|wall ls z Hp H|sts z Hp H]; subst; cbn [sched moved read_by].
    2: { left. by destruct (only_tasks_frame _ _ (reaps_frame (sched y, workers y) z Hw H)). }
    2: { left. by destruct (picks_frame localtime wall (sched y, workers y) ls z Hw Hn H). }
    2: { left. by destruct (only_tasks_frame _ _ (copies_frame (sched y, workers y) sts z Hw Hn H)). }
    inversion Hl' as [s0 wall sn|wall sn ts f c s0 c' s1 Hsc| |s0 s1 l ls run b evs ts Hla Hwo| |s0 sts];
      subst; try by left.
    + left. unfold wake_flags. by destruct (_ <? _)%Z.
    + by eapply scan_section_writes.
    + left. rewrite launch_cases in Hla. destruct (blocked _ _); [done|]. by injection Hla as <-.
    + right. eexists (FromScheduler, SetJobs _). split; [exact I|reflexivity].
  - inversion Hwk as [s0 ws1 ws2 w sec secs f Hsec]; subst.
    destruct sec; cbn; try by left.
    + left. by destruct (insert_run _ _ _) as [[]| | |].
    + left. unfold alert_insert. by destruct (insert_alert _ _ _) as [[]| | |].
    + right. eexists (FromScheduler, AddAlert _). split; [exact I|reflexivity].
    + left. unfold mark_done. by destruct (sc_running _ !! _).
  - inversion Hc as [now ts f sc sc' s0 s1 Hsc| | | | | | | | | | | |]; subst; try by left.
    + by eapply scan_section_writes.
    + right. eexists (FromScheduler, SetJobs _). split; [exact I|reflexivity].
  - left. by destruct (only_tasks_frame _ _ (copies_frame (sched y, workers y) sts z Hw Hn Hco)).
  - inversion Ho as [|s0 st Hw'|]; subst; try by left. right. cbn.
    inversion Hw'; subst; [eexists (FromSampler, SetCpu _ _)|eexists (FromSampler, SetSelf _ _)
      |eexists (FromSampler, SetSystem _)|eexists (FromSampler, AddAlert _)]; (split; [exact I|reflexivity]).
Qed.

(** So every execution has its record. *)
Lemma steps_recorded y y' :
  inv y -> steps localtime (Running y) (Running y') -> exists tr, recorded y tr y'.
Proof.
  intros Hi Hs. remember (Running y) as c1 eqn:E1. remember (Running y') as c2 eqn:E2.
  revert y Hi E1. induction Hs as [c|z c c' Hz Hrest IH]; intros y Hi E1; simplify_eq.
  - exists []. constructor.
  - destruct c as [y1|]; [|inversion Hrest].
    destruct (IH eq_refl y1 (step_inv localtime _ _ Hi Hz) eq_refl) as [tr Htr].
    destruct (step_writes y y1 Hi Hz) as [E|(e & He & E)].
    + exists tr. by eapply recorded_silent.
    + exists (e :: tr). by eapply recorded_write.
Qed.

Lemma recorded_steps y tr y' : recorded y tr y' -> steps localtime (Running y) (Running y').
Proof. induction 1; [apply steps_refl|by eapply steps_next..]. Qed.

Lemma recorded_app y1 tr1 y2 tr2 y3 :
  recorded y1 tr1 y2 -> recorded y2 tr2 y3 -> recorded y1 (tr1 ++ tr2) y3.
Proof.
  induction 1; intros H3; [exact H3|eapply recorded_silent; eauto|eapply recorded_write; eauto].
Qed.

Lemma recorded_state y tr y' :
  recorded y tr y' ->
  Forall entry_ok tr /\ sc_state (sched y') = apply_writes (map snd tr) (sc_state (sched y)).
Proof.
  induction 1 as [y|y y1 tr y2 Hs E _ [IH1 IH2]|y y1 e tr y2 Hs He E _ [IH1 IH2]]; [done|..].
  - by rewrite IH2, E.
  - split; [by constructor|]. rewrite IH2, E. reflexivity.
Qed.
End Recorded.

(** The scheduler's writes leave what the sampler measured alone. *)
Definition measured (st : SharedState) : Cpu * Self * SystemSnapshot := (cpu_ st, self_ st, system_ st).

Lemma measured_write w st st' :
  measured st = measured st' -> measured (apply_write st w) = measured (apply_write st' w).
Proof. unfold measured. intros [= E1 E2 E3]. destruct w; cbn; by rewrite ?E1, ?E2, ?E3. Qed.

Lemma measured_sampler tr st :
  Forall entry_ok tr -> measured (apply_writes (map snd tr) st) = measured (apply_writes (by_sampler tr) st).
Proof.
  intros Hok.
  assert (H : forall st', measured st = measured st' ->
    measured (apply_writes (map snd tr) st) = measured (apply_writes (by_sampler tr) st')).
  { revert st. induction Hok as [|[[] w] tr He _ IH]; intros st st' E; [exact E|..].
    - apply (IH (apply_write st w) (apply_write st' w)). by apply measured_write.
    - apply (IH (apply_write st w) st'). rewrite <- E. by destruct w. }
  by apply H.
Qed.

(** Every writer's alerts enter the ring. *)
Lemma ring_writes ws st :
  length (alerts_ st) <= default_cap ->
  alerts_ (apply_writes ws st) = take default_cap (reverse (alerts_in ws) ++ alerts_ st).
Proof.
  intros Hl. rewrite <- add_alerts_take by done. clear Hl.
  assert (H : forall st', alerts_ st = alerts_ st' ->
    alerts_ (apply_writes ws st) =
      alerts_ (foldl (fun s a => add_alert a default_cap s) st' (alerts_in ws))).
  { revert st. induction ws as [|w ws IH]; intros st st' E; [exact E|].
    destruct w; try (apply (IH _ st'); exact E).
    apply (IH (add_alert alert default_cap st) (add_alert alert default_cap st')).
    by rewrite !add_alert_take, E. }
  by apply H.
Qed.

Lemma by_sampler_app tr1 tr2 : by_sampler (tr1 ++ tr2) = by_sampler tr1 ++ by_sampler tr2.
Proof. apply omap_app. Qed.

Lemma sampler_alerts tr : alerts_in (by_sampler tr) `sublist_of` alerts_in (map snd tr).
Proof.
  induction tr as [|[[] w] tr IH]; [done|..].
  - change (alerts_in ([w] ++ by_sampler tr) `sublist_of` alerts_in ([w] ++ map snd tr)).
    rewrite !alerts_in_app. by apply sublist_app.
  - change (alerts_in (by_sampler tr) `sublist_of` alerts_in ([w] ++ map snd tr)).
    rewrite alerts_in_app. by apply sublist_inserts_l.
Qed.

(** ** The answer *)

(** What the handler of "status" has read, each part at its own time: cpu,
    self, system, jobs, alerts. *)
Definition assembled (st1 st2 st3 st4 st5 : SharedState) : SharedState :=
  {| cpu_ := cpu_ st1; self_ := self_ st2; jobs_ := jobs_ st4; system_ := system_ st3;
     alerts_ := alerts_ st5 |}.

Definition status_answer (started_at : Z) (st1 st2 st3 st4 st5 : SharedState) : json :=
  status_json started_at (assembled st1 st2 st3 st4 st5).

(** With nothing in between it is the answer of [Api.respond]. *)
Lemma status_answer_at_once started st : status_answer started st st st st st = status_json started st.
Proof. by destruct st. Qed.

Lemma flat_map_take {A B} (f : A -> list B) l k1 k2 :
  k1 <= k2 -> flat_map f (take k1 l) `sublist_of` flat_map f (take k2 l).
Proof.
  revert k1 k2. induction l as [|x l IH]; intros k1 k2 Hk; [by rewrite !take_nil|].
  destruct k1 as [|k1]; [apply sublist_nil_l|]. destruct k2 as [|k2]; [lia|]. cbn.
  apply sublist_app; [done|]. apply IH. lia.
Qed.

Lemma measured_at localtime {sq : Sqlite} turns y0 tr y rest :
  recorded localtime y0 tr y -> flat_map turn_writes turns = by_sampler tr ++ rest ->
  progress turns (sc_state (sched y0)) (by_sampler tr) /\
  measured (sc_state (sched y)) = measured (apply_writes (by_sampler tr) (sc_state (sched y0))).
Proof.
  intros Hr E. destruct (recorded_state _ _ _ _ Hr) as [Hok ->].
  split; [by eapply turns_progress|by apply measured_sampler].
Qed.

(** ** Properties *)

(** C20: a status answer mixes at most neighbouring turns of the sampler.  However
    the five reads of a "status" request fall among the writes of the sampler,
    the scheduler and its workers: the cpu part is that of one turn, the
    daemon's own part and the system part that of turns at the earliest the
    one before, and of no later ones if the sampler writes nothing in between;
    the jobs are those of one state of the scheduler; and the alerts are the
    newest 25 of all that were published, among which are those of every turn
    before the one whose system is shown. *)
Theorem status_spans_turns localtime {sq : Sqlite} started turns y0 tr1 y1 tr2 y2 tr3 y3 tr4 y4 tr5 y5 :
  fresh y0 -> jobs_ (sc_state (sched y0)) = statuses (sched y0) ->
  length (alerts_ (sc_state (sched y0))) <= default_cap ->
  recorded localtime y0 tr1 y1 -> recorded localtime y1 tr2 y2 -> recorded localtime y2 tr3 y3 ->
  recorded localtime y3 tr4 y4 -> recorded localtime y4 tr5 y5 ->
  by_sampler (tr1 ++ tr2 ++ tr3 ++ tr4 ++ tr5) `prefix_of` flat_map turn_writes turns ->
  let snap k := after turns k (sc_state (sched y0)) in
  exists c s n yj ring,
    status_answer started (sc_state (sched y1)) (sc_state (sched y2)) (sc_state (sched y3))
      (sc_state (sched y4)) (sc_state (sched y5)) =
      status_json started
        {| cpu_ := cpu_ (snap c); self_ := self_ (snap s); jobs_ := statuses (sched yj);
           system_ := system_ (snap n);
           alerts_ := take 25 (reverse ring ++ alerts_ (sc_state (sched y0))) |} /\
    c <= S s /\ c <= S n /\ s <= S n /\
    (by_sampler (tr2 ++ tr3) = [] -> n <= s <= c) /\
    steps localtime (Running y0) (Running yj) /\ steps localtime (Running yj) (Running y4) /\
    flat_map tn_alerts (take (pred n) turns) `sublist_of` ring.
Proof.
  intros Hf Hj Hl R1 R2 R3 R4 R5 [rest Hp] snap.
  pose proof (recorded_app _ _ _ _ _ _ R1 R2) as R12. pose proof (recorded_app _ _ _ _ _ _ R12 R3) as R13.
  pose proof (recorded_app _ _ _ _ _ _ R13 R4) as R14. pose proof (recorded_app _ _ _ _ _ _ R14 R5) as R15.
  rewrite !by_sampler_app, <- !app_assoc in *.
  destruct (measured_at localtime turns y0 tr1 y1 _ R1 Hp) as [[O1 C1 _ _ _] M1].
  destruct (measured_at localtime turns y0 _ y2 (by_sampler tr3 ++ by_sampler tr4 ++ by_sampler tr5 ++ rest) R12)
    as [[O2 _ (s & Hs & S2) _ _] M2]; [by rewrite by_sampler_app, <- app_assoc|].
  destruct (measured_at localtime turns y0 _ y3 (by_sampler tr4 ++ by_sampler tr5 ++ rest) R13)
    as [[O3 _ _ Y3 _] M3]; [by rewrite !by_sampler_app, <- !app_assoc|].
  destruct (measured_at localtime turns y0 _ y5 rest R15) as [[O5 _ _ _ A5] _];
    [by rewrite !by_sampler_app, <- !app_assoc|].
  destruct (published_reached localtime y0 y4 Hf Hj (recorded_steps _ _ _ _ R14)) as [_ (yj & J1 & J2 & J3) _ _].
  destruct (recorded_state _ _ _ _ R15) as [_ E5].
  unfold measured in M1, M2, M3. injection M1 as M1 _ _. injection M2 as _ M2 _. injection M3 as _ _ M3.
  exists (begun (by_sampler tr1)), s, (shown (by_sampler (tr1 ++ tr2 ++ tr3))), yj,
    (alerts_in (map snd (tr1 ++ tr2 ++ tr3 ++ tr4 ++ tr5))).
  rewrite !by_sampler_app, !begun_app, !shown_app in *. split_and!.
  - unfold status_answer, assembled, snap. by rewrite M1, M2, M3, C1, S2, J3, E5, ring_writes, Y3.
  - lia.
  - lia.
  - lia.
  - intros [E2 E3]%app_eq_nil. rewrite E2, E3 in *. change (begun []) with 0 in *.
    change (shown []) with 0 in *. lia.
  - exact J1.
  - exact J2.
  - etrans; [|apply sampler_alerts]. rewrite !by_sampler_app. destruct A5 as [l ->].
    apply sublist_inserts_r, flat_map_take. lia.
Qed.

(** The mixture is real: between the first two writes of the first turn the
    answer has a cpu and no system yet. *)
Definition first_turn : Turn :=
  {| tn_cpu := dbl_of_Z 12; tn_ts := 1700035200; tn_self := Some (4096%Z, dbl_of_Z 1);
     tn_system := {| sys_valid := true; sys_sampled_at := 1700035200; mem_total_bytes := 8;
                     mem_used_bytes := 4; mem_used_percent := dbl_of_Z 50; disk_total_bytes := 0;
                     disk_available_bytes := 0; disk_used_percent := dbl_zero;
                     thermal_state := "nominal"; top_processes := [] |};
     tn_alerts := [] |}.

Definition cpu_written : System :=
  {| sched := with_state (set_cpu (dbl_of_Z 12) 1700035200 (sc_state (sched unsaved_start)))
                (sched unsaved_start);
     phase := PReap; workers := []; caller := Idle |}.

Lemma cpu_recorded :
  recorded utc unsaved_start [(FromSampler, SetCpu (dbl_of_Z 12) 1700035200)] cpu_written.
Proof.
  eapply (recorded_write utc unsaved_start cpu_written (FromSampler, SetCpu (dbl_of_Z 12) 1700035200));
    [|exact I|reflexivity|apply recorded_none].
  apply (ByOutside utc unsaved_start), OutsideWrite, WriteCpu.
Qed.

Definition valid_in (key : string) (j : json) : option json := m ← member key j; member "valid" m.

Lemma status_spans_turns_witness :
  let st := sc_state (sched cpu_written) in
  valid_in "cpu" (status_answer 0 st st st st st) = Some (JBool true) /\
  valid_in "system" (status_answer 0 st st st st st) = Some (JBool false) /\
  exists c s n yj ring, status_answer 0 st st st st st =
    status_json 0
      {| cpu_ := cpu_ (after [first_turn] c (sc_state (sched unsaved_start)));
         self_ := self_ (after [first_turn] s (sc_state (sched unsaved_start)));
         jobs_ := statuses (sched yj);
         system_ := system_ (after [first_turn] n (sc_state (sched unsaved_start)));
         alerts_ := take 25 (reverse ring ++ alerts_ (sc_state (sched unsaved_start))) |} /\
    n <= s <= c /\ c <= S n.
Proof.
  cbv zeta. split; [vm_compute; reflexivity|]. split; [vm_compute; reflexivity|].
  destruct (status_spans_turns utc 0 [first_turn] unsaved_start
    [(FromSampler, SetCpu (dbl_of_Z 12) 1700035200)] cpu_written [] cpu_written [] cpu_written
    [] cpu_written [] cpu_written unsaved_fresh eq_refl) as (c & s & n & yj & ring & E & _ & Hc & _ & Hn & _);
    [cbn; lia|exact cpu_recorded|apply recorded_none|apply recorded_none|apply recorded_none|apply recorded_none
    |by eexists|].
  exists c, s, n, yj, ring. split; [exact E|]. split; [exact (Hn eq_refl)|exact Hc].
Defined.
