(* ===== verification/Main.v ===== *)
(** * The daemon's life (daemon/src/main.cpp, main)

    The arguments, the disposition of signals before and after the handlers
    are installed, the composition of start-up, sampler loop and shutdown,
    and the exit status. *)

From stdpp Require Import base option list strings gmap relations.
From Stdlib Require Import Ascii ZArith Lia SpecFloat.
From S2P Require Import Prelude CppLib Double Cron SharedState Thermal Config AlertEngine.
From S2P Require Import Connection Database ProcessRunner Scheduler Sections SchedulerSteps Shutdown Json Api SocketServer.
From S2P Require Import Metrics Support Daemon SamplerLoop.
From S2P Require SleepMonitor.

Open Scope string_scope.
Open Scope list_scope.

#[local] Opaque Cron.next_after Cron.prev_before.

(** ** Arguments *)

Inductive arguments :=
| Prints (text : string)                (* and exits with status 0 *)
| Starts (warnings : list string).

(** The loop over [argv[1..]]; [version] is [AGENTPULSE_VERSION]. *)
Fixpoint main_args (version : string) (args : list string) : arguments :=
  match args with
  | [] => Starts []
  | arg :: args' =>
      if String.eqb arg "--version" || String.eqb arg "-v" then
        Prints ("agentpulsed " +:+ version +:+ NL)
      else if String.eqb arg "--help" || String.eqb arg "-h" then
        Prints ("agentpulsed " +:+ version +:+ " — AgentPulse daemon" +:+ NL +:+
                "Usage: agentpulsed [--version] [--help]" +:+ NL)
      else
        match main_args version args' with
        | Prints text => Prints text
        | Starts warnings => Starts (("ignoring unknown argument: " +:+ arg) :: warnings)
        end
  end.

(** ** Signals *)

(** The signals that reach the process: those with a handler, and the
    SIGPIPE of a write to a connection the peer has closed. *)
Inductive ProcSignal := Flagged (s : Signal) | SIGPIPE.

Inductive disposition := ByDefault | Handled | Ignored.

(** What a signal does, before and after [install_signal_handlers]. *)
Definition disposition_of (installed : bool) (s : ProcSignal) : disposition :=
  if installed then match s with Flagged _ => Handled | SIGPIPE => Ignored end
  else ByDefault.

(** [None] when the default action of a signal kills the process. *)
Fixpoint deliver_signals (installed : bool) (l : list ProcSignal) (f : Flags) : option Flags :=
  match l with
  | [] => Some f
  | s :: l' =>
      match disposition_of installed s, s with
      | Handled, Flagged sig => deliver_signals installed l' (handle_signal sig f)
      | Handled, SIGPIPE | Ignored, _ => deliver_signals installed l' f
      | ByDefault, _ => None
      end
  end.

(** ** main *)

(** What happens around the process. *)
Record World := {
  w_version : string;
  w_args : list string;
  (* start-up *)
  w_paths : outcome Paths;
  w_dbs : Openings;                       (* opening and migrating the database *)
  w_file : option Tables;                 (* what its file holds *)
  w_config : outcome Config;
  w_now : Z;
  w_scan_now : Z;
  w_load_fault : fault;
  w_last_fault : string -> fault;
  w_env : string -> Z * fault;
  w_server : outcome unit * Server;       (* of [SocketServer::start] *)
  w_early : list ProcSignal;              (* before the handlers are installed *)
  (* the running daemon *)
  w_late : list ProcSignal;               (* between the handlers and the loop *)
  w_baseline : Readings;
  w_steady : Z;
  w_outputs : Outputs;                    (* what the sampler writes to, as it finds it *)
  w_turns : list Iteration;
  (* the shutdown *)
  (* where the sleep monitor and its stop come to rest *)
  w_monitor : SleepMonitor.stop_at * SleepMonitor.SleepMonitor;
  w_accept_returns : bool;                (* the accept thread *)
  w_stopping : Stopping                   (* where [Scheduler::stop] comes to rest *)
}.

(** How the process ends: [main] returns, a signal or an exception ends it,
    or a thread it joins does not return. *)
Inductive ending := ExitStatus (code : Z) | Killed | Aborted | UndefinedBehaviour | Hangs | Runs.

Definition no_signals : Flags := {| g_stop := 0; g_reload := false |}.

(** The end of [main] after the loop: the three [stop]s, then the
    destructors, of which only the monitor's finds anything to do. *)
Definition shutdown (w : World) : ending :=
  match w_monitor w with
  | (SleepMonitor.Stopped, m) =>
      let v := snd (w_server w) in
      if srv_running v && srv_joinable v && negb (w_accept_returns w) then Hangs
      else
        match w_stopping w with
        | StopCrashed => Aborted
        | Stopped s =>
            match SleepMonitor.destroy m with
            | None => Hangs
            | Some (Ret tt) => ExitStatus 0
            | Some Undef => UndefinedBehaviour
            | Some _ => Aborted
            end
        | _ => Hangs
        end
  | _ => Hangs
  end.

Section Main.
Context (localtime : Z -> tm) {sq : Sqlite}.

Definition start_up (w : World) : outcome startup_result :=
  startup localtime (w_paths w) (w_dbs w) (w_file w) (w_config w) (w_now w) (w_scan_now w)
    (w_load_fault w) (w_last_fault w) (w_env w) (fst (w_server w)).

(** The loop as it is entered. *)
Definition loop_entry (w : World) (f : Flags) (rules : list Rule) (qh : QuietHours) : Loop :=
  {| lp_flags := f; lp_next := w_steady w; lp_sampler := baseline (w_baseline w) rules qh;
     lp_outputs := w_outputs w |}.

(** [main] from [install_signal_handlers] on. *)
Definition serve (w : World) (rules : list Rule) (qh : QuietHours) : ending :=
  match SleepMonitor.start SleepMonitor.new_monitor, deliver_signals true (w_late w) no_signals with
  | Ret _, Some f =>
      match sampler_loop localtime (w_turns w) (loop_entry w f rules qh) with
      | Ret (true, _) => shutdown w
      | Ret (false, _) => Runs
      | Undef => UndefinedBehaviour
      | _ => Aborted
      end
  | Ret _, None => Killed
  | Undef, _ => UndefinedBehaviour
  | _, _ => Aborted
  end.

Definition main (w : World) : ending :=
  match main_args (w_version w) (w_args w) with
  | Prints _ => ExitStatus 0
  | Starts _ =>
      match deliver_signals false (w_early w) no_signals with
      | None => Killed
      | Some _ =>
          match start_up w with
          | Ret (Exits code) => ExitStatus code
          | Ret (Serving _ rules qh _ _) => serve w rules qh
          | Undef => UndefinedBehaviour
          | _ => Aborted
          end
      end
  end.
End Main.

(** ** The sleep monitor in [main] *)

(** The monitor comes to rest: started, its thread at [before] when the stop
    begins to run. *)
Definition monitor_rests (before : SleepMonitor.SleepMonitor) (w : World) : Prop :=
  exists m0, SleepMonitor.start SleepMonitor.new_monitor = Ret m0 /\
    rtc SleepMonitor.thread_step m0 before /\
    rtc SleepMonitor.monitor_step (SleepMonitor.Serving, before) (w_monitor w) /\
    nf SleepMonitor.monitor_step (w_monitor w).

(** ** The exit status *)

(** What start-up needs, in order: the paths, the database, the
    configuration, the scheduler. *)
Definition setup (localtime : Z -> tm) {sq : Sqlite} (w : World) : outcome Scheduler :=
  _ ← w_paths w;
  _ ← open_store (main_database (w_dbs w));
  cfg ← w_config w;
  _ ← open_store (scheduler_database (w_dbs w));
  make_scheduler localtime (cfg_jobs cfg) (w_file w) (w_now w) (w_load_fault w) (w_last_fault w)
    initial_state.

(** The outcome of a socket server's start is a value or an exception. *)
Definition server_decided (w : World) : Prop :=
  match fst (w_server w) with Ret _ | Throw _ => True | _ => False end.

(** The API starts with or without a database. *)
Lemma api_connects path o : exists b, api_connected path (open_database o) = Ret b.
Proof.
  unfold api_connected. destruct (str_empty path); [by eexists|].
  destruct (open_database_db_error o) as [->|[m ->]]; by eexists.
Qed.

Lemma start_up_setup localtime {sq : Sqlite} w :
  server_decided w ->
  match setup localtime w with
  | Ret _ => exists s cfg api, w_config w = Ret cfg /\
      start_up localtime w = Ret (Serving s (cfg_rules cfg) (cfg_quiet_hours cfg) api
                                    (match fst (w_server w) with Ret _ => true | _ => false end))
  | Throw _ => start_up localtime w = Ret (Exits 1)
  | Terminate => start_up localtime w = Terminate
  | Undef => start_up localtime w = Undef
  end.
Proof.
  unfold setup, start_up, startup, server_decided. intros Hv.
  destruct (w_paths w) as [p| | |]; try reflexivity. cbn [mbind outcome_mbind].
  destruct (open_store_db_error (main_database (w_dbs w))) as [->|[m ->]]; [|reflexivity].
  destruct (api_connects (database p) (api_opening (w_dbs w))) as [api ->].
  cbn [mbind outcome_mbind].
  destruct (w_config w) as [cfg| | |]; try reflexivity. cbn [mbind outcome_mbind].
  destruct (open_store_db_error (scheduler_database (w_dbs w))) as [->|[m ->]]; [|reflexivity].
  cbn [mbind outcome_mbind].
  destruct (make_scheduler _ _ _ _ _ _ _) as [s| | |]; try reflexivity.
  exists (Scheduler.start localtime (w_now w) (w_scan_now w) (w_env w) s), cfg, api.
  split; [reflexivity|]. cbn. destruct (fst (w_server w)); done.
Qed.

Lemma serve_not_1 localtime {sq : Sqlite} w rules qh : serve localtime w rules qh <> ExitStatus 1.
Proof.
  unfold serve. cbn [SleepMonitor.start SleepMonitor.new_monitor SleepMonitor.running SleepMonitor.joinable].
  destruct (deliver_signals _ _ _); [|discriminate].
  destruct (sampler_loop _ _ _) as [[[] l]| | |]; try discriminate.
  unfold shutdown. repeat case_match; discriminate.
Qed.

Lemma late_signals sigs : exists f, deliver_signals true sigs no_signals = Some f /\
  f = handle_signals (omap (fun s => match s with Flagged s => Some s | SIGPIPE => None end) sigs)
        no_signals.
Proof.
  generalize no_signals. induction sigs as [|[s|] sigs IH]; intros f; cbn; [by exists f| |apply IH].
  destruct (IH (handle_signal s f)) as (f' & -> & ->). by eexists.
Qed.

(** The stop signals among those of the process and of some iterations. *)
Definition signalled (late : list ProcSignal) (its : list Iteration) : bool :=
  existsb (fun g => match g with Flagged g => negb (is_hup g) | SIGPIPE => false end) late ||
  existsb (fun it => existsb (fun g => negb (is_hup g)) (it_before it ++ it_between it)) its.

Lemma stops_app l1 l2 : stops (l1 ++ l2) = stops l1 ++ stops l2.
Proof. apply List.filter_app. Qed.

Lemma stops_existsb l : existsb (fun g => negb (is_hup g)) l = true <-> stops l <> [].
Proof.
  unfold stops. induction l as [|g l IH]; cbn [existsb List.filter]; [by split|].
  destruct (is_hup g); cbn [negb orb]; [exact IH|by split].
Qed.

Lemma handle_stops l f : stops l <> [] \/ (g_stop f =? 0)%Z = false -> (g_stop (handle_signals l f) =? 0)%Z = false.
Proof.
  intros [H|H]; [by apply stop_flag_ends|]. rewrite handle_signals_spec. cbn.
  destruct (last (stops l)) as [[]|]; done.
Qed.

(** A stop signal at any point ends the loop, at the latest in its next
    test. *)
Lemma sampler_loop_signalled localtime {sq : Sqlite} its it its2 l :
  Forall loads its ->
  (g_stop (lp_flags l) =? 0)%Z = false \/ signalled [] its = true \/ stops (it_before it) <> [] ->
  exists l', sampler_loop localtime (its ++ it :: its2) l = Ret (true, l').
Proof.
  intros Hl. revert l. induction Hl as [|i its Hi _ IH]; intros l H; cbn [app sampler_loop lp_flags].
  - rewrite handle_stops; [by eexists|]. destruct H as [H|[H|H]]; [by right|done|by left].
  - destruct (g_stop (handle_signals (it_before i) (lp_flags l)) =? 0)%Z eqn:E; [|by eexists].
    match goal with |- context [iteration _ _ ?l0] =>
      destruct (iteration_returns localtime i l0 Hi) as (l1 & -> & Hs1) end.
    cbn [mbind outcome_mbind lp_flags] in *. apply IH.
    destruct H as [H|[H|H]]; [|cbn in H|by right; right].
    + by rewrite handle_stops in E by by right.
    + apply orb_true_iff in H as [H|H]; [left|by right; left].
      rewrite existsb_app in H. apply orb_true_iff in H as [H|H]; apply stops_existsb in H.
      * by rewrite handle_stops in E by by left.
      * rewrite Hs1. apply handle_stops. by left.
Qed.

(** A shutdown with status 0 has stopped everything. *)
Lemma shutdown_complete w :
  shutdown w = ExitStatus 0 ->
  (exists m, w_monitor w = (SleepMonitor.Stopped, m) /\ SleepMonitor.joinable m = false) /\
  (srv_running (snd (w_server w)) && srv_joinable (snd (w_server w)) = true -> w_accept_returns w = true) /\
  exists s, w_stopping w = Stopped s.
Proof.
  unfold shutdown. destruct (w_monitor w) as [[] m]; try discriminate.
  destruct (srv_running _ && srv_joinable _); cbn [andb].
  - destruct (w_accept_returns w); cbn [negb]; [|discriminate].
    destruct (w_stopping w) as [| |s|]; try discriminate.
    unfold SleepMonitor.destroy, SleepMonitor.stop_step.
    destruct (SleepMonitor.running m), (SleepMonitor.joinable m) eqn:Ej; try discriminate.
    intros _. split_and!; [by exists m|reflexivity|by exists s].
  - destruct (w_stopping w) as [| |s|]; try discriminate.
    unfold SleepMonitor.destroy, SleepMonitor.stop_step.
    destruct (SleepMonitor.running m), (SleepMonitor.joinable m) eqn:Ej; try discriminate.
    intros _. split_and!; [by exists m|discriminate|by exists s].
Qed.

(** ** Properties *)

(** C31: what the exit status tells.  When no signal arrives before the
    handlers are installed, the daemon exits with status 1 exactly when one
    of the steps of start-up (paths, database, configuration, scheduler)
    throws, and then start-up has ended before the socket server, the monitor
    and the loop; a socket that cannot be opened is not such a failure: the
    daemon runs without it.  It exits with status 0 only after a request for
    the version or the help, or after a complete shutdown: a stop signal ended
    the loop, the monitor was stopped and its thread joined, the accept thread,
    if it was started, has returned, and so has the scheduler's stop. *)
Theorem exit_status_reports localtime {sq : Sqlite} w warnings :
  server_decided w -> w_early w = [] ->
  main_args (w_version w) (w_args w) = Starts warnings ->
  (main localtime w = ExitStatus 1 <-> exists e, setup localtime w = Throw e) /\
  (main localtime w = ExitStatus 1 -> start_up localtime w = Ret (Exits 1)) /\
  (main localtime w = ExitStatus 0 ->
   (exists m, w_monitor w = (SleepMonitor.Stopped, m) /\ SleepMonitor.joinable m = false) /\
   (srv_running (snd (w_server w)) && srv_joinable (snd (w_server w)) = true -> w_accept_returns w = true) /\
   (exists s, w_stopping w = Stopped s) /\
   exists s rules qh api serves f l, start_up localtime w = Ret (Serving s rules qh api serves) /\
     deliver_signals true (w_late w) no_signals = Some f /\
     sampler_loop localtime (w_turns w) (loop_entry w f rules qh) = Ret (true, l)).
Proof.
  intros Hv He Ha. unfold main. rewrite Ha, He. cbn [deliver_signals].
  pose proof (start_up_setup localtime w Hv) as Hs.
  destruct (setup localtime w) as [s0|e| |]; try (rewrite Hs; split_and!; try split; try discriminate; by intros []).
  - destruct Hs as (s & cfg & api & Ec & ->).
    pose proof (serve_not_1 localtime w (cfg_rules cfg) (cfg_quiet_hours cfg)) as H1.
    split_and!; [split; [done|by intros []]|done|].
    unfold serve. destruct (late_signals (w_late w)) as (f & Ef & _). rewrite Ef, SleepMonitor.start_new.
    destruct (sampler_loop _ _ _) as [[[] l]| | |] eqn:El; try discriminate.
    intros (Hm & Hv' & Hst)%shutdown_complete. split_and!; [exact Hm|exact Hv'|exact Hst|].
    do 7 eexists. split_and!; [reflexivity|reflexivity|exact El].
  - rewrite Hs. split_and!; [split; eauto|done|discriminate].
Qed.

(** C30: a stop signal shuts the daemon down.  Once it serves, a SIGTERM or
    SIGINT that arrives after the handlers are installed (before the loop, or
    in any of its iterations) ends the loop, and the process with status 0,
    unless something it stops ends it otherwise: the turn of the scheduler
    under way crashes, or the monitor's registration had been refused (it is
    then destroyed with its thread unjoined: an abort).  If the monitor's
    thread was in its run loop when the stop began, it is joined;
    [Scheduler::stop] comes to rest; so apart from the accept thread the
    shutdown can only wait for a monitor stopped before it was in its run
    loop. *)
Theorem stop_signal_shuts_down localtime {sq : Sqlite} w warnings s rules qh api serves its1 it its2 y0 y entered before :
  main_args (w_version w) (w_args w) = Starts warnings -> w_early w = [] ->
  start_up localtime w = Ret (Serving s rules qh api serves) ->
  w_turns w = its1 ++ it :: its2 -> Forall loads its1 ->
  signalled (w_late w) its1 = true \/ stops (it_before it) <> [] ->
  fresh y0 -> steps localtime (Running y0) (Running y) ->
  Forall countable (sc_jobs (sched y)) ->
  Forall (fun l => countable (fst l)) (launches_of (phase y)) ->
  rtc (stop_step localtime) (stop_begin entered y) (w_stopping w) ->
  nf (stop_step localtime) (w_stopping w) ->
  monitor_rests before w -> w_accept_returns w = true ->
  main localtime w =
    match w_monitor w with
    | (SleepMonitor.Stopped, m) =>
        match w_stopping w with
        | StopCrashed => Aborted
        | _ => if SleepMonitor.joinable m then Aborted else ExitStatus 0
        end
    | _ => Hangs
    end /\
  match SleepMonitor.thread before with
  | SleepMonitor.InLoop => exists m, w_monitor w = (SleepMonitor.Stopped, m) /\ SleepMonitor.joinable m = false
  | SleepMonitor.Returned => exists m, w_monitor w = (SleepMonitor.Stopped, m) /\ SleepMonitor.joinable m = true
  | _ => True
  end.
Proof.
  intros Ha He Hs Ht Hu Hb Hf Hsteps Hc Hl Hr Hn (m0 & Hm0 & Hm1 & Hm2 & Hmn) Hacc.
  rewrite SleepMonitor.start_new in Hm0. injection Hm0 as <-. split.
  2: { destruct (SleepMonitor.thread before) eqn:Et; try done;
       [by eapply SleepMonitor.in_loop_stops|by eapply SleepMonitor.refused_unjoined]. }
  unfold main. rewrite Ha, He, Hs. cbn [deliver_signals]. unfold serve.
  destruct (late_signals (w_late w)) as (f & Ef & Hfl). rewrite Ef, SleepMonitor.start_new.
  destruct (sampler_loop_signalled localtime its1 it its2 (loop_entry w f rules qh) Hu) as [l' El].
  { destruct Hb as [Hb|Hb]; [|by right; right]. unfold signalled in *.
    apply orb_true_iff in Hb as [Hb|Hb]; [left|right; left; by rewrite Hb].
    cbn [loop_entry lp_flags]. rewrite Hfl. apply handle_stops. left. clear -Hb.
    induction (w_late w) as [|[[]|] l IH]; cbn in *; try done; auto. }
  rewrite Ht, El. unfold shutdown. rewrite Hacc, andb_false_r.
  pose proof (SleepMonitor.steps_sound _ _ (SleepMonitor.thread_steps_main SleepMonitor.Serving _ _ Hm1)
    SleepMonitor.started_sound) as Hsd.
  destruct (SleepMonitor.monitor_rests _ (SleepMonitor.steps_sound _ _ Hm2 Hsd) Hmn)
    as [(m & -> & Hrun)|(m & -> & _)]; [|done].
  unfold SleepMonitor.destroy, SleepMonitor.stop_step. rewrite Hrun.
  destruct (stop_comes_to_rest localtime y0 y entered Hf Hsteps Hc Hl _ Hr Hn) as [->|(s' & -> & _)];
    by destruct (SleepMonitor.joinable m).
Qed.

(** A connection that opens. *)
Definition opens : Opening :=
  {| op_open := OpenOk; op_exec := fun _ => None; op_schema := None |}.

(** A monitor that was in its run loop, and stopped. *)
Definition monitor_up : SleepMonitor.SleepMonitor :=
  {| SleepMonitor.running := true; SleepMonitor.joinable := true; SleepMonitor.run_loop := true;
     SleepMonitor.thread := SleepMonitor.InLoop |}.

Definition monitor_joined : SleepMonitor.SleepMonitor :=
  {| SleepMonitor.running := false; SleepMonitor.joinable := false; SleepMonitor.run_loop := false;
     SleepMonitor.thread := SleepMonitor.Returned |}.

(** The examples: no jobs, a socket that cannot be opened. *)
Definition example_world (args : list string) (stopping : Stopping) : World :=
  {| w_version := "1.0"; w_args := args;
     w_paths := Ret {| data_dir := "/d"; config_dir := "/c"; log_dir := "/l" |}; 
     w_dbs := {| main_database := opens; api_opening := opens; scheduler_database := opens |};
     w_file := None;
     w_config := Ret empty_config; w_now := 1700038800; w_scan_now := 1700038800;
     w_load_fault := NoFault; w_last_fault := fun _ => NoFault; w_env := no_env;
     w_server := (Throw (RuntimeError "bind(): in use"), new_server); w_early := [];
     w_late := [SIGPIPE; Flagged SIGHUP]; w_baseline := example_readings;
     w_steady := 0; w_outputs := example_outputs;
     w_turns := [example_iteration [] 0 example_readings; example_iteration [SIGTERM] 200 example_readings];
     w_monitor := (SleepMonitor.Stopped, monitor_joined); w_accept_returns := true; w_stopping := stopping |}.

Definition idle : System := calm_start.

Lemma idle_stops :
  rtc (stop_step utc) (stop_begin false idle) (Stopped (with_running ∅ (with_active false calm))) /\
  nf (stop_step utc) (Stopped (with_running ∅ (with_active false calm))).
Proof.
  split.
  - eapply rtc_l; [by apply StopTake|]. eapply rtc_l; [apply StopDone|]. apply rtc_refl.
  - intros [c Hc]. inversion Hc.
Qed.

Lemma example_monitor_rests args stopping : monitor_rests monitor_up (example_world args stopping).
Proof.
  exists SleepMonitor.started. split_and!; [reflexivity| | |].
  - eapply rtc_l; [by apply SleepMonitor.Accepted|]. eapply rtc_l; [by apply SleepMonitor.Known|].
    eapply rtc_l; [by apply SleepMonitor.Enters|]. constructor.
  - cbn [w_monitor example_world].
    do 4 (eapply rtc_l; [by apply SleepMonitor.ByMain|]). constructor.
  - intros [c Hc]. inversion Hc as [? ? ? Hs|? ? ? Hs]; subst; [inversion Hs; discriminate|discriminate].
Qed.

Lemma exit_status_reports_witness :
  main utc (example_world ["-x"] StopCrashed) <> ExitStatus 0 /\
  main utc (example_world ["-x"] StopCrashed) <> ExitStatus 1.
Proof.
  destruct (exit_status_reports utc (example_world ["-x"] StopCrashed)
    ["ignoring unknown argument: -x"]) as (H1 & _ & H0); [exact I|reflexivity|reflexivity|].
  split.
  - intros H. apply H0 in H as (_ & _ & (s & [=]) & _).
  - intros H. apply H1 in H as (e & H). vm_compute in H. discriminate.
Defined.

Lemma stop_signal_shuts_down_witness :
  main utc (example_world [] (Stopped (with_running ∅ (with_active false calm)))) = ExitStatus 0.
Proof.
  destruct idle_stops as [Hr Hn].
  destruct (start_up utc (example_world [] (Stopped (with_running ∅ (with_active false calm)))))
    as [[code|s rules qh api serves]| | |] eqn:E; try (vm_compute in E; discriminate).
  refine (proj1 (stop_signal_shuts_down utc
    (example_world [] (Stopped (with_running ∅ (with_active false calm)))) [] s rules qh api serves
    [example_iteration [] 0 example_readings] (example_iteration [SIGTERM] 200 example_readings) []
    idle idle false monitor_up eq_refl eq_refl E eq_refl _ _ _ _ _ _ Hr Hn (example_monitor_rests _ _) eq_refl)).
  - repeat constructor.
  - right. discriminate.
  - exact calm_fresh.
  - constructor.
  - repeat constructor; discriminate.
  - constructor.
Defined.

(** Between the start of the socket server and the installation of the
    handlers, a client that goes away before its answer is written kills the
    daemon; afterwards the signal is ignored. *)
Theorem early_pipe_kills localtime {sq : Sqlite} w warnings :
  main_args (w_version w) (w_args w) = Starts warnings ->
  SIGPIPE ∈ w_early w -> main localtime w = Killed.
Proof.
  intros Ha Hin. unfold main. rewrite Ha. destruct (w_early w) as [|s l]; [|reflexivity].
  by apply elem_of_nil in Hin.
Qed.
