(* ===== verification/EndToEnd.v ===== *)
(** * From the client to the job

    The client, the socket server, the API, the scheduler and its loop
    composed: what becomes of a request to run a job, and of one to add one. *)

From stdpp Require Import base option list strings gmap.
From Stdlib Require Import Ascii ZArith Lia.
From S2P Require Import Prelude CppLib Double Cron SharedState Config Database Json.
From S2P Require Import ProcessRunner Scheduler Sections Locked SchedulerSteps Occurrences Restart Consistency.
From S2P Require Import Durability Api SocketServer Cli Daemon.

Open Scope string_scope.
Open Scope list_scope.

#[local] Opaque Cron.next_after Cron.prev_before.

(** A state of the system after a call of a client. *)
Definition called (s : Scheduler) (y : System) : System :=
  {| sched := s; phase := phase y; workers := workers y; caller := caller y |}.

(** The exchange on a connection that works: every byte is written, and what
    is written is read. *)
Record connected (x : Exchange) (rs : list io_read) (ws : list io_write)
    (o : Options) (resp : string) : Prop := {
  cn_path : String.length (socket_path o) < x_sun_path_size x;
  cn_socket : x_socket_ok x = true;
  cn_connect : x_connect_ok x = true;
  cn_request_written : snd (write_all (x_writes x) (request_of o +:+ NL) "") = Written;
  cn_request_read : delivers_text rs (request_of o +:+ NL);
  cn_response_written : snd (write_all ws (resp +:+ NL) "") = Written;
  cn_response_read : delivers_text (x_reads x) (resp +:+ NL)
}.

Section Run.
Context {J : JsonApi} {L : JsonLaws J} (localtime : Z -> tm) {sq : Sqlite}.

(** What the API makes of a request to run a job. *)
Lemma run_answered connected started now f line n a2 s :
  parse_request line = Ret {| cmd := "run"; arg := n; arg2 := a2 |} ->
  str_empty n = false -> utf8 n = true ->
  exists resp j, daemon_handler localtime connected started now f line s = Ret (resp, snd (request_run n s)) /\
    one_line resp = true /\ json_dump j = Ret resp /\
    member "ok" j = Some (JBool (fst (request_run n s))).
Proof.
  intros Hp He Hu. unfold daemon_handler, handle, respond. rewrite Hp. cbn [mbind outcome_mbind cmd].
  cbn [String.eqb Ascii.eqb Bool.eqb]. unfold handle_run. cbn [run_handler scheduler_handlers arg].
  rewrite He. destruct (request_run n s) as [queued s']. cbn [fst snd].
  set (j := if queued then _ else _).
  assert (Hok : strings_ok j = true).
  { unfold j. destruct queued; apply strings_ok_obj; unfold entry_ok; cbn [forallb fst snd strings_ok];
      rewrite Hu; reflexivity. }
  destruct (dump_ok j Hok) as (resp & E & Hl). exists resp, j.
  unfold j in *. destruct queued; cbn [fst snd mbind outcome_mbind];
    rewrite E; cbn [mbind outcome_mbind]; by rewrite member_obj.
Qed.
(** What it makes of a request to add one. *)
Lemma add_answered connected started now line r body job s :
  parse_request line = Ret r -> cmd r = "add_job" ->
  json_parse line = Some body -> job_of_body body = Ret (inl job) ->
  find_job (job_name job) s = None ->
  exists resp j,
    daemon_handler localtime connected started now NoFault line s =
      Ret (resp, snd (add_job localtime NoFault now job s)) /\
    one_line resp = true /\ json_dump j = Ret resp /\ member "ok" j = Some (JBool true).
Proof.
  intros Hp Hc Hb Hj Hf. unfold daemon_handler, handle, respond. rewrite Hp. cbn [mbind outcome_mbind].
  rewrite Hc. cbn [String.eqb Ascii.eqb Bool.eqb]. unfold handle_add_job.
  cbn [add_job_handler scheduler_handlers]. rewrite Hb.
  destruct (job_of_body_spec _ _ Hj) as (Hn & Hcmd & _).
  destruct (job_of_body_name _ _ Hj) as [Ho Hname]. rewrite Ho, Hj. cbn [negb mbind outcome_mbind].
  pose proof (add_job_accepted localtime now job s Hn Hcmd Hf) as Hm.
  destruct (add_job localtime NoFault now job s) as [err s']. cbn [fst snd] in *. rewrite Hm. cbn [str_empty].
  set (j := obj _). assert (Hok : strings_ok j = true).
  { unfold j. apply strings_ok_obj. unfold entry_ok. cbn [forallb fst snd strings_ok].
    rewrite Hname, (str_field_utf8 _ _ (parse_utf8 _ _ Hb)). reflexivity. }
  destruct (dump_ok j Hok) as (resp & E & Hl). exists resp, j. cbn [mbind outcome_mbind fst snd].
  rewrite E. cbn [mbind outcome_mbind]. unfold j. by rewrite member_obj.
Qed.

(** A one-shot exchange with a daemon that answers. *)
Lemma client_served connected started now f home argv o resp s s' :
  parse_args argv (default_options home) = Ret (Proceed o) -> watch o = false ->
  one_line (command o) = true -> String.length (command o) < kMaxRequestBytes ->
  daemon_handler localtime connected started now f (command o) s = Ret (resp, s') ->
  one_line resp = true ->
  forall x rs ws, EndToEnd.connected x rs ws o resp ->
    serve_connection (daemon_handler localtime connected started now f) rs ws s =
      Ret (resp +:+ NL, true, s') /\
    exists text, cli_main home argv [x] = ([Out (text +:+ NL)], Exit 0).
Proof.
  intros Ha Hw Hl Hlen Hh Hr x rs ws [C1 C2 C3 C4 C5 C6 C7]. unfold request_of in *. rewrite Hw in *. split.
  - by apply (serve_connection_answers _ _ _ (command o)).
  - unfold cli_main. rewrite Ha, Hw. unfold perform, request_of. rewrite Hw, C2, C3.
    rewrite (send_request_answers _ _ _ _ _ _ resp) by done. cbn [tried].
    destruct (print_response_prints resp) as (text & -> & _). by exists text.
Qed.
End Run.

(** ** A job added from the command line *)

(** The sections of an addition, each in a state that calls only that. *)
Lemma add_job_through localtime {sq : Sqlite} now j y :
  caller y = Idle -> restorable (with_source "ui" j) ->
  str_empty (job_name j) = false -> str_empty (job_command j) = false ->
  find_job (job_name j) (sched y) = None ->
  steps_through localtime (kept (job_name j)) y (called (snd (add_job localtime NoFault now j (sched y))) y).
Proof.
  intros Hk Hr Hn Hc Hf. destruct y as [s ph ws c]. cbn [caller sched] in *. subst c.
  unfold add_job, upsert_job_def, run_update. rewrite Hn, Hc, Hf.
  rewrite bool_decide_false by (by intros [? [=]]). cbn [snd].
  set (stored := with_source "ui" j). set (db := {| metrics_tbl := _ |}).
  set (at_ c s := {| sched := s; phase := ph; workers := ws; caller := c |}).
  assert (Hgo : forall c s c' s' z, kept (job_name j) (at_ c s) -> caller_step localtime (c, s) (c', s') ->
    steps_through localtime (kept (job_name j)) (at_ c' s') z ->
    steps_through localtime (kept (job_name j)) (at_ c s) z).
  { intros c1 s1 c2 s2 z Hkp Hs Hz. eapply through_next; [exact Hkp|by apply (ByCaller localtime (at_ c1 s1) c2 s2)|exact Hz]. }
  eapply (Hgo Idle s (Adding stored) s); [done|by apply CallAdd|].
  eapply (Hgo _ _ (Added stored) (with_db db s)); [by split|by apply (CallUpsert localtime NoFault)|].
  eapply Hgo; [by split|apply (CallPush localtime now)|].
  match goal with |- steps_through _ _ (at_ Publishing ?s1) _ =>
    eapply through_next; [by split|exact (ByCopy localtime (at_ Publishing s1) _ _ eq_refl (copies_now s1 ws))|]
  end.
  eapply Hgo; [by split|apply CallStore|]. apply through_refl.
Qed.

Lemma add_job_finds localtime {sq : Sqlite} now j s :
  str_empty (job_name j) = false -> str_empty (job_command j) = false -> find_job (job_name j) s = None ->
  find_job (job_name j) (snd (add_job localtime NoFault now j s)) = Some (with_source "ui" j).
Proof.
  intros Hn Hc Hf. pose proof (add_job_outcomes localtime NoFault now j s) as Ho.
  pose proof (add_job_accepted localtime now j s Hn Hc Hf) as Hm.
  destruct (add_job localtime NoFault now j s) as [msg s']. cbn [fst snd] in *.
  destruct Ho as [(_ & _ & _ & _ & _ & Ej & _)|[? _]]; [|done].
  unfold find_job in *. rewrite Ej, find_in_app, Hf. unfold find_in. simpl. by rewrite String.eqb_refl.
Qed.

(** ** Properties *)

(** C5: a job run from the command line.  A one-shot client whose command is
    one short line asking to run a job of the configuration under its
    (non-empty, UTF-8) name, connected to a daemon that is in any state it can
    reach and serves nobody else: the daemon answers and queues the request in
    one call, the client prints the answer and exits with 0, and over any
    execution that follows, under every interleaving, a turn has chosen the job
    to launch as asked for by hand, or the request is still queued and the job
    was running as each turn so far began to choose; a name the daemon does not
    know is answered too, and changes nothing. *)
Theorem client_run_starts_job {J : JsonApi} {L : JsonLaws J} localtime {sq : Sqlite}
    db_connected started now f home argv o n a2 y0 y :
  parse_args argv (default_options home) = Ret (Proceed o) -> watch o = false ->
  one_line (command o) = true -> String.length (command o) < kMaxRequestBytes ->
  parse_request (command o) = Ret {| cmd := "run"; arg := n; arg2 := a2 |} ->
  str_empty n = false -> utf8 n = true ->
  fresh y0 -> steps localtime (Running y0) (Running y) -> caller y = Idle ->
  exists resp s', let y' := called s' y in
  (forall x rs ws, connected x rs ws o resp ->
     serve_connection (daemon_handler localtime db_connected started now f) rs ws (sched y) =
       Ret (resp +:+ NL, true, s') /\
     exists text, cli_main home argv [x] = ([Out (text +:+ NL)], Exit 0)) /\
  steps localtime (Running y) (Running y') /\
  (n ∉ names_of (sc_jobs (sched y)) -> y' = y) /\
  (forall j cs y'', j ∈ sc_jobs (sched y) -> job_name j = n -> job_source j = "config" ->
     traced localtime y' cs y'' ->
     (exists c, c ∈ cs /\ (j, "manual") ∈ chosen c) \/
     ((n, "manual") ∈ sc_queue (sched y'') /\
      Forall (fun c => is_running (before_pick c) n = true) cs)).
Proof.
  intros Ha Hw Hl Hlen Hp He Hu Hf Hs Hk. pose proof (steps_inv localtime _ _ (fresh_inv _ Hf) Hs) as Hi.
  destruct (run_answered localtime db_connected started now f (command o) n a2 (sched y) Hp He Hu)
    as (resp & jr & Hh & Hr & _ & _).
  exists resp, (snd (request_run n (sched y))). cbn zeta.
  assert (Hst : steps localtime (Running y) (Running (called (snd (request_run n (sched y))) y))).
  { unfold called. rewrite Hk. apply (call_steps localtime y _ Idle _ eq_refl). rewrite Hk.
    apply request_run_sections. }
  split_and!.
  - by apply client_served.
  - exact Hst.
  - intros Hn%find_in_None. unfold request_run, find_job. rewrite Hn. by destruct y.
  - intros j cs y'' Hj <- Hc Ht.
    assert (Hq : request_run (job_name j) (sched y) = (true, enqueue (job_name j) "manual" (sched y))).
    { unfold request_run, find_job. by rewrite (find_in_unique _ _ (inv_names _ Hi) Hj). }
    rewrite Hq in Ht, Hst. cbn [snd] in Ht, Hst.
    apply (queued_until_launched localtime j "manual" _ cs y'' (steps_inv localtime _ _ Hi Hst)); [|
      |exact Ht].
    + split; [exact Hj|by rewrite Hc].
    + apply elem_of_app. right. left.
Qed.

Definition idle_daemon : System :=
  {| sched := with_jobs [hourly_config] calm; phase := PReap; workers := []; caller := Idle |}.

Lemma client_run_starts_job_witness :
  exists resp s', steps utc (Running idle_daemon) (Running (called s' idle_daemon)) /\
    (forall x rs ws, connected x rs ws {| socket_path := "/tmp/a.sock"; command := "run hourly";
                                          watch := false; watch_seconds := 2 |} resp ->
       exists text, cli_main (J := model_json example_table) None
         ["--socket"; "/tmp/a.sock"; "run hourly"] [x] = ([Out (text +:+ NL)], Exit 0)) /\
    forall cs y'', traced utc (called s' idle_daemon) cs y'' ->
      (exists c, c ∈ cs /\ (hourly_config, "manual") ∈ chosen c) \/
      (("hourly", "manual") ∈ sc_queue (sched y'') /\
       Forall (fun c => is_running (before_pick c) "hourly" = true) cs).
Proof.
  destruct (client_run_starts_job (J := model_json example_table) utc true 1700000000 1700035300 NoFault
    None ["--socket"; "/tmp/a.sock"; "run hourly"]
    {| socket_path := "/tmp/a.sock"; command := "run hourly"; watch := false; watch_seconds := 2 |}
    "hourly" "" idle_daemon idle_daemon) as (resp & s' & Hx & Hs & _ & Hj);
    [reflexivity|reflexivity|reflexivity| |reflexivity|reflexivity|reflexivity| |constructor|reflexivity|].
  - apply Nat.ltb_lt. vm_compute. reflexivity.
  - by apply configured_fresh.
  - exists resp, s'. split; [exact Hs|]. split.
    + intros x rs ws C. destruct (Hx x rs ws C) as [_ H]. exact H.
    + intros cs y'' Ht. apply (Hj hourly_config cs y''); [left|reflexivity|reflexivity|exact Ht].
Defined.

(** C6: a job added from the command line is there for good.  A one-shot
    client whose command is an add_job request, of one short line, describing
    a job under a free name with texts without NUL, connected to a daemon that
    is in any state it can reach and serves nobody else, and whose insertion
    of the definition SQLite carries out: the daemon answers with success and
    has the job, as the body describes it, and the client prints the answer and
    exits with 0.  From then on, until a client removes it, the daemon may be
    killed at any moment and any number of times: each time it starts again,
    SQLite answering the queries of its constructor, it has that job, field by
    field, unless config.yaml takes its name.  (The other calls of clients,
    before and after, are of the same kind: the jobs they add are determined
    by their stored form, and the names they remove hold no NUL.  What JSON
    can write as \u0000 is not, see [nul_name_diverges].) *)
Theorem client_added_job_stays {J : JsonApi} {L : JsonLaws J} localtime {sq : Sqlite} {SL : SqliteLaws sq}
    db_connected started now home argv o r body job y0 y :
  parse_args argv (default_options home) = Ret (Proceed o) -> watch o = false ->
  one_line (command o) = true -> String.length (command o) < kMaxRequestBytes ->
  parse_request (command o) = Ret r -> cmd r = "add_job" ->
  json_parse (command o) = Some body -> job_of_body body = Ret (inl job) ->
  c_str (job_name job) = job_name job -> c_str (job_command job) = job_command job ->
  c_str (job_schedule_expr job) = job_schedule_expr job ->
  fresh y0 -> synced (sched y0) -> steps_through localtime well_called y0 y -> caller y = Idle ->
  find_job (job_name job) (sched y) = None ->
  let added := with_source "ui" job in
  exists resp s',
  (forall x rs ws, connected x rs ws o resp ->
     serve_connection (daemon_handler localtime db_connected started now NoFault) rs ws (sched y) =
       Ret (resp +:+ NL, true, s') /\
     exists text, cli_main home argv [x] = ([Out (text +:+ NL)], Exit 0)) /\
  (exists j, json_dump j = Ret resp /\ member "ok" j = Some (JBool true)) /\
  find_job (job_name job) s' = Some added /\
  steps_through localtime (kept (job_name job)) y (called s' y) /\
  forall y1 db cfg now' scan_now st,
    steps_through localtime (kept (job_name job)) (called s' y) y1 ->
    lived localtime (kept (job_name job)) (fun _ => True) (sc_db (sched y1)) db ->
    config_jobs cfg -> find_in (job_name job) cfg = None ->
    exists s2, make_scheduler localtime cfg (Some db) now' NoFault (fun _ => NoFault) st = Ret s2 /\
      fresh (starting now' scan_now s2) /\ find_job (job_name job) s2 = Some added.
Proof.
  intros Ha Hw Hl Hlen Hp Hc Hb Hj N1 N2 N3 Hf Hs Ht Hk Hn added.
  destruct (job_of_body_spec _ _ Hj) as (E1 & E2 & _ & _ & Hsch).
  assert (Hr : restorable added) by (by split).
  destruct (add_answered localtime db_connected started now (command o) r body job (sched y) Hp Hc Hb Hj Hn)
    as (resp & j & Hh & Hone & Hd & Hok).
  pose proof (add_job_through localtime now job y Hk Hr E1 E2 Hn) as Hadd.
  pose proof (add_job_finds localtime now job (sched y) E1 E2 Hn) as Hfind.
  exists resp, (snd (add_job localtime NoFault now job (sched y))).
  split_and!; [by apply client_served|by exists j|exact Hfind|exact Hadd|].
  set (y' := called _ y) in *. intros y1 db cfg now' scan_now st Ht1 Hlv Hcfg Hfree.
  destruct (through_synced localtime y0 y' Hf Hs (steps_through_trans localtime _ _ _ _ Ht
    (steps_through_weaken localtime _ _ _ _ (kept_called _) Hadd))) as (Hi & Hsy & _).
  destruct (through_synced localtime y0 y1 Hf Hs (steps_through_trans localtime _ _ _ _ Ht
    (steps_through_weaken localtime _ _ _ _ (kept_called _)
       (steps_through_trans localtime _ _ _ _ Hadd Ht1)))) as (_ & Hsy1 & _).
  apply (stored_outlives localtime (fun _ => True) added (sc_db (sched y1)) db cfg now' scan_now st);
    [by apply settled_sound| |exact Hlv|exact Hcfg|exact Hfree].
  apply stored_job_def; [exact Hr|].
  apply (through_keeps_def localtime (job_name job) _ y' y1 Hi Hsy Ht1).
  assert (Hst : settled y' = sched y') by (unfold settled, y', called; cbn [caller]; by rewrite Hk).
  rewrite Hst in Hsy. apply find_in_Some in Hfind as [Hin _].
  by destruct (sync_jobs _ Hsy added Hin eq_refl).
Qed.

Definition add_argv : list string := ["--socket"; "/tmp/a.sock"; add_line].

Definition add_options : Options :=
  {| socket_path := "/tmp/a.sock"; command := add_line; watch := false; watch_seconds := 2 |}.

(** The job of the example request. *)
Definition job_n : Job :=
  {| job_name := "n"; job_command := "c"; job_schedule := None; job_schedule_expr := "";
     job_missed_run_policy := NoPolicy; job_timeout_seconds := 0; job_retries := -1;
     job_source := "config" |}.

Definition add_body : json :=
  obj [("cmd", JString "add_job"); ("name", JString "n"); ("command", JString "c");
       ("retries", JInt (-1))].

Lemma client_added_job_stays_witness :
  exists s' s2, steps_through utc (kept "n") unsaved_start (called s' unsaved_start) /\
    make_scheduler utc [] (Some (sc_db s')) 1700038800 NoFault (fun _ => NoFault) initial_state = Ret s2 /\
    find_job "n" s2 = Some (with_source "ui" job_n).
Proof.
  destruct (client_added_job_stays (J := model_json add_table) utc true 1700000000 1700035300
    None add_argv add_options {| cmd := "add_job"; arg := ""; arg2 := "" |} add_body job_n
    unsaved_start unsaved_start) as (resp & s' & _ & _ & _ & Ht & Hk);
    [reflexivity|reflexivity|reflexivity| |vm_compute; reflexivity|reflexivity|vm_compute; reflexivity
    |vm_compute; reflexivity|reflexivity|reflexivity|reflexivity|exact unsaved_fresh|exact unsaved_synced
    |apply through_refl|reflexivity|reflexivity|].
  - apply Nat.ltb_lt. vm_compute. reflexivity.
  - destruct (Hk (called s' unsaved_start) (sc_db s') [] 1700038800%Z 1700038800%Z initial_state)
      as (s2 & E & _ & Hf); [apply through_refl|apply lived_none|split; constructor|reflexivity|].
    exists s', s2. split; [exact Ht|]. split; [exact E|exact Hf].
Defined.
