(* ===== verification/TestCases.v ===== *)
(** * The unit tests on the model (tests/test_main.cpp)

    The inputs and the expected values of the repository's test program,
    evaluated on the definitions of the development, with UTC as the local
    time zone and [model_sqlite] as the database.  The tests of the samplers,
    which read the machine, and of the socket pair have no place here. *)

From stdpp Require Import base option list strings gmap.
From Stdlib Require Import Ascii ZArith Lia.
From S2P Require Import Prelude CppLib Double Cron SharedState Thermal Config AlertEngine.
From S2P Require Import Database ProcessRunner Scheduler Runs Json Api.

Open Scope string_scope.
Open Scope list_scope.

(** ** test_cron *)

Example test_cron_malformed : Cron.parse "nonsense" = Ret None /\ Cron.parse "0 8 * *" = Ret None.
Proof. split; vm_compute; reflexivity. Qed.

(** 15 June 2026, 08:00 UTC, is itself an occurrence; the next is a day later. *)
Example test_cron_daily :
  Cron.next_after utc (sched_of "0 8 * * *") 1781510400 = Some 1781596800%Z.
Proof. vm_compute. reflexivity. Qed.

Example test_cron_quarter :
  option_map (fun t => tm_min (utc t)) (Cron.next_after utc (sched_of "*/15 * * * *") 1700000000)
    = Some 15%Z /\
  option_map (fun t => (tm_min (utc t), t <=? 1700000000)%Z)
    (Cron.prev_before utc (sched_of "*/15 * * * *") 1700000000) = Some (0%Z, true).
Proof. split; vm_compute; reflexivity. Qed.

(** ** test_missed_run_detection: 15 June 2026 at noon *)

Definition noon : Z := 1781524800.
Definition ran_today : Z := noon - 3 * 3600 - 55 * 60.

Example test_missed_run :
  (detect_missed_run utc (sched_of "0 8 * * *") 0 noon,
   detect_missed_run utc (sched_of "0 8 * * *") ran_today noon,
   detect_missed_run utc (sched_of "0 8 * * *") (ran_today - 24 * 3600) noon) =
  (Some 1781510400%Z, None, Some 1781510400%Z).
Proof. vm_compute. reflexivity. Qed.

(** ** test_thermal_sampler *)

Example test_thermal :
  (thermal_state_from_string "serious", thermal_state_from_string "bogus") = (Serious, Nominal).
Proof. reflexivity. Qed.

(** ** test_config *)

Definition email_scan : ydoc :=
  YMap [("jobs", YSeq [YMap [("name", YStr "email-scan"); ("command", YStr "echo scan");
    ("schedule", YStr "0 8 * * *"); ("missed_run_policy", YStr "run_on_wake");
    ("timeout_seconds", YInt 300); ("retries", YInt 2)]])].

Example test_config_job :
  map (fun j => (job_name j, job_command j, job_missed_run_policy j, job_timeout_seconds j,
                 job_retries j)) (cfg_jobs (config_of email_scan)) =
    [("email-scan", "echo scan", RunOnWake, 300%Z, 2%Z)] /\
  map (fun j => bool_decide (is_Some (job_schedule j))) (cfg_jobs (config_of email_scan)) = [true].
Proof. split; vm_compute; reflexivity. Qed.

Example test_config_broken :
  (exists e, load_config true (Ret (YMap [("jobs", YSeq [YMap [("name", YStr "broken")]])]))
     = Throw e) /\
  load_config false (Ret (YMap [])) = Ret empty_config.
Proof. split; [eexists; vm_compute; reflexivity|reflexivity]. Qed.

(** ** test_alert_engine *)

Definition make_rule (metric : string) (cond : Condition) (threshold duration cooldown : Z)
    (severity : string) : Rule :=
  {| rule_name := metric +:+ "-rule"; rule_metric := metric; rule_condition := cond;
     rule_threshold := dbl_of_Z threshold; rule_duration_seconds := duration;
     rule_cooldown_seconds := cooldown; rule_severity := severity |}.

(** The kinds of the events of each evaluation, in turn. *)
Fixpoint kinds_of (eng : AlertEngine) (ticks : list Tick) : list (list string) :=
  match ticks with
  | [] => []
  | k :: ticks' =>
      let '(eng', evs) := evaluate utc (tick_metrics k) (tick_now k) (tick_attribution k) eng in
      map ev_kind evs :: kinds_of eng' ticks'
  end.

Definition cpu_over_90 (duration cooldown : Z) : AlertEngine :=
  new_engine [make_rule "system.cpu.percent" GreaterThan 90 duration cooldown "warning"]
    no_quiet_hours.

Example test_alert_duration :
  kinds_of (cpu_over_90 60 300)
    [cpu_tick 1000 95; cpu_tick 1030 95; cpu_tick 1060 95; cpu_tick 1090 10] =
  [[]; []; ["firing"]; ["recovered"]].
Proof. vm_compute. reflexivity. Qed.

Example test_alert_cooldown :
  kinds_of (cpu_over_90 0 300)
    [cpu_tick 1000 95; cpu_tick 1010 10; cpu_tick 1100 95; cpu_tick 1400 95] =
  [["firing"]; ["recovered"]; []; ["firing"]].
Proof. vm_compute. reflexivity. Qed.

(** 8.4 is [0x1.0cccccccccccdp+3]. *)
Example test_alert_low_disk :
  map ev_kind (snd (evaluate utc
    {["system.disk.available_gb" := SpecFloat.S754_finite false 4728779608739021 (-49)]} 500 ""
    (new_engine [make_rule "system.disk.available_gb" LessThan 10 0 0 "warning"]
       no_quiet_hours))) = ["firing"].
Proof. vm_compute. reflexivity. Qed.

Example test_alert_attribution :
  map ev_attribution (snd (evaluate utc {["system.cpu.percent" := dbl_of_Z 99]} 100
    "Chrome - 184% CPU" (cpu_over_90 0 0))) = ["Chrome - 184% CPU"].
Proof. vm_compute. reflexivity. Qed.

Example test_alert_quiet_hours :
  map (fun e => (ev_severity e, ev_notify e)) (snd (evaluate utc
    (<["system.cpu.percent" := dbl_of_Z 95]> {["system.memory.percent" := dbl_of_Z 95]}) 100 ""
    (new_engine [make_rule "system.cpu.percent" GreaterThan 90 0 0 "warning";
                 make_rule "system.memory.percent" GreaterThan 90 0 0 "critical"]
       {| qh_enabled := true; start_hour := 0; end_hour := 24 |}))) =
  [("warning", false); ("critical", true)].
Proof. vm_compute. reflexivity. Qed.

(** ** test_database *)

Definition two_samples : outcome Tables :=
  db ← insert_metric NoFault 1000 "system.cpu.percent" (dbl_of_Z 42) empty_tables;
  insert_metric NoFault 2000 "system.cpu.percent" (dbl_of_Z 55) db.

Example test_database_latest :
  latest_metric NoFault "system.cpu.percent" (migrate None) = Ret None /\
  (db ← two_samples; latest_metric NoFault "system.cpu.percent" db) =
    Ret (Some (2000%Z, dbl_of_Z 55)).
Proof. split; vm_compute; reflexivity. Qed.

(** ** test_process_runner *)

Example test_process_runner_exits :
  option_map (fun r => (res_status (fst r), res_exit_code (fst r), res_stdout (fst r)))
    (run_command (example_os [PollReady (Some (Data "hello")) None; PollReady (Some Eof) (Some Eof)]
       (WaitStatus (exit_status 0))) "echo hello" 0) = Some (Success, 0%Z, "hello") /\
  option_map (fun r => (res_status (fst r), res_exit_code (fst r)))
    (run_command (example_os [PollReady (Some Eof) (Some Eof)] (WaitStatus (exit_status 3)))
       "exit 3" 0) = Some (Failed, 3%Z) /\
  option_map (fun r => res_stderr (fst r))
    (run_command (example_os [PollReady None (Some (Data "oops")); PollReady (Some Eof) (Some Eof)]
       (WaitStatus (exit_status 0))) "echo oops 1>&2" 0) = Some "oops" /\
  option_map (fun r => res_status (fst r))
    (run_command (example_os [PollTimeout; PollReady (Some Eof) (Some Eof)]
       (WaitStatus (signal_status 9 false))) "sleep 5" 1) = Some Timeout.
Proof. split_and!; vm_compute; reflexivity. Qed.

(** ** The scheduler's tests *)

Definition plain_job (name command : string) (retries : Z) : Job :=
  {| job_name := name; job_command := command; job_schedule := None; job_schedule_expr := "";
     job_missed_run_policy := NoPolicy; job_timeout_seconds := 0; job_retries := retries;
     job_source := "config" |}.

Definition fresh (jobs : list Job) (file : option Tables) : outcome Scheduler :=
  make_scheduler utc jobs file noon NoFault (fun _ => NoFault) initial_state.

(** A turn of the loop for the requests, then the events of the worker it
    starts for [job]. *)
Definition run_requested (job : Job) (run : nat -> RunResult) (s : Scheduler)
    : outcome (list (Job * string) * Scheduler) :=
  let '(s, launches) := pick utc noon s in
  s ← for_each launch launches s;
  evs ← worker job run None;
  Ret (launches, apply_all (job_name job) "manual"
    (map (fun e => {| ef_event := e; ef_fault := NoFault; ef_ts := noon |}) evs) s).

(** test_scheduler_manual_run. *)
Definition hello_job : Job := plain_job "hello" "echo scheduler-ran" 0.

Example test_manual_run :
  (s ← fresh [hello_job] None;
   let '(known, s) := request_run "hello" s in
   let '(unknown, s) := request_run "nope" s in
   r ← run_requested hello_job (failing 0) s;
   last ← last_run NoFault "hello" (sc_db (snd r));
   Ret (known, unknown, map snd (fst r),
        option_map (fun r => (run_status r, run_trigger r)) last)) =
  Ret (true, false, ["manual"], Some ("success", "manual")).
Proof. vm_compute. reflexivity. Qed.

(** test_scheduler_retries_and_missed: two retries, three recorded runs. *)
Definition flaky : Job := plain_job "flaky" "exit 1" 2.

Example test_retries :
  (s ← fresh [flaky] None;
   let '(_, s) := request_run "flaky" s in
   r ← run_requested flaky (failing 9) s;
   last ← last_run NoFault "flaky" (sc_db (snd r));
   n ← count_runs NoFault "flaky" (sc_db (snd r));
   Ret (option_map run_status last, n, is_running (snd r) "flaky")) =
  Ret (Some "failed", 3%Z, false).
Proof. vm_compute. reflexivity. Qed.

(** test_dynamic_jobs. *)
Definition accepted (r : string * Scheduler) : bool := str_empty (fst r).

Example test_dynamic :
  (s ← fresh [] None;
   let job := plain_job "ui-job" "echo hi" 0 in
   let added := add_job utc NoFault noon job s in
   let again := add_job utc NoFault noon job (snd added) in
   let missing := remove_job NoFault "missing" (snd again) in
   let removed := remove_job NoFault "ui-job" (snd missing) in
   Ret (accepted added, accepted again, accepted missing, accepted removed)) =
  Ret (true, false, false, true).
Proof. vm_compute. reflexivity. Qed.

(** A job added by one scheduler is there for the next one on the file. *)
Example test_persisted :
  (s ← fresh [] None;
   let added := add_job utc NoFault noon (plain_job "persisted" "echo hi" 0) s in
   s' ← fresh [] (Some (sc_db (snd added)));
   Ret (accepted (remove_job NoFault "persisted" s'))) = Ret true.
Proof. vm_compute. reflexivity. Qed.

(** ** test_api and test_history_and_runs *)

(** A JSON parser for the object forms the tests use. *)
Definition status_request : string := "{'cmd':'status'}".
Definition history_request : string := "{'cmd':'history','metric':'testm','seconds':3600}".

Definition test_table (s : string) : option json :=
  if String.eqb s status_request then Some (obj [("cmd", JString "status")])
  else if String.eqb s history_request then
    Some (obj [("cmd", JString "history"); ("metric", JString "testm"); ("seconds", JUInt 3600)])
  else None.

Definition history_db : outcome Tables :=
  db ← insert_metric NoFault (noon - 10) "testm" (dbl_of_Z 5) empty_tables;
  db ← insert_metric NoFault (noon - 5) "testm" (dbl_of_Z 7) db;
  r ← insert_run NoFault (example_run "jx" (noon - 10)) db;
  r ← insert_run NoFault (example_run "jx" (noon - 9)) (fst r);
  Ret (fst r).

(** The response to a line, with or without a database. *)
Definition ask (db : option Tables) (line : string) : outcome json :=
  s ← fresh [] None;
  r ← respond (J := model_json test_table) (scheduler_handlers utc noon NoFault)
        (fun _ => set_cpu (dbl_of_Z 33) 12345 initial_state) (fun _ => db) 999 noon NoFault line s;
  Ret (fst r).

Definition ok_of (j : json) : option json := member "ok" j.
Definition size_of (k : string) (j : json) : option nat :=
  match member k j with Some (JArray l) => Some (length l) | _ => None end.

Example test_api_commands :
  (j ← ask None "ping"; Ret (ok_of j, member "reply" j)) =
    Ret (Some (JBool true), Some (JString "pong")) /\
  (j ← ask None "status";
   Ret (ok_of j, member "cpu" j ≫= member "valid", member "cpu" j ≫= member "percent",
        member "daemon" j ≫= member "started_at")) =
    Ret (Some (JBool true), Some (JBool true), Some (JFloat (dbl_of_Z 33)), Some (JInt 999)) /\
  (j ← ask None status_request; Ret (ok_of j)) = Ret (Some (JBool true)) /\
  (j ← ask None "bogus"; Ret (ok_of j)) = Ret (Some (JBool false)).
Proof. split_and!; vm_compute; reflexivity. Qed.

Example test_history_and_runs :
  (db ← history_db; h ← ask (Some db) history_request; r ← ask (Some db) "runs jx 10";
   Ret (ok_of h, size_of "points" h, ok_of r, size_of "runs" r)) =
    Ret (Some (JBool true), Some 2, Some (JBool true), Some 2) /\
  (e ← ask None "history testm"; Ret (ok_of e)) = Ret (Some (JBool false)).
Proof. split; vm_compute; reflexivity. Qed.
